(** * Home Credit default-risk pipeline: a shallow embedding and its properties

    The development follows the Python sources

      - [src/src/preprocess.py]            feature engineering, ledger aggregation,
                                           schema reconciliation
      - [src/DataHandling/src/train.py]    cross-validation and final refit
      - [src/DataHandling/src/evaluate.py] threshold selection
      - [src/DataHandling/src/utils.py]    [Config]

    Modelling conventions.

    - A float64 is an exact rational extended with [NaN], [+inf] and [-inf];
      rounding and the sign of zero are not represented.  Integer columns are
      numeric columns whose cells happen to be integral.
    - A pandas [Series] is either a numeric column or an object column whose
      cells are numbers or strings; a [DataFrame] is a row index together with
      an ordered list of named columns.
    - Python exceptions are values of [exn]; fallible code lives in the
      [result] monad.  Frames that a function receives from its caller live in
      a store and are addressed by reference, so that in-place assignment to a
      caller's frame is visible to the caller; freshly built frames (the
      result of [copy], [drop], [merge], ...) are plain values.
    - LightGBM and scikit-learn are libraries outside the repository: the
      booster is an oracle, [roc_curve] is an executable model of the
      scikit-learn algorithm with its default arguments. *)

From Stdlib Require Import ZArith QArith Qround String Ascii List Bool Lia Lqa.
From stdpp Require Import base option list sorting gmap strings.

Local Open Scope string_scope.
Local Open Scope list_scope.
Local Open Scope Z_scope.

(** ** Exceptions and the [result] monad *)

Inductive exn :=
| KeyError (key : string)
| TypeError
| ValueError
| OverflowError
| MergeError.

Inductive result (A : Type) :=
| Ok (a : A)
| Raise (e : exn).
Arguments Ok {A} a.
Arguments Raise {A} e.

#[global] Instance result_ret : MRet result := fun A a => Ok a.
#[global] Instance result_bind : MBind result := fun A B f r =>
  match r with
  | Ok a => f a
  | Raise e => Raise e
  end.

(** Run [f] over a list, stopping at the first exception. *)
Fixpoint mapR {A B} (f : A → result B) (l : list A) : result (list B) :=
  match l with
  | [] => Ok []
  | a :: l' => b ← f a; bs ← mapR f l'; Ok (b :: bs)
  end.

(** A [for] loop threading an accumulator, stopping at the first exception. *)
Fixpoint foldR {A S} (f : S → A → result S) (s : S) (l : list A) : result S :=
  match l with
  | [] => Ok s
  | a :: l' => s' ← f s a; foldR f s' l'
  end.

(** ** float64 *)

Inductive f64 :=
| NaN
| PInf
| NInf
| Fin (q : Q).

Definition Qpos_b (q : Q) : bool := (0 <? Qnum q)%Z.
Definition Qneg_b (q : Q) : bool := (Qnum q <? 0)%Z.
Definition Qzero_b (q : Q) : bool := (Qnum q =? 0)%Z.

Definition f64_of_Z (z : Z) : f64 := Fin (inject_Z z).
Definition f64_of_nat (n : nat) : f64 := Fin (inject_Z (Z.of_nat n)).

Definition isnan (x : f64) : bool := if x is NaN then true else false.
Definition notnan (x : f64) : bool := negb (isnan x).
Definition isinf (x : f64) : bool :=
  match x with PInf | NInf => true | _ => false end.
Definition isfinite (x : f64) : bool := if x is Fin _ then true else false.

Definition f64_neg (x : f64) : f64 :=
  match x with
  | NaN => NaN
  | PInf => NInf
  | NInf => PInf
  | Fin q => Fin (Qred (- q))
  end.

Definition f64_add (x y : f64) : f64 :=
  match x, y with
  | NaN, _ | _, NaN => NaN
  | PInf, NInf | NInf, PInf => NaN
  | PInf, _ | _, PInf => PInf
  | NInf, _ | _, NInf => NInf
  | Fin a, Fin b => Fin (Qred (a + b))
  end.

Definition f64_sub (x y : f64) : f64 := f64_add x (f64_neg y).

(** The infinity of the sign of [q] times the sign [pos]; [NaN] for [q = 0]. *)
Definition signed_inf (pos : bool) (q : Q) : f64 :=
  if Qzero_b q then NaN
  else if Bool.eqb pos (Qpos_b q) then PInf else NInf.

Definition f64_mul (x y : f64) : f64 :=
  match x, y with
  | NaN, _ | _, NaN => NaN
  | PInf, PInf | NInf, NInf => PInf
  | PInf, NInf | NInf, PInf => NInf
  | PInf, Fin q | Fin q, PInf => signed_inf true q
  | NInf, Fin q | Fin q, NInf => signed_inf false q
  | Fin a, Fin b => Fin (Qred (a * b))
  end.

(** True division as numpy performs it: a zero divisor yields an infinity
    (or [NaN] for [0/0]) and a warning, never an exception. *)
Definition f64_div (x y : f64) : f64 :=
  match x, y with
  | NaN, _ | _, NaN => NaN
  | (PInf | NInf), (PInf | NInf) => NaN
  | PInf, Fin q => if Qneg_b q then NInf else PInf
  | NInf, Fin q => if Qneg_b q then PInf else NInf
  | Fin _, (PInf | NInf) => Fin 0
  | Fin a, Fin b => if Qzero_b b then signed_inf true a else Fin (Qred (a / b))
  end.

(** IEEE comparisons: anything compared with [NaN] is false. *)
Definition f64_eqb (x y : f64) : bool :=
  match x, y with
  | PInf, PInf | NInf, NInf => true
  | Fin a, Fin b => Qeq_bool a b
  | _, _ => false
  end.

Definition f64_leb (x y : f64) : bool :=
  match x, y with
  | NaN, _ | _, NaN => false
  | NInf, _ | _, PInf => true
  | PInf, _ | _, NInf => false
  | Fin a, Fin b => Qle_bool a b
  end.

Definition f64_ltb (x y : f64) : bool := f64_leb x y && negb (f64_eqb x y).
Definition f64_gtb (x y : f64) : bool := f64_ltb y x.

Definition f64_min (x y : f64) : f64 := if f64_leb x y then x else y.
Definition f64_max (x y : f64) : f64 := if f64_leb x y then y else x.

(** ** Sorting *)

Fixpoint insert_sorted {A} (leb : A → A → bool) (x : A) (l : list A) : list A :=
  match l with
  | [] => [x]
  | y :: l' => if leb x y then x :: l else y :: insert_sorted leb x l'
  end.

(** Stable insertion sort: among equal keys the input order is kept. *)
Definition sort_by {A} (leb : A → A → bool) (l : list A) : list A :=
  foldr (insert_sorted leb) [] l.

(** Insertion into a strictly increasing list, dropping a duplicate. *)
Fixpoint insert_unique {A} (cmp : A → A → comparison) (x : A) (l : list A) : list A :=
  match l with
  | [] => [x]
  | y :: l' =>
      match cmp x y with
      | Eq => l
      | Lt => x :: l
      | Gt => y :: insert_unique cmp x l'
      end
  end.

(** [np.unique]: the distinct values in increasing order. *)
Definition np_unique {A} (cmp : A → A → comparison) (l : list A) : list A :=
  foldr (insert_unique cmp) [] l.

Definition f64_compare (x y : f64) : comparison :=
  if f64_eqb x y then Eq else if f64_leb x y then Lt else Gt.

(** ** Reductions over numeric data (pandas semantics: missing values are skipped) *)

Definition dropna (xs : list f64) : list f64 := List.filter notnan xs.

Definition count_nan (xs : list f64) : nat := length (List.filter isnan xs).

Definition f64_sum (xs : list f64) : f64 := fold_left f64_add xs (Fin 0).

Definition nansum (xs : list f64) : f64 := f64_sum (dropna xs).

Definition nancount (xs : list f64) : f64 := f64_of_nat (length (dropna xs)).

Definition nanmean (xs : list f64) : f64 :=
  match dropna xs with
  | [] => NaN
  | v => f64_div (f64_sum v) (f64_of_nat (length v))
  end.

Definition nanmin (xs : list f64) : f64 :=
  match dropna xs with
  | [] => NaN
  | x :: v => fold_left f64_min v x
  end.

Definition nanmax (xs : list f64) : f64 :=
  match dropna xs with
  | [] => NaN
  | x :: v => fold_left f64_max v x
  end.

Definition nanprod (xs : list f64) : f64 := fold_left f64_mul (dropna xs) (Fin 1).

(** [Series.median()]: the middle of the sorted non-missing values, or the
    mean of the two middle ones. *)
Definition median (xs : list f64) : f64 :=
  let v := sort_by f64_leb (dropna xs) in
  let n := length v in
  match n with
  | O => NaN
  | _ =>
      if Nat.odd n then nth (n / 2)%nat v NaN
      else f64_div (f64_add (nth (n / 2 - 1)%nat v NaN) (nth (n / 2)%nat v NaN)) (Fin 2)
  end.

(** ** Cells, series, frames *)

Inductive cell :=
| Num (x : f64)
| Str (s : string).

Inductive Series :=
| Float64 (xs : list f64)
| Object (xs : list cell).

Inductive Index :=
| RangeIndex (n : nat)
| KeyIndex (name : string) (keys : list f64).

Record DataFrame := mkDataFrame {
  index : Index;
  columns : list (string * Series)
}.

Definition cell_isnull (c : cell) : bool :=
  match c with Num x => isnan x | Str _ => false end.

Definition cells (s : Series) : list cell :=
  match s with
  | Float64 xs => map Num xs
  | Object cs => cs
  end.

Definition series_len (s : Series) : nat :=
  match s with
  | Float64 xs => length xs
  | Object cs => length cs
  end.

Definition is_object (s : Series) : bool :=
  if s is Object _ then true else false.

Definition index_len (i : Index) : nat :=
  match i with
  | RangeIndex n => n
  | KeyIndex _ ks => length ks
  end.

(** [len(df)] *)
Definition len (df : DataFrame) : nat := index_len (index df).

Definition names (df : DataFrame) : list string := map fst (columns df).

Fixpoint assoc {V} (k : string) (l : list (string * V)) : option V :=
  match l with
  | [] => None
  | (k', v) :: l' => if String.eqb k k' then Some v else assoc k l'
  end.

Definition mem (k : string) (l : list string) : bool :=
  existsb (String.eqb k) l.

Fixpoint nodup_b (l : list string) : bool :=
  match l with
  | [] => true
  | x :: l' => negb (mem x l') && nodup_b l'
  end.

(** What pandas maintains for every frame: distinct labels here, and all
    columns as long as the index. *)
Definition wf (df : DataFrame) : bool :=
  nodup_b (names df) &&
  forallb (fun c => Nat.eqb (series_len (snd c)) (len df)) (columns df).

(** [df[col]] *)
Definition getitem (df : DataFrame) (col : string) : result Series :=
  match assoc col (columns df) with
  | Some s => Ok s
  | None => Raise (KeyError col)
  end.

(** A numeric column as data; arithmetic on an object column is a [TypeError]. *)
Definition numeric (s : Series) : result (list f64) :=
  match s with
  | Float64 xs => Ok xs
  | Object _ => Raise TypeError
  end.

Definition getnum (df : DataFrame) (col : string) : result (list f64) :=
  s ← getitem df col; numeric s.

Fixpoint set_assoc {V} (k : string) (v : V) (l : list (string * V)) : list (string * V) :=
  match l with
  | [] => [(k, v)]
  | (k', v') :: l' =>
      if String.eqb k k' then (k, v) :: l' else (k', v') :: set_assoc k v l'
  end.

(** [df[col] = s]: replaces the column where it stands, or appends it. *)
Definition setitem (df : DataFrame) (col : string) (s : Series) : DataFrame :=
  {| index := index df; columns := set_assoc col s (columns df) |}.

(** [df.drop(columns=cs)]: every label must exist. *)
Definition drop (df : DataFrame) (cs : list string) : result DataFrame :=
  match List.find (fun c => negb (mem c (names df))) cs with
  | Some c => Raise (KeyError c)
  | None =>
      Ok {| index := index df;
            columns := List.filter (fun c => negb (mem (fst c) cs)) (columns df) |}
  end.

(** [df.select_dtypes(include=['object', 'category']).columns.tolist()] *)
Definition select_dtypes_object (df : DataFrame) : list string :=
  map fst (List.filter (fun c => is_object (snd c)) (columns df)).

(** [df[cs]] for labels known to exist, in the order of [cs]. *)
Definition reindex_columns (df : DataFrame) (cs : list string) : DataFrame :=
  {| index := index df;
     columns := omap (fun c => s ← assoc c (columns df); Some (c, s)) cs |}.

(** [left.align(right, join='inner', axis=1)]: both frames restricted to the
    labels they share, in the order of the left frame. *)
Definition align_inner (left right : DataFrame) : DataFrame * DataFrame :=
  let common := List.filter (fun c => mem c (names right)) (names left) in
  (reindex_columns left common, reindex_columns right common).

(** ** Column-wise operations *)

(** [s.isnull().sum()] *)
Definition count_null (s : Series) : nat :=
  length (List.filter cell_isnull (cells s)).

Definition fill (v : f64) (x : f64) : f64 := if isnan x then v else x.

Definition fill_cell (v : f64) (c : cell) : cell :=
  match c with
  | Num x => Num (fill v x)
  | Str s => Str s
  end.

(** [s.fillna(v)]; filling with [NaN] leaves the column as it is. *)
Definition fillna (v : f64) (s : Series) : Series :=
  match s with
  | Float64 xs => Float64 (map (fill v) xs)
  | Object cs => Object (map (fill_cell v) cs)
  end.

Definition inf_to_nan (x : f64) : f64 := if isinf x then NaN else x.

Definition inf_to_nan_cell (c : cell) : cell :=
  match c with
  | Num x => Num (inf_to_nan x)
  | Str s => Str s
  end.

(** [s.replace([np.inf, -np.inf], np.nan)] *)
Definition replace_inf (s : Series) : Series :=
  match s with
  | Float64 xs => Float64 (map inf_to_nan xs)
  | Object cs => Object (map inf_to_nan_cell cs)
  end.

(** [s.median()]: defined for numeric columns only. *)
Definition series_median (s : Series) : result f64 :=
  xs ← numeric s; Ok (median xs).

(** [df.replace([np.inf, -np.inf], np.nan)] *)
Definition df_replace_inf (df : DataFrame) : DataFrame :=
  {| index := index df;
     columns := map (fun c => (fst c, replace_inf (snd c))) (columns df) |}.

(** [df.median()]: one median per column. *)
Definition df_median (df : DataFrame) : result (list (string * f64)) :=
  mapR (fun c => m ← series_median (snd c); Ok (fst c, m)) (columns df).

(** [df.fillna(values)] with one fill value per label; a column without an
    entry is left alone. *)
Definition df_fillna (df : DataFrame) (values : list (string * f64)) : DataFrame :=
  {| index := index df;
     columns := map (fun c =>
                       match assoc (fst c) values with
                       | Some v => (fst c, fillna v (snd c))
                       | None => c
                       end) (columns df) |}.

(** ** [utils.Config] *)

Module Config.
Definition MISSING_THRESHOLD : Q := 7 # 10.
Definition N_SPLITS : nat := 5.
Definition RANDOM_STATE : Z := 42.
Definition NUM_BOOST_ROUND : Z := 1000.
Definition EARLY_STOPPING_ROUNDS : Z := 50.
End Config.

(** ** [sklearn.preprocessing.LabelEncoder] *)

Module LabelEncoder.

(** [fit]: the classes are the distinct labels in increasing order. *)
Definition fit (y : list string) : list string := np_unique String.compare y.

Fixpoint index_of (s : string) (classes : list string) : option nat :=
  match classes with
  | [] => None
  | c :: classes' =>
      if String.eqb s c then Some O else S <$> index_of s classes'
  end.

(** [transform]: the position of each label among the classes; a label
    outside them is a [ValueError]. *)
Definition transform (classes : list string) (y : list string) : result (list nat) :=
  mapR (fun s => match index_of s classes with
                 | Some i => Ok i
                 | None => Raise ValueError
                 end) y.

Definition fit_transform (y : list string) : result (list nat) :=
  transform (fit y) y.

End LabelEncoder.

(** ** Schema reconciliation: [preprocess.preprocess_data] *)

Section Preprocess.

(** [str] of a finite float; the textual form is Python's business. *)
Variable repr_float : Q → string.

(** One cell of [s.astype(str)]; a missing value reads "nan". *)
Definition astype_str (c : cell) : string :=
  match c with
  | Str s => s
  | Num NaN => "nan"
  | Num PInf => "inf"
  | Num NInf => "-inf"
  | Num (Fin q) => repr_float q
  end.

(** Lines 237-241, the body of the encoding loop for one column: the
    encoder is fit on the train values followed by the test values, and the
    codes are cut back into the two splits. *)
Definition encode_column (frames : DataFrame * DataFrame) (col : string)
  : result (DataFrame * DataFrame) :=
  let '(train_df, test_df) := frames in
  tr ← getitem train_df col;
  te ← getitem test_df col;
  let combined := cells tr ++ cells te in
  combined_encoded ← LabelEncoder.fit_transform (map astype_str combined);
  let codes := map f64_of_nat combined_encoded in
  Ok (setitem train_df col (Float64 (take (len train_df) codes)),
      setitem test_df col (Float64 (List.skipn (len train_df) codes))).

(** Line 253: [train_df.isnull().sum() / len(train_df) * 100] *)
Definition missing_pct (train_df : DataFrame) : list (string * f64) :=
  map (fun c => (fst c,
                 f64_mul (f64_div (f64_of_nat (count_null (snd c)))
                                  (f64_of_nat (len train_df)))
                         (Fin 100)))
      (columns train_df).

(** Line 254: the labels whose percentage exceeds the threshold. *)
Definition high_missing_cols (train_df : DataFrame) : list string :=
  map fst
      (List.filter
         (fun p => f64_gtb (snd p) (f64_mul (Fin Config.MISSING_THRESHOLD) (Fin 100)))
         (missing_pct train_df)).

(** Lines 263-266, the body of the imputation loop for one column. *)
Definition impute_column (frames : DataFrame * DataFrame) (col : string)
  : result (DataFrame * DataFrame) :=
  let '(train_df, test_df) := frames in
  tr ← getitem train_df col;
  if (0 <? count_null tr)%nat then
    fill_value ← series_median tr;
    te ← getitem test_df col;
    Ok (setitem train_df col (fillna fill_value tr),
        setitem test_df col (fillna fill_value te))
  else Ok (train_df, test_df).

(** [preprocess_data(train_df, test_df, target)].  The frames are taken by
    value: the function also leaves the label codes in the caller's test
    frame, an effect no caller in the repository observes. *)
Definition preprocess_data (train_df test_df : DataFrame) (target : string)
  : result (DataFrame * DataFrame * Series * Series * Series) :=
  (* Separate target *)
  y_train ← getitem train_df target;
  train_df ← drop train_df [target];
  (* Save IDs *)
  train_ids ← getitem train_df "SK_ID_CURR";
  test_ids ← getitem test_df "SK_ID_CURR";
  (* Identify feature types *)
  let categorical_cols := select_dtypes_object train_df in
  (* Encode categorical variables *)
  '(train_df, test_df) ← foldR encode_column (train_df, test_df) categorical_cols;
  (* Drop ID column *)
  train_df ← drop train_df ["SK_ID_CURR"];
  test_df ← drop test_df ["SK_ID_CURR"];
  (* Align columns *)
  let '(train_df, test_df) := align_inner train_df test_df in
  (* Handle missing values *)
  let high_missing := high_missing_cols train_df in
  '(train_df, test_df) ←
    (if (0 <? length high_missing)%nat then
       train_df ← drop train_df high_missing;
       test_df ← drop test_df high_missing;
       Ok (train_df, test_df)
     else Ok (train_df, test_df));
  (* Impute remaining missing values *)
  '(train_df, test_df) ← foldR impute_column (train_df, test_df) (names train_df);
  (* Replace infinites *)
  let train_df := df_replace_inf train_df in
  let test_df := df_replace_inf test_df in
  train_median ← df_median train_df;
  let train_df := df_fillna train_df train_median in
  train_median ← df_median train_df;
  let test_df := df_fillna test_df train_median in
  Ok (train_df, test_df, y_train, train_ids, test_ids).

End Preprocess.

(** ** Relational operations: group-by aggregation and joins *)

Inductive aggfn :=
| Count
| Min
| Max
| Mean
| Sum
| CountEq (v : string).   (* [lambda x: (x == v).sum()] *)

(** The second level of the column label pandas gives an aggregate. *)
Definition aggfn_name (f : aggfn) : string :=
  match f with
  | Count => "count"
  | Min => "min"
  | Max => "max"
  | Mean => "mean"
  | Sum => "sum"
  | CountEq _ => "<lambda>"
  end.

Definition upper_ascii (a : ascii) : ascii :=
  let n := nat_of_ascii a in
  if ((97 <=? n) && (n <=? 122))%nat then ascii_of_nat (n - 32) else a.

(** [str.upper] on the ASCII letters that column labels are made of. *)
Fixpoint upper (s : string) : string :=
  match s with
  | EmptyString => EmptyString
  | String a s' => String (upper_ascii a) (upper s')
  end.

(** [prefix + '_'.join(col).upper()] for a two-level label [col]. *)
Definition flat_name (prefix : string) (col : string * string) : string :=
  prefix +:+ upper (fst col +:+ "_" +:+ snd col).

Definition cell_eq_str (v : string) (c : cell) : bool :=
  match c with
  | Str s => String.eqb s v
  | Num _ => false
  end.

Definition cell_eq_num (v : f64) (c : cell) : bool :=
  match c with
  | Num x => f64_eqb x v
  | Str _ => false
  end.

(** Positional selection of rows. *)
Definition take_f64 (rows : list nat) (xs : list f64) : list f64 :=
  map (fun i => nth i xs NaN) rows.

Definition take_cells (rows : list nat) (cs : list cell) : list cell :=
  map (fun i => nth i cs (Num NaN)) rows.

Definition take_series (rows : list nat) (s : Series) : Series :=
  match s with
  | Float64 xs => Float64 (take_f64 rows xs)
  | Object cs => Object (take_cells rows cs)
  end.

(** One aggregate of one column over the rows of one group.  Numeric
    reductions of an object column are a [TypeError]. *)
Definition agg_apply (f : aggfn) (s : Series) (rows : list nat) : result f64 :=
  match f with
  | Count =>
      Ok (f64_of_nat (length (List.filter (fun c => negb (cell_isnull c))
                                          (take_cells rows (cells s)))))
  | CountEq v =>
      Ok (f64_of_nat (length (List.filter (cell_eq_str v) (take_cells rows (cells s)))))
  | Min => xs ← numeric s; Ok (nanmin (take_f64 rows xs))
  | Max => xs ← numeric s; Ok (nanmax (take_f64 rows xs))
  | Mean => xs ← numeric s; Ok (nanmean (take_f64 rows xs))
  | Sum => xs ← numeric s; Ok (nansum (take_f64 rows xs))
  end.

(** The group keys: the distinct non-missing key values, increasing. *)
Definition group_keys (ks : list f64) : list f64 :=
  np_unique f64_compare (dropna ks).

(** The rows of the group of key [k], in frame order. *)
Definition group_rows (ks : list f64) (k : f64) : list nat :=
  List.filter (fun i => f64_eqb (nth i ks NaN) k) (seq 0 (length ks)).

(** The result of [df.groupby(key).agg(spec)]: indexed by the group keys,
    with one column per (source column, aggregate) pair under a two-level
    label.  The key is a numeric identifier in every table of the data set. *)
Record Aggregated := mkAggregated {
  agg_by : string;
  agg_keys : list f64;
  agg_columns : list ((string * string) * Series)
}.

Definition groupby_agg (df : DataFrame) (key : string)
    (spec : list (string * list aggfn)) : result Aggregated :=
  ks ← getnum df key;
  let keys := group_keys ks in
  cols ← mapR (fun '(col, fns) =>
                 s ← getitem df col;
                 mapR (fun f =>
                         vals ← mapR (fun k => agg_apply f s (group_rows ks k)) keys;
                         Ok ((col, aggfn_name f), Float64 vals))
                      fns)
              spec;
  Ok {| agg_by := key; agg_keys := keys; agg_columns := concat cols |}.

(** [agg.columns = [prefix + '_'.join(col).upper() for col in agg.columns]] *)
Definition flatten_columns (prefix : string) (a : Aggregated) : DataFrame :=
  {| index := KeyIndex (agg_by a) (agg_keys a);
     columns := map (fun c => (flat_name prefix (fst c), snd c)) (agg_columns a) |}.

(** [agg.columns = labels]: positional relabelling; the number of labels
    must match. *)
Definition set_columns (labels : list string) (a : Aggregated) : result DataFrame :=
  if (length labels =? length (agg_columns a))%nat then
    Ok {| index := KeyIndex (agg_by a) (agg_keys a);
          columns := zip labels (map snd (agg_columns a)) |}
  else Raise ValueError.

Definition index_name (i : Index) : string :=
  match i with
  | RangeIndex _ => "index"
  | KeyIndex name _ => name
  end.

Definition index_keys (i : Index) : list f64 :=
  match i with
  | RangeIndex n => map f64_of_nat (seq 0 n)
  | KeyIndex _ ks => ks
  end.

(** [df.reset_index()]: the index becomes the first column. *)
Definition reset_index (df : DataFrame) : DataFrame :=
  {| index := RangeIndex (len df);
     columns := (index_name (index df), Float64 (index_keys (index df))) :: columns df |}.

(** [df[df[col] == v]] for a string [v]. *)
Definition filter_eq (df : DataFrame) (col : string) (v : string) : result DataFrame :=
  s ← getitem df col;
  let rows := List.filter (fun i => cell_eq_str v (nth i (cells s) (Num NaN)))
                          (seq 0 (len df)) in
  Ok {| index := KeyIndex (index_name (index df)) (take_f64 rows (index_keys (index df)));
        columns := map (fun c => (fst c, take_series rows (snd c))) (columns df) |}.

(** Join keys match when equal; pandas also matches a missing key with a
    missing key. *)
Definition key_match (x y : f64) : bool :=
  f64_eqb x y || (isnan x && isnan y).

Definition matching_rows (rk : list f64) (k : f64) : list nat :=
  List.filter (fun j => key_match k (nth j rk NaN)) (seq 0 (length rk)).

(** The row pairs of a left join: every left row once per matching right
    row, and once with no partner when nothing matches. *)
Definition left_join_rows (lk rk : list f64) : list (nat * option nat) :=
  flat_map (fun i =>
              match matching_rows rk (nth i lk NaN) with
              | [] => [(i, None)]
              | js => map (fun j => (i, Some j)) js
              end)
           (seq 0 (length lk)).

(** A right-hand column along the row pairs; no partner gives [NaN]. *)
Definition take_right (pairs : list (nat * option nat)) (s : Series) : Series :=
  match s with
  | Float64 xs =>
      Float64 (map (fun p => match snd p with
                             | Some j => nth j xs NaN
                             | None => NaN
                             end) pairs)
  | Object cs =>
      Object (map (fun p => match snd p with
                            | Some j => nth j cs (Num NaN)
                            | None => Num NaN
                            end) pairs)
  end.

(** Overlapping labels get the suffixes [_x] (left) and [_y] (right); labels
    that still collide afterwards are a [MergeError]. *)
Definition joined_columns (pairs : list (nat * option nat))
    (lcols rcols : list (string * Series)) : result (list (string * Series)) :=
  let overlap c := mem c (map fst lcols) && mem c (map fst rcols) in
  let l := map (fun c => (if overlap (fst c) then fst c +:+ "_x" else fst c,
                          take_series (map fst pairs) (snd c))) lcols in
  let r := map (fun c => (if overlap (fst c) then fst c +:+ "_y" else fst c,
                          take_right pairs (snd c))) rcols in
  if nodup_b (map fst (l ++ r)) then Ok (l ++ r) else Raise MergeError.

(** A key column is shared by the two sides and kept once (from the left). *)
Definition without (on : string) (cols : list (string * Series)) : list (string * Series) :=
  List.filter (fun c => negb (String.eqb (fst c) on)) cols.

Definition keyed_columns (on : string) (pairs : list (nat * option nat))
    (lcols rcols : list (string * Series)) : result (list (string * Series)) :=
  let overlap c := negb (String.eqb c on) && mem c (map fst lcols) && mem c (map fst rcols) in
  let l := map (fun c => (if overlap (fst c) then fst c +:+ "_x" else fst c,
                          take_series (map fst pairs) (snd c))) lcols in
  let r := map (fun c => (if overlap (fst c) then fst c +:+ "_y" else fst c,
                          take_right pairs (snd c))) (without on rcols) in
  if nodup_b (map fst (l ++ r)) then Ok (l ++ r) else Raise MergeError.

(** [left.merge(right, on=on, how='left')] *)
Definition merge_left (left right : DataFrame) (on : string) : result DataFrame :=
  lk ← getnum left on;
  rk ← getnum right on;
  let pairs := left_join_rows lk rk in
  cols ← keyed_columns on pairs (columns left) (columns right);
  Ok {| index := RangeIndex (length pairs); columns := cols |}.

(** [left.merge(right, left_index=True, right_index=True, how='left')] *)
Definition merge_left_index (left right : DataFrame) : result DataFrame :=
  let lk := index_keys (index left) in
  let pairs := left_join_rows lk (index_keys (index right)) in
  cols ← joined_columns pairs (columns left) (columns right);
  Ok {| index := KeyIndex (index_name (index left)) (take_f64 (map fst pairs) lk);
        columns := cols |}.

(** ** The store of caller-visible frames *)

Abbreviation loc := nat (only parsing).
Abbreviation heap := (gmap nat DataFrame) (only parsing).

(** A computation that may raise and may update frames in the store; what
    was written before an exception stays written. *)
Definition M (A : Type) : Type := heap → result A * heap.

#[global] Instance M_ret : MRet M := fun A a h => (Ok a, h).
#[global] Instance M_bind : MBind M := fun A B f m h =>
  match m h with
  | (Ok a, h') => f a h'
  | (Raise e, h') => (Raise e, h')
  end.

Definition lift {A} (r : result A) : M A := fun h => (r, h).

(** Reading the frame behind a reference ([df.copy()] when the value is
    kept).  A reference always designates a frame; the model reports an
    unbound one as a [KeyError] on the empty label. *)
Definition deref (df : loc) : M DataFrame := fun h =>
  match h !! df with
  | Some d => (Ok d, h)
  | None => (Raise (KeyError ""), h)
  end.

(** [df[col] = s] on the caller's frame. *)
Definition store_setitem (df : loc) (col : string) (s : Series) : M unit := fun h =>
  match h !! df with
  | Some d => (Ok tt, <[df := setitem d col s]> h)
  | None => (Raise (KeyError ""), h)
  end.

(** ** Feature engineering and ledger aggregation: [preprocess.py] *)

Fixpoint contains (sub s : string) : bool :=
  String.prefix sub s ||
  match s with
  | EmptyString => false
  | String _ s' => contains sub s'
  end.

(** [s.replace(old, new)] *)
Definition replace_value (old new : f64) (s : Series) : Series :=
  match s with
  | Float64 xs => Float64 (map (fun x => if f64_eqb x old then new else x) xs)
  | Object cs => Object (map (fun c => if cell_eq_num old c then Num new else c) cs)
  end.

(** [(s == v).astype(int)] *)
Definition eq_scalar_int (v : f64) (s : Series) : Series :=
  Float64 (map (fun c => if cell_eq_num v c then Fin 1 else Fin 0) (cells s)).

Definition row_values (cols : list (list f64)) (i : nat) : list f64 :=
  map (fun c => nth i c NaN) cols.

(** A reduction along [axis=1] over the given columns. *)
Definition rowwise (f : list f64 → f64) (n : nat) (cols : list (list f64)) : list f64 :=
  map (fun i => f (row_values cols i)) (seq 0 n).

Record Data := mkData {
  train : loc;
  test : loc;
  bureau : loc;
  bureau_balance : loc;
  prev_app : loc;
  pos_cash : loc;
  credit_card : loc;
  installments : loc
}.

Section Pipeline.

Variable repr_float : Q → string.

(** Square root of a non-negative rational, as the floating-point unit
    delivers it. *)
Variable fsqrt : Q → Q.

Definition f64_sqrt (x : f64) : f64 :=
  match x with
  | NaN | NInf => NaN
  | PInf => PInf
  | Fin q => if Qneg_b q then NaN else Fin (fsqrt q)
  end.

(** Sample standard deviation ([ddof=1]) of the non-missing values. *)
Definition nanstd (xs : list f64) : f64 :=
  let v := dropna xs in
  let n := length v in
  if (n <? 2)%nat then NaN
  else
    let m := f64_div (f64_sum v) (f64_of_nat n) in
    let ss := f64_sum (map (fun x => let d := f64_sub x m in f64_mul d d) v) in
    f64_sqrt (f64_div ss (f64_of_nat (n - 1))).

(** [engineer_application_features(df)] *)
Definition engineer_application_features (df : loc) : M DataFrame :=
  df ← deref df;                                   (* df = df.copy() *)
  lift (
    (* Age features *)
    days_birth ← getnum df "DAYS_BIRTH";
    let df := setitem df "AGE_YEARS"
                (Float64 (map (fun x => f64_div (f64_neg x) (Fin 365)) days_birth)) in
    (* Employment features *)
    s ← getitem df "DAYS_EMPLOYED";
    let df := setitem df "DAYS_EMPLOYED" (replace_value (Fin 365243) NaN s) in
    days_employed ← getnum df "DAYS_EMPLOYED";
    let df := setitem df "EMPLOYMENT_YEARS"
                (Float64 (map (fun x => f64_div (f64_neg x) (Fin 365)) days_employed)) in
    s ← getitem df "EMPLOYMENT_YEARS";
    let df := setitem df "EMPLOYMENT_YEARS" (fillna (Fin 0) s) in
    (* Income features *)
    income ← getnum df "AMT_INCOME_TOTAL";
    fam ← getnum df "CNT_FAM_MEMBERS";
    let df := setitem df "INCOME_PER_PERSON" (Float64 (zip_with f64_div income fam)) in
    income ← getnum df "AMT_INCOME_TOTAL";
    children ← getnum df "CNT_CHILDREN";
    let df := setitem df "INCOME_PER_CHILD"
                (Float64 (zip_with f64_div income (map (f64_add (Fin 1)) children))) in
    (* Credit features *)
    credit ← getnum df "AMT_CREDIT";
    income ← getnum df "AMT_INCOME_TOTAL";
    let df := setitem df "CREDIT_INCOME_RATIO" (Float64 (zip_with f64_div credit income)) in
    annuity ← getnum df "AMT_ANNUITY";
    income ← getnum df "AMT_INCOME_TOTAL";
    let df := setitem df "ANNUITY_INCOME_RATIO" (Float64 (zip_with f64_div annuity income)) in
    credit ← getnum df "AMT_CREDIT";
    annuity ← getnum df "AMT_ANNUITY";
    let df := setitem df "CREDIT_TERM" (Float64 (zip_with f64_div credit annuity)) in
    credit ← getnum df "AMT_CREDIT";
    goods ← getnum df "AMT_GOODS_PRICE";
    let df := setitem df "CREDIT_GOODS_RATIO" (Float64 (zip_with f64_div credit goods)) in
    (* Payment features *)
    annuity ← getnum df "AMT_ANNUITY";
    credit ← getnum df "AMT_CREDIT";
    let df := setitem df "PAYMENT_RATE" (Float64 (zip_with f64_div annuity credit)) in
    days_employed ← getnum df "DAYS_EMPLOYED";
    days_birth ← getnum df "DAYS_BIRTH";
    let df := setitem df "DAYS_EMPLOYED_PERCENT"
                (Float64 (zip_with f64_div days_employed days_birth)) in
    (* External source features *)
    ext ← mapR (getnum df) ["EXT_SOURCE_1"; "EXT_SOURCE_2"; "EXT_SOURCE_3"];
    let df := setitem df "EXT_SOURCE_MEAN" (Float64 (rowwise nanmean (len df) ext)) in
    ext ← mapR (getnum df) ["EXT_SOURCE_1"; "EXT_SOURCE_2"; "EXT_SOURCE_3"];
    let df := setitem df "EXT_SOURCE_STD" (Float64 (rowwise nanstd (len df) ext)) in
    e1 ← getnum df "EXT_SOURCE_1";
    e2 ← getnum df "EXT_SOURCE_2";
    e3 ← getnum df "EXT_SOURCE_3";
    let df := setitem df "EXT_SOURCE_PROD"
                (Float64 (zip_with f64_mul (zip_with f64_mul e1 e2) e3)) in
    (* Document features *)
    let doc_cols := List.filter (contains "FLAG_DOCUMENT") (names df) in
    docs ← mapR (getnum df) doc_cols;
    let df := setitem df "DOCUMENT_COUNT" (Float64 (rowwise nansum (len df) docs)) in
    (* Contact features *)
    s ← getitem df "FLAG_MOBIL";
    let df := setitem df "HAS_MOBILE" (eq_scalar_int (Fin 1) s) in
    s ← getitem df "FLAG_WORK_PHONE";
    let df := setitem df "HAS_WORK_PHONE" (eq_scalar_int (Fin 1) s) in
    s ← getitem df "FLAG_PHONE";
    let df := setitem df "HAS_PHONE" (eq_scalar_int (Fin 1) s) in
    s ← getitem df "FLAG_EMAIL";
    let df := setitem df "HAS_EMAIL" (eq_scalar_int (Fin 1) s) in
    m ← getnum df "HAS_MOBILE";
    w ← getnum df "HAS_WORK_PHONE";
    p ← getnum df "HAS_PHONE";
    e ← getnum df "HAS_EMAIL";
    let df := setitem df "CONTACT_COUNT"
                (Float64 (zip_with f64_add (zip_with f64_add (zip_with f64_add m w) p) e)) in
    (* Region features *)
    r ← getnum df "REGION_RATING_CLIENT";
    rc ← getnum df "REGION_RATING_CLIENT_W_CITY";
    let df := setitem df "REGION_RATING_DIFF" (Float64 (zip_with f64_sub r rc)) in
    Ok df).

(** [aggregate_bureau_features(df_bureau, df_bureau_balance)] *)
Definition aggregate_bureau_features (df_bureau df_bureau_balance : loc) : M DataFrame :=
  df_bureau ← deref df_bureau;
  df_bureau_balance ← deref df_bureau_balance;
  lift (
    (* Bureau balance aggregations *)
    bb_agg ← groupby_agg df_bureau_balance "SK_ID_BUREAU"
               [("MONTHS_BALANCE", [Min; Max; Mean]);
                ("STATUS", [CountEq "C"])];
    let bb_agg := flatten_columns "" bb_agg in
    let bb_agg := reset_index bb_agg in
    (* Merge with bureau *)
    bureau ← merge_left df_bureau bb_agg "SK_ID_BUREAU";
    (* Bureau aggregations by client *)
    bureau_agg ← groupby_agg bureau "SK_ID_CURR"
                   [("SK_ID_BUREAU", [Count]);
                    ("DAYS_CREDIT", [Min; Max; Mean]);
                    ("CREDIT_DAY_OVERDUE", [Max; Mean]);
                    ("DAYS_CREDIT_ENDDATE", [Min; Max; Mean]);
                    ("AMT_CREDIT_MAX_OVERDUE", [Max]);
                    ("CNT_CREDIT_PROLONG", [Sum]);
                    ("AMT_CREDIT_SUM", [Max; Mean; Sum]);
                    ("AMT_CREDIT_SUM_DEBT", [Max; Mean; Sum]);
                    ("AMT_CREDIT_SUM_OVERDUE", [Mean]);
                    ("DAYS_CREDIT_UPDATE", [Min; Max; Mean]);
                    ("AMT_ANNUITY", [Max; Mean])];
    let bureau_agg := flatten_columns "BUREAU_" bureau_agg in
    (* Active credits *)
    active ← filter_eq bureau "CREDIT_ACTIVE" "Active";
    active ← groupby_agg active "SK_ID_CURR"
               [("SK_ID_BUREAU", [Count]); ("AMT_CREDIT_SUM_DEBT", [Sum])];
    active ← set_columns ["BUREAU_ACTIVE_COUNT"; "BUREAU_ACTIVE_DEBT"] active;
    (* Closed credits *)
    closed ← filter_eq bureau "CREDIT_ACTIVE" "Closed";
    closed ← groupby_agg closed "SK_ID_CURR"
               [("SK_ID_BUREAU", [Count]); ("DAYS_CREDIT", [Max])];
    closed ← set_columns ["BUREAU_CLOSED_COUNT"; "BUREAU_CLOSED_DAYS_CREDIT_MAX"] closed;
    (* Merge all bureau features *)
    bureau_agg ← merge_left_index bureau_agg active;
    bureau_agg ← merge_left_index bureau_agg closed;
    Ok (reset_index bureau_agg)).

(** [aggregate_previous_applications(df_prev)] *)
Definition aggregate_previous_applications (df_prev : loc) : M DataFrame :=
  df_prev ← deref df_prev;
  lift (
    (* Basic aggregations *)
    prev_agg ← groupby_agg df_prev "SK_ID_CURR"
                 [("SK_ID_PREV", [Count]);
                  ("AMT_ANNUITY", [Min; Max; Mean]);
                  ("AMT_APPLICATION", [Min; Max; Mean]);
                  ("AMT_CREDIT", [Min; Max; Mean]);
                  ("AMT_DOWN_PAYMENT", [Min; Max; Mean]);
                  ("AMT_GOODS_PRICE", [Min; Max; Mean]);
                  ("HOUR_APPR_PROCESS_START", [Min; Max; Mean]);
                  ("RATE_DOWN_PAYMENT", [Min; Max; Mean]);
                  ("DAYS_DECISION", [Min; Max; Mean]);
                  ("CNT_PAYMENT", [Mean; Sum])];
    let prev_agg := flatten_columns "PREV_" prev_agg in
    (* Approved applications *)
    approved ← filter_eq df_prev "NAME_CONTRACT_STATUS" "Approved";
    approved ← groupby_agg approved "SK_ID_CURR"
                 [("SK_ID_PREV", [Count]); ("AMT_CREDIT", [Sum])];
    approved ← set_columns ["PREV_APPROVED_COUNT"; "PREV_APPROVED_CREDIT"] approved;
    (* Refused applications *)
    refused ← filter_eq df_prev "NAME_CONTRACT_STATUS" "Refused";
    refused ← groupby_agg refused "SK_ID_CURR" [("SK_ID_PREV", [Count])];
    refused ← set_columns ["PREV_REFUSED_COUNT"] refused;
    (* Merge *)
    prev_agg ← merge_left_index prev_agg approved;
    prev_agg ← merge_left_index prev_agg refused;
    Ok (reset_index prev_agg)).

(** The aggregation dictionary of [aggregate_installments], in source order. *)
Definition installments_spec : list (string * list aggfn) :=
  [("SK_ID_PREV", [Count]);
   ("NUM_INSTALMENT_NUMBER", [Max; Mean]);
   ("NUM_INSTALMENT_VERSION", [Max]);
   ("DAYS_INSTALMENT", [Min; Max; Mean]);
   ("DAYS_ENTRY_PAYMENT", [Min; Max; Mean]);
   ("AMT_INSTALMENT", [Min; Max; Mean; Sum]);
   ("AMT_PAYMENT", [Min; Max; Mean; Sum]);
   ("PAYMENT_DIFF", [Min; Max; Mean; Sum]);
   ("PAYMENT_RATIO", [Min; Max; Mean]);
   ("DAYS_PAYMENT_DELAY", [Min; Max; Mean])].

(** [aggregate_installments(df_inst)]: the three derived columns are
    assigned on the frame the caller passed. *)
Definition aggregate_installments (df_inst : loc) : M DataFrame :=
  (* Payment difference and delay *)
  d ← deref df_inst;
  payment ← lift (getnum d "AMT_PAYMENT");
  instalment ← lift (getnum d "AMT_INSTALMENT");
  store_setitem df_inst "PAYMENT_DIFF" (Float64 (zip_with f64_sub payment instalment));;
  d ← deref df_inst;
  payment ← lift (getnum d "AMT_PAYMENT");
  instalment ← lift (getnum d "AMT_INSTALMENT");
  store_setitem df_inst "PAYMENT_RATIO" (Float64 (zip_with f64_div payment instalment));;
  d ← deref df_inst;
  entry ← lift (getnum d "DAYS_ENTRY_PAYMENT");
  due ← lift (getnum d "DAYS_INSTALMENT");
  store_setitem df_inst "DAYS_PAYMENT_DELAY" (Float64 (zip_with f64_sub entry due));;
  (* Aggregations *)
  d ← deref df_inst;
  inst_agg ← lift (groupby_agg d "SK_ID_CURR" installments_spec);
  let inst_agg := flatten_columns "INST_" inst_agg in
  mret (reset_index inst_agg).

(** Lines 294-319 of [run_preprocessing]: the two feature frames handed to
    [preprocess_data]. *)
Definition run_preprocessing_features (data : Data) : M (DataFrame * DataFrame) :=
  (* Engineer application features *)
  train_fe ← engineer_application_features (train data);
  test_fe ← engineer_application_features (test data);
  (* Aggregate bureau features *)
  bureau_agg ← aggregate_bureau_features (bureau data) (bureau_balance data);
  train_fe ← lift (merge_left train_fe bureau_agg "SK_ID_CURR");
  test_fe ← lift (merge_left test_fe bureau_agg "SK_ID_CURR");
  (* Aggregate previous applications *)
  prev_agg ← aggregate_previous_applications (prev_app data);
  train_fe ← lift (merge_left train_fe prev_agg "SK_ID_CURR");
  test_fe ← lift (merge_left test_fe prev_agg "SK_ID_CURR");
  (* Aggregate installments *)
  inst_agg ← aggregate_installments (installments data);
  train_fe ← lift (merge_left train_fe inst_agg "SK_ID_CURR");
  test_fe ← lift (merge_left test_fe inst_agg "SK_ID_CURR");
  mret (train_fe, test_fe).

(** [run_preprocessing]: [data] is what [load_data] read; writing the
    pickles is left out. *)
Definition run_preprocessing (data : Data)
  : M (DataFrame * DataFrame * Series * Series * Series) :=
  '(train_fe, test_fe) ← run_preprocessing_features data;
  (* Final preprocessing *)
  lift (preprocess_data repr_float train_fe test_fe "TARGET").

End Pipeline.

(** ** Model training: [train.py] *)

(** A value of the LightGBM parameter dictionary. *)
Inductive pvalue :=
| PStr (s : string)
| PNum (x : f64).

Definition LGBM_PARAMS : gmap string pvalue :=
  list_to_map
    [("objective", PStr "binary");
     ("metric", PStr "auc");
     ("boosting_type", PStr "gbdt");
     ("num_leaves", PNum (Fin 31));
     ("learning_rate", PNum (Fin (5 # 100)));
     ("feature_fraction", PNum (Fin (8 # 10)));
     ("bagging_fraction", PNum (Fin (8 # 10)));
     ("bagging_freq", PNum (Fin 5));
     ("max_depth", PNum (Fin (-1)));
     ("min_child_samples", PNum (Fin 20));
     ("random_state", PNum (Fin 42));
     ("n_jobs", PNum (Fin (-1)));
     ("verbose", PNum (Fin (-1)))].

Inductive callback :=
| early_stopping (stopping_rounds : Z)
| log_evaluation (period : Z).

(** [lgb.Dataset(X, y)] *)
Record Dataset := mkDataset {
  ds_data : DataFrame;
  ds_label : Series
}.

(** The arguments of one call of [lgb.train]. *)
Record lgb_call := mkCall {
  call_params : gmap string pvalue;
  call_train_set : Dataset;
  call_num_boost_round : Z;
  call_valid_sets : list Dataset;
  call_valid_names : list string;
  call_callbacks : list callback
}.

(** [(y == v).sum()] *)
Definition count_eq (v : f64) (y : Series) : Z :=
  Z.of_nat (length (List.filter (cell_eq_num v) (cells y))).

(** [df.iloc[rows]] and [s.iloc[rows]] *)
Definition iloc (df : DataFrame) (rows : list nat) : DataFrame :=
  {| index := KeyIndex (index_name (index df)) (take_f64 rows (index_keys (index df)));
     columns := map (fun c => (fst c, take_series rows (snd c))) (columns df) |}.

Definition series_iloc (s : Series) (rows : list nat) : Series := take_series rows s.

(** [np.mean] of a list of integers. *)
Definition np_mean (xs : list Z) : f64 :=
  match xs with
  | [] => NaN
  | _ => f64_div (f64_of_Z (fold_right Z.add 0 xs)) (f64_of_nat (length xs))
  end.

(** Rounding toward zero. *)
Definition Qtrunc (q : Q) : Z := if Qneg_b q then Qceiling q else Qfloor q.

(** Python's [int(x)] on a float: the integer part; not defined on [nan]
    and the infinities. *)
Definition py_int (x : f64) : result Z :=
  match x with
  | NaN => Raise ValueError
  | PInf | NInf => Raise OverflowError
  | Fin q => Ok (Qtrunc q)
  end.

(** Training code runs against the library and leaves a log of the calls of
    [lgb.train] it made, in order. *)
Definition L (A : Type) : Type := list lgb_call → result A * list lgb_call.

#[global] Instance L_ret : MRet L := fun A a log => (Ok a, log).
#[global] Instance L_bind : MBind L := fun A B f m log =>
  match m log with
  | (Ok a, log') => f a log'
  | (Raise e, log') => (Raise e, log')
  end.

Definition liftL {A} (r : result A) : L A := fun log => (r, log).

Section Training.

(** The LightGBM booster and what the code asks of it. *)
Variable Booster : Type.
Variable lgb_train_oracle : lgb_call → result Booster.
Variable best_iteration : Booster → Z.
Variable predict : Booster → DataFrame → Z → list f64.
Variable feature_importance : Booster → list f64.

(** scikit-learn: the stratified splitter and the AUC. *)
Variable kfold_split : nat → Z → DataFrame → Series → result (list (list nat * list nat)).
Variable roc_auc_score : Series → list f64 → result f64.

(** The feature-importance table (lines 130-135 and 237-241): built with
    pandas from the per-model gains and sorted by mean importance.  No
    property below depends on it; it is carried as an opaque value. *)
Variable Importance : Type.
Variable aggregate_importance : list (nat * list string * list f64) → Importance.
Variable final_importance : list string → list f64 → Importance.

(** [lgb.train(...)] *)
Definition lgb_train (c : lgb_call) : L Booster := fun log =>
  (lgb_train_oracle c, log ++ [c]).

(** [train_lightgbm].  The dictionary [params] is the caller's object:
    the function writes [scale_pos_weight] into it, so it is returned
    together with the model. *)
Definition train_lightgbm (X_train : DataFrame) (y_train : Series)
    (val : option (DataFrame * Series)) (params : option (gmap string pvalue))
  : L (Booster * gmap string pvalue) :=
  let params := match params with
                | Some p => p
                | None => LGBM_PARAMS          (* Config.LGBM_PARAMS.copy() *)
                end in
  (* Calculate scale_pos_weight for imbalanced data *)
  let scale_pos_weight :=
    f64_div (f64_of_Z (count_eq (Fin 0) y_train)) (f64_of_Z (count_eq (Fin 1) y_train)) in
  let params := <["scale_pos_weight" := PNum scale_pos_weight]> params in
  (* Create datasets *)
  let lgb_train_set := mkDataset X_train y_train in
  let '(valid_sets, valid_names) :=
    match val with
    | Some (X_val, y_val) => ([lgb_train_set; mkDataset X_val y_val], ["train"; "valid"])
    | None => ([lgb_train_set], ["train"])
    end in
  (* Train with early stopping *)
  model ← lgb_train
    {| call_params := params;
       call_train_set := lgb_train_set;
       call_num_boost_round := Config.NUM_BOOST_ROUND;
       call_valid_sets := valid_sets;
       call_valid_names := valid_names;
       call_callbacks := [early_stopping Config.EARLY_STOPPING_ROUNDS;
                          log_evaluation 100] |};
  mret (model, params).

(** What the cross-validation loop accumulates. *)
Record cv_state := mkCv {
  cv_params : gmap string pvalue;
  cv_scores : list f64;
  cv_models : list Booster;
  cv_importance : list (nat * list string * list f64)
}.

(** The body of the loop over the folds (lines 93-121). *)
Definition cross_validate_fold (X_train : DataFrame) (y_train : Series)
    (st : cv_state) (f : nat * (list nat * list nat)) : L cv_state :=
  let '(fold, (train_idx, val_idx)) := f in
  let X_tr_fold := iloc X_train train_idx in
  let X_val_fold := iloc X_train val_idx in
  let y_tr_fold := series_iloc y_train train_idx in
  let y_val_fold := series_iloc y_train val_idx in
  (* Train model *)
  '(model, params) ← train_lightgbm X_tr_fold y_tr_fold
                       (Some (X_val_fold, y_val_fold)) (Some (cv_params st));
  (* Predict and score *)
  let y_pred_fold := predict model X_val_fold (best_iteration model) in
  fold_score ← liftL (roc_auc_score y_val_fold y_pred_fold);
  mret {| cv_params := params;
          cv_scores := cv_scores st ++ [fold_score];
          cv_models := cv_models st ++ [model];
          cv_importance := cv_importance st ++
                             [(fold, names X_train, feature_importance model)] |}.

Fixpoint foldL {A S} (f : S → A → L S) (s : S) (l : list A) : L S :=
  match l with
  | [] => mret s
  | a :: l' => s' ← f s a; foldL f s' l'
  end.

(** [enumerate(xs, 1)] *)
Definition enumerate1 {A} (xs : list A) : list (nat * A) :=
  zip (seq 1 (length xs)) xs.

(** [cross_validate] *)
Definition cross_validate (X_train : DataFrame) (y_train : Series) (n_splits : nat)
    (params : option (gmap string pvalue))
  : L (list f64 * list Booster * Importance) :=
  let params := match params with
                | Some p => p
                | None => LGBM_PARAMS
                end in
  folds ← liftL (kfold_split n_splits Config.RANDOM_STATE X_train y_train);
  st ← foldL (cross_validate_fold X_train y_train)
         {| cv_params := params; cv_scores := []; cv_models := []; cv_importance := [] |}
         (enumerate1 folds);
  (* Aggregate feature importance *)
  mret (cv_scores st, cv_models st, aggregate_importance (cv_importance st)).

(** [train_final_model] *)
Definition train_final_model (X_train : DataFrame) (y_train : Series)
    (params : option (gmap string pvalue)) (best_iteration : option Z)
  : L Booster :=
  let params := match params with
                | Some p => p
                | None => LGBM_PARAMS
                end in
  (* Calculate scale_pos_weight *)
  let scale_pos_weight :=
    f64_div (f64_of_Z (count_eq (Fin 0) y_train)) (f64_of_Z (count_eq (Fin 1) y_train)) in
  let params := <["scale_pos_weight" := PNum scale_pos_weight]> params in
  (* Create dataset *)
  let lgb_train_set := mkDataset X_train y_train in
  (* Use best_iteration if provided, otherwise train with early stopping *)
  let '(num_boost_round, callbacks) :=
    match best_iteration with
    | Some n => (n, [log_evaluation 100])
    | None => (Config.NUM_BOOST_ROUND,
               [early_stopping Config.EARLY_STOPPING_ROUNDS; log_evaluation 100])
    end in
  lgb_train
    {| call_params := params;
       call_train_set := lgb_train_set;
       call_num_boost_round := num_boost_round;
       call_valid_sets := [lgb_train_set];
       call_valid_names := ["train"];
       call_callbacks := callbacks |}.

(** [run_training]; saving the model and the importance table to disk is
    left out. *)
Definition run_training (X_train : DataFrame) (y_train : Series) (do_cv : bool)
  : L (Booster * option (list f64) * Importance) :=
  '(cv_scores, feature_importance_cv, best_iter) ←
    (if do_cv then
       (* Cross-validation *)
       '(cv_scores, cv_models, feature_importance_cv) ←
         cross_validate X_train y_train Config.N_SPLITS None;
       (* Use mean best iteration from CV *)
       best_iter ← liftL (py_int (np_mean (map best_iteration cv_models)));
       mret (Some cv_scores, Some feature_importance_cv, Some best_iter)
     else mret (None, None, None));
  (* Train final model *)
  final_model ← train_final_model X_train y_train None best_iter;
  (* Get feature importance from final model *)
  let importance :=
    match feature_importance_cv with
    | Some fi => fi
    | None => final_importance (names X_train) (feature_importance final_model)
    end in
  mret (final_model, cv_scores, importance).

End Training.

(** ** Threshold selection: [evaluate.py] *)

(** *** [sklearn.metrics.roc_curve], default arguments *)

(** One point of the curve: the counts of false and true positives among
    the samples scored at least [pt_thr]. *)
Record point := mkPoint {
  pt_fps : nat;
  pt_tps : nat;
  pt_thr : f64
}.

(** Labels must be 0 or 1; scores must be finite. *)
Definition binary_label (y : f64) : result bool :=
  if f64_eqb y (Fin 1) then Ok true
  else if f64_eqb y (Fin 0) then Ok false
  else Raise ValueError.

Definition finite_score (s : f64) : result Q :=
  match s with
  | Fin q => Ok q
  | _ => Raise ValueError
  end.

(** Cumulative counts along the samples in decreasing score order, read off
    at the last sample of every run of equal scores. *)
Fixpoint binary_clf_curve (fps tps : nat) (l : list (Q * bool)) : list point :=
  match l with
  | [] => []
  | (s, y) :: l' =>
      let tps' := if y then S tps else tps in
      let fps' := if y then fps else S fps in
      match l' with
      | [] => [mkPoint fps' tps' (Fin s)]
      | (s', _) :: _ =>
          if Qeq_bool s s' then binary_clf_curve fps' tps' l'
          else mkPoint fps' tps' (Fin s) :: binary_clf_curve fps' tps' l'
      end
  end.

(** A point is kept when the second difference of either count is non-zero
    there, that is, when the curve bends. *)
Definition bends (prev cur next : point) : bool :=
  let d2 (f : point → nat) :=
    ((Z.of_nat (f next) - Z.of_nat (f cur)) - (Z.of_nat (f cur) - Z.of_nat (f prev)))%Z in
  negb (d2 pt_fps =? 0)%Z || negb (d2 pt_tps =? 0)%Z.

Fixpoint drop_collinear (prev : point) (l : list point) : list point :=
  match l with
  | [] => []
  | cur :: l' =>
      match l' with
      | [] => [cur]
      | next :: _ =>
          if bends prev cur next then cur :: drop_collinear cur l'
          else drop_collinear cur l'
      end
  end.

(** [drop_intermediate=True]: with more than two points, the first and the
    last are kept and, in between, those where the curve bends. *)
Definition drop_intermediate (pts : list point) : list point :=
  if (2 <? length pts)%nat then
    match pts with
    | [] => []
    | p :: l => p :: drop_collinear p l
    end
  else pts.

(** Counts divided by the last count; a last count of zero gives an array
    of [NaN] (and a warning). *)
Definition rates (counts : list nat) : list f64 :=
  match last counts with
  | Some (S n) => map (fun c => f64_div (f64_of_nat c) (f64_of_nat (S n))) counts
  | _ => map (fun _ => NaN) counts
  end.

Definition score_leb (a b : Q * bool) : bool := Qle_bool (fst a) (fst b).

(** [roc_curve(y_true, y_score)]: the samples are ordered by a stable
    ascending sort that is then reversed; the curve starts at an extra
    point with no positive prediction and threshold [+inf]. *)
Definition roc_curve (y_true y_score : list f64)
  : result (list f64 * list f64 * list f64) :=
  if negb (length y_true =? length y_score)%nat then Raise ValueError else
  labels ← mapR binary_label y_true;
  scores ← mapR finite_score y_score;
  match zip scores labels with
  | [] => Raise ValueError
  | samples =>
      let desc := reverse (sort_by score_leb samples) in
      let pts := drop_intermediate (binary_clf_curve 0 0 desc) in
      let fps := O :: map pt_fps pts in
      let tps := O :: map pt_tps pts in
      let thresholds := PInf :: map pt_thr pts in
      Ok (rates fps, rates tps, thresholds)
  end.

(** [np.argmax]: the first index holding the maximum; a [NaN] counts as the
    maximum. *)
Fixpoint argmax_from (best : f64) (best_i i : nat) (l : list f64) : nat :=
  match l with
  | [] => best_i
  | x :: l' =>
      if isnan best then best_i
      else if isnan x || f64_ltb best x then argmax_from x i (S i) l'
      else argmax_from best best_i (S i) l'
  end.

Definition np_argmax (l : list f64) : result nat :=
  match l with
  | [] => Raise ValueError
  | x :: l' => Ok (argmax_from x 0 1 l')
  end.

(** [find_optimal_threshold(y_true, y_pred_proba)] *)
Definition find_optimal_threshold (y_true y_pred_proba : list f64) : result f64 :=
  '(fpr, tpr, thresholds) ← roc_curve y_true y_pred_proba;
  (* Youden's J statistic: TPR - FPR *)
  let j_scores := zip_with f64_sub tpr fpr in
  optimal_idx ← np_argmax j_scores;
  Ok (nth optimal_idx thresholds NaN).

(** ** Evaluation and submission: [evaluate.py] *)

(** What a call of [evaluate.py] comes to: a value, the [IndexError] of a
    subscript past the end of a list, or an exception of a library. *)
Inductive outcome (A : Type) :=
| Returned (a : A)
| IndexError
| Raised (e : exn).
Arguments Returned {A} a.
Arguments IndexError {A}.
Arguments Raised {A} e.

(** The default of [create_risk_segments]. *)
Definition SEGMENT_THRESHOLDS : list f64 := [Fin (1 # 10); Fin (3 # 10); Fin (5 # 10)].

(** The body of the loop of [create_risk_segments]: a threshold is
    subscripted only when the comparison before it has failed. *)
Definition risk_segment (thresholds : list f64) (pred : f64) : outcome string :=
  match thresholds !! 0%nat with
  | None => IndexError
  | Some t0 =>
      if f64_ltb pred t0 then Returned "Very Low Risk"
      else
        match thresholds !! 1%nat with
        | None => IndexError
        | Some t1 =>
            if f64_ltb pred t1 then Returned "Low Risk"
            else
              match thresholds !! 2%nat with
              | None => IndexError
              | Some t2 =>
                  if f64_ltb pred t2 then Returned "Medium Risk"
                  else Returned "High Risk"
              end
        end
  end.

(** [create_risk_segments(predictions, thresholds)] *)
Fixpoint create_risk_segments (predictions : list f64) (thresholds : list f64)
  : outcome (list string) :=
  match predictions with
  | [] => Returned []
  | pred :: rest =>
      match risk_segment thresholds pred with
      | Returned s =>
          match create_risk_segments rest thresholds with
          | Returned segments => Returned (s :: segments)
          | IndexError => IndexError
          | Raised e => Raised e
          end
      | IndexError => IndexError
      | Raised e => Raised e
      end
  end.

(** The dictionary [evaluate_model] returns. *)
Record Metrics := mkMetrics {
  roc_auc : f64;
  threshold : f64;
  predictions_proba : list f64;
  predictions : list Z
}.

Section Evaluation.

(** The trained model and the two scikit-learn metrics; the classification
    report is printed only, but computing it may raise. *)
Variable Booster : Type.
Variable best_iteration : Booster → Z.
Variable predict : Booster → DataFrame → Z → list f64.
Variable roc_auc_score : Series → list f64 → result f64.
Variable classification_report : Series → list Z → result unit.

(** [evaluate_model(model, X_val, y_val, threshold)] *)
Definition evaluate_model (model : Booster) (X_val : DataFrame) (y_val : Series)
    (threshold : f64) : result Metrics :=
  (* Get predictions *)
  let y_pred_proba := predict model X_val (best_iteration model) in
  let y_pred := map (fun p => if f64_leb threshold p then 1 else 0) y_pred_proba in
  (* Calculate metrics *)
  roc_auc ← roc_auc_score y_val y_pred_proba;
  let metrics := {| roc_auc := roc_auc;
                    threshold := threshold;
                    predictions_proba := y_pred_proba;
                    predictions := y_pred |} in
  (* Classification report *)
  _ ← classification_report y_val y_pred;
  Ok metrics.

(** [predict_test_set(model, X_test, test_ids)].  The submission frame
    takes the rows of [test_ids], numbered from 0 as [run_preprocessing]
    leaves them; a prediction array of another length is a [ValueError]. *)
Definition predict_test_set (model : Booster) (X_test : DataFrame) (test_ids : Series)
  : outcome DataFrame :=
  let test_predictions := predict model X_test (best_iteration model) in
  (* Create submission *)
  if negb (length test_predictions =? series_len test_ids)%nat then Raised ValueError
  else
    let submission :=
      {| index := RangeIndex (series_len test_ids);
         columns := [("SK_ID_CURR", test_ids); ("TARGET", Float64 test_predictions)] |} in
    (* Add risk segments *)
    match getnum submission "TARGET" with
    | Raise e => Raised e
    | Ok target =>
        match create_risk_segments target SEGMENT_THRESHOLDS with
        | Returned segments =>
            Returned (setitem submission "RISK_SEGMENT" (Object (map Str segments)))
        | IndexError => IndexError
        | Raised e => Raised e
        end
    end.

End Evaluation.

(** ** Vocabulary of the statements *)

(** The class-imbalance ratio: labels equal to 0 over labels equal to 1. *)
Definition neg_pos_ratio (y : Series) : f64 :=
  f64_div (f64_of_Z (count_eq (Fin 0) y)) (f64_of_Z (count_eq (Fin 1) y)).

(** The arguments [train_lightgbm] hands to [lgb.train] for one fold. *)
Definition fold_call (params : gmap string pvalue) (X : DataFrame) (y : Series)
    (X_val : DataFrame) (y_val : Series) : lgb_call :=
  {| call_params := <["scale_pos_weight" := PNum (neg_pos_ratio y)]> params;
     call_train_set := mkDataset X y;
     call_num_boost_round := Config.NUM_BOOST_ROUND;
     call_valid_sets := [mkDataset X y; mkDataset X_val y_val];
     call_valid_names := ["train"; "valid"];
     call_callbacks := [early_stopping Config.EARLY_STOPPING_ROUNDS; log_evaluation 100] |}.

(** The same, for a fold given by its row positions. *)
Definition call_of_fold (params : gmap string pvalue) (X_train : DataFrame)
    (y_train : Series) (f : list nat * list nat) : lgb_call :=
  fold_call params (iloc X_train (fst f)) (series_iloc y_train (fst f))
            (iloc X_train (snd f)) (series_iloc y_train (snd f)).

(** The arguments [train_final_model] hands to [lgb.train] when it is given
    an iteration count. *)
Definition refit_call (X : DataFrame) (y : Series) (rounds : Z) : lgb_call :=
  {| call_params := <["scale_pos_weight" := PNum (neg_pos_ratio y)]> LGBM_PARAMS;
     call_train_set := mkDataset X y;
     call_num_boost_round := rounds;
     call_valid_sets := [mkDataset X y];
     call_valid_names := ["train"];
     call_callbacks := [log_evaluation 100] |}.

Definition is_early_stopping (c : callback) : bool :=
  if c is early_stopping _ then true else false.

Definition succeeded {A} (r : result A) : bool :=
  if r is Ok _ then true else false.

(** Rounding to the nearest integer, halves upward: the reading of "rounded
    to the nearest integer" against which the code is compared. *)
Definition round_nearest (q : Q) : Z := Qfloor (q + (1 # 2)).

(** The ledger frame as [aggregate_installments] leaves it: the frame it was
    given, with the three derived columns assigned. *)
Definition with_payment_columns (d : DataFrame)
    (payment instalment entry due : list f64) : DataFrame :=
  setitem
    (setitem
       (setitem d "PAYMENT_DIFF" (Float64 (zip_with f64_sub payment instalment)))
       "PAYMENT_RATIO" (Float64 (zip_with f64_div payment instalment)))
    "DAYS_PAYMENT_DELAY" (Float64 (zip_with f64_sub entry due)).

(** [series] is the aggregate [f] of column [col] of [df], one value per
    group of the key column [ks], in the order of the group keys. *)
Definition aggregate_of (df : DataFrame) (ks : list f64) (col : string) (f : aggfn)
    (series : Series) : Prop :=
  ∃ s vals,
    getitem df col = Ok s ∧ series = Float64 vals ∧
    Forall2 (fun k v => agg_apply f s (group_rows ks k) = Ok v) (group_keys ks) vals.

(** The (column, aggregate) pairs of an aggregation dictionary, in order. *)
Definition spec_pairs (spec : list (string * list aggfn)) : list (string * aggfn) :=
  flat_map (fun e => map (pair (fst e)) (snd e)) spec.

(** The order [np.argmax] maximises: the usual one, with [NaN] on top. *)
Definition np_le (x y : f64) : bool := isnan y || (notnan x && f64_leb x y).

(** [i] is the first index at which [l] is greatest. *)
Definition first_argmax (l : list f64) (i : nat) : Prop :=
  ∃ x, l !! i = Some x ∧
       (∀ k y, l !! k = Some y → np_le y x = true) ∧
       (∀ k y, (k < i)%nat → l !! k = Some y → np_le x y = false).

(** A scored sample is on its side of the cut [c]: positives at or above
    it, negatives below. *)
Definition on_its_side (c : Q) (x : Q * bool) : Prop :=
  if snd x then (c <= fst x)%Q else (fst x < c)%Q.

(** A labelled score, the classes separating at [c]: the label is 1 and the
    score at least [c], or the label is 0 and the score below [c]. *)
Definition separated_at (c : Q) (y s : f64) : Prop :=
  ∃ q, s = Fin q ∧
       ((f64_eqb y (Fin 1) = true ∧ (c <= q)%Q) ∨
        (f64_eqb y (Fin 0) = true ∧ (q < c)%Q)).

(** The decision "default when the score reaches [t]" is right on the
    sample. *)
Definition classified_by (t : Q) (y s : f64) : Prop :=
  f64_leb (Fin t) s = f64_eqb y (Fin 1).

(** [preprocess_data] read in two halves.  Lines 221-248: the target and
    the identifiers are set aside, the categorical columns encoded, the
    identifier dropped, the two frames aligned. *)
Definition aligned_frames (repr_float : Q → string) (train_df test_df : DataFrame)
    (target : string) : result (DataFrame * DataFrame * Series * Series * Series) :=
  y_train ← getitem train_df target;
  train_df ← drop train_df [target];
  train_ids ← getitem train_df "SK_ID_CURR";
  test_ids ← getitem test_df "SK_ID_CURR";
  let categorical_cols := select_dtypes_object train_df in
  '(train_df, test_df) ←
    foldR (encode_column repr_float) (train_df, test_df) categorical_cols;
  train_df ← drop train_df ["SK_ID_CURR"];
  test_df ← drop test_df ["SK_ID_CURR"];
  let '(train_df, test_df) := align_inner train_df test_df in
  Ok (train_df, test_df, y_train, train_ids, test_ids).

(** What the first half makes of a training column [a] and the test column
    [b] of the same label: a numeric training column and its test column are
    taken as they are; an object training column and its test column become
    the codes of one encoder fit on the train values followed by the test
    values. *)
Definition aligned_column (repr_float : Q → string) (a b a' b' : Series) : Prop :=
  match a with
  | Float64 _ => a' = a ∧ b' = b
  | Object cs =>
      ∃ codes,
        LabelEncoder.fit_transform (map (astype_str repr_float) (cs ++ cells b)) = Ok codes ∧
        a' = Float64 (map f64_of_nat (take (length cs) codes)) ∧
        b' = Float64 (map f64_of_nat (List.skipn (length cs) codes))
  end.

(** Lines 252-273: the high-missingness filter, the imputation loop, the
    removal of infinities and the final fill. *)
Definition finalize_frames (train_df test_df : DataFrame) : result (DataFrame * DataFrame) :=
  let high_missing := high_missing_cols train_df in
  '(train_df, test_df) ←
    (if (0 <? length high_missing)%nat then
       train_df ← drop train_df high_missing;
       test_df ← drop test_df high_missing;
       Ok (train_df, test_df)
     else Ok (train_df, test_df));
  '(train_df, test_df) ← foldR impute_column (train_df, test_df) (names train_df);
  let train_df := df_replace_inf train_df in
  let test_df := df_replace_inf test_df in
  train_median ← df_median train_df;
  let train_df := df_fillna train_df train_median in
  train_median ← df_median train_df;
  let test_df := df_fillna test_df train_median in
  Ok (train_df, test_df).

(** Line 254 for one column: [k] missing values among [n] rows are more than
    the threshold allows. *)
Definition exceeds_threshold (k n : nat) : bool :=
  f64_gtb (f64_mul (f64_div (f64_of_nat k) (f64_of_nat n)) (Fin 100))
          (f64_mul (Fin Config.MISSING_THRESHOLD) (Fin 100)).

(** Lines 262-273 read column by column.  What becomes of a retained
    training column with data [xs] ... *)
Definition reconcile_train (xs : list f64) : list f64 :=
  let xs1 := if (0 <? count_nan xs)%nat then map (fill (median xs)) xs else xs in
  let xs2 := map inf_to_nan xs1 in
  map (fill (median xs2)) xs2.

(** ... and of the test column [s] that goes with it. *)
Definition reconcile_test (xs : list f64) (s : Series) : Series :=
  let s1 := if (0 <? count_nan xs)%nat then fillna (median xs) s else s in
  let s2 := replace_inf s1 in
  fillna (median (reconcile_train xs)) s2.

(** The cell of column [s] in row [i]. *)
Definition cell_at (s : Series) (i : nat) : cell := nth i (cells s) (Num NaN).

(** ** A toy instance of the libraries, for concrete runs *)

(** The applicant key [k] has no row in a ledger whose key column is [ks]. *)
Definition absent (k : f64) (ks : list f64) : Prop :=
  ∀ x, x ∈ ks → f64_eqb k x = false.

(** Row [i] holds a missing value in every one of the columns. *)
Definition row_missing (i : nat) (cols : list (string * Series)) : Prop :=
  ∀ c, c ∈ cols → cells (snd c) !! i = Some (Num NaN).

(** A key column in which no key is missing and no key occurs twice. *)
Definition distinct_keys (ks : list f64) : Prop :=
  Forall (fun k => isnan k = false) ks ∧
  ∀ i j x y, ks !! i = Some x → ks !! j = Some y → f64_eqb x y = true → i = j.

(** The partner of a left key in a right key column: its first match. *)
Definition partner (rk : list f64) (k : f64) : option nat :=
  head (matching_rows rk k).

(** The label of a left-hand column after [left.merge(right, on=on)], and
    the label of a right-hand column: a label on both sides gets a suffix. *)
Definition left_label (on : string) (rnames : list string) (c : string) : string :=
  if negb (String.eqb c on) && mem c rnames then c +:+ "_x" else c.

Definition right_label (lnames : list string) (c : string) : string :=
  if mem c lnames then c +:+ "_y" else c.

(** The flat labels of an aggregation dictionary:
    [prefix + '_'.join(col).upper()] for every (column, aggregate) pair. *)
Definition flat_labels (prefix : string) (spec : list (string * list aggfn)) : list string :=
  map (fun p => flat_name prefix (fst p, aggfn_name (snd p))) (spec_pairs spec).

(** The labels of [left.merge(right, left_index=True, right_index=True)]. *)
Definition joined_labels (lnames rnames : list string) : list string :=
  map (fun c => if mem c lnames && mem c rnames then c +:+ "_x" else c) lnames ++
  map (fun c => if mem c lnames && mem c rnames then c +:+ "_y" else c) rnames.

(** The feature columns of the three aggregated ledger tables, next to
    their key column [SK_ID_CURR]. *)
Definition bureau_features : list string :=
  ["BUREAU_SK_ID_BUREAU_COUNT"; "BUREAU_DAYS_CREDIT_MIN"; "BUREAU_DAYS_CREDIT_MAX";
   "BUREAU_DAYS_CREDIT_MEAN"; "BUREAU_CREDIT_DAY_OVERDUE_MAX";
   "BUREAU_CREDIT_DAY_OVERDUE_MEAN"; "BUREAU_DAYS_CREDIT_ENDDATE_MIN";
   "BUREAU_DAYS_CREDIT_ENDDATE_MAX"; "BUREAU_DAYS_CREDIT_ENDDATE_MEAN";
   "BUREAU_AMT_CREDIT_MAX_OVERDUE_MAX"; "BUREAU_CNT_CREDIT_PROLONG_SUM";
   "BUREAU_AMT_CREDIT_SUM_MAX"; "BUREAU_AMT_CREDIT_SUM_MEAN";
   "BUREAU_AMT_CREDIT_SUM_SUM"; "BUREAU_AMT_CREDIT_SUM_DEBT_MAX";
   "BUREAU_AMT_CREDIT_SUM_DEBT_MEAN"; "BUREAU_AMT_CREDIT_SUM_DEBT_SUM";
   "BUREAU_AMT_CREDIT_SUM_OVERDUE_MEAN"; "BUREAU_DAYS_CREDIT_UPDATE_MIN";
   "BUREAU_DAYS_CREDIT_UPDATE_MAX"; "BUREAU_DAYS_CREDIT_UPDATE_MEAN";
   "BUREAU_AMT_ANNUITY_MAX"; "BUREAU_AMT_ANNUITY_MEAN"; "BUREAU_ACTIVE_COUNT";
   "BUREAU_ACTIVE_DEBT"; "BUREAU_CLOSED_COUNT"; "BUREAU_CLOSED_DAYS_CREDIT_MAX"].

Definition previous_features : list string :=
  ["PREV_SK_ID_PREV_COUNT"; "PREV_AMT_ANNUITY_MIN"; "PREV_AMT_ANNUITY_MAX";
   "PREV_AMT_ANNUITY_MEAN"; "PREV_AMT_APPLICATION_MIN"; "PREV_AMT_APPLICATION_MAX";
   "PREV_AMT_APPLICATION_MEAN"; "PREV_AMT_CREDIT_MIN"; "PREV_AMT_CREDIT_MAX";
   "PREV_AMT_CREDIT_MEAN"; "PREV_AMT_DOWN_PAYMENT_MIN"; "PREV_AMT_DOWN_PAYMENT_MAX";
   "PREV_AMT_DOWN_PAYMENT_MEAN"; "PREV_AMT_GOODS_PRICE_MIN";
   "PREV_AMT_GOODS_PRICE_MAX"; "PREV_AMT_GOODS_PRICE_MEAN";
   "PREV_HOUR_APPR_PROCESS_START_MIN"; "PREV_HOUR_APPR_PROCESS_START_MAX";
   "PREV_HOUR_APPR_PROCESS_START_MEAN"; "PREV_RATE_DOWN_PAYMENT_MIN";
   "PREV_RATE_DOWN_PAYMENT_MAX"; "PREV_RATE_DOWN_PAYMENT_MEAN";
   "PREV_DAYS_DECISION_MIN"; "PREV_DAYS_DECISION_MAX"; "PREV_DAYS_DECISION_MEAN";
   "PREV_CNT_PAYMENT_MEAN"; "PREV_CNT_PAYMENT_SUM"; "PREV_APPROVED_COUNT";
   "PREV_APPROVED_CREDIT"; "PREV_REFUSED_COUNT"].

Definition installments_features : list string :=
  ["INST_SK_ID_PREV_COUNT"; "INST_NUM_INSTALMENT_NUMBER_MAX";
   "INST_NUM_INSTALMENT_NUMBER_MEAN"; "INST_NUM_INSTALMENT_VERSION_MAX";
   "INST_DAYS_INSTALMENT_MIN"; "INST_DAYS_INSTALMENT_MAX"; "INST_DAYS_INSTALMENT_MEAN";
   "INST_DAYS_ENTRY_PAYMENT_MIN"; "INST_DAYS_ENTRY_PAYMENT_MAX";
   "INST_DAYS_ENTRY_PAYMENT_MEAN"; "INST_AMT_INSTALMENT_MIN";
   "INST_AMT_INSTALMENT_MAX"; "INST_AMT_INSTALMENT_MEAN"; "INST_AMT_INSTALMENT_SUM";
   "INST_AMT_PAYMENT_MIN"; "INST_AMT_PAYMENT_MAX"; "INST_AMT_PAYMENT_MEAN";
   "INST_AMT_PAYMENT_SUM"; "INST_PAYMENT_DIFF_MIN"; "INST_PAYMENT_DIFF_MAX";
   "INST_PAYMENT_DIFF_MEAN"; "INST_PAYMENT_DIFF_SUM"; "INST_PAYMENT_RATIO_MIN";
   "INST_PAYMENT_RATIO_MAX"; "INST_PAYMENT_RATIO_MEAN"; "INST_DAYS_PAYMENT_DELAY_MIN";
   "INST_DAYS_PAYMENT_DELAY_MAX"; "INST_DAYS_PAYMENT_DELAY_MEAN"].

(** The columns carry the given labels, a label that was already taken in
    the frame they were merged onto with the suffix [_y]. *)
Definition labelled (cols : list (string * Series)) (labels : list string) : Prop :=
  Forall2 (fun c n => fst c = n ∨ fst c = n +:+ "_y") cols labels.

(** An aggregated ledger table: one row per key of the ledger's key column
    [ks], the key in the first column, then the feature columns. *)
Definition ledger_table (T : DataFrame) (ks : list f64) (features : list string) : Prop :=
  ∃ cols,
    columns T = ("SK_ID_CURR", Float64 (group_keys ks)) :: cols ∧
    map fst cols = features.

(** [d] has the rows of [d0]: the same index and the same applicant key
    column, and it is a well-formed frame. *)
Definition same_rows (d0 d : DataFrame) : Prop :=
  wf d = true ∧ index d = index d0 ∧
  assoc "SK_ID_CURR" (columns d) = assoc "SK_ID_CURR" (columns d0).

(** [merged] is the applicant frame [fe] after the three ledger merges: the
    same rows under the same keys, the columns of [fe] as they were, then
    one block of feature columns per ledger; a row whose key is in no row of
    a ledger ([bk], [pk], [ik] are the key columns of the bureau, previous
    application and installments ledgers) is missing in all of that
    ledger's block. *)
Definition left_joined (fe merged : DataFrame) (bk pk ik : list f64) : Prop :=
  ∃ ids L CB CP CI,
    getnum fe "SK_ID_CURR" = Ok ids ∧
    getnum merged "SK_ID_CURR" = Ok ids ∧
    index merged = RangeIndex (len fe) ∧
    wf merged = true ∧
    columns merged = L ++ CB ++ CP ++ CI ∧
    map snd L = map snd (columns fe) ∧
    labelled CB bureau_features ∧
    labelled CP previous_features ∧
    labelled CI installments_features ∧
    ∀ i k, ids !! i = Some k →
      (absent k bk → row_missing i CB) ∧
      (absent k pk → row_missing i CP) ∧
      (absent k ik → row_missing i CI).

(** None of the labels, with or without the suffix, is among [taken]. *)
Definition apart (labels taken : list string) : bool :=
  forallb (fun n => negb (mem n taken) && negb (mem (n +:+ "_y") taken)) labels.

(** The missing values the filter of line 253 sees in a training column:
    those of a numeric column; a categorical column is encoded by then and
    has none. *)
Definition missing_count (s : Series) : nat :=
  match s with
  | Float64 xs => count_nan xs
  | Object _ => O
  end.

(** The training column [c] becomes a feature: it is neither the target nor
    the identifier, the test frame has it, and its missing values do not
    exceed the threshold. *)
Definition is_feature (train test : DataFrame) (target c : string) : bool :=
  negb (String.eqb c target) && negb (String.eqb c "SK_ID_CURR") &&
  mem c (names test) &&
  match assoc c (columns train) with
  | Some s => negb (exceeds_threshold (missing_count s) (len train))
  | None => false
  end.

(** The columns [engineer_application_features] assigns besides
    [DAYS_EMPLOYED], in the order of the assignments. *)
Definition engineered_columns : list string :=
  ["AGE_YEARS"; "EMPLOYMENT_YEARS"; "INCOME_PER_PERSON"; "INCOME_PER_CHILD";
   "CREDIT_INCOME_RATIO"; "ANNUITY_INCOME_RATIO"; "CREDIT_TERM"; "CREDIT_GOODS_RATIO";
   "PAYMENT_RATE"; "DAYS_EMPLOYED_PERCENT"; "EXT_SOURCE_MEAN"; "EXT_SOURCE_STD";
   "EXT_SOURCE_PROD"; "DOCUMENT_COUNT"; "HAS_MOBILE"; "HAS_WORK_PHONE"; "HAS_PHONE";
   "HAS_EMAIL"; "CONTACT_COUNT"; "REGION_RATING_DIFF"].

(** The assignments of [engineer_application_features], in their order, on
    the frame [d] and the columns the function has read from it. *)
Definition engineered_frame (fsqrt : Q → Q) (d : DataFrame)
    (birth : list f64) (employed_raw : Series) (employed : list f64)
    (income fam children credit annuity goods e1 e2 e3 : list f64)
    (docs : list (list f64)) (mobil work_phone phone email : Series)
    (region region_city : list f64) : DataFrame :=
  let years xs := Float64 (map (fun x => f64_div (f64_neg x) (Fin 365)) xs) in
  let flag s := map (fun c => if cell_eq_num (Fin 1) c then Fin 1 else Fin 0) (cells s) in
  let df := setitem d "AGE_YEARS" (years birth) in
  let df := setitem df "DAYS_EMPLOYED" (replace_value (Fin 365243) NaN employed_raw) in
  let df := setitem df "EMPLOYMENT_YEARS" (years employed) in
  let df := setitem df "EMPLOYMENT_YEARS" (fillna (Fin 0) (years employed)) in
  let df := setitem df "INCOME_PER_PERSON" (Float64 (zip_with f64_div income fam)) in
  let df := setitem df "INCOME_PER_CHILD"
              (Float64 (zip_with f64_div income (map (f64_add (Fin 1)) children))) in
  let df := setitem df "CREDIT_INCOME_RATIO" (Float64 (zip_with f64_div credit income)) in
  let df := setitem df "ANNUITY_INCOME_RATIO" (Float64 (zip_with f64_div annuity income)) in
  let df := setitem df "CREDIT_TERM" (Float64 (zip_with f64_div credit annuity)) in
  let df := setitem df "CREDIT_GOODS_RATIO" (Float64 (zip_with f64_div credit goods)) in
  let df := setitem df "PAYMENT_RATE" (Float64 (zip_with f64_div annuity credit)) in
  let df := setitem df "DAYS_EMPLOYED_PERCENT" (Float64 (zip_with f64_div employed birth)) in
  let df := setitem df "EXT_SOURCE_MEAN" (Float64 (rowwise nanmean (len d) [e1; e2; e3])) in
  let df := setitem df "EXT_SOURCE_STD"
              (Float64 (rowwise (nanstd fsqrt) (len d) [e1; e2; e3])) in
  let df := setitem df "EXT_SOURCE_PROD"
              (Float64 (zip_with f64_mul (zip_with f64_mul e1 e2) e3)) in
  let df := setitem df "DOCUMENT_COUNT" (Float64 (rowwise nansum (len d) docs)) in
  let df := setitem df "HAS_MOBILE" (Float64 (flag mobil)) in
  let df := setitem df "HAS_WORK_PHONE" (Float64 (flag work_phone)) in
  let df := setitem df "HAS_PHONE" (Float64 (flag phone)) in
  let df := setitem df "HAS_EMAIL" (Float64 (flag email)) in
  let df := setitem df "CONTACT_COUNT"
              (Float64 (zip_with f64_add
                          (zip_with f64_add (zip_with f64_add (flag mobil) (flag work_phone))
                                    (flag phone))
                          (flag email))) in
  setitem df "REGION_RATING_DIFF" (Float64 (zip_with f64_sub region region_city)).

(** The key column of an aggregated table over a ledger with key column
    [ks]: strictly increasing, nothing missing, and one key for every key
    of the ledger that is not missing. *)
Definition keys_of_ledger (keys ks : list f64) : Prop :=
  StronglySorted (fun a b => f64_ltb a b = true) keys ∧
  Forall (fun k => isnan k = false) keys ∧
  (∀ y, y ∈ keys → y ∈ ks) ∧
  (∀ x, x ∈ ks → isnan x = false → ∃ y, y ∈ keys ∧ f64_eqb x y = true).

(** The labels a merge with a ledger table can give a column: a feature
    label of the table, bare or with one of the two suffixes. *)
Definition merge_labels (features : list string) : list string :=
  features ++ map (fun n => n +:+ "_x") features ++ map (fun n => n +:+ "_y") features.

Definition ledger_labels : list string :=
  merge_labels bureau_features ++ merge_labels previous_features
  ++ merge_labels installments_features.

(** The arguments [train_final_model] hands to [lgb.train] when it is given
    no iteration count: all the rounds, stopped early on the training set
    itself. *)
Definition final_call (X : DataFrame) (y : Series) : lgb_call :=
  {| call_params := <["scale_pos_weight" := PNum (neg_pos_ratio y)]> LGBM_PARAMS;
     call_train_set := mkDataset X y;
     call_num_boost_round := Config.NUM_BOOST_ROUND;
     call_valid_sets := [mkDataset X y];
     call_valid_names := ["train"];
     call_callbacks := [early_stopping Config.EARLY_STOPPING_ROUNDS; log_evaluation 100] |}.

(** The rank of a risk segment, from the lowest risk to the highest. *)
Definition segment_rank (s : string) : nat :=
  if String.eqb s "Very Low Risk" then 0
  else if String.eqb s "Low Risk" then 1
  else if String.eqb s "Medium Risk" then 2
  else 3.

(** The label a score gets when defaults are predicted from [t] upwards. *)
Definition decide_at (t p : f64) : Z := if f64_leb t p then 1 else 0.

(** A label as a class: 1 for a default, 0 otherwise. *)
Definition class_of (y : f64) : Z := if f64_eqb y (Fin 1) then 1 else 0.

(** The points [roc_curve] keeps from the curve of the scored samples. *)
Definition kept_points (samples : list (Q * bool)) : list point :=
  drop_intermediate (binary_clf_curve 0 0 (reverse (sort_by score_leb samples))).

Module Toy.

(** A booster is represented by its best iteration: ten plus the number
  of positive labels it was trained on. *)
Definition Booster : Type := Z.
Definition lgb_train_oracle (c : lgb_call) : result Booster :=
Ok (10 + count_eq (Fin 1) (ds_label (call_train_set c))).
Definition best_iteration (b : Booster) : Z := b.
Definition predict (b : Booster) (X : DataFrame) (n : Z) : list f64 :=
replicate (len X) (Fin (1 # 2)).
Definition feature_importance (b : Booster) : list f64 := [].

(** Leave-one-out over the first [n_splits] rows. *)
Definition kfold_split (n_splits : nat) (seed : Z) (X : DataFrame) (y : Series)
: result (list (list nat * list nat)) :=
Ok (map (fun k => (List.filter (fun i => negb (i =? k)%nat) (seq 0 (len X)), [k]))
        (seq 0 n_splits)).
Definition roc_auc_score (y : Series) (p : list f64) : result f64 := Ok (Fin (1 # 2)).

Definition Importance : Type := unit.
Definition aggregate_importance (l : list (nat * list string * list f64)) : Importance := tt.
Definition final_importance (n : list string) (g : list f64) : Importance := tt.

Definition cross_validate :=
cross_validate Booster lgb_train_oracle best_iteration predict feature_importance
               kfold_split roc_auc_score Importance aggregate_importance.

Definition run_training :=
run_training Booster lgb_train_oracle best_iteration predict feature_importance
             kfold_split roc_auc_score Importance aggregate_importance final_importance.

(** Five applicants, one feature. *)
Definition X5 : DataFrame :=
{| index := RangeIndex 5;
   columns := [("AMT_CREDIT", Float64 [Fin 1; Fin 2; Fin 3; Fin 4; Fin 5])] |}.

(** One defaulter among five: the fold that holds it out trains on none. *)
Definition y_one_positive : Series := Float64 [Fin 1; Fin 0; Fin 0; Fin 0; Fin 0].

(** Two defaulters among five. *)
Definition y_two_positive : Series := Float64 [Fin 1; Fin 1; Fin 0; Fin 0; Fin 0].

(** An installments ledger: applicant 7 paid twice, applicant 9 once. *)
Definition inst_ledger : DataFrame :=
{| index := RangeIndex 3;
   columns :=
     [("SK_ID_PREV", Float64 [Fin 100; Fin 100; Fin 200]);
      ("SK_ID_CURR", Float64 [Fin 7; Fin 7; Fin 9]);
      ("NUM_INSTALMENT_VERSION", Float64 [Fin 1; Fin 2; Fin 1]);
      ("NUM_INSTALMENT_NUMBER", Float64 [Fin 1; Fin 2; Fin 1]);
      ("DAYS_INSTALMENT", Float64 [Fin (-60); Fin (-30); Fin (-10)]);
      ("DAYS_ENTRY_PAYMENT", Float64 [Fin (-61); Fin (-25); Fin (-10)]);
      ("AMT_INSTALMENT", Float64 [Fin 50; Fin 50; Fin 0]);
      ("AMT_PAYMENT", Float64 [Fin 50; Fin 40; Fin 20])] |}.

(** Scores of four applicants, the classes separating at 0.6. *)
Definition y_true : list f64 := [Fin 0; Fin 1; Fin 0; Fin 1].
Definition y_score : list f64 := [Fin (2 # 10); Fin (9 # 10); Fin (5 # 10); Fin (7 # 10)].

(** Twenty applicants: a categorical column with missing values, a column
    75% missing and a column 65% missing. *)
Definition train20 : DataFrame :=
  {| index := RangeIndex 20;
     columns :=
       [("SK_ID_CURR", Float64 (map f64_of_nat (seq 1 20)));
        ("TARGET", Float64 (replicate 18 (Fin 0) ++ [Fin 1; Fin 1]));
        ("OCCUPATION",
         Object ([Str "driver"; Num NaN; Str "cook"; Str "driver"; Num NaN]
                 ++ replicate 15 (Str "cook")));
        ("GAP75", Float64 (replicate 15 NaN ++ [Fin 1; Fin 2; Fin 3; Fin 4; Fin 5]));
        ("GAP65", Float64 (replicate 13 NaN
                           ++ [Fin 1; Fin 2; Fin 3; Fin 4; Fin 5; Fin 6; Fin 7]))] |}.

Definition test4 : DataFrame :=
  {| index := RangeIndex 4;
     columns :=
       [("SK_ID_CURR", Float64 [Fin 101; Fin 102; Fin 103; Fin 104]);
        ("GAP65", Float64 [NaN; Fin 9; NaN; Fin 2]);
        ("GAP75", Float64 [Fin 1; NaN; Fin 3; Fin 4]);
        ("OCCUPATION", Object [Str "pilot"; Num NaN; Str "cook"; Str "driver"])] |}.

(** Three applicants whose ratio column holds no finite value: a missing
    one and two divisions by zero. *)
Definition train_inf : DataFrame :=
  {| index := RangeIndex 3;
     columns :=
       [("SK_ID_CURR", Float64 [Fin 1; Fin 2; Fin 3]);
        ("TARGET", Float64 [Fin 0; Fin 1; Fin 0]);
        ("CREDIT_TERM", Float64 [NaN; PInf; PInf]);
        ("AMT_CREDIT", Float64 [Fin 10; Fin 20; Fin 30])] |}.

Definition test_inf : DataFrame :=
  {| index := RangeIndex 2;
     columns :=
       [("SK_ID_CURR", Float64 [Fin 7; Fin 8]);
        ("CREDIT_TERM", Float64 [Fin 5; NaN]);
        ("AMT_CREDIT", Float64 [Fin 40; Fin 50])] |}.

Definition sqrt_stub (q : Q) : Q := q.
Definition repr_stub (q : Q) : string := "0.0".

Definition empty_frame : DataFrame := {| index := RangeIndex 0; columns := [] |}.

(** The result of reconciling [train20] and [test4]. *)
Definition reconciled20 :=
  Eval vm_compute in preprocess_data repr_stub train20 test4 "TARGET".
Definition X_train20 : DataFrame :=
  Eval vm_compute in if reconciled20 is Ok (a, _, _, _, _) then a else empty_frame.
Definition X_test4 : DataFrame :=
  Eval vm_compute in if reconciled20 is Ok (_, b, _, _, _) then b else empty_frame.
Definition y_train20 : Series :=
  Eval vm_compute in if reconciled20 is Ok (_, _, y, _, _) then y else Float64 [].
Definition train_ids20 : Series :=
  Eval vm_compute in if reconciled20 is Ok (_, _, _, i, _) then i else Float64 [].
Definition test_ids4 : Series :=
  Eval vm_compute in if reconciled20 is Ok (_, _, _, _, i) then i else Float64 [].

(** Two applicants per split and three small ledgers.  Applicant 7 has
    bureau credits and instalments, applicant 8 has none of either, and no
    applicant of the training split has a previous application. *)
Definition applicants (ids : list f64) (target : list (string * Series)) : DataFrame :=
{| index := RangeIndex 2;
   columns :=
     ("SK_ID_CURR", Float64 ids) :: target ++
     [("DAYS_BIRTH", Float64 [Fin (-14600); Fin (-10950)]);
      ("DAYS_EMPLOYED", Float64 [Fin (-730); Fin 365243]);
      ("AMT_INCOME_TOTAL", Float64 [Fin 1000; Fin 2000]);
      ("CNT_FAM_MEMBERS", Float64 [Fin 2; Fin 1]);
      ("CNT_CHILDREN", Float64 [Fin 1; Fin 0]);
      ("AMT_CREDIT", Float64 [Fin 5000; Fin 8000]);
      ("AMT_ANNUITY", Float64 [Fin 500; Fin 400]);
      ("AMT_GOODS_PRICE", Float64 [Fin 4500; Fin 8000]);
      ("EXT_SOURCE_1", Float64 [Fin (1 # 2); NaN]);
      ("EXT_SOURCE_2", Float64 [Fin (1 # 4); Fin (3 # 4)]);
      ("EXT_SOURCE_3", Float64 [NaN; Fin (1 # 4)]);
      ("FLAG_DOCUMENT_3", Float64 [Fin 1; Fin 0]);
      ("FLAG_MOBIL", Float64 [Fin 1; Fin 1]);
      ("FLAG_WORK_PHONE", Float64 [Fin 0; Fin 1]);
      ("FLAG_PHONE", Float64 [Fin 1; Fin 0]);
      ("FLAG_EMAIL", Float64 [Fin 0; Fin 0]);
      ("REGION_RATING_CLIENT", Float64 [Fin 2; Fin 3]);
      ("REGION_RATING_CLIENT_W_CITY", Float64 [Fin 2; Fin 2])] |}.

Definition bureau_ledger : DataFrame :=
{| index := RangeIndex 3;
   columns :=
     [("SK_ID_CURR", Float64 [Fin 7; Fin 7; Fin 3]);
      ("SK_ID_BUREAU", Float64 [Fin 51; Fin 52; Fin 53]);
      ("CREDIT_ACTIVE", Object [Str "Active"; Str "Closed"; Str "Active"]);
      ("DAYS_CREDIT", Float64 [Fin (-400); Fin (-900); Fin (-100)]);
      ("CREDIT_DAY_OVERDUE", Float64 [Fin 0; Fin 0; Fin 5]);
      ("DAYS_CREDIT_ENDDATE", Float64 [Fin 300; Fin (-200); NaN]);
      ("AMT_CREDIT_MAX_OVERDUE", Float64 [NaN; Fin 0; Fin 10]);
      ("CNT_CREDIT_PROLONG", Float64 [Fin 0; Fin 1; Fin 0]);
      ("AMT_CREDIT_SUM", Float64 [Fin 1000; Fin 3000; Fin 500]);
      ("AMT_CREDIT_SUM_DEBT", Float64 [Fin 400; Fin 0; Fin 500]);
      ("AMT_CREDIT_SUM_OVERDUE", Float64 [Fin 0; Fin 0; Fin 20]);
      ("DAYS_CREDIT_UPDATE", Float64 [Fin (-10); Fin (-200); Fin (-5)]);
      ("AMT_ANNUITY", Float64 [Fin 100; NaN; Fin 50])] |}.

Definition balance_ledger : DataFrame :=
{| index := RangeIndex 3;
   columns :=
     [("SK_ID_BUREAU", Float64 [Fin 51; Fin 51; Fin 53]);
      ("MONTHS_BALANCE", Float64 [Fin (-1); Fin (-2); Fin (-1)]);
      ("STATUS", Object [Str "C"; Str "0"; Str "C"])] |}.

Definition previous_ledger : DataFrame :=
{| index := RangeIndex 2;
   columns :=
     [("SK_ID_CURR", Float64 [Fin 9; Fin 9]);
      ("SK_ID_PREV", Float64 [Fin 100; Fin 200]);
      ("NAME_CONTRACT_STATUS", Object [Str "Approved"; Str "Refused"]);
      ("AMT_ANNUITY", Float64 [Fin 50; Fin 60]);
      ("AMT_APPLICATION", Float64 [Fin 500; Fin 600]);
      ("AMT_CREDIT", Float64 [Fin 500; Fin 0]);
      ("AMT_DOWN_PAYMENT", Float64 [Fin 0; NaN]);
      ("AMT_GOODS_PRICE", Float64 [Fin 500; Fin 600]);
      ("HOUR_APPR_PROCESS_START", Float64 [Fin 10; Fin 15]);
      ("RATE_DOWN_PAYMENT", Float64 [Fin 0; NaN]);
      ("DAYS_DECISION", Float64 [Fin (-300); Fin (-100)]);
      ("CNT_PAYMENT", Float64 [Fin 12; Fin 0])] |}.

Definition data : Data :=
{| train := 0; test := 1; bureau := 2; bureau_balance := 3;
   prev_app := 4; pos_cash := 5; credit_card := 6; installments := 7 |}%nat.

Definition applicants_train : DataFrame :=
  applicants [Fin 7; Fin 8] [("TARGET", Float64 [Fin 0; Fin 1])].
Definition applicants_test : DataFrame := applicants [Fin 9; Fin 10] [].

Definition store : gmap nat DataFrame :=
  list_to_map [(0, applicants_train); (1, applicants_test); (2, bureau_ledger);
               (3, balance_ledger); (4, previous_ledger); (5, empty_frame);
               (6, empty_frame); (7, inst_ledger)]%nat.

(** The engineered training applicants. *)
Definition engineered_train : DataFrame :=
  Eval vm_compute in
    match fst (engineer_application_features sqrt_stub 0 store) with
    | Ok d => d
    | Raise _ => empty_frame
    end.


(** The classification report of the toy library never raises. *)
Definition classification_report (y : Series) (p : list Z) : result unit := Ok tt.

(** A model that scores the four applicants of [y_score]. *)
Definition scoring_predict (b : Booster) (X : DataFrame) (n : Z) : list f64 := y_score.


(** A library that refuses to train on a set without a positive label. *)
Definition strict_train_oracle (c : lgb_call) : result Booster :=
  if (count_eq (Fin 1) (ds_label (call_train_set c)) =? 0)%Z then Raise ValueError
  else lgb_train_oracle c.

(** One defaulter among five, in the third row. *)
Definition y_third_positive : Series := Float64 [Fin 0; Fin 0; Fin 1; Fin 0; Fin 0].

End Toy.

(** * Properties *)

(** ** The monads *)

Lemma bindR_Ok {A B} (m : result A) (f : A → result B) (b : B) :
  m ≫= f = Ok b ↔ ∃ a, m = Ok a ∧ f a = Ok b.
Proof.
  destruct m as [a|e]; simpl; split.
  - intros H. by exists a.
  - by intros (a' & [= ->] & H).
  - discriminate.
  - by intros (a' & [=] & _).
Qed.

Lemma bindM_eq {A B} (m : M A) (f : A → M B) (h : gmap nat DataFrame) :
  (m ≫= f) h =
    match m h with
    | (Ok a, h') => f a h'
    | (Raise e, h') => (Raise e, h')
    end.
Proof. reflexivity. Qed.

Lemma mapR_Ok {A B} (f : A → result B) (l : list A) (l' : list B) :
  mapR f l = Ok l' ↔ Forall2 (fun a b => f a = Ok b) l l'.
Proof.
  revert l'. induction l as [|a l IH]; intros l'; simpl.
  - split.
    + intros [= <-]. constructor.
    + intros H. by inversion H.
  - rewrite bindR_Ok. split.
    + intros (b & Hb & H). apply bindR_Ok in H as (bs & Hbs & [= <-]).
      constructor; [done|]. by apply IH.
    + intros H. inversion H as [|? b ? bs Hb Hbs]; subst.
      exists b. split; [done|]. apply bindR_Ok. exists bs. split; [by apply IH | done].
Qed.

(** ** Labels and association lists *)

Lemma mem_true (k : string) (l : list string) : mem k l = true ↔ k ∈ l.
Proof.
  unfold mem. rewrite existsb_exists. split.
  - intros (x & Hx & He). apply String.eqb_eq in He as ->. by apply list_elem_of_In.
  - intros H. exists k. split; [by apply list_elem_of_In | apply String.eqb_refl].
Qed.

Lemma mem_false (k : string) (l : list string) : mem k l = false ↔ k ∉ l.
Proof.
  rewrite <- mem_true. destruct (mem k l); intuition congruence.
Qed.

Lemma nodup_b_NoDup (l : list string) : nodup_b l = true ↔ NoDup l.
Proof.
  induction l as [|x l IH]; simpl.
  - split; [constructor | done].
  - rewrite andb_true_iff, negb_true_iff, mem_false, IH, NoDup_cons. done.
Qed.

Lemma assoc_Some_elem {V} (k : string) (l : list (string * V)) (v : V) :
  assoc k l = Some v → (k, v) ∈ l.
Proof.
  induction l as [|[k' v'] l IH]; simpl; [done|].
  destruct (String.eqb_spec k k') as [->|Hne].
  - intros [= ->]. left.
  - intros H. right. by apply IH.
Qed.

Lemma assoc_is_Some {V} (k : string) (l : list (string * V)) :
  is_Some (assoc k l) ↔ k ∈ map fst l.
Proof.
  induction l as [|[k' v'] l IH]; simpl.
  - split; [by intros [? ?] | by intros ?%elem_of_nil].
  - destruct (String.eqb_spec k k') as [->|Hne].
    + split; [intros _; left | eauto].
    + rewrite IH. split; [by right|]. intros [?|?]%elem_of_cons; [done|done].
Qed.

Lemma assoc_None {V} (k : string) (l : list (string * V)) :
  assoc k l = None ↔ k ∉ map fst l.
Proof.
  rewrite <- assoc_is_Some, eq_None_not_Some. done.
Qed.

Lemma assoc_set_assoc_eq {V} (k : string) (v : V) (l : list (string * V)) :
  assoc k (set_assoc k v l) = Some v.
Proof.
  induction l as [|[k' v'] l IH]; simpl.
  - by rewrite String.eqb_refl.
  - destruct (String.eqb_spec k k') as [->|Hne]; simpl.
    + by rewrite String.eqb_refl.
    + destruct (String.eqb_spec k k'); [done | exact IH].
Qed.

Lemma assoc_set_assoc_ne {V} (k k' : string) (v : V) (l : list (string * V)) :
  k ≠ k' → assoc k' (set_assoc k v l) = assoc k' l.
Proof.
  intros Hne. induction l as [|[k0 v0] l IH]; simpl.
  - destruct (String.eqb_spec k' k); [congruence | done].
  - destruct (String.eqb_spec k k0) as [->|Hk]; simpl.
    + destruct (String.eqb_spec k' k0); [congruence | done].
    + destruct (String.eqb_spec k' k0); [done | exact IH].
Qed.

Lemma set_assoc_names_in {V} (k : string) (v : V) (l : list (string * V)) :
  k ∈ map fst l → map fst (set_assoc k v l) = map fst l.
Proof.
  induction l as [|[k0 v0] l IH]; simpl.
  - by intros ?%elem_of_nil.
  - destruct (String.eqb_spec k k0) as [->|Hk]; simpl; [done|].
    intros [?|?]%elem_of_cons; [done|]. f_equal. by apply IH.
Qed.

Lemma set_assoc_names_new {V} (k : string) (v : V) (l : list (string * V)) :
  k ∉ map fst l → map fst (set_assoc k v l) = map fst l ++ [k].
Proof.
  induction l as [|[k0 v0] l IH]; simpl; [done|].
  intros Hn. destruct (String.eqb_spec k k0) as [->|Hk]; simpl.
  - exfalso. apply Hn. left.
  - f_equal. apply IH. intros ?. apply Hn. by right.
Qed.

Lemma set_assoc_names_elem {V} (k k' : string) (v : V) (l : list (string * V)) :
  k' ∈ map fst (set_assoc k v l) ↔ k' = k ∨ k' ∈ map fst l.
Proof.
  rewrite <- !assoc_is_Some.
  destruct (decide (k = k')) as [->|Hne].
  - rewrite assoc_set_assoc_eq. split; [by left | eauto].
  - rewrite assoc_set_assoc_ne by done. split; [by right|]. by intros [->|?].
Qed.

(** Reading and writing columns of a frame. *)
Lemma getitem_setitem_eq df col s : getitem (setitem df col s) col = Ok s.
Proof. unfold getitem, setitem. simpl. by rewrite assoc_set_assoc_eq. Qed.

Lemma getitem_setitem_ne df col col' s :
  col ≠ col' → getitem (setitem df col s) col' = getitem df col'.
Proof. intros H. unfold getitem, setitem. simpl. by rewrite assoc_set_assoc_ne. Qed.

Lemma getnum_setitem_ne df col col' s :
  col ≠ col' → getnum (setitem df col s) col' = getnum df col'.
Proof. intros H. unfold getnum. by rewrite getitem_setitem_ne. Qed.

Lemma getitem_Ok df col s : getitem df col = Ok s ↔ assoc col (columns df) = Some s.
Proof.
  unfold getitem. destruct (assoc col (columns df)); split; congruence.
Qed.

Lemma len_setitem df col s : len (setitem df col s) = len df.
Proof. reflexivity. Qed.

(** ** The order on float64 *)

Lemma f64_leb_refl x : isnan x = false → f64_leb x x = true.
Proof.
  destruct x; simpl; try done. intros _. apply Qle_bool_iff, Qle_refl.
Qed.

Lemma f64_leb_trans x y z :
  f64_leb x y = true → f64_leb y z = true → f64_leb x z = true.
Proof.
  destruct x, y, z; simpl; try done.
  rewrite !Qle_bool_iff. apply Qle_trans.
Qed.

Lemma f64_leb_total x y :
  isnan x = false → isnan y = false → f64_leb x y = true ∨ f64_leb y x = true.
Proof.
  destruct x, y; simpl; try done; auto.
  intros _ _. rewrite !Qle_bool_iff.
  destruct (Qlt_le_dec q q0) as [H|H]; [left; by apply Qlt_le_weak | by right].
Qed.

Lemma f64_leb_notnan x y : f64_leb x y = true → isnan x = false ∧ isnan y = false.
Proof. by destruct x, y. Qed.

Lemma f64_eqb_notnan x y : f64_eqb x y = true → isnan x = false ∧ isnan y = false.
Proof. by destruct x, y. Qed.

Lemma f64_eqb_refl x : isnan x = false → f64_eqb x x = true.
Proof. destruct x; simpl; try done. intros _. apply Qeq_bool_refl. Qed.

Lemma f64_eqb_sym x y : f64_eqb x y = f64_eqb y x.
Proof. destruct x, y; simpl; try done. apply Qeq_bool_comm. Qed.

Lemma f64_eqb_trans x y z :
  f64_eqb x y = true → f64_eqb y z = true → f64_eqb x z = true.
Proof. destruct x, y, z; simpl; try done. apply Qeq_bool_trans. Qed.

Lemma f64_eqb_leb x y : f64_eqb x y = true → f64_leb x y = true.
Proof.
  destruct x, y; simpl; try done.
  rewrite Qeq_bool_iff, Qle_bool_iff. intros ->. apply Qle_refl.
Qed.

Lemma f64_leb_antisym x y :
  f64_leb x y = true → f64_leb y x = true → f64_eqb x y = true.
Proof.
  destruct x, y; simpl; try done.
  rewrite !Qle_bool_iff, Qeq_bool_iff. apply Qle_antisym.
Qed.

(** Equal keys are interchangeable in comparisons. *)
Lemma f64_eqb_congr_l x y z : f64_eqb x y = true → f64_eqb x z = f64_eqb y z.
Proof.
  intros H. apply eq_true_iff_eq. split; intros Hz.
  - apply f64_eqb_trans with x; [by rewrite f64_eqb_sym | done].
  - by apply f64_eqb_trans with y.
Qed.

Lemma f64_compare_Eq x y : f64_compare x y = Eq ↔ f64_eqb x y = true.
Proof.
  unfold f64_compare. destruct (f64_eqb x y); [done|].
  by destruct (f64_leb x y).
Qed.

Lemma f64_compare_Lt x y :
  f64_compare x y = Lt ↔ f64_leb x y = true ∧ f64_eqb x y = false.
Proof.
  unfold f64_compare. destruct (f64_eqb x y); [split; [done | by intros [_ ?]]|].
  destruct (f64_leb x y); [done | split; [done | by intros [? _]]].
Qed.

(** ** Sorting *)

Section Sorting.
Context {A : Type} (leb : A → A → bool).

Lemma insert_sorted_perm x l : insert_sorted leb x l ≡ₚ x :: l.
Proof.
  induction l as [|y l IH]; simpl; [done|].
  destruct (leb x y); [done|]. rewrite IH. apply Permutation_swap.
Qed.

Lemma sort_by_perm l : sort_by leb l ≡ₚ l.
Proof.
  induction l as [|x l IH]; simpl; [done|].
  unfold sort_by in *. simpl. by rewrite insert_sorted_perm, IH.
Qed.

Context (P : A → Prop).
Hypothesis leb_total : ∀ x y, P x → P y → leb x y = true ∨ leb y x = true.
Hypothesis leb_trans : ∀ x y z, leb x y = true → leb y z = true → leb x z = true.

Lemma insert_sorted_sorted x l :
  P x → Forall P l →
  StronglySorted (fun a b => leb a b = true) l →
  StronglySorted (fun a b => leb a b = true) (insert_sorted leb x l).
Proof.
  intros Hx HP Hs. induction l as [|y l IH]; simpl.
  - repeat constructor.
  - apply StronglySorted_cons in Hs as [Hy Hs].
    apply Forall_cons in HP as [Py HP].
    destruct (leb x y) eqn:Hxy.
    + apply StronglySorted_cons. split.
      * constructor; [done|]. eapply Forall_impl; [exact Hy|]. intros z Hz. eauto.
      * by apply StronglySorted_cons.
    + apply StronglySorted_cons. split; [|by apply IH].
      rewrite insert_sorted_perm. constructor; [|done].
      destruct (leb_total x y Hx Py); congruence.
Qed.

Lemma sort_by_sorted l :
  Forall P l → StronglySorted (fun a b => leb a b = true) (sort_by leb l).
Proof.
  induction l as [|x l IH]; intros HP; [constructor|].
  apply Forall_cons in HP as [Px HP]. unfold sort_by in *. simpl.
  apply insert_sorted_sorted; [done | | by apply IH].
  change (Forall P (sort_by leb l)). by rewrite sort_by_perm.
Qed.

End Sorting.

Lemma StronglySorted_reverse {A} (R : A → A → Prop) l :
  StronglySorted R l → StronglySorted (flip R) (reverse l).
Proof.
  induction 1 as [|x l Hs IH Hx]; [constructor|].
  rewrite reverse_cons.
  apply StronglySorted_app. split; [|split; [done | repeat constructor]].
  intros a b Ha ->%list_elem_of_singleton. unfold flip.
  rewrite Forall_forall in Hx. apply Hx.
  by apply elem_of_reverse.
Qed.



(** ** Training *)

Lemma bindL_eq {A B} (m : L A) (f : A → L B) log :
  (m ≫= f) log =
    match m log with
    | (Ok a, log') => f a log'
    | (Raise e, log') => (Raise e, log')
    end.
Proof. reflexivity. Qed.

Section TrainingProps.

Context (Booster : Type)
        (lgb_train_oracle : lgb_call → result Booster)
        (best_iteration : Booster → Z)
        (predict : Booster → DataFrame → Z → list f64)
        (feature_importance : Booster → list f64)
        (kfold_split : nat → Z → DataFrame → Series → result (list (list nat * list nat)))
        (roc_auc_score : Series → list f64 → result f64)
        (Importance : Type)
        (aggregate_importance : list (nat * list string * list f64) → Importance)
        (final_importance : list string → list f64 → Importance).

Local Abbreviation train_lightgbm := (train_lightgbm Booster lgb_train_oracle).
Local Abbreviation cross_validate_fold :=
  (cross_validate_fold Booster lgb_train_oracle best_iteration predict
                       feature_importance roc_auc_score).
Local Abbreviation cross_validate :=
  (cross_validate Booster lgb_train_oracle best_iteration predict feature_importance
                  kfold_split roc_auc_score Importance aggregate_importance).
Local Abbreviation train_final_model := (train_final_model Booster lgb_train_oracle).
Local Abbreviation run_training :=
  (run_training Booster lgb_train_oracle best_iteration predict feature_importance
                kfold_split roc_auc_score Importance aggregate_importance final_importance).

(** The zero-divisor cases of the ratio: an infinity when some label is 0,
    [NaN] when there is no label 0 either. *)
Lemma neg_pos_ratio_no_positive (y : Series) :
  count_eq (Fin 1) y = 0 →
  neg_pos_ratio y = if (count_eq (Fin 0) y =? 0) then NaN else PInf.
Proof.
  intros H1. unfold neg_pos_ratio. rewrite H1.
  unfold count_eq. set (n := length _).
  destruct n as [|n]; reflexivity.
Qed.

Lemma neg_pos_ratio_positive (y : Series) :
  0 < count_eq (Fin 1) y →
  neg_pos_ratio y =
    Fin (Qred (inject_Z (count_eq (Fin 0) y) / inject_Z (count_eq (Fin 1) y))).
Proof.
  intros H1. unfold neg_pos_ratio, f64_of_Z, f64_div, Qzero_b. simpl.
  destruct (Z.eqb_spec (count_eq (Fin 1) y) 0); [lia | reflexivity].
Qed.

(** One call of [train_lightgbm] on a fold makes exactly one call of
    [lgb.train], with the arguments [fold_call]. *)
Lemma train_lightgbm_fold X y Xv yv params log :
  train_lightgbm X y (Some (Xv, yv)) (Some params) log =
    (match lgb_train_oracle (fold_call params X y Xv yv) with
     | Ok m => Ok (m, <["scale_pos_weight" := PNum (neg_pos_ratio y)]> params)
     | Raise e => Raise e
     end,
     log ++ [fold_call params X y Xv yv]).
Proof.
  unfold train_lightgbm, mbind, L_bind, lgb_train, fold_call, neg_pos_ratio; simpl.
  destruct (lgb_train_oracle _); reflexivity.
Qed.

(** The loop over the folds: the log grows by one call per fold reached,
    each with the parameters of [fold_call]; the loop ends early only on
    an exception. *)
Lemma cross_validate_loop p X y fs :
  ∀ k st log r log',
    (∀ v, <["scale_pos_weight" := v]> (cv_params _ st) = <["scale_pos_weight" := v]> p) →
    foldL (cross_validate_fold X y) st (zip (seq k (length fs)) fs) log = (r, log') →
    ∃ m, (m ≤ length fs)%nat ∧
         log' = log ++ map (call_of_fold p X y) (take m fs) ∧
         (∀ st', r = Ok st' → m = length fs).
Proof.
  induction fs as [|[tr va] fs IH]; intros k st log r log' Hp Hrun.
  - simpl in Hrun. injection Hrun as <- <-. exists O. simpl.
    rewrite app_nil_r. auto.
  - simpl in Hrun. rewrite bindL_eq in Hrun.
    unfold cross_validate_fold in Hrun at 1.
    rewrite bindL_eq, train_lightgbm_fold in Hrun.
    assert (Hc : fold_call (cv_params _ st) (iloc X tr) (series_iloc y tr)
                   (iloc X va) (series_iloc y va) = call_of_fold p X y (tr, va)).
    { unfold call_of_fold, fold_call. simpl. by rewrite Hp. }
    rewrite Hc in Hrun.
    destruct (lgb_train_oracle _) as [model|e].
    + rewrite bindL_eq in Hrun. unfold liftL in Hrun at 1.
      destruct (roc_auc_score _ _) as [score|e].
      * apply IH in Hrun as (m & Hm & -> & Hok).
        -- exists (S m). split; [simpl; lia|]. split.
           ++ rewrite <- app_assoc. reflexivity.
           ++ intros st' ->. simpl. f_equal. by eapply Hok.
        -- intros v. simpl. rewrite insert_insert_eq. apply Hp.
      * injection Hrun as <- <-. exists 1%nat. split; [simpl; lia|].
        split; [done|]. discriminate.
    + injection Hrun as <- <-. exists 1%nat. split; [simpl; lia|].
      split; [done|]. discriminate.
Qed.

(** [cross_validate] calls [lgb.train] once per fold, in fold order, until
    it returns or raises. *)
Lemma cross_validate_log X y n folds r log :
  kfold_split n Config.RANDOM_STATE X y = Ok folds →
  cross_validate X y n None [] = (r, log) →
  ∃ m, (m ≤ length folds)%nat ∧
       log = map (call_of_fold LGBM_PARAMS X y) (take m folds) ∧
       (∀ out, r = Ok out → m = length folds).
Proof.
  intros Hsplit Hrun. unfold cross_validate in Hrun.
  rewrite bindL_eq in Hrun. unfold liftL in Hrun at 1. rewrite Hsplit in Hrun.
  rewrite bindL_eq in Hrun. unfold enumerate1 in Hrun.
  destruct (foldL _ _ _ _) as [rst log1] eqn:Hloop.
  apply (cross_validate_loop LGBM_PARAMS) in Hloop as (m & Hm & -> & Hok);
    [|done].
  exists m. split; [done|].
  destruct rst as [st|e].
  - injection Hrun as <- <-. split; [done|]. intros _ _. by eapply Hok.
  - injection Hrun as <- <-. split; [done|]. discriminate.
Qed.

(** [int(np.mean(xs))] is the integer quotient of the sum by the count,
    rounded toward zero. *)
Lemma Qneg_b_Qred q : Qneg_b (Qred q) = Qneg_b q.
Proof.
  unfold Qneg_b. apply eq_true_iff_eq. rewrite !Z.ltb_lt.
  assert (H : ∀ x : Q, (Qnum x < 0)%Z ↔ (x < 0)%Q).
  { intros x. unfold Qlt. simpl. lia. }
  rewrite !H. by rewrite Qred_correct.
Qed.

Lemma Qtrunc_quotient (s : Z) (p : positive) :
  Qtrunc (Qred (inject_Z s / inject_Z (Z.pos p))) = Z.quot s (Z.pos p).
Proof.
  assert (Hq : (inject_Z s / inject_Z (Z.pos p) == s # p)%Q).
  { unfold Qdiv, Qinv, Qmult, inject_Z, Qeq. simpl. lia. }
  unfold Qtrunc. rewrite Qneg_b_Qred.
  assert (Hneg : Qneg_b (inject_Z s / inject_Z (Z.pos p)) = (s <? 0)).
  { unfold Qneg_b, Qdiv, Qinv, Qmult, inject_Z. simpl.
    apply eq_true_iff_eq. rewrite !Z.ltb_lt. lia. }
  rewrite Hneg. destruct (Z.ltb_spec s 0) as [Hs|Hs].
  - unfold Qceiling. rewrite Qred_correct, Hq.
    assert (Ho : (- (s # p) == (- s) # p)%Q) by reflexivity.
    rewrite Ho. unfold Qfloor.
    rewrite <- (Z.opp_involutive s) at 2.
    rewrite Z.quot_opp_l by lia.
    rewrite Z.quot_div_nonneg by lia. reflexivity.
  - rewrite Qred_correct, Hq. unfold Qfloor.
    rewrite Z.quot_div_nonneg by lia. reflexivity.
Qed.

Lemma py_int_np_mean (xs : list Z) :
  xs ≠ [] →
  py_int (np_mean xs) = Ok (Z.quot (fold_right Z.add 0 xs) (Z.of_nat (length xs))).
Proof.
  intros Hne. destruct xs as [|x xs]; [done|].
  unfold np_mean, f64_of_Z, f64_of_nat, f64_div.
  remember (fold_right Z.add 0 (x :: xs)) as s.
  assert (Hn : ∃ p, Z.of_nat (length (x :: xs)) = Z.pos p).
  { simpl length. rewrite Nat2Z.inj_succ.
    destruct (Z.succ (Z.of_nat (length xs))) eqn:E; try lia. eauto. }
  destruct Hn as [p ->]. unfold Qzero_b. simpl Qnum. simpl Z.eqb. cbv iota.
  simpl py_int. by rewrite Qtrunc_quotient.
Qed.

(** [train_final_model] with an iteration count makes exactly one call of
    [lgb.train], with the arguments [refit_call]. *)
Lemma train_final_model_refit X y rounds log :
  train_final_model X y None (Some rounds) log =
    (lgb_train_oracle (refit_call X y rounds), log ++ [refit_call X y rounds]).
Proof. reflexivity. Qed.

(** [run_training] with cross-validation: after the folds, one more call,
    the refit, with the integer part of the mean best iteration. *)
Lemma run_training_cv X y scores models imp cvlog :
  cross_validate X y Config.N_SPLITS None [] = (Ok (scores, models, imp), cvlog) →
  models ≠ [] →
  let rounds := Z.quot (fold_right Z.add 0 (map best_iteration models))
                       (Z.of_nat (length models)) in
  run_training X y true [] =
    (match lgb_train_oracle (refit_call X y rounds) with
     | Ok m => Ok (m, Some scores, imp)
     | Raise e => Raise e
     end,
     cvlog ++ [refit_call X y rounds]).
Proof.
  intros Hcv Hne rounds. unfold run_training.
  rewrite bindL_eq, bindL_eq, Hcv. rewrite bindL_eq. unfold liftL at 1.
  rewrite py_int_np_mean by (by destruct models).
  rewrite length_map. fold rounds.
  unfold mret, L_ret. rewrite bindL_eq, train_final_model_refit.
  destruct (lgb_train_oracle _); reflexivity.
Qed.


(** C3 (amended).  When cross-validation is performed, the final refit is
    the call of [lgb.train] that follows the folds; its number of boosting
    rounds is the mean of the per-fold best iterations with the fraction
    cut off (rounded toward zero, not to the nearest integer), its only
    callback is the periodic log, and it trains on the whole set. *)
Theorem refit_rounds_truncated_mean X y scores models imp cvlog :
  cross_validate X y Config.N_SPLITS None [] = (Ok (scores, models, imp), cvlog) →
  models ≠ [] →
  ∃ c, snd (run_training X y true []) = cvlog ++ [c] ∧
       call_num_boost_round c =
         Z.quot (fold_right Z.add 0 (map best_iteration models))
                (Z.of_nat (length models)) ∧
       py_int (np_mean (map best_iteration models)) = Ok (call_num_boost_round c) ∧
       call_callbacks c = [log_evaluation 100] ∧
       existsb is_early_stopping (call_callbacks c) = false ∧
       call_train_set c = mkDataset X y.
Proof.
  intros Hcv Hne. rewrite (run_training_cv _ _ _ _ _ _ Hcv Hne). simpl.
  eexists. split; [reflexivity|]. simpl. split; [done|].
  split; [|done]. rewrite py_int_np_mean by (by destruct models).
  by rewrite length_map.
Qed.

End TrainingProps.



(** C3, as stated, fails: the five folds of this run stop at 11, 11, 12, 12
    and 12 iterations, mean 11.6; the nearest integer is 12, the refit runs
    for 11 rounds. *)
Lemma refit_rounds_not_nearest :
  let cv := Toy.cross_validate Toy.X5 Toy.y_two_positive Config.N_SPLITS None [] in
  let run := Toy.run_training Toy.X5 Toy.y_two_positive true [] in
  (snd ∘ fst <$> (if fst cv is Ok out then Some out else None)) = Some [11; 11; 12; 12; 12] ∧
  np_mean [11; 11; 12; 12; 12] = Fin (58 # 5) ∧
  round_nearest (58 # 5) = 12 ∧
  (call_num_boost_round <$> last (snd run)) = Some 11.
Proof. vm_compute. repeat split. Qed.

Lemma refit_rounds_truncated_mean_witness :
  ∃ c, last (snd (Toy.run_training Toy.X5 Toy.y_two_positive true [])) = Some c ∧
       call_num_boost_round c = Z.quot (11 + 11 + 12 + 12 + 12) 5 ∧
       call_callbacks c = [log_evaluation 100].
Proof.
  destruct (refit_rounds_truncated_mean Toy.Booster Toy.lgb_train_oracle
              Toy.best_iteration Toy.predict Toy.feature_importance Toy.kfold_split
              Toy.roc_auc_score Toy.Importance Toy.aggregate_importance
              Toy.final_importance Toy.X5 Toy.y_two_positive
              (replicate 5 (Fin (1 # 2))) [11; 11; 12; 12; 12] tt
              (snd (Toy.cross_validate Toy.X5 Toy.y_two_positive Config.N_SPLITS None [])))
    as (c & Hlog & Hrounds & _ & Hcb & _).
  - vm_compute. reflexivity.
  - discriminate.
  - exists c. split; [|split; [exact Hrounds | exact Hcb]].
    unfold Toy.run_training. rewrite Hlog. apply last_snoc.
Defined.


(** ** Group-by aggregation *)

Lemma Forall2_concat_flat_map {A B C} (R : A → B → Prop) (g : C → list B)
    (ls : list (list A)) (cs : list C) :
  Forall2 (fun l c => Forall2 R l (g c)) ls cs →
  Forall2 R (concat ls) (flat_map g cs).
Proof.
  induction 1 as [|l c ls cs Hl _ IH]; simpl; [constructor|].
  by apply Forall2_app.
Qed.

(** What [groupby(key).agg(spec)] returns: the group keys, and for every
    (column, aggregate) pair of the dictionary, in order, one column under
    the two-level label, holding that aggregate per group. *)
Lemma groupby_agg_spec df key spec a :
  groupby_agg df key spec = Ok a →
  ∃ ks, getnum df key = Ok ks ∧
        agg_by a = key ∧
        agg_keys a = group_keys ks ∧
        Forall2 (fun c p => fst c = (fst p, aggfn_name (snd p)) ∧
                            aggregate_of df ks (fst p) (snd p) (snd c))
                (agg_columns a) (spec_pairs spec).
Proof.
  unfold groupby_agg. intros H.
  apply bindR_Ok in H as (ks & Hks & H).
  apply bindR_Ok in H as (cols & Hcols & [= <-]).
  exists ks. simpl. repeat split; [done|].
  apply mapR_Ok in Hcols. unfold spec_pairs.
  apply Forall2_concat_flat_map.
  apply Forall2_flip in Hcols.
  eapply Forall2_impl; [exact Hcols|].
  intros cs [col fns] Hcs. simpl in *.
  apply bindR_Ok in Hcs as (s & Hs & Hcs).
  apply mapR_Ok, Forall2_flip in Hcs.
  apply Forall2_fmap_r.
  eapply Forall2_impl; [exact Hcs|].
  intros c f Hc. simpl in Hc.
  apply bindR_Ok in Hc as (vals & Hvals & [= <-]). simpl.
  split; [done|]. exists s, vals. repeat split; [done|]. by apply mapR_Ok.
Qed.

Lemma groupby_agg_labels df key spec a :
  groupby_agg df key spec = Ok a →
  map fst (agg_columns a) = map (fun p => (fst p, aggfn_name (snd p))) (spec_pairs spec).
Proof.
  intros (ks & _ & _ & _ & H)%groupby_agg_spec.
  induction H as [|c p cs ps [Hc _] _ IH]; simpl; [done|]. by rewrite Hc, IH.
Qed.

(** ** Frame effects of the feature functions *)

(** Feature engineering works on its own copy: whatever it returns, and
    also when it raises, the store is as it was. *)
Lemma engineer_application_features_store fsqrt (df : nat) (h : gmap nat DataFrame) :
  snd (engineer_application_features fsqrt df h) = h.
Proof.
  unfold engineer_application_features. rewrite bindM_eq.
  unfold deref. destruct (h !! df); reflexivity.
Qed.

(** It reads nothing but the frame behind the reference. *)
Lemma engineer_application_features_reads fsqrt (df : nat) (h h' : gmap nat DataFrame) :
  h !! df = h' !! df →
  fst (engineer_application_features fsqrt df h) =
  fst (engineer_application_features fsqrt df h').
Proof.
  intros H. unfold engineer_application_features. rewrite !bindM_eq.
  unfold deref. rewrite H. destruct (h' !! df); reflexivity.
Qed.

(** The installments aggregation assigns its three derived columns on the
    frame it was passed, then aggregates that frame. *)
Lemma aggregate_installments_run (df_inst : nat) (h : gmap nat DataFrame) d
    payment instalment entry due :
  h !! df_inst = Some d →
  getnum d "AMT_PAYMENT" = Ok payment →
  getnum d "AMT_INSTALMENT" = Ok instalment →
  getnum d "DAYS_ENTRY_PAYMENT" = Ok entry →
  getnum d "DAYS_INSTALMENT" = Ok due →
  let d' := with_payment_columns d payment instalment entry due in
  aggregate_installments df_inst h =
    (a ← groupby_agg d' "SK_ID_CURR" installments_spec;
     Ok (reset_index (flatten_columns "INST_" a)),
     <[df_inst := d']> h).
Proof.
  intros Hd Hp Hi He Hdue d'. unfold aggregate_installments.
  rewrite bindM_eq. unfold deref at 1. rewrite Hd. cbv beta iota.
  rewrite bindM_eq. unfold lift at 1. rewrite Hp. cbv beta iota.
  rewrite bindM_eq. unfold lift at 1. rewrite Hi. cbv beta iota.
  rewrite bindM_eq. unfold store_setitem at 1. rewrite Hd. cbv beta iota.
  rewrite bindM_eq. unfold deref at 1. rewrite lookup_insert_eq. cbv beta iota.
  rewrite bindM_eq. unfold lift at 1. rewrite getnum_setitem_ne, Hp by done. cbv beta iota.
  rewrite bindM_eq. unfold lift at 1. rewrite getnum_setitem_ne, Hi by done. cbv beta iota.
  rewrite bindM_eq. unfold store_setitem at 1.
  rewrite lookup_insert_eq, insert_insert_eq. cbv beta iota.
  rewrite bindM_eq. unfold deref at 1. rewrite lookup_insert_eq. cbv beta iota.
  rewrite bindM_eq. unfold lift at 1. rewrite !getnum_setitem_ne, He by done. cbv beta iota.
  rewrite bindM_eq. unfold lift at 1. rewrite ?getnum_setitem_ne, Hdue by done. cbv beta iota.
  rewrite bindM_eq. unfold store_setitem at 1.
  rewrite lookup_insert_eq, insert_insert_eq. cbv beta iota.
  rewrite bindM_eq. unfold deref at 1. rewrite lookup_insert_eq. cbv beta iota.
  rewrite bindM_eq. unfold lift at 1.
  fold (with_payment_columns d payment instalment entry due). fold d'.
  destruct (groupby_agg d' "SK_ID_CURR" installments_spec); reflexivity.
Qed.

(** C10.  [engineer_application_features] leaves the frame it is given as it
    was (it works on a copy; the whole store is unchanged).
    [aggregate_installments] changes the caller's ledger frame in place: after
    the call the frame behind the reference carries the columns
    PAYMENT_DIFF, PAYMENT_RATIO and DAYS_PAYMENT_DELAY. *)
Theorem feature_functions_frame_effect fsqrt :
  (∀ (df : nat) (h : gmap nat DataFrame),
     snd (engineer_application_features fsqrt df h) = h) ∧
  (∀ (df_inst : nat) (h : gmap nat DataFrame) d payment instalment entry due,
     h !! df_inst = Some d →
     getnum d "AMT_PAYMENT" = Ok payment →
     getnum d "AMT_INSTALMENT" = Ok instalment →
     getnum d "DAYS_ENTRY_PAYMENT" = Ok entry →
     getnum d "DAYS_INSTALMENT" = Ok due →
     let h' := snd (aggregate_installments df_inst h) in
     ∃ d', h' = <[df_inst := d']> h ∧
       d' = with_payment_columns d payment instalment entry due ∧
       getitem d' "PAYMENT_DIFF" = Ok (Float64 (zip_with f64_sub payment instalment)) ∧
       getitem d' "PAYMENT_RATIO" = Ok (Float64 (zip_with f64_div payment instalment)) ∧
       getitem d' "DAYS_PAYMENT_DELAY" = Ok (Float64 (zip_with f64_sub entry due)) ∧
       (∀ col, col ∉ ["PAYMENT_DIFF"; "PAYMENT_RATIO"; "DAYS_PAYMENT_DELAY"] →
               getitem d' col = getitem d col)).
Proof.
  split; [apply engineer_application_features_store|].
  intros df_inst h d payment instalment entry due Hd Hp Hi He Hdue h'.
  subst h'. rewrite (aggregate_installments_run _ _ _ _ _ _ _ Hd Hp Hi He Hdue).
  eexists. split; [reflexivity|]. split; [reflexivity|].
  unfold with_payment_columns.
  split; [by rewrite !getitem_setitem_ne, getitem_setitem_eq by done|].
  split; [by rewrite !getitem_setitem_ne, getitem_setitem_eq by done|].
  split; [by rewrite getitem_setitem_eq|].
  intros col Hcol. rewrite !getitem_setitem_ne; [done|..];
    intros <-; apply Hcol; set_solver.
Qed.

Lemma feature_functions_frame_effect_witness :
  let h : gmap nat DataFrame := {[ 0%nat := Toy.inst_ledger ]} in
  let h' := snd (aggregate_installments 0 h) in
  names Toy.inst_ledger =
    ["SK_ID_PREV"; "SK_ID_CURR"; "NUM_INSTALMENT_VERSION"; "NUM_INSTALMENT_NUMBER";
     "DAYS_INSTALMENT"; "DAYS_ENTRY_PAYMENT"; "AMT_INSTALMENT"; "AMT_PAYMENT"] ∧
  (names <$> h' !! 0%nat) =
    Some ["SK_ID_PREV"; "SK_ID_CURR"; "NUM_INSTALMENT_VERSION"; "NUM_INSTALMENT_NUMBER";
          "DAYS_INSTALMENT"; "DAYS_ENTRY_PAYMENT"; "AMT_INSTALMENT"; "AMT_PAYMENT";
          "PAYMENT_DIFF"; "PAYMENT_RATIO"; "DAYS_PAYMENT_DELAY"].
Proof.
  intros h h'. split; [reflexivity|].
  destruct (proj2 (feature_functions_frame_effect Toy.sqrt_stub) 0%nat h Toy.inst_ledger
              [Fin 50; Fin 40; Fin 20] [Fin 50; Fin 50; Fin 0]
              [Fin (-61); Fin (-25); Fin (-10)] [Fin (-60); Fin (-30); Fin (-10)]
              eq_refl eq_refl eq_refl eq_refl eq_refl) as (d' & Hh & -> & _).
  subst h'. rewrite Hh, lookup_insert_eq. reflexivity.
Defined.

(** ** The installments aggregation *)

(** A successful run found the four raw columns it derives from. *)
Lemma aggregate_installments_inv (df_inst : nat) (h h' : gmap nat DataFrame) d out :
  h !! df_inst = Some d →
  aggregate_installments df_inst h = (Ok out, h') →
  ∃ payment instalment entry due,
    getnum d "AMT_PAYMENT" = Ok payment ∧
    getnum d "AMT_INSTALMENT" = Ok instalment ∧
    getnum d "DAYS_ENTRY_PAYMENT" = Ok entry ∧
    getnum d "DAYS_INSTALMENT" = Ok due.
Proof.
  intros Hd Hrun. unfold aggregate_installments in Hrun.
  rewrite bindM_eq in Hrun. unfold deref at 1 in Hrun. rewrite Hd in Hrun.
  cbv beta iota in Hrun.
  rewrite bindM_eq in Hrun. unfold lift at 1 in Hrun.
  destruct (getnum d "AMT_PAYMENT") as [payment|] eqn:Hp; [|discriminate].
  cbv beta iota in Hrun.
  rewrite bindM_eq in Hrun. unfold lift at 1 in Hrun.
  destruct (getnum d "AMT_INSTALMENT") as [instalment|] eqn:Hi; [|discriminate].
  cbv beta iota in Hrun.
  rewrite bindM_eq in Hrun. unfold store_setitem at 1 in Hrun. rewrite Hd in Hrun.
  cbv beta iota in Hrun.
  rewrite bindM_eq in Hrun. unfold deref at 1 in Hrun.
  rewrite lookup_insert_eq in Hrun. cbv beta iota in Hrun.
  rewrite bindM_eq in Hrun. unfold lift at 1 in Hrun.
  rewrite getnum_setitem_ne, Hp in Hrun by done. cbv beta iota in Hrun.
  rewrite bindM_eq in Hrun. unfold lift at 1 in Hrun.
  rewrite getnum_setitem_ne, Hi in Hrun by done. cbv beta iota in Hrun.
  rewrite bindM_eq in Hrun. unfold store_setitem at 1 in Hrun.
  rewrite lookup_insert_eq in Hrun. cbv beta iota in Hrun.
  rewrite bindM_eq in Hrun. unfold deref at 1 in Hrun.
  rewrite lookup_insert_eq in Hrun. cbv beta iota in Hrun.
  rewrite bindM_eq in Hrun. unfold lift at 1 in Hrun.
  rewrite !getnum_setitem_ne in Hrun by done.
  destruct (getnum d "DAYS_ENTRY_PAYMENT") as [entry|] eqn:He; [|discriminate].
  cbv beta iota in Hrun.
  rewrite bindM_eq in Hrun. unfold lift at 1 in Hrun.
  destruct (getnum d "DAYS_INSTALMENT") as [due|] eqn:Hdue; [|discriminate].
  by exists payment, instalment, entry, due.
Qed.

(** C8 (amended).  The installments aggregation first derives three
    per-event columns on the ledger (payment minus scheduled amount, payment
    divided by scheduled amount, entry day minus scheduled day) and then
    returns one row per applicant with exactly these columns, in this order:
    the count of events; max and mean of the instalment number; the max of
    the instalment version (no mean); min/max/mean of instalment days and of
    entry days; min/max/mean/sum of instalment amount, payment amount and
    payment difference; min/max/mean of payment ratio and of payment
    delay. *)
Theorem installments_aggregates (df_inst : nat) (h h' : gmap nat DataFrame) d out :
  h !! df_inst = Some d →
  aggregate_installments df_inst h = (Ok out, h') →
  ∃ payment instalment entry due ks cols,
    getnum d "AMT_PAYMENT" = Ok payment ∧
    getnum d "AMT_INSTALMENT" = Ok instalment ∧
    getnum d "DAYS_ENTRY_PAYMENT" = Ok entry ∧
    getnum d "DAYS_INSTALMENT" = Ok due ∧
    let d' := with_payment_columns d payment instalment entry due in
    getitem d' "PAYMENT_DIFF" = Ok (Float64 (zip_with f64_sub payment instalment)) ∧
    getitem d' "PAYMENT_RATIO" = Ok (Float64 (zip_with f64_div payment instalment)) ∧
    getitem d' "DAYS_PAYMENT_DELAY" = Ok (Float64 (zip_with f64_sub entry due)) ∧
    getnum d' "SK_ID_CURR" = Ok ks ∧
    columns out = ("SK_ID_CURR", Float64 (group_keys ks)) :: cols ∧
    Forall2 (fun c p => fst c = fst p ∧
                        aggregate_of d' ks (fst (snd p)) (snd (snd p)) (snd c))
      cols
      [("INST_SK_ID_PREV_COUNT", ("SK_ID_PREV", Count));
       ("INST_NUM_INSTALMENT_NUMBER_MAX", ("NUM_INSTALMENT_NUMBER", Max));
       ("INST_NUM_INSTALMENT_NUMBER_MEAN", ("NUM_INSTALMENT_NUMBER", Mean));
       ("INST_NUM_INSTALMENT_VERSION_MAX", ("NUM_INSTALMENT_VERSION", Max));
       ("INST_DAYS_INSTALMENT_MIN", ("DAYS_INSTALMENT", Min));
       ("INST_DAYS_INSTALMENT_MAX", ("DAYS_INSTALMENT", Max));
       ("INST_DAYS_INSTALMENT_MEAN", ("DAYS_INSTALMENT", Mean));
       ("INST_DAYS_ENTRY_PAYMENT_MIN", ("DAYS_ENTRY_PAYMENT", Min));
       ("INST_DAYS_ENTRY_PAYMENT_MAX", ("DAYS_ENTRY_PAYMENT", Max));
       ("INST_DAYS_ENTRY_PAYMENT_MEAN", ("DAYS_ENTRY_PAYMENT", Mean));
       ("INST_AMT_INSTALMENT_MIN", ("AMT_INSTALMENT", Min));
       ("INST_AMT_INSTALMENT_MAX", ("AMT_INSTALMENT", Max));
       ("INST_AMT_INSTALMENT_MEAN", ("AMT_INSTALMENT", Mean));
       ("INST_AMT_INSTALMENT_SUM", ("AMT_INSTALMENT", Sum));
       ("INST_AMT_PAYMENT_MIN", ("AMT_PAYMENT", Min));
       ("INST_AMT_PAYMENT_MAX", ("AMT_PAYMENT", Max));
       ("INST_AMT_PAYMENT_MEAN", ("AMT_PAYMENT", Mean));
       ("INST_AMT_PAYMENT_SUM", ("AMT_PAYMENT", Sum));
       ("INST_PAYMENT_DIFF_MIN", ("PAYMENT_DIFF", Min));
       ("INST_PAYMENT_DIFF_MAX", ("PAYMENT_DIFF", Max));
       ("INST_PAYMENT_DIFF_MEAN", ("PAYMENT_DIFF", Mean));
       ("INST_PAYMENT_DIFF_SUM", ("PAYMENT_DIFF", Sum));
       ("INST_PAYMENT_RATIO_MIN", ("PAYMENT_RATIO", Min));
       ("INST_PAYMENT_RATIO_MAX", ("PAYMENT_RATIO", Max));
       ("INST_PAYMENT_RATIO_MEAN", ("PAYMENT_RATIO", Mean));
       ("INST_DAYS_PAYMENT_DELAY_MIN", ("DAYS_PAYMENT_DELAY", Min));
       ("INST_DAYS_PAYMENT_DELAY_MAX", ("DAYS_PAYMENT_DELAY", Max));
       ("INST_DAYS_PAYMENT_DELAY_MEAN", ("DAYS_PAYMENT_DELAY", Mean))].
Proof.
  intros Hd Hrun.
  destruct (aggregate_installments_inv _ _ _ _ _ Hd Hrun)
    as (payment & instalment & entry & due & Hp & Hi & He & Hdue).
  rewrite (aggregate_installments_run _ _ _ _ _ _ _ Hd Hp Hi He Hdue) in Hrun.
  injection Hrun as Hout _.
  apply bindR_Ok in Hout as (a & Ha & [= <-]).
  apply groupby_agg_spec in Ha as (ks & Hks & Hby & Hkeys & Hcols).
  exists payment, instalment, entry, due, ks.
  eexists. repeat (split; [done|]). intros d'.
  unfold with_payment_columns in d'.
  split; [by subst d'; rewrite !getitem_setitem_ne, getitem_setitem_eq by done|].
  split; [by subst d'; rewrite !getitem_setitem_ne, getitem_setitem_eq by done|].
  split; [by subst d'; rewrite getitem_setitem_eq|].
  split; [exact Hks|].
  unfold reset_index, flatten_columns. simpl. rewrite Hby, Hkeys.
  split; [reflexivity|].
  apply Forall2_fmap_l.
  change (Forall2
            (fun (c : string * string * Series) (p : string * (string * aggfn)) =>
               flat_name "INST_" (fst c) = fst p ∧
               aggregate_of d' ks (fst (snd p)) (snd (snd p)) (snd c))
            (agg_columns a)
            (map (fun p => (flat_name "INST_" (fst p, aggfn_name (snd p)), p))
                 (spec_pairs installments_spec))).
  apply Forall2_fmap_r.
  eapply Forall2_impl; [exact Hcols|].
  intros c p [Hc Hagg]. simpl. by rewrite Hc.
Qed.

(** C8, as stated, fails: the aggregated table has the maximum of the
    instalment version and the mean of the instalment number, but no mean of
    the instalment version. *)
Lemma installments_version_has_no_mean :
  let h : gmap nat DataFrame := {[ 0%nat := Toy.inst_ledger ]} in
  let out := fst (aggregate_installments 0 h) in
  (mem "INST_NUM_INSTALMENT_NUMBER_MAX" ∘ names <$> (if out is Ok o then Some o else None))
    = Some true ∧
  (mem "INST_NUM_INSTALMENT_NUMBER_MEAN" ∘ names <$> (if out is Ok o then Some o else None))
    = Some true ∧
  (mem "INST_NUM_INSTALMENT_VERSION_MAX" ∘ names <$> (if out is Ok o then Some o else None))
    = Some true ∧
  (mem "INST_NUM_INSTALMENT_VERSION_MEAN" ∘ names <$> (if out is Ok o then Some o else None))
    = Some false.
Proof. vm_compute. repeat split. Qed.

Lemma installments_aggregates_witness :
  let h : gmap nat DataFrame := {[ 0%nat := Toy.inst_ledger ]} in
  ∃ out cols,
    fst (aggregate_installments 0 h) = Ok out ∧
    columns out = ("SK_ID_CURR", Float64 [Fin 7; Fin 9]) :: cols ∧
    length cols = 28%nat.
Proof.
  intros h.
  destruct (aggregate_installments 0 h) as [r h'] eqn:Hrun.
  assert (Hr : ∃ out, r = Ok out).
  { apply (f_equal fst) in Hrun. simpl in Hrun. subst r. vm_compute. eauto. }
  destruct Hr as [out ->].
  destruct (installments_aggregates 0%nat h h' Toy.inst_ledger out eq_refl Hrun)
    as (payment & instalment & entry & due & ks & cols & Hp & Hi & He & Hdue & H).
  simpl in H. destruct H as (_ & _ & _ & Hks & Hcols & Hall).
  exists out, cols. split; [reflexivity|]. split.
  - rewrite Hcols. do 2 f_equal.
    vm_compute in Hp, Hi, He, Hdue.
    injection Hp as <-. injection Hi as <-. injection He as <-. injection Hdue as <-.
    vm_compute in Hks. injection Hks as <-. reflexivity.
  - apply Forall2_length in Hall. exact Hall.
Defined.

(** ** Threshold selection *)

Lemma argmax_from_spec (l pre : list f64) (best : f64) (bi : nat) :
  pre !! bi = Some best →
  (∀ k y, pre !! k = Some y → np_le y best = true) →
  (∀ k y, (k < bi)%nat → pre !! k = Some y → np_le best y = false) →
  first_argmax (pre ++ l) (argmax_from best bi (length pre) l).
Proof.
  revert pre best bi. induction l as [|x l IH]; intros pre best bi Hbi Hmax Hfirst.
  - simpl. rewrite app_nil_r. exists best. eauto.
  - simpl. destruct (isnan best) eqn:Hnan.
    + exists best. split; [by apply lookup_app_l_Some|]. split.
      * intros k y _. unfold np_le. by rewrite Hnan.
      * intros k y Hk Hy. apply (Hfirst k y Hk).
        rewrite lookup_app_l in Hy; [done|].
        apply lookup_lt_Some in Hbi. lia.
    + assert (Hpre : ∀ k y, pre !! k = Some y → isnan y = false ∧ f64_leb y best = true).
      { intros k y Hy. specialize (Hmax k y Hy). unfold np_le in Hmax.
        rewrite Hnan in Hmax. simpl in Hmax. unfold notnan in Hmax.
        apply andb_true_iff in Hmax as [H1 H2]. by apply negb_true_iff in H1. }
      replace (pre ++ x :: l) with ((pre ++ [x]) ++ l) by by rewrite <- app_assoc.
      replace (S (length pre)) with (length (pre ++ [x])) by (rewrite length_app; simpl; lia).
      destruct (isnan x || f64_ltb best x) eqn:Hx.
      * apply IH.
        -- rewrite lookup_app_r by lia. by rewrite Nat.sub_diag.
        -- intros k y Hy. apply lookup_app_Some in Hy as [Hy|[_ Hy]].
           ++ destruct (Hpre k y Hy) as [Hyn Hyb]. unfold np_le, notnan. rewrite Hyn. simpl.
              apply orb_true_iff in Hx as [Hx|Hx]; [by rewrite Hx|].
              unfold f64_ltb in Hx. apply andb_true_iff in Hx as [Hx _].
              rewrite (f64_leb_trans _ _ _ Hyb Hx). apply orb_true_r.
           ++ apply list_lookup_singleton_Some in Hy as [_ <-].
              unfold np_le, notnan. destruct (isnan x) eqn:E; [done|]. simpl.
              by apply f64_leb_refl.
        -- intros k y Hk Hy. rewrite lookup_app_l in Hy by done.
           destruct (Hpre k y Hy) as [Hyn Hyb]. unfold np_le. rewrite Hyn. simpl.
           apply orb_true_iff in Hx as [Hx|Hx]; [unfold notnan; by rewrite Hx|].
           unfold f64_ltb in Hx. apply andb_true_iff in Hx as [Hx1 Hx2].
           apply negb_true_iff in Hx2.
           apply andb_false_iff. right.
           destruct (f64_leb x y) eqn:Hxy; [|done].
           rewrite (f64_leb_antisym best x) in Hx2; [done | done |].
           by apply f64_leb_trans with y.
      * apply orb_false_iff in Hx as [Hxn Hx]. apply IH.
        -- by apply lookup_app_l_Some.
        -- intros k y Hy. apply lookup_app_Some in Hy as [Hy|[_ Hy]]; [by eapply Hmax|].
           apply list_lookup_singleton_Some in Hy as [_ <-].
           unfold np_le, notnan. rewrite Hnan, Hxn. simpl.
           unfold f64_ltb in Hx. apply andb_false_iff in Hx as [Hx|Hx].
           ++ destruct (f64_leb_total best x Hnan Hxn); congruence.
           ++ apply negb_false_iff in Hx. apply f64_eqb_leb. by rewrite f64_eqb_sym.
        -- intros k y Hk Hy. apply (Hfirst k y Hk).
           rewrite lookup_app_l in Hy; [done|].
           apply lookup_lt_Some in Hbi. lia.
Qed.

(** [np.argmax] returns the first index holding the greatest element. *)
Lemma np_argmax_first (l : list f64) (i : nat) :
  np_argmax l = Ok i → first_argmax l i.
Proof.
  destruct l as [|x l]; [done|]. intros [= <-].
  apply (argmax_from_spec l [x] x 0%nat).
  - done.
  - intros [|k] y; simpl; [|done]. intros [= <-]. unfold np_le, notnan.
    destruct (isnan x) eqn:E; [done|]. simpl. by apply f64_leb_refl.
  - intros k y Hk. lia.
Qed.

Lemma length_rates (counts : list nat) : length (rates counts) = length counts.
Proof. unfold rates. destruct (last counts) as [[|n]|]; by rewrite length_map. Qed.

(** The three arrays of [roc_curve] have the same length. *)
Lemma roc_curve_lengths y s fpr tpr thr :
  roc_curve y s = Ok (fpr, tpr, thr) →
  length fpr = length thr ∧ length tpr = length thr.
Proof.
  unfold roc_curve. destruct (negb _); [done|]. intros H.
  apply bindR_Ok in H as (labels & _ & H).
  apply bindR_Ok in H as (scores & _ & H).
  destruct (zip scores labels) as [|z zs]; [done|].
  injection H as <- <- <-. rewrite !length_rates. simpl. by rewrite !length_map.
Qed.

(** First half of C6: the value returned is the threshold at the first
    index maximising TPR - FPR over the arrays of [roc_curve], in their
    order. *)
Lemma find_optimal_threshold_spec y s t :
  find_optimal_threshold y s = Ok t →
  ∃ fpr tpr thr i,
    roc_curve y s = Ok (fpr, tpr, thr) ∧
    first_argmax (zip_with f64_sub tpr fpr) i ∧
    thr !! i = Some t.
Proof.
  unfold find_optimal_threshold. intros H.
  apply bindR_Ok in H as ([[fpr tpr] thr] & Hroc & H).
  apply bindR_Ok in H as (i & Hi & [= <-]).
  exists fpr, tpr, thr, i. split; [done|].
  apply np_argmax_first in Hi. split; [done|].
  destruct Hi as (x & Hx & _). apply lookup_lt_Some in Hx.
  rewrite length_zip_with in Hx.
  destruct (roc_curve_lengths _ _ _ _ _ Hroc) as [H1 H2].
  rewrite nth_lookup. destruct (thr !! i) eqn:E; [done|].
  apply lookup_ge_None in E. lia.
Qed.

(** ** The ROC curve of separated classes *)

Lemma score_leb_total (a b : Q * bool) : score_leb a b = true ∨ score_leb b a = true.
Proof.
  unfold score_leb. rewrite !Qle_bool_iff.
  destruct (Qlt_le_dec (fst a) (fst b)); [left; by apply Qlt_le_weak | by right].
Qed.

Lemma score_leb_trans (a b c : Q * bool) :
  score_leb a b = true → score_leb b c = true → score_leb a c = true.
Proof. unfold score_leb. rewrite !Qle_bool_iff. apply Qle_trans. Qed.

(** The samples in the order [roc_curve] walks them: a rearrangement of the
    input by non-increasing score. *)
Lemma descending_samples (samples : list (Q * bool)) :
  let desc := reverse (sort_by score_leb samples) in
  desc ≡ₚ samples ∧ StronglySorted (fun a b => (fst b <= fst a)%Q) desc.
Proof.
  simpl. split.
  - by rewrite reverse_Permutation, sort_by_perm.
  - pose proof (sort_by_sorted score_leb (fun _ => True)
                  (fun x y _ _ => score_leb_total x y) score_leb_trans samples) as Hs.
    apply StronglySorted_reverse in Hs; [|by apply Forall_true].
    clear -Hs. induction Hs as [|x l _ IH Hx]; constructor; [done|].
    eapply Forall_impl; [exact Hx|]. intros y. unfold flip, score_leb.
    by rewrite Qle_bool_iff.
Qed.

(** Sorted by non-increasing score, separated classes come as all the
    positives followed by all the negatives. *)
Lemma separated_split (c : Q) (l : list (Q * bool)) :
  StronglySorted (fun a b => (fst b <= fst a)%Q) l →
  Forall (on_its_side c) l →
  ∃ P N, l = P ++ N ∧
         Forall (fun x => snd x = true ∧ (c <= fst x)%Q) P ∧
         Forall (fun x => snd x = false ∧ (fst x < c)%Q) N.
Proof.
  induction l as [|[s y] l IH]; intros Hs Hc.
  - exists [], []. by repeat constructor.
  - apply StronglySorted_cons in Hs as [Hx Hs]. apply Forall_cons in Hc as [Hxc Hc].
    destruct y.
    + destruct (IH Hs Hc) as (P & N & -> & HP & HN).
      exists ((s, true) :: P), N. split; [done|]. split; [|done].
      constructor; [|done]. by split.
    + exists [], ((s, false) :: l). split; [done|]. split; [constructor|].
      constructor; [by split|].
      rewrite Forall_forall in Hx, Hc. apply Forall_forall. intros [s' y'] Hin.
      specialize (Hx _ Hin). specialize (Hc _ Hin).
      unfold on_its_side in *. simpl in *. destruct y'.
      * exfalso. apply (Qlt_irrefl c).
        eapply Qle_lt_trans; [exact Hc|]. eapply Qle_lt_trans; [exact Hx | exact Hxc].
      * split; [done|]. eapply Qle_lt_trans; [exact Hx | exact Hxc].
Qed.

Lemma binary_clf_curve_step fps tps s (y : bool) s' y' l :
  binary_clf_curve fps tps ((s, y) :: (s', y') :: l) =
    if Qeq_bool s s'
    then binary_clf_curve (if y then fps else S fps) (if y then S tps else tps)
                          ((s', y') :: l)
    else mkPoint (if y then fps else S fps) (if y then S tps else tps) (Fin s)
           :: binary_clf_curve (if y then fps else S fps) (if y then S tps else tps)
                               ((s', y') :: l).
Proof. reflexivity. Qed.

(** Along the negatives the true-positive count stands still and the
    false-positive count grows to the number of negatives. *)
Lemma clf_curve_negatives (N : list (Q * bool)) :
  Forall (fun x => snd x = false) N →
  ∀ fps tps,
    Forall (fun p => pt_tps p = tps ∧ (fps < pt_fps p)%nat)
           (binary_clf_curve fps tps N) ∧
    (N ≠ [] → ∃ thr, last (binary_clf_curve fps tps N)
                     = Some (mkPoint (fps + length N) tps thr)).
Proof.
  induction N as [|[s y] N IH]; intros HN fps tps.
  - split; [constructor | done].
  - apply Forall_cons in HN as [Hy HN]. simpl in Hy. subst y.
    specialize (IH HN (S fps) tps) as [IH1 IH2].
    simpl. destruct N as [|[s' y'] N'].
    + split; [repeat constructor; simpl; lia|]. intros _. exists (Fin s). simpl.
      do 2 f_equal. lia.
    + assert (Hlast : ∃ thr, last (binary_clf_curve (S fps) tps ((s', y') :: N'))
                             = Some (mkPoint (fps + length ((s, false) :: (s', y') :: N'))
                                             tps thr)).
      { destruct IH2 as [thr Hl]; [done|]. exists thr. rewrite Hl. do 2 f_equal.
        simpl. lia. }
      assert (Hall : Forall (fun p => pt_tps p = tps ∧ (fps < pt_fps p)%nat)
                            (binary_clf_curve (S fps) tps ((s', y') :: N'))).
      { eapply Forall_impl; [exact IH1|]. intros p [? ?]. split; [done | lia]. }
      destruct (Qeq_bool s s').
      * split; [exact Hall | intros _; exact Hlast].
      * split; [constructor; [simpl; lia | exact Hall]|]. intros _.
        destruct Hlast as [thr Hl]. exists thr.
        change (last (?p :: ?l)) with (last ([p] ++ l)).
        rewrite last_app, Hl. done.
Qed.

(** Along the positives the false-positive count stays 0; the last
    positive closes a point that has all the positives and no negative. *)
Lemma clf_curve_positives (c : Q) (N : list (Q * bool)) (P : list (Q * bool)) :
  N ≠ [] →
  Forall (fun x => snd x = false ∧ (fst x < c)%Q) N →
  P ≠ [] →
  Forall (fun x => snd x = true ∧ (c <= fst x)%Q) P →
  ∀ tps, ∃ A t,
    binary_clf_curve 0 tps (P ++ N) =
      A ++ mkPoint 0 (tps + length P) (Fin t)
        :: binary_clf_curve 0 (tps + length P) N ∧
    Forall (fun p => pt_fps p = O ∧ (pt_tps p < tps + length P)%nat) A ∧
    last P = Some (t, true).
Proof.
  intros HNne HN. induction P as [|[s y] P IH]; intros HPne HP tps; [done|].
  apply Forall_cons in HP as [[Hy Hs] HP]. simpl in Hy, Hs. subst y.
  destruct P as [|[s' y'] P'].
  - destruct N as [|[sn yn] N']; [done|].
    apply Forall_cons in HN as [[_ Hsn] _]. simpl in Hsn.
    exists [], s. simpl.
    assert (Hne : Qeq_bool s sn = false).
    { apply not_true_is_false. intros Heq%Qeq_bool_iff.
      apply (Qlt_irrefl c). eapply Qle_lt_trans; [exact Hs|]. by rewrite Heq. }
    rewrite Hne. replace (tps + 1)%nat with (S tps) by lia. done.
  - destruct (IH ltac:(done) HP (S tps)) as (A & t & Hcurve & HA & Hlast).
    replace (S tps + length ((s', y') :: P'))%nat
      with (tps + length ((s, true) :: (s', y') :: P'))%nat in * by (simpl; lia).
    change (((s, true) :: (s', y') :: P') ++ N)
      with ((s, true) :: (s', y') :: P' ++ N).
    rewrite binary_clf_curve_step.
    change ((s', y') :: P' ++ N) with (((s', y') :: P') ++ N). rewrite Hcurve.
    destruct (Qeq_bool s s').
    + exists A, t. done.
    + exists (mkPoint 0 (S tps) (Fin s) :: A), t. split; [done|]. split; [|done].
      constructor; [|done]. simpl. lia.
Qed.

(** Dropping collinear points keeps the last point, adds nothing, and keeps
    every point at which the curve bends. *)
Lemma drop_collinear_step prev cur next l :
  drop_collinear prev (cur :: next :: l) =
    if bends prev cur next then cur :: drop_collinear cur (next :: l)
    else drop_collinear cur (next :: l).
Proof. reflexivity. Qed.

Lemma drop_collinear_elem (l : list point) :
  ∀ prev x, x ∈ drop_collinear prev l → x ∈ l.
Proof.
  induction l as [|cur l IH]; intros prev x; [done|].
  destruct l as [|next l].
  - simpl. done.
  - rewrite drop_collinear_step. destruct (bends prev cur next).
    + intros [->|H]%elem_of_cons; [left | right; by eapply IH].
    + intros H. right. by eapply IH.
Qed.

Lemma drop_collinear_last (l : list point) :
  ∀ prev, last (drop_collinear prev l) = last l.
Proof.
  induction l as [|cur l IH]; intros prev; [done|].
  destruct l as [|next l]; [done|].
  rewrite drop_collinear_step, last_cons_cons. destruct (bends prev cur next).
  - rewrite last_cons, IH. destruct (last (next :: l)) eqn:E; [done|].
    by apply last_None in E.
  - apply IH.
Qed.

Lemma drop_collinear_keeps (l1 l2 : list point) (cur next : point) :
  ∀ prev,
    bends (default prev (last l1)) cur next = true →
    cur ∈ drop_collinear prev (l1 ++ cur :: next :: l2).
Proof.
  induction l1 as [|a l1 IH]; intros prev Hb.
  - simpl app. rewrite drop_collinear_step. simpl in Hb. rewrite Hb. left.
  - assert (Hrec : cur ∈ drop_collinear a (l1 ++ cur :: next :: l2)).
    { apply IH. rewrite last_cons in Hb. by destruct (last l1). }
    destruct l1 as [|b l1]; simpl app in *.
    + rewrite drop_collinear_step. destruct (bends prev a cur); [by right | done].
    + rewrite drop_collinear_step. destruct (bends prev a b); [by right | done].
Qed.

Lemma drop_intermediate_elem (pts : list point) (x : point) :
  x ∈ drop_intermediate pts → x ∈ pts.
Proof.
  unfold drop_intermediate. destruct (2 <? length pts)%nat; [|done].
  destruct pts as [|p l]; [done|].
  intros [->|H]%elem_of_cons; [left | right; by eapply drop_collinear_elem].
Qed.

Lemma drop_intermediate_last (pts : list point) :
  last (drop_intermediate pts) = last pts.
Proof.
  unfold drop_intermediate. destruct (2 <? length pts)%nat; [|done].
  destruct pts as [|p l]; [done|].
  rewrite !last_cons, drop_collinear_last. done.
Qed.

(** The point that closes the positives survives: the false-positive count
    is flat before it and rises after it. *)
Lemma drop_intermediate_keeps (A B : list point) (p b : point) :
  Forall (fun a => pt_fps a = O) A →
  pt_fps p = O →
  (0 < pt_fps b)%nat →
  p ∈ drop_intermediate (A ++ p :: b :: B).
Proof.
  intros HA Hp Hb. unfold drop_intermediate.
  destruct (2 <? length (A ++ p :: b :: B))%nat; [|set_solver].
  destruct A as [|a A]; [left|]. simpl app. right.
  apply drop_collinear_keeps.
  assert (Hprev : pt_fps (default a (last A)) = O).
  { destruct (last A) as [z|] eqn:E; simpl.
    - apply last_Some_elem_of in E. rewrite Forall_forall in HA. apply HA. by right.
    - rewrite Forall_forall in HA. apply HA. left. }
  unfold bends. rewrite Hprev, Hp. apply orb_true_iff. left.
  apply negb_true_iff, Z.eqb_neq. lia.
Qed.

(** The points [roc_curve] keeps for separated classes: one of them has no
    false positive and all the true positives, its threshold is the lowest
    positive score, and no other kept point does as well. *)
Lemma roc_points_separated (c : Q) (samples : list (Q * bool)) :
  Forall (on_its_side c) samples →
  (∃ x, x ∈ samples ∧ snd x = true) →
  (∃ x, x ∈ samples ∧ snd x = false) →
  let pts := drop_intermediate
               (binary_clf_curve 0 0 (reverse (sort_by score_leb samples))) in
  ∃ (np nn : nat) (t : Q),
    (0 < np)%nat ∧ (0 < nn)%nat ∧
    mkPoint 0 np (Fin t) ∈ pts ∧
    (∃ thr, last pts = Some (mkPoint nn np thr)) ∧
    (∀ x, x ∈ pts →
          (pt_tps x ≤ np)%nat ∧
          (pt_fps x = O → pt_tps x = np → x = mkPoint 0 np (Fin t))) ∧
    (∀ x, x ∈ samples → on_its_side t x).
Proof.
  intros Hside (xp & Hxp & Hxpy) (xn & Hxn & Hxny) pts.
  destruct (descending_samples samples) as [Hperm Hsorted].
  set (desc := reverse (sort_by score_leb samples)) in *.
  assert (Hdside : Forall (on_its_side c) desc).
  { rewrite Hperm. exact Hside. }
  destruct (separated_split c desc Hsorted Hdside) as (P & N & Hdesc & HP & HN).
  assert (HPne : P ≠ []).
  { intros ->. simpl in Hdesc. rewrite <- Hperm, Hdesc in Hxp.
    rewrite Forall_forall in HN. destruct (HN _ Hxp). congruence. }
  assert (HNne : N ≠ []).
  { intros ->. rewrite app_nil_r in Hdesc. rewrite <- Hperm, Hdesc in Hxn.
    rewrite Forall_forall in HP. destruct (HP _ Hxn). congruence. }
  destruct (clf_curve_positives c N P HNne HN HPne HP 0%nat)
    as (A & t & Hcurve & HA & Hlast).
  simpl in Hcurve.
  assert (HNf : Forall (fun x => snd x = false) N).
  { eapply Forall_impl; [exact HN|]. by intros x [? _]. }
  destruct (clf_curve_negatives N HNf 0%nat (length P)) as [HB HBlast].
  destruct (HBlast HNne) as [thr HBl]. simpl in HBl.
  set (B := binary_clf_curve 0 (length P) N) in *.
  destruct B as [|b B'] eqn:EB; [done|].
  assert (Hpts : pts = drop_intermediate (A ++ mkPoint 0 (length P) (Fin t) :: b :: B')).
  { unfold pts. fold desc. by rewrite Hdesc, Hcurve. }
  exists (length P), (length N), t.
  split; [destruct P; [done | simpl; lia]|].
  split; [destruct N; [done | simpl; lia]|].
  split.
  { rewrite Hpts. apply drop_intermediate_keeps.
    - eapply Forall_impl; [exact HA|]. by intros a [? _].
    - done.
    - apply Forall_cons in HB as [[_ Hb] _]. exact Hb. }
  split.
  { exists thr. rewrite Hpts, drop_intermediate_last.
    rewrite last_app, last_cons, HBl. done. }
  split.
  { intros x Hx. rewrite Hpts in Hx. apply drop_intermediate_elem in Hx.
    apply elem_of_app in Hx as [Hx|Hx].
    - rewrite Forall_forall in HA. destruct (HA _ Hx) as [Hf Ht].
      split; [lia|]. intros _ Heq. lia.
    - apply elem_of_cons in Hx as [->|Hx]; [by split|].
      rewrite Forall_forall in HB. destruct (HB _ Hx) as [Ht Hf].
      split; [lia|]. intros Hz. lia. }
  intros x Hx. rewrite <- Hperm, Hdesc in Hx.
  apply last_Some in Hlast as [P0 ->].
  assert (Hct : (c <= t)%Q).
  { rewrite Forall_forall in HP. destruct (HP (t, true)) as [_ H]; [|done].
    apply elem_of_app. right. by apply list_elem_of_singleton. }
  apply elem_of_app in Hx as [Hx|Hx].
  - rewrite Forall_forall in HP. destruct (HP _ Hx) as [Hy _].
    unfold on_its_side. rewrite Hy.
    apply elem_of_app in Hx as [Hx|Hx].
    + rewrite Hdesc in Hsorted. apply StronglySorted_app_1_l in Hsorted.
      apply (StronglySorted_app_1_elem_of _ _ _ x (t, true)) in Hsorted;
        [done | done | by apply list_elem_of_singleton].
    + apply list_elem_of_singleton in Hx as ->. apply Qle_refl.
  - rewrite Forall_forall in HN. destruct (HN _ Hx) as [Hy Hlt].
    unfold on_its_side. rewrite Hy.
    eapply Qlt_le_trans; [exact Hlt | exact Hct].
Qed.

(** Youden's J of a point is at most 1, and 1 only with every positive and
    no negative above the threshold. *)
Lemma youden_le_one (tp fp : Z) (p n : positive) :
  0 ≤ fp → tp ≤ Z.pos p →
  (1 <= Qred (Qred (inject_Z tp / inject_Z (Z.pos p)) +
              Qred (- Qred (inject_Z fp / inject_Z (Z.pos n)))))%Q →
  tp = Z.pos p ∧ fp = 0.
Proof.
  intros Hfp Htp. rewrite !Qred_correct.
  unfold Qle, Qplus, Qopp, Qdiv, Qmult, Qinv, inject_Z. simpl. nia.
Qed.

Lemma Qred_div_self (p : positive) :
  Qred (inject_Z (Z.pos p) / inject_Z (Z.pos p)) = 1%Q.
Proof.
  change 1%Q with (Qred 1). apply Qred_complete.
  unfold Qeq, Qdiv, Qmult, Qinv, inject_Z. simpl. lia.
Qed.

Lemma Qred_zero_div (p : positive) : Qred (inject_Z 0 / inject_Z (Z.pos p)) = 0%Q.
Proof.
  change 0%Q with (Qred 0). apply Qred_complete.
  unfold Qeq, Qdiv, Qmult, Qinv, inject_Z. simpl. lia.
Qed.

Lemma f64_div_nat_S (a n : nat) :
  f64_div (f64_of_nat a) (f64_of_nat (S n)) =
    Fin (Qred (inject_Z (Z.of_nat a) / inject_Z (Z.pos (Pos.of_succ_nat n)))).
Proof. reflexivity. Qed.

Lemma rates_fmap {A} (f : A → nat) (l : list A) (n : nat) :
  last (f <$> l) = Some (S n) →
  rates (f <$> l) = (fun p => f64_div (f64_of_nat (f p)) (f64_of_nat (S n))) <$> l.
Proof.
  intros H. unfold rates. rewrite H. by rewrite <- list_fmap_compose.
Qed.

(** On such points, [argmax] of TPR - FPR lands on the point with
    TPR = 1 and FPR = 0. *)
Lemma youden_argmax_points (R : list point) (np nn : nat) (t : Q) (thr : f64) :
  (0 < np)%nat → (0 < nn)%nat →
  mkPoint 0 np (Fin t) ∈ R →
  last R = Some (mkPoint nn np thr) →
  (∀ x, x ∈ R →
        (pt_tps x ≤ np)%nat ∧
        (pt_fps x = O → pt_tps x = np → x = mkPoint 0 np (Fin t))) →
  let fpr := rates (O :: map pt_fps R) in
  let tpr := rates (O :: map pt_tps R) in
  let thresholds := PInf :: map pt_thr R in
  ∃ i, np_argmax (zip_with f64_sub tpr fpr) = Ok i ∧
       thresholds !! i = Some (Fin t) ∧
       tpr !! i = Some (Fin 1) ∧
       fpr !! i = Some (Fin 0).
Proof.
  intros Hnp Hnn Hstar Hlast Hall fpr tpr thresholds.
  destruct np as [|p']; [lia|]. destruct nn as [|n']; [lia|].
  set (R' := mkPoint 0 0 PInf :: R).
  assert (HlastR' : last R' = Some (mkPoint (S n') (S p') thr)).
  { unfold R'. by rewrite last_cons, Hlast. }
  assert (Hfpr : fpr = (fun p => f64_div (f64_of_nat (pt_fps p)) (f64_of_nat (S n'))) <$> R').
  { unfold fpr. change (O :: map pt_fps R) with (pt_fps <$> R').
    apply rates_fmap. by rewrite fmap_last, HlastR'. }
  assert (Htpr : tpr = (fun p => f64_div (f64_of_nat (pt_tps p)) (f64_of_nat (S p'))) <$> R').
  { unfold tpr. change (O :: map pt_tps R) with (pt_tps <$> R').
    apply rates_fmap. by rewrite fmap_last, HlastR'. }
  assert (Hthr : thresholds = pt_thr <$> R') by done.
  set (jv := fun p => f64_sub (f64_div (f64_of_nat (pt_tps p)) (f64_of_nat (S p')))
                              (f64_div (f64_of_nat (pt_fps p)) (f64_of_nat (S n')))).
  assert (HJ : zip_with f64_sub tpr fpr = jv <$> R').
  { rewrite Htpr, Hfpr, zip_with_fmap_l, zip_with_fmap_r, zip_with_diag. done. }
  rewrite HJ.
  destruct (np_argmax (jv <$> R')) as [i|e] eqn:Harg; [|done].
  exists i. split; [done|].
  apply np_argmax_first in Harg as (x & Hx & Hmax & _).
  apply list_lookup_fmap_Some in Hx as (pi & -> & Hpi).
  assert (Hin : mkPoint 0 (S p') (Fin t) ∈ R') by by right.
  apply list_elem_of_lookup in Hin as [k Hk].
  specialize (Hmax k (jv (mkPoint 0 (S p') (Fin t)))).
  rewrite list_lookup_fmap, Hk in Hmax. specialize (Hmax eq_refl).
  assert (Hpi_le : (pt_tps pi ≤ S p')%nat).
  { apply list_elem_of_lookup_2 in Hpi. apply elem_of_cons in Hpi as [->|Hpi].
    - simpl. lia.
    - by apply Hall. }
  assert (Hbest : pt_tps pi = S p' ∧ pt_fps pi = O).
  { assert (Hj1 : jv (mkPoint 0 (S p') (Fin t)) = Fin 1).
    { unfold jv. cbn [pt_tps pt_fps]. rewrite !f64_div_nat_S.
      change (Z.of_nat (S p')) with (Z.pos (Pos.of_succ_nat p')).
      rewrite Qred_div_self. change (Z.of_nat 0) with 0. rewrite Qred_zero_div.
      reflexivity. }
    assert (Hj2 : jv pi =
              Fin (Qred (Qred (inject_Z (Z.of_nat (pt_tps pi))
                               / inject_Z (Z.pos (Pos.of_succ_nat p'))) +
                         Qred (- Qred (inject_Z (Z.of_nat (pt_fps pi))
                                       / inject_Z (Z.pos (Pos.of_succ_nat n'))))))).
    { unfold jv. rewrite !f64_div_nat_S. reflexivity. }
    rewrite Hj1, Hj2 in Hmax. unfold np_le in Hmax.
    cbn [isnan notnan negb orb andb f64_leb] in Hmax.
    apply Qle_bool_iff in Hmax.
    destruct (youden_le_one (Z.of_nat (pt_tps pi)) (Z.of_nat (pt_fps pi))
                (Pos.of_succ_nat p') (Pos.of_succ_nat n')) as [Ht Hf];
      [lia | lia | exact Hmax | lia]. }
  destruct Hbest as [Ht Hf].
  assert (Hpi_eq : pi = mkPoint 0 (S p') (Fin t)).
  { apply list_elem_of_lookup_2 in Hpi. apply elem_of_cons in Hpi as [->|Hpi].
    - simpl in Ht. lia.
    - by apply Hall. }
  subst pi. rewrite Hthr, Htpr, Hfpr, !list_lookup_fmap, Hpi.
  cbn [fmap option_fmap option_map pt_thr pt_tps pt_fps].
  rewrite !f64_div_nat_S.
  change (Z.of_nat (S p')) with (Z.pos (Pos.of_succ_nat p')).
  change (Z.of_nat 0) with 0.
  by rewrite Qred_div_self, Qred_zero_div.
Qed.

Lemma separated_samples (c : Q) (y s : list f64) :
  Forall2 (separated_at c) y s →
  ∃ labels scores,
    mapR binary_label y = Ok labels ∧
    mapR finite_score s = Ok scores ∧
    Forall2 (fun yi l => l = f64_eqb yi (Fin 1)) y labels ∧
    Forall2 (fun si q => si = Fin q) s scores ∧
    Forall (on_its_side c) (zip scores labels).
Proof.
  induction 1 as [|yi si y s (q & -> & Hq) _ (labels & scores & Hl & Hs & H1 & H2 & H3)].
  - exists [], []. by repeat constructor.
  - exists (f64_eqb yi (Fin 1) :: labels), (q :: scores). simpl.
    rewrite Hl, Hs. simpl.
    assert (Hlab : binary_label yi = Ok (f64_eqb yi (Fin 1))).
    { unfold binary_label. destruct Hq as [[-> _]|[H0 _]]; [done|].
      destruct (f64_eqb yi (Fin 1)); [done|]. by rewrite H0. }
    rewrite Hlab. simpl. repeat split; try by constructor.
    constructor; [|done]. unfold on_its_side. simpl.
    destruct Hq as [[-> Hq]|[H0 Hq]]; [done|].
    destruct (f64_eqb yi (Fin 1)) eqn:E1; [|done].
    exfalso. rewrite f64_eqb_sym in E1.
    pose proof (f64_eqb_trans _ _ _ E1 H0) as Hbad. done.
Qed.



(** ** Columns through the frame operations *)

Lemma assoc_filter_key {V} (p : string → bool) (k : string) (l : list (string * V)) :
  assoc k (List.filter (fun c => p (fst c)) l) = if p k then assoc k l else None.
Proof.
  induction l as [|[k' v] l IH]; simpl; [by destruct (p k)|].
  destruct (p k') eqn:Hk'; simpl.
  - destruct (String.eqb_spec k k') as [->|Hne]; [by rewrite Hk' | exact IH].
  - destruct (String.eqb_spec k k') as [->|Hne]; [by rewrite IH, Hk' | exact IH].
Qed.

Lemma map_fst_filter_key {V} (p : string → bool) (l : list (string * V)) :
  map fst (List.filter (fun c => p (fst c)) l) = List.filter p (map fst l).
Proof.
  induction l as [|[k v] l IH]; simpl; [done|].
  destruct (p k); simpl; by rewrite IH.
Qed.

Lemma assoc_map_snd {V W} (f : string → V → W) (k : string) (l : list (string * V)) :
  assoc k (map (fun c => (fst c, f (fst c) (snd c))) l) = f k <$> assoc k l.
Proof.
  induction l as [|[k' v] l IH]; simpl; [done|].
  destruct (String.eqb_spec k k') as [->|Hne]; [done | exact IH].
Qed.

Lemma map_fst_map_snd {V W} (f : string → V → W) (l : list (string * V)) :
  map fst (map (fun c => (fst c, f (fst c) (snd c))) l) = map fst l.
Proof. rewrite map_map. by apply map_ext. Qed.

Lemma filter_elem_of (p : string → bool) (l : list string) (k : string) :
  k ∈ List.filter p l ↔ k ∈ l ∧ p k = true.
Proof. rewrite !list_elem_of_In. apply filter_In. Qed.

Lemma NoDup_filter_b (p : string → bool) (l : list string) :
  NoDup l → NoDup (List.filter p l).
Proof.
  induction 1 as [|x l Hx Hl IH]; simpl; [constructor|].
  destruct (p x); [|done]. constructor; [|done].
  rewrite filter_elem_of. tauto.
Qed.

(** [drop]: the columns outside the list, in their order. *)
Lemma drop_Ok df cs df' :
  drop df cs = Ok df' →
  index df' = index df ∧
  columns df' = List.filter (fun c => negb (mem (fst c) cs)) (columns df) ∧
  (∀ c, c ∈ cs → c ∈ names df).
Proof.
  unfold drop. destruct (List.find _ cs) as [c|] eqn:Hfind; [done|].
  intros [= <-]. simpl. repeat split.
  intros c Hc. apply mem_true.
  pose proof (find_none _ _ Hfind c) as H. simpl in H.
  apply negb_false_iff, H. by apply list_elem_of_In.
Qed.

Lemma drop_assoc df cs df' c :
  drop df cs = Ok df' →
  assoc c (columns df') = if mem c cs then None else assoc c (columns df).
Proof.
  intros (_ & -> & _)%drop_Ok.
  rewrite (assoc_filter_key (fun k => negb (mem k cs))). by destruct (mem c cs).
Qed.

Lemma drop_names df cs df' :
  drop df cs = Ok df' →
  names df' = List.filter (fun k => negb (mem k cs)) (names df).
Proof.
  intros (_ & Hc & _)%drop_Ok. unfold names. rewrite Hc.
  apply (map_fst_filter_key (fun k => negb (mem k cs))).
Qed.

Lemma drop_len df cs df' : drop df cs = Ok df' → len df' = len df.
Proof. intros (Hi & _)%drop_Ok. unfold len. by rewrite Hi. Qed.

(** [reindex_columns]: the listed columns, in the listed order. *)
Lemma reindex_columns_assoc df cs c :
  assoc c (columns (reindex_columns df cs)) =
    if mem c cs then assoc c (columns df) else None.
Proof.
  unfold reindex_columns. cbn [columns].
  set (g := fun k : string => assoc k (columns df) ≫= fun s => Some (k, s)).
  induction cs as [|k cs IH]; [done|].
  change (omap g (k :: cs))
    with (match g k with Some y => y :: omap g cs | None => omap g cs end).
  change (mem c (k :: cs)) with (String.eqb c k || mem c cs).
  unfold g at 1. destruct (assoc k (columns df)) as [s|] eqn:Hk; cbn [mbind option_bind].
  - cbn [assoc]. destruct (String.eqb_spec c k) as [Heq|Hne]; cbn [orb].
    + by rewrite Heq, Hk.
    + exact IH.
  - destruct (String.eqb_spec c k) as [Heq|Hne]; cbn [orb].
    + rewrite IH, Heq, Hk. by destruct (mem k cs).
    + exact IH.
Qed.

Lemma reindex_columns_names df cs :
  (∀ c, c ∈ cs → c ∈ names df) → names (reindex_columns df cs) = cs.
Proof.
  unfold reindex_columns, names. cbn [columns].
  set (g := fun k : string => assoc k (columns df) ≫= fun s => Some (k, s)).
  induction cs as [|k cs IH]; intros H; [done|].
  change (omap g (k :: cs))
    with (match g k with Some y => y :: omap g cs | None => omap g cs end).
  assert (Hk : k ∈ map fst (columns df)) by (apply H; left).
  apply assoc_is_Some in Hk as [s Hs]. unfold g at 1. rewrite Hs.
  cbn [mbind option_bind map fst]. f_equal.
  apply IH. intros c Hc. apply H. by right.
Qed.

(** After [align], both frames carry the shared labels in the order of the
    left frame, with the data they had. *)
Lemma align_inner_spec left right l r :
  align_inner left right = (l, r) →
  let common := List.filter (fun c => mem c (names right)) (names left) in
  names l = common ∧ names r = common ∧
  index l = index left ∧ index r = index right ∧
  (∀ c, assoc c (columns l) = if mem c common then assoc c (columns left) else None) ∧
  (∀ c, assoc c (columns r) = if mem c common then assoc c (columns right) else None).
Proof.
  unfold align_inner. intros [= <- <-]. cbv zeta.
  set (common := List.filter (fun c => mem c (names right)) (names left)).
  split; [|split].
  - apply reindex_columns_names. intros c Hc. by apply filter_elem_of in Hc as [? _].
  - apply reindex_columns_names. intros c Hc.
    apply filter_elem_of in Hc as [_ ?]. by apply mem_true.
  - repeat split; intros c; apply reindex_columns_assoc.
Qed.

Lemma NoDup_names_wf df : wf df = true → NoDup (names df).
Proof. unfold wf. intros [H _]%andb_true_iff. by apply nodup_b_NoDup. Qed.

Lemma wf_series_len df c s :
  wf df = true → assoc c (columns df) = Some s → series_len s = len df.
Proof.
  unfold wf. intros [_ H]%andb_true_iff Hs.
  rewrite forallb_forall in H. apply assoc_Some_elem in Hs.
  apply Nat.eqb_eq. apply (H (c, s)). by apply list_elem_of_In.
Qed.

Lemma length_cells s : length (cells s) = series_len s.
Proof. destruct s; simpl; [apply length_map | done]. Qed.

(** ** Label encoding *)

Lemma insert_unique_elem (x y : string) (l : list string) :
  y ∈ insert_unique String.compare x l ↔ y = x ∨ y ∈ l.
Proof.
  induction l as [|z l IH]; simpl.
  - rewrite list_elem_of_singleton. split; [by left | by intros [?|?%elem_of_nil]].
  - destruct (String.compare x z) eqn:Hc.
    + apply String.compare_eq_iff in Hc as ->. split; [by right|].
      intros [->|H]; [left | done].
    + rewrite elem_of_cons. tauto.
    + rewrite !elem_of_cons, IH. tauto.
Qed.

(** The classes of a fitted encoder are exactly the labels it has seen. *)
Lemma fit_elem (y : string) (ys : list string) :
  y ∈ LabelEncoder.fit ys ↔ y ∈ ys.
Proof.
  unfold LabelEncoder.fit, np_unique. induction ys as [|x ys IH]; simpl; [done|].
  rewrite insert_unique_elem, IH, elem_of_cons. tauto.
Qed.

Lemma index_of_Some (s : string) (classes : list string) (i : nat) :
  LabelEncoder.index_of s classes = Some i → classes !! i = Some s.
Proof.
  revert i. induction classes as [|c classes IH]; intros i; simpl; [done|].
  destruct (String.eqb_spec s c) as [->|Hne].
  - by intros [= <-].
  - destruct (LabelEncoder.index_of s classes) as [j|]; simpl; [|done].
    intros [= <-]. simpl. by apply IH.
Qed.

Lemma index_of_elem (s : string) (classes : list string) :
  s ∈ classes → is_Some (LabelEncoder.index_of s classes).
Proof.
  induction classes as [|c classes IH]; simpl; [by intros ?%elem_of_nil|].
  intros H. destruct (String.eqb_spec s c) as [->|Hne]; [eauto|].
  apply elem_of_cons in H as [?|H]; [done|].
  destruct (IH H) as [j ->]. simpl. eauto.
Qed.

(** A code stands for one label only. *)
Lemma index_of_inj (s s' : string) (classes : list string) (i : nat) :
  LabelEncoder.index_of s classes = Some i →
  LabelEncoder.index_of s' classes = Some i →
  s = s'.
Proof. intros H1%index_of_Some H2%index_of_Some. congruence. Qed.

Lemma transform_total (classes ys : list string) :
  (∀ y, y ∈ ys → y ∈ classes) →
  ∃ codes, LabelEncoder.transform classes ys = Ok codes.
Proof.
  unfold LabelEncoder.transform. induction ys as [|y ys IH]; intros H; simpl; [eauto|].
  destruct (index_of_elem y classes) as [i ->]; [apply H; left|]. simpl.
  destruct IH as [codes ->]; [intros z Hz; apply H; by right|]. simpl. eauto.
Qed.

(** [fit_transform] never raises, and gives every label its position among
    the classes. *)
Lemma fit_transform_total (ys : list string) :
  ∃ codes, LabelEncoder.fit_transform ys = Ok codes.
Proof.
  unfold LabelEncoder.fit_transform. apply transform_total.
  intros y Hy. by apply fit_elem.
Qed.

Lemma fit_transform_spec (ys : list string) (codes : list nat) :
  LabelEncoder.fit_transform ys = Ok codes →
  Forall2 (fun y c => LabelEncoder.index_of y (LabelEncoder.fit ys) = Some c) ys codes.
Proof.
  unfold LabelEncoder.fit_transform, LabelEncoder.transform. intros H%mapR_Ok.
  eapply Forall2_impl; [exact H|]. intros y c Hc. simpl in Hc.
  by destruct (LabelEncoder.index_of y (LabelEncoder.fit ys)) as [i|]; [injection Hc as ->|].
Qed.

Section EncodeLoop.
Context (repr_float : Q → string).

Lemma encode_column_Ok tr te c tr1 te1 :
  encode_column repr_float (tr, te) c = Ok (tr1, te1) →
  ∃ a b codes,
    assoc c (columns tr) = Some a ∧
    assoc c (columns te) = Some b ∧
    LabelEncoder.fit_transform (map (astype_str repr_float) (cells a ++ cells b)) = Ok codes ∧
    tr1 = setitem tr c (Float64 (take (len tr) (map f64_of_nat codes))) ∧
    te1 = setitem te c (Float64 (List.skipn (len tr) (map f64_of_nat codes))).
Proof.
  unfold encode_column. intros H.
  apply bindR_Ok in H as (a & Ha%getitem_Ok & H).
  apply bindR_Ok in H as (b & Hb%getitem_Ok & H).
  apply bindR_Ok in H as (codes & Hcodes & [= <- <-]).
  by exists a, b, codes.
Qed.

(** The encoding loop, column by column: a categorical column is replaced in
    both frames by the codes of one encoder fit on its train values followed
    by its test values; every other column is left alone. *)
Lemma encode_loop_spec (cats : list string) :
  ∀ tr te tr' te',
    NoDup cats →
    foldR (encode_column repr_float) (tr, te) cats = Ok (tr', te') →
    index tr' = index tr ∧ index te' = index te ∧
    names tr' = names tr ∧ names te' = names te ∧
    (∀ c, c ∉ cats →
          assoc c (columns tr') = assoc c (columns tr) ∧
          assoc c (columns te') = assoc c (columns te)) ∧
    (∀ c, c ∈ cats →
          ∃ a b codes,
            assoc c (columns tr) = Some a ∧
            assoc c (columns te) = Some b ∧
            LabelEncoder.fit_transform
              (map (astype_str repr_float) (cells a ++ cells b)) = Ok codes ∧
            assoc c (columns tr') =
              Some (Float64 (take (len tr) (map f64_of_nat codes))) ∧
            assoc c (columns te') =
              Some (Float64 (List.skipn (len tr) (map f64_of_nat codes)))).
Proof.
  induction cats as [|c cats IH]; intros tr te tr' te' Hnd Hrun.
  - simpl in Hrun. injection Hrun as <- <-. repeat split; try done.
    intros c Hc. by apply elem_of_nil in Hc.
  - apply NoDup_cons in Hnd as [Hc Hnd]. simpl in Hrun.
    apply bindR_Ok in Hrun as ([tr1 te1] & Hstep & Hrun).
    apply encode_column_Ok in Hstep as (a & b & codes & Ha & Hb & Hcodes & -> & ->).
    apply IH in Hrun as (Hi1 & Hi2 & Hn1 & Hn2 & Hother & Hcat); [|done].
    split; [done|]. split; [done|].
    split. { rewrite Hn1. unfold names, setitem. simpl. apply set_assoc_names_in.
             apply assoc_is_Some. eauto. }
    split. { rewrite Hn2. unfold names, setitem. simpl. apply set_assoc_names_in.
             apply assoc_is_Some. eauto. }
    split.
    + intros c' Hc'. apply not_elem_of_cons in Hc' as [Hne Hc'].
      destruct (Hother c' Hc') as [-> ->]. unfold setitem. simpl.
      by rewrite !assoc_set_assoc_ne.
    + intros c' [->|Hc']%elem_of_cons.
      * exists a, b, codes. repeat (split; [done|]).
        destruct (Hother c Hc) as [-> ->]. unfold setitem. simpl.
        by rewrite !assoc_set_assoc_eq.
      * destruct (Hcat c' Hc') as (a' & b' & codes' & Ha' & Hb' & Hcodes' & Htr & Hte).
        assert (Hne : c ≠ c') by (intros ->; done).
        unfold setitem in Ha', Hb'. simpl in Ha', Hb'.
        rewrite assoc_set_assoc_ne in Ha', Hb' by done.
        exists a', b', codes'. by rewrite len_setitem in Htr, Hte.
Qed.

End EncodeLoop.

(** ** The two halves of [preprocess_data] *)

Lemma preprocess_data_split repr_float train_df test_df target :
  preprocess_data repr_float train_df test_df target =
    ('(tr, te, y_train, train_ids, test_ids) ←
       aligned_frames repr_float train_df test_df target;
     '(X_train, X_test) ← finalize_frames tr te;
     Ok (X_train, X_test, y_train, train_ids, test_ids)).
Proof.
  unfold preprocess_data, aligned_frames, finalize_frames.
  destruct (getitem train_df target) as [y|]; [|done]. cbn [mbind result_bind].
  destruct (drop train_df [target]) as [tr0|]; [|done]. cbn [mbind result_bind].
  destruct (getitem tr0 "SK_ID_CURR") as [i1|]; [|done]. cbn [mbind result_bind].
  destruct (getitem test_df "SK_ID_CURR") as [i2|]; [|done]. cbn [mbind result_bind].
  destruct (foldR _ _ _) as [[tr1 te1]|]; [|done]. cbn [mbind result_bind].
  destruct (drop tr1 ["SK_ID_CURR"]) as [tr2|]; [|done]. cbn [mbind result_bind].
  destruct (drop te1 ["SK_ID_CURR"]) as [te2|]; [|done]. cbn [mbind result_bind].
  destruct (align_inner tr2 te2) as [tr3 te3]. cbn [mbind result_bind].
  destruct (if (0 <? length (high_missing_cols tr3))%nat then _ else _)
    as [[tr4 te4]|]; [|done]. cbn [mbind result_bind].
  destruct (foldR impute_column _ _) as [[tr5 te5]|]; [|done]. cbn [mbind result_bind].
  destruct (df_median (df_replace_inf tr5)) as [m1|]; [|done]. cbn [mbind result_bind].
  destruct (df_median (df_fillna (df_replace_inf tr5) m1)) as [m2|]; done.
Qed.

Lemma preprocess_data_Ok repr_float train_df test_df target X_train X_test y i1 i2 :
  preprocess_data repr_float train_df test_df target = Ok (X_train, X_test, y, i1, i2) ↔
  ∃ tr te,
    aligned_frames repr_float train_df test_df target = Ok (tr, te, y, i1, i2) ∧
    finalize_frames tr te = Ok (X_train, X_test).
Proof.
  rewrite preprocess_data_split. split.
  - intros H. apply bindR_Ok in H as ([[[[tr te] y'] i1'] i2'] & Ha & H).
    apply bindR_Ok in H as ([X Xt] & Hf & [= <- <- <- <- <-]). eauto.
  - intros (tr & te & -> & Hf). cbn [mbind result_bind]. by rewrite Hf.
Qed.

(** ** Missing values, column by column *)

Lemma count_null_Float64 xs : count_null (Float64 xs) = count_nan xs.
Proof.
  unfold count_null, count_nan. simpl. induction xs as [|x xs IH]; simpl; [done|].
  destruct (isnan x); simpl; by rewrite IH.
Qed.

Lemma impute_column_Ok tr te c tr1 te1 :
  impute_column (tr, te) c = Ok (tr1, te1) →
  ∃ T, assoc c (columns tr) = Some T ∧
       ((count_null T = O ∧ tr1 = tr ∧ te1 = te) ∨
        ((0 < count_null T)%nat ∧
         ∃ xs S, T = Float64 xs ∧ assoc c (columns te) = Some S ∧
                 tr1 = setitem tr c (Float64 (map (fill (median xs)) xs)) ∧
                 te1 = setitem te c (fillna (median xs) S))).
Proof.
  unfold impute_column. intros H.
  apply bindR_Ok in H as (T & HT%getitem_Ok & H). exists T. split; [done|].
  destruct (Nat.ltb_spec 0 (count_null T)) as [Hn|Hn].
  - right. split; [done|].
    apply bindR_Ok in H as (m & Hm & H).
    apply bindR_Ok in H as (S & HS%getitem_Ok & [= <- <-]).
    unfold series_median in Hm. apply bindR_Ok in Hm as (xs & Hxs & [= <-]).
    destruct T as [xs'|]; [|done]. injection Hxs as ->. by exists xs, S.
  - left. injection H as <- <-. split; [lia | done].
Qed.

(** The imputation loop, column by column: a training column with missing
    values is filled with its median, and so is the test column of the same
    label; nothing else changes. *)
Lemma impute_loop_spec (cs : list string) :
  ∀ tr te tr' te',
    NoDup cs →
    foldR impute_column (tr, te) cs = Ok (tr', te') →
    index tr' = index tr ∧ index te' = index te ∧
    names tr' = names tr ∧ names te' = names te ∧
    (∀ c, c ∉ cs →
          assoc c (columns tr') = assoc c (columns tr) ∧
          assoc c (columns te') = assoc c (columns te)) ∧
    (∀ c, c ∈ cs →
          ∃ T, assoc c (columns tr) = Some T ∧
               ((count_null T = O ∧ assoc c (columns tr') = Some T ∧
                 assoc c (columns te') = assoc c (columns te)) ∨
                ((0 < count_null T)%nat ∧
                 ∃ xs S, T = Float64 xs ∧ assoc c (columns te) = Some S ∧
                         assoc c (columns tr') = Some (Float64 (map (fill (median xs)) xs)) ∧
                         assoc c (columns te') = Some (fillna (median xs) S)))).
Proof.
  induction cs as [|c cs IH]; intros tr te tr' te' Hnd Hrun.
  - simpl in Hrun. injection Hrun as <- <-. repeat split; try done.
    intros c Hc. by apply elem_of_nil in Hc.
  - apply NoDup_cons in Hnd as [Hc Hnd]. simpl in Hrun.
    apply bindR_Ok in Hrun as ([tr1 te1] & Hstep & Hrun).
    apply impute_column_Ok in Hstep as (T & HT & Hcase).
    apply IH in Hrun as (Hi1 & Hi2 & Hn1 & Hn2 & Hother & Hcat); [|done].
    destruct Hcase as [(Hz & -> & ->)|(Hpos & xs & S & -> & HS & -> & ->)].
    + repeat (split; [done|]). split.
      * intros c' Hc'. apply not_elem_of_cons in Hc' as [_ Hc']. by apply Hother.
      * intros c' [->|Hc']%elem_of_cons; [|by apply Hcat].
        exists T. split; [done|]. left. destruct (Hother c Hc) as [-> ->]. done.
    + split; [done|]. split; [done|].
      split. { rewrite Hn1. unfold names, setitem. simpl. apply set_assoc_names_in.
               apply assoc_is_Some. eauto. }
      split. { rewrite Hn2. unfold names, setitem. simpl. apply set_assoc_names_in.
               apply assoc_is_Some. eauto. }
      split.
      * intros c' Hc'. apply not_elem_of_cons in Hc' as [Hne Hc'].
        destruct (Hother c' Hc') as [-> ->]. unfold setitem. simpl.
        by rewrite !assoc_set_assoc_ne.
      * intros c' [->|Hc']%elem_of_cons.
        -- exists (Float64 xs). split; [done|]. right. split; [done|].
           exists xs, S. repeat (split; [done|]).
           destruct (Hother c Hc) as [-> ->]. unfold setitem. simpl.
           by rewrite !assoc_set_assoc_eq.
        -- assert (Hne : c ≠ c') by (intros ->; done).
           destruct (Hcat c' Hc') as (T' & HT' & Hcase').
           unfold setitem in HT', Hcase'. simpl in HT', Hcase'.
           rewrite !assoc_set_assoc_ne in HT', Hcase' by done.
           exists T'. split; [done | exact Hcase'].
Qed.

Lemma df_replace_inf_assoc df c :
  assoc c (columns (df_replace_inf df)) = replace_inf <$> assoc c (columns df).
Proof. apply (assoc_map_snd (fun _ => replace_inf)). Qed.

Lemma df_replace_inf_names df : names (df_replace_inf df) = names df.
Proof. apply (map_fst_map_snd (fun _ => replace_inf)). Qed.

Lemma df_fillna_assoc df values c :
  assoc c (columns (df_fillna df values)) =
    (fun s => match assoc c values with Some v => fillna v s | None => s end)
      <$> assoc c (columns df).
Proof.
  unfold df_fillna. simpl. induction (columns df) as [|[k s] l IH]; simpl; [done|].
  destruct (String.eqb_spec c k) as [->|Hne].
  - destruct (assoc k values); simpl; by rewrite String.eqb_refl.
  - destruct (assoc k values); simpl;
      (destruct (String.eqb_spec c k); [done | exact IH]).
Qed.

Lemma df_fillna_names df values : names (df_fillna df values) = names df.
Proof.
  unfold df_fillna, names. simpl. induction (columns df) as [|[k s] l IH]; simpl; [done|].
  destruct (assoc k values); simpl; by rewrite IH.
Qed.

(** [df.median()] succeeds on numeric frames, with the median of every
    column under its label. *)
Lemma df_median_spec df med :
  df_median df = Ok med →
  ∀ c s, assoc c (columns df) = Some s →
         ∃ xs, s = Float64 xs ∧ assoc c med = Some (median xs).
Proof.
  unfold df_median. intros H%mapR_Ok.
  induction H as [|[k s0] [k' m] l l' Hkm _ IH]; intros c s; simpl; [done|].
  unfold series_median in Hkm. simpl in Hkm.
  apply bindR_Ok in Hkm as (m' & Hm' & [= <- <-]).
  apply bindR_Ok in Hm' as (xs & Hxs & [= <-]).
  destruct s0 as [xs0|]; [|done]. injection Hxs as ->.
  destruct (String.eqb_spec c k) as [->|Hne]; [|by apply IH].
  intros [= <-]. by exists xs.
Qed.

(** Line 254, column by column. *)
Lemma high_missing_cols_elem df c :
  NoDup (names df) →
  c ∈ high_missing_cols df ↔
  ∃ s, assoc c (columns df) = Some s ∧ exceeds_threshold (count_null s) (len df) = true.
Proof.
  unfold high_missing_cols, missing_pct, names, exceeds_threshold.
  induction (columns df) as [|[k s] l IH]; intros Hnd; simpl.
  - split; [by intros ?%elem_of_nil | by intros (s & ? & _)].
  - apply NoDup_cons in Hnd as [Hk Hnd]. specialize (IH Hnd).
    match goal with |- context [f64_gtb ?a ?b] => destruct (f64_gtb a b) eqn:Hgt end;
      simpl.
    + rewrite elem_of_cons, IH. destruct (String.eqb_spec c k) as [->|Hne].
      * split; [eauto|]. by left.
      * split; [by intros [?|?] | by right].
    + rewrite IH. destruct (String.eqb_spec c k) as [->|Hne]; [|done].
      split.
      * intros (s' & Hs' & _). exfalso. apply Hk. apply assoc_is_Some. eauto.
      * intros (s' & [= <-] & H). congruence.
Qed.

(** Lines 256-259: dropping the empty list changes nothing, so the guard
    can be read away. *)
Lemma drop_high_missing tr te hm tr' te' :
  (if (0 <? length hm)%nat
   then tr1 ← drop tr hm; te1 ← drop te hm; Ok (tr1, te1)
   else Ok (tr, te)) = Ok (tr', te') →
  index tr' = index tr ∧ index te' = index te ∧
  columns tr' = List.filter (fun c => negb (mem (fst c) hm)) (columns tr) ∧
  columns te' = List.filter (fun c => negb (mem (fst c) hm)) (columns te).
Proof.
  destruct hm as [|h hm].
  - intros [= <- <-]. repeat split; symmetry; apply (filter_true (A := string * Series)).
  - change (0 <? length (h :: hm))%nat with true. cbv iota. intros H.
    apply bindR_Ok in H as (tr1 & H1 & H).
    apply bindR_Ok in H as (te1 & H2 & [= <- <-]).
    apply drop_Ok in H1 as (? & ? & _). apply drop_Ok in H2 as (? & ? & _). done.
Qed.

(** The second half of [preprocess_data], column by column: the columns
    above the missingness threshold are gone from both frames; every other
    column is there in both, in the order of the training frame, the
    training column numeric and both reconciled as [reconcile_train] and
    [reconcile_test] say. *)
Lemma finalize_frames_spec tr te X Xt :
  finalize_frames tr te = Ok (X, Xt) →
  NoDup (names tr) →
  names te = names tr →
  index X = index tr ∧ index Xt = index te ∧
  names X = List.filter (fun c => negb (mem c (high_missing_cols tr))) (names tr) ∧
  names Xt = names X ∧
  ∀ c, c ∈ names X →
       ∃ xs S,
         assoc c (columns tr) = Some (Float64 xs) ∧
         assoc c (columns te) = Some S ∧
         assoc c (columns X) = Some (Float64 (reconcile_train xs)) ∧
         assoc c (columns Xt) = Some (reconcile_test xs S).
Proof.
  unfold finalize_frames. intros H Hnd Hnames.
  apply bindR_Ok in H as ([tr1 te1] & Hdrop & H).
  apply bindR_Ok in H as ([tr2 te2] & Hloop & H).
  apply bindR_Ok in H as (med1 & Hmed1 & H).
  apply bindR_Ok in H as (med2 & Hmed2 & [= <- <-]).
  apply drop_high_missing in Hdrop as (Hi1 & Hi1' & Hc1 & Hc1').
  set (hm := high_missing_cols tr) in *.
  assert (Hn1 : names tr1 = List.filter (fun c => negb (mem c hm)) (names tr)).
  { unfold names. rewrite Hc1. apply (map_fst_filter_key (fun k => negb (mem k hm))). }
  assert (Hn1' : names te1 = names tr1).
  { rewrite Hn1. unfold names at 1. rewrite Hc1'.
    rewrite (map_fst_filter_key (fun k => negb (mem k hm))). by rewrite <- Hnames. }
  assert (Hnd1 : NoDup (names tr1)) by (rewrite Hn1; by apply NoDup_filter_b).
  apply impute_loop_spec in Hloop as (Hi2 & Hi2' & Hn2 & Hn2' & _ & Hcols); [|done].
  split. { rewrite <- Hi1, <- Hi2. done. }
  split. { rewrite <- Hi1', <- Hi2'. done. }
  split. { by rewrite df_fillna_names, df_replace_inf_names, Hn2. }
  split. { by rewrite !df_fillna_names, !df_replace_inf_names, Hn2, Hn2'. }
  intros c Hc. rewrite df_fillna_names, df_replace_inf_names, Hn2 in Hc.
  assert (Hkeep : negb (mem c hm) = true ∧ c ∈ names tr).
  { rewrite Hn1 in Hc. apply filter_elem_of in Hc. tauto. }
  destruct Hkeep as [Hkeep Hctr].
  assert (Ha1 : assoc c (columns tr1) = assoc c (columns tr)).
  { rewrite Hc1, (assoc_filter_key (fun k => negb (mem k hm))). by rewrite Hkeep. }
  assert (Ha1' : assoc c (columns te1) = assoc c (columns te)).
  { rewrite Hc1', (assoc_filter_key (fun k => negb (mem k hm))). by rewrite Hkeep. }
  assert (HS : ∃ S, assoc c (columns te) = Some S).
  { apply assoc_is_Some. fold (names te). by rewrite Hnames. }
  destruct HS as [S HS].
  destruct (Hcols c Hc) as (T & HT & Hcase).
  assert (Hnum : ∃ xs,
            T = Float64 xs ∧
            assoc c (columns tr2) =
              Some (Float64 (if (0 <? count_nan xs)%nat
                             then map (fill (median xs)) xs else xs)) ∧
            assoc c (columns te2) =
              Some (if (0 <? count_nan xs)%nat then fillna (median xs) S else S)).
  { destruct Hcase as [(Hz & Htr2 & Hte2)|(Hpos & xs & S' & -> & HS' & Htr2 & Hte2)].
    - assert (Hr : assoc c (columns (df_replace_inf tr2)) = Some (replace_inf T)).
      { by rewrite df_replace_inf_assoc, Htr2. }
      destruct (df_median_spec _ _ Hmed1 _ _ Hr) as (ys & Hys & _).
      destruct T as [xs|cs]; [|done]. exists xs. split; [done|].
      rewrite count_null_Float64 in Hz. rewrite Hz. simpl.
      split; [done|]. by rewrite Hte2, Ha1', HS.
    - exists xs. split; [done|]. rewrite count_null_Float64 in Hpos.
      destruct (Nat.ltb_spec 0 (count_nan xs)); [|lia].
      split; [done|]. rewrite Ha1', HS in HS'. by injection HS' as <-. }
  destruct Hnum as (xs & -> & Htr2 & Hte2).
  exists xs, S. split; [by rewrite <- Ha1|]. split; [done|].
  set (xs1 := if (0 <? count_nan xs)%nat then map (fill (median xs)) xs else xs) in *.
  assert (Hr : assoc c (columns (df_replace_inf tr2)) = Some (Float64 (map inf_to_nan xs1))).
  { by rewrite df_replace_inf_assoc, Htr2. }
  destruct (df_median_spec _ _ Hmed1 _ _ Hr) as (ys & [= <-] & Hm1).
  assert (Hf : assoc c (columns (df_fillna (df_replace_inf tr2) med1))
               = Some (Float64 (reconcile_train xs))).
  { by rewrite df_fillna_assoc, Hr, Hm1. }
  split; [exact Hf|].
  destruct (df_median_spec _ _ Hmed2 _ _ Hf) as (zs & [= <-] & Hm2).
  rewrite df_fillna_assoc, df_replace_inf_assoc, Hte2, Hm2. done.
Qed.

(** ** The first half of [preprocess_data] *)

Lemma NoDup_map_fst_filter {V} (p : string * V → bool) (l : list (string * V)) :
  NoDup (map fst l) → NoDup (map fst (List.filter p l)).
Proof.
  induction l as [|[k v] l IH]; simpl; [done|].
  intros [Hk Hnd]%NoDup_cons. destruct (p (k, v)); simpl; [|by apply IH].
  constructor; [|by apply IH]. intros Hin. apply Hk.
  apply list_elem_of_fmap in Hin as ([k' v'] & -> & Hin). simpl.
  apply list_elem_of_In, filter_In in Hin as [Hin _].
  apply list_elem_of_fmap. exists (k', v'). split; [done | by apply list_elem_of_In].
Qed.

Lemma select_dtypes_object_elem df c :
  NoDup (names df) →
  c ∈ select_dtypes_object df ↔
  ∃ cs, assoc c (columns df) = Some (Object cs).
Proof.
  unfold select_dtypes_object, names.
  induction (columns df) as [|[k s] l IH]; intros Hnd; simpl.
  - split; [by intros ?%elem_of_nil | by intros [? ?]].
  - apply NoDup_cons in Hnd as [Hk Hnd]. specialize (IH Hnd).
    destruct (String.eqb_spec c k) as [->|Hne].
    + destruct s as [xs|cs]; simpl.
      * split; [|by intros [? ?]]. intros Hin. exfalso. apply Hk.
        apply list_elem_of_fmap in Hin as ([k' v'] & -> & Hin). simpl.
        apply list_elem_of_In, filter_In in Hin as [Hin _].
        apply list_elem_of_fmap. exists (k', v'). split; [done | by apply list_elem_of_In].
      * split; [eauto | intros _; left].
    + destruct (is_object s); simpl; [|exact IH].
      rewrite elem_of_cons, IH. split; [by intros [?|?] | by right].
Qed.

Section Aligned.
Context (repr_float : Q → string).

(** The frames [preprocess_data] has after alignment: the labels are those
    of the training frame that the test frame has too, the target and the
    identifier left out; the columns are those of the inputs, the
    categorical ones encoded. *)
Lemma aligned_frames_spec train test target tr te y i1 i2 :
  aligned_frames repr_float train test target = Ok (tr, te, y, i1, i2) →
  wf train = true →
  NoDup (names tr) ∧ names te = names tr ∧
  index tr = index train ∧ index te = index test ∧
  (∀ c, c ∈ names tr ↔
        c ≠ target ∧ c ≠ "SK_ID_CURR" ∧ c ∈ names train ∧ c ∈ names test) ∧
  (∀ c, c ∈ names tr →
        ∃ a b a' b',
          assoc c (columns train) = Some a ∧
          assoc c (columns test) = Some b ∧
          assoc c (columns tr) = Some a' ∧
          assoc c (columns te) = Some b' ∧
          aligned_column repr_float a b a' b').
Proof.
  unfold aligned_frames. intros H Hwf.
  apply bindR_Ok in H as (y' & Hy & H).
  apply bindR_Ok in H as (tr0 & Hdrop0 & H).
  apply bindR_Ok in H as (i1' & Hi1 & H).
  apply bindR_Ok in H as (i2' & Hi2 & H).
  apply bindR_Ok in H as ([tr1 te1] & Hloop & H).
  apply bindR_Ok in H as (tr2 & Hdrop1 & H).
  apply bindR_Ok in H as (te2 & Hdrop2 & H).
  destruct (align_inner tr2 te2) as [tr3 te3] eqn:Halign.
  injection H as <- <- <- <- <-.
  pose proof (NoDup_names_wf _ Hwf) as Hnd.
  assert (Hnd0 : NoDup (names tr0)).
  { rewrite (drop_names _ _ _ Hdrop0). by apply NoDup_filter_b. }
  assert (Hcats : NoDup (select_dtypes_object tr0)).
  { unfold select_dtypes_object. by apply NoDup_map_fst_filter. }
  apply encode_loop_spec in Hloop
    as (Hx1 & Hx1' & Hn1 & Hn1' & Hother & Hcat); [|done].
  apply align_inner_spec in Halign as (Hn3 & Hn3' & Hx3 & Hx3' & Ha3 & Ha3').
  set (common := List.filter (fun c => mem c (names te2)) (names tr2)) in *.
  assert (Hnd2 : NoDup (names tr2)).
  { rewrite (drop_names _ _ _ Hdrop1), Hn1. by apply NoDup_filter_b. }
  assert (Hcommon : ∀ c, c ∈ common ↔
            c ≠ target ∧ c ≠ "SK_ID_CURR" ∧ c ∈ names train ∧ c ∈ names test).
  { intros c. unfold common. rewrite filter_elem_of, mem_true.
    rewrite (drop_names _ _ _ Hdrop1), (drop_names _ _ _ Hdrop2), Hn1, Hn1'.
    rewrite (drop_names _ _ _ Hdrop0). rewrite !filter_elem_of.
    rewrite !negb_true_iff, !mem_false, !not_elem_of_cons.
    pose proof (not_elem_of_nil c). tauto. }
  split. { rewrite Hn3. by apply NoDup_filter_b. }
  split. { by rewrite Hn3, Hn3'. }
  split. { rewrite Hx3. apply drop_Ok in Hdrop1 as (-> & _). rewrite Hx1.
           by apply drop_Ok in Hdrop0 as (-> & _). }
  split. { rewrite Hx3'. apply drop_Ok in Hdrop2 as (-> & _). done. }
  split. { intros c. rewrite Hn3. apply Hcommon. }
  intros c Hc. rewrite Hn3 in Hc. pose proof Hc as Hmem%mem_true.
  apply Hcommon in Hc as (Hct & Hcs & Hctr & Hcte).
  apply assoc_is_Some in Hctr as [a Ha]. apply assoc_is_Some in Hcte as [b Hb].
  assert (Ha0 : assoc c (columns tr0) = Some a).
  { rewrite (drop_assoc _ _ _ _ Hdrop0).
    replace (mem c [target]) with false; [done|].
    symmetry. apply mem_false.
    apply not_elem_of_cons; split; [done | apply not_elem_of_nil]. }
  assert (Hk2 : ∀ d d', drop d ["SK_ID_CURR"] = Ok d' →
                        assoc c (columns d') = assoc c (columns d)).
  { intros d d' Hd. rewrite (drop_assoc _ _ _ _ Hd).
    replace (mem c ["SK_ID_CURR"]) with false; [done|].
    symmetry. apply mem_false.
    apply not_elem_of_cons; split; [done | apply not_elem_of_nil]. }
  rewrite Ha3, Ha3', Hmem, (Hk2 _ _ Hdrop1), (Hk2 _ _ Hdrop2).
  exists a, b. destruct a as [xs|cs].
  - assert (Hnot : c ∉ select_dtypes_object tr0).
    { rewrite select_dtypes_object_elem by done. intros [cs Hcs']. congruence. }
    destruct (Hother c Hnot) as [-> ->]. rewrite Ha0, Hb.
    eexists _, _. by repeat split.
  - assert (Hin : c ∈ select_dtypes_object tr0).
    { rewrite select_dtypes_object_elem by done. eauto. }
    destruct (Hcat c Hin) as (a1 & b1 & codes & Ha1 & Hb1 & Hcodes & -> & ->).
    rewrite Ha0 in Ha1. injection Ha1 as <-.
    rewrite Hb in Hb1. injection Hb1 as <-.
    assert (Hlen : len tr0 = length cs).
    { rewrite (drop_len _ _ _ Hdrop0).
      symmetry. apply (wf_series_len train c (Object cs) Hwf Ha). }
    eexists _, _. repeat (split; [done|]). simpl. exists codes.
    split; [exact Hcodes|]. rewrite Hlen.
    split; f_equal; [apply firstn_map | apply skipn_map].
Qed.

End Aligned.

(** ** Reconciliation of a single column *)

Lemma fill_notnan v x : isnan x = false → fill v x = x.
Proof. unfold fill. by intros ->. Qed.

Lemma map_fill_notnan v xs : Forall (fun x => isnan x = false) xs → map (fill v) xs = xs.
Proof.
  induction 1 as [|x xs Hx _ IH]; [done|]. cbn [map]. by rewrite fill_notnan, IH.
Qed.

Lemma map_inf_to_nan_noinf xs :
  Forall (fun x => isinf x = false) xs → map inf_to_nan xs = xs.
Proof.
  induction 1 as [|x xs Hx _ IH]; [done|]. cbn [map]. rewrite IH.
  unfold inf_to_nan. by rewrite Hx.
Qed.

Lemma count_nan_zero xs : count_nan xs = O ↔ Forall (fun x => isnan x = false) xs.
Proof.
  unfold count_nan. induction xs as [|x xs IH]; simpl; [by split; [constructor|]|].
  destruct (isnan x) eqn:E; simpl.
  - split; [done|]. intros H%Forall_cons. destruct H. congruence.
  - rewrite IH. split; [by constructor | by intros [_ ?]%Forall_cons].
Qed.

Lemma count_nan_le xs : (count_nan xs ≤ length xs)%nat.
Proof. unfold count_nan. apply filter_length_le. Qed.

Lemma count_nan_dropna xs : (count_nan xs + length (dropna xs) = length xs)%nat.
Proof.
  unfold count_nan, dropna, notnan. induction xs as [|x xs IH]; simpl; [done|].
  destruct (isnan x); simpl; lia.
Qed.

(** A column of finite numbers passes through reconciliation untouched. *)
Lemma reconcile_train_finite xs :
  Forall (fun x => isfinite x = true) xs → reconcile_train xs = xs.
Proof.
  intros H. unfold reconcile_train.
  assert (Hn : Forall (fun x => isnan x = false) xs).
  { eapply Forall_impl; [exact H|]. by intros [| | |q]. }
  assert (Hi : Forall (fun x => isinf x = false) xs).
  { eapply Forall_impl; [exact H|]. by intros [| | |q]. }
  apply count_nan_zero in Hn as Hz. rewrite Hz. simpl.
  rewrite map_inf_to_nan_noinf by done. by apply map_fill_notnan.
Qed.

Lemma reconcile_test_finite xs ys :
  Forall (fun x => isfinite x = true) ys →
  reconcile_test xs (Float64 ys) = Float64 ys.
Proof.
  intros H. unfold reconcile_test.
  assert (Hn : Forall (fun x => isnan x = false) ys).
  { eapply Forall_impl; [exact H|]. by intros [| | |q]. }
  assert (Hi : Forall (fun x => isinf x = false) ys).
  { eapply Forall_impl; [exact H|]. by intros [| | |q]. }
  assert (H1 : (if (0 <? count_nan xs)%nat then fillna (median xs) (Float64 ys)
                else Float64 ys) = Float64 ys).
  { destruct (0 <? count_nan xs)%nat; [|done]. simpl. by rewrite map_fill_notnan. }
  rewrite H1. simpl. rewrite map_inf_to_nan_noinf by done. by rewrite map_fill_notnan.
Qed.

Lemma Forall_finite_codes (ns : list nat) :
  Forall (fun x => isfinite x = true) (map f64_of_nat ns).
Proof. apply Forall_fmap. by apply Forall_true. Qed.

(** The threshold test reads: more than 7 missing values in 10 rows. *)
Lemma exceeds_threshold_iff (k n : nat) :
  (k ≤ n)%nat →
  exceeds_threshold k n = true ↔ (7 * n < 10 * k)%nat.
Proof.
  intros Hk. unfold exceeds_threshold, f64_of_nat. destruct n as [|n].
  - assert (k = O) as -> by lia. split; [done | lia].
  - unfold f64_div, Qzero_b. cbn [Qnum inject_Z]. 
    change (Z.of_nat (S n) =? 0)%Z with false. cbv iota.
    unfold f64_gtb, f64_ltb, f64_mul, f64_leb, f64_eqb.
    rewrite andb_true_iff, negb_true_iff, Qle_bool_iff.
    rewrite <- not_true_iff_false, Qeq_bool_iff.
    rewrite !Qred_correct.
    unfold Config.MISSING_THRESHOLD.
    assert (H : (inject_Z (Z.of_nat k) / inject_Z (Z.of_nat (S n)) * 100
                 == (100 * Z.of_nat k) # Pos.of_succ_nat n)%Q).
    { unfold Qeq, Qdiv, Qmult, Qinv, inject_Z. simpl. lia. }
    rewrite H. unfold Qle, Qeq. simpl.
    rewrite Zpos_P_of_succ_nat. split; [intros [H1 H2]; lia | lia].
Qed.

(** The median of a column with a finite value and no infinity is finite. *)
Lemma nth_Forall {A} (P : A → Prop) (l : list A) (i : nat) (d : A) :
  Forall P l → (i < length l)%nat → P (nth i l d).
Proof.
  intros H Hi. rewrite Forall_forall in H. apply H.
  apply list_elem_of_In, nth_In. exact Hi.
Qed.

Lemma median_finite xs :
  Forall (fun x => isinf x = false) xs →
  dropna xs ≠ [] →
  isfinite (median xs) = true.
Proof.
  intros Hinf Hne. unfold median.
  set (v := sort_by f64_leb (dropna xs)).
  assert (Hv : Forall (fun x => isfinite x = true) v).
  { unfold v. rewrite sort_by_perm. unfold dropna.
    rewrite Forall_forall in Hinf. apply Forall_forall. intros x Hx.
    apply list_elem_of_In, filter_In in Hx as [Hx Hn].
    specialize (Hinf x (proj2 (list_elem_of_In _ _) Hx)).
    unfold notnan in Hn. by destruct x. }
  assert (Hlen : length v = length (dropna xs)).
  { unfold v. by rewrite sort_by_perm. }
  destruct (length v) as [|m] eqn:Hm.
  { destruct (dropna xs); [done | simpl in Hlen; lia]. }
  assert (H1 : isfinite (nth (S m / 2) v NaN) = true).
  { apply (nth_Forall (fun x => isfinite x = true)); [done|].
    rewrite Hm. apply Nat.div_lt; lia. }
  assert (H2 : isfinite (nth (S m / 2 - 1) v NaN) = true).
  { apply (nth_Forall (fun x => isfinite x = true)); [done|].
    rewrite Hm. pose proof (Nat.div_lt (S m) 2). lia. }
  destruct (Nat.odd (S m)); [done|].
  destruct (nth (S m / 2 - 1) v NaN), (nth (S m / 2) v NaN); done.
Qed.

(** ** [preprocess_data], column by column *)

Section PreprocessProps.
Context (repr_float : Q → string).

(** What [preprocess_data] returns for a feature column present in both
    inputs: the column is encoded if categorical; it is then dropped from
    both outputs if the training column exceeds the missingness threshold,
    and otherwise kept in both, reconciled. *)
Lemma preprocess_data_column train test target X_train X_test y i1 i2 c a b :
  preprocess_data repr_float train test target = Ok (X_train, X_test, y, i1, i2) →
  wf train = true →
  assoc c (columns train) = Some a →
  assoc c (columns test) = Some b →
  c ≠ target → c ≠ "SK_ID_CURR" →
  ∃ xs b',
    aligned_column repr_float a b (Float64 xs) b' ∧
    (exceeds_threshold (count_nan xs) (len train) = true →
       (c ∉ names X_train) ∧ (c ∉ names X_test)) ∧
    (exceeds_threshold (count_nan xs) (len train) = false →
       assoc c (columns X_train) = Some (Float64 (reconcile_train xs)) ∧
       assoc c (columns X_test) = Some (reconcile_test xs b')).
Proof.
  intros Hrun Hwf Ha Hb Hct Hcs.
  apply preprocess_data_Ok in Hrun as (tr & te & Hal & Hfin).
  apply aligned_frames_spec in Hal as (Hnd & Hnames & Hidx & _ & Hin & Hcols); [|done].
  assert (Hc : c ∈ names tr).
  { apply Hin. repeat split; try done; apply assoc_is_Some; eauto. }
  destruct (Hcols c Hc) as (a0 & b0 & a' & b' & Ha0 & Hb0 & Ha' & Hb' & Hcol).
  rewrite Ha in Ha0. injection Ha0 as <-. rewrite Hb in Hb0. injection Hb0 as <-.
  assert (Hxs : ∃ xs, a' = Float64 xs).
  { destruct a as [xs|cs]; simpl in Hcol.
    - destruct Hcol as [-> _]. eauto.
    - destruct Hcol as (codes & _ & -> & _). eauto. }
  destruct Hxs as [xs ->]. exists xs, b'. split; [done|].
  apply finalize_frames_spec in Hfin as (_ & _ & HnX & HnXt & HX); [|done..].
  assert (Hlen : len tr = len train) by (unfold len; by rewrite Hidx).
  assert (Hhm : c ∈ high_missing_cols tr ↔
                exceeds_threshold (count_nan xs) (len train) = true).
  { rewrite high_missing_cols_elem by done. rewrite Hlen. split.
    - intros (s & Hs & He). rewrite Ha' in Hs. injection Hs as <-.
      by rewrite count_null_Float64 in He.
    - intros He. exists (Float64 xs). by rewrite count_null_Float64. }
  split.
  - intros He. apply Hhm, mem_true in He.
    assert (c ∉ names X_train).
    { rewrite HnX, filter_elem_of, He. simpl. by intros [_ ?]. }
    split; [done|]. by rewrite HnXt.
  - intros He.
    assert (HcX : c ∈ names X_train).
    { rewrite HnX, filter_elem_of. split; [done|].
      apply negb_true_iff, mem_false. rewrite Hhm. congruence. }
    destruct (HX c HcX) as (xs' & S & Hxs' & HS & H1 & H2).
    rewrite Ha' in Hxs'. injection Hxs' as <-.
    rewrite Hb' in HS. injection HS as <-. done.
Qed.

(** The finalized frames carry the same labels in the same order. *)
Lemma preprocess_data_same_columns train test target X_train X_test y i1 i2 :
  preprocess_data repr_float train test target = Ok (X_train, X_test, y, i1, i2) →
  wf train = true →
  names X_train = names X_test.
Proof.
  intros Hrun Hwf.
  apply preprocess_data_Ok in Hrun as (tr & te & Hal & Hfin).
  apply aligned_frames_spec in Hal as (Hnd & Hnames & _); [|done].
  by apply finalize_frames_spec in Hfin as (_ & _ & _ & -> & _).
Qed.

(** The codes of a categorical column, cut into the two splits. *)
Lemma encoded_codes (cs bs : list cell) (codes : list nat) :
  LabelEncoder.fit_transform (map (astype_str repr_float) (cs ++ bs)) = Ok codes →
  let code v n :=
    LabelEncoder.index_of (astype_str repr_float v)
      (LabelEncoder.fit (map (astype_str repr_float) (cs ++ bs))) = Some n in
  Forall2 code cs (take (length cs) codes) ∧
  Forall2 code bs (List.skipn (length cs) codes).
Proof.
  intros H%fit_transform_spec code.
  apply Forall2_fmap_l in H.
  apply Forall2_app_inv_l in H as (c1 & c2 & H1 & H2 & ->).
  pose proof (Forall2_length _ _ _ H1) as Hlen.
  rewrite Hlen. rewrite take_app_length.
  rewrite drop_app_length. done.
Qed.

(** A categorical column is in both outputs, each cell holding the code of
    its value. *)
Lemma encoded_column train test target X_train X_test y i1 i2 c cs b :
  preprocess_data repr_float train test target = Ok (X_train, X_test, y, i1, i2) →
  wf train = true →
  getitem train c = Ok (Object cs) →
  getitem test c = Ok b →
  c ≠ target → c ≠ "SK_ID_CURR" →
  let classes := LabelEncoder.fit (map (astype_str repr_float) (cs ++ cells b)) in
  let code v n := LabelEncoder.index_of (astype_str repr_float v) classes = Some n in
  ∃ train_codes test_codes : list nat,
    Forall2 code cs train_codes ∧
    Forall2 code (cells b) test_codes ∧
    getitem X_train c = Ok (Float64 (map f64_of_nat train_codes)) ∧
    getitem X_test c = Ok (Float64 (map f64_of_nat test_codes)).
Proof.
  intros Hrun Hwf Ha%getitem_Ok Hb%getitem_Ok Hct Hcs classes code.
  destruct (preprocess_data_column _ _ _ _ _ _ _ _ _ _ _ Hrun Hwf Ha Hb Hct Hcs)
    as (xs & b' & Hcol & _ & Hkeep).
  simpl in Hcol. destruct Hcol as (codes & Hcodes & [= ->] & ->).
  destruct (encoded_codes _ _ _ Hcodes) as [H1 H2].
  set (trc := take (length cs) codes) in *.
  set (tec := List.skipn (length cs) codes) in *.
  assert (Hz : count_nan (map f64_of_nat trc) = O).
  { apply count_nan_zero. apply Forall_fmap. by apply Forall_true. }
  destruct Hkeep as [HX HXt].
  { apply not_true_is_false. rewrite exceeds_threshold_iff by lia. rewrite Hz. lia. }
  rewrite reconcile_train_finite in HX by apply Forall_finite_codes.
  rewrite reconcile_test_finite in HXt by apply Forall_finite_codes.
  exists trc, tec. split; [exact H1|]. split; [exact H2|].
  split; by apply getitem_Ok.
Qed.

(** C9.  A missing value of a categorical column is cast to the string
    "nan" and encoded as the category "nan": in both splits its cell holds
    the code of "nan" among the classes.  The encoded column has no missing
    value left, so the later steps neither drop it nor impute it: it is in
    both outputs, holding the codes. *)
Theorem categorical_nan_is_a_category train test target X_train X_test y i1 i2 c cs b :
  preprocess_data repr_float train test target = Ok (X_train, X_test, y, i1, i2) →
  wf train = true →
  getitem train c = Ok (Object cs) →
  getitem test c = Ok b →
  c ≠ target → c ≠ "SK_ID_CURR" →
  let classes := LabelEncoder.fit (map (astype_str repr_float) (cs ++ cells b)) in
  let code v n := LabelEncoder.index_of (astype_str repr_float v) classes = Some n in
  astype_str repr_float (Num NaN) = "nan" ∧
  ∃ train_codes test_codes : list nat,
    Forall2 code cs train_codes ∧
    Forall2 code (cells b) test_codes ∧
    getitem X_train c = Ok (Float64 (map f64_of_nat train_codes)) ∧
    getitem X_test c = Ok (Float64 (map f64_of_nat test_codes)) ∧
    count_null (Float64 (map f64_of_nat train_codes)) = O ∧
    (∀ i, cs !! i = Some (Num NaN) →
          ∃ n, LabelEncoder.index_of "nan" classes = Some n ∧
               cell_at (Float64 (map f64_of_nat train_codes)) i = Num (f64_of_nat n)) ∧
    (∀ j, cells b !! j = Some (Num NaN) →
          ∃ n, LabelEncoder.index_of "nan" classes = Some n ∧
               cell_at (Float64 (map f64_of_nat test_codes)) j = Num (f64_of_nat n)).
Proof.
  intros Hrun Hwf Ha Hb Hct Hcs classes code.
  split; [done|].
  destruct (encoded_column _ _ _ _ _ _ _ _ _ _ _ Hrun Hwf Ha Hb Hct Hcs)
    as (trc & tec & H1 & H2 & HX & HXt).
  fold classes in H1, H2. fold code in H1, H2.
  exists trc, tec. split; [exact H1|]. split; [exact H2|].
  split; [done|]. split; [done|].
  split.
  { rewrite count_null_Float64. apply count_nan_zero, Forall_fmap. by apply Forall_true. }
  assert (Hcell : ∀ (vs : list cell) (ns : list nat) i,
            Forall2 code vs ns → vs !! i = Some (Num NaN) →
            ∃ n, LabelEncoder.index_of "nan" classes = Some n ∧
                 cell_at (Float64 (map f64_of_nat ns)) i = Num (f64_of_nat n)).
  { intros vs ns i HF Hi.
    destruct (Forall2_lookup_l _ _ _ _ _ HF Hi) as (n & Hn & Hcode).
    exists n. split; [exact Hcode|].
    unfold cell_at. simpl. rewrite !map_map.
    rewrite nth_lookup, list_lookup_fmap, Hn. done. }
  split; intros i Hi; eapply Hcell; eauto.
Qed.

Lemma Forall2_codes (f : cell → option nat) (vs : list cell) (ns : list nat) :
  Forall2 (fun v n => f v = Some n) vs ns →
  ns = map (fun v => default O (f v)) vs.
Proof.
  induction 1 as [|v n vs ns Hv _ IH]; simpl; [done|]. by rewrite Hv, IH.
Qed.

(** C4.  For every categorical column the encoder is fit on the train
    values followed by the test values: its classes are exactly the values
    (as strings) of the two splits.  Every value of either split has one
    code, the position of its string among the classes; two values have the
    same code exactly when they are the same string; and both output columns
    hold the codes given by that one map. *)
Theorem label_encoding_shared train test target X_train X_test y i1 i2 c cs b :
  preprocess_data repr_float train test target = Ok (X_train, X_test, y, i1, i2) →
  wf train = true →
  getitem train c = Ok (Object cs) →
  getitem test c = Ok b →
  c ≠ target → c ≠ "SK_ID_CURR" →
  let values := cs ++ cells b in
  let classes := LabelEncoder.fit (map (astype_str repr_float) values) in
  (∀ s, s ∈ classes ↔ ∃ v, v ∈ values ∧ astype_str repr_float v = s) ∧
  ∃ code : cell → nat,
    (∀ v, v ∈ values →
          LabelEncoder.index_of (astype_str repr_float v) classes = Some (code v) ∧
          classes !! code v = Some (astype_str repr_float v)) ∧
    (∀ v w, v ∈ values → w ∈ values →
            code v = code w ↔ astype_str repr_float v = astype_str repr_float w) ∧
    getitem X_train c = Ok (Float64 (map (fun v => f64_of_nat (code v)) cs)) ∧
    getitem X_test c = Ok (Float64 (map (fun v => f64_of_nat (code v)) (cells b))).
Proof.
  intros Hrun Hwf Ha Hb Hct Hcs values classes.
  destruct (encoded_column _ _ _ _ _ _ _ _ _ _ _ Hrun Hwf Ha Hb Hct Hcs)
    as (trc & tec & H1 & H2 & HX & HXt).
  fold values classes in H1, H2.
  split.
  { intros s. unfold classes. rewrite fit_elem, list_elem_of_fmap.
    split; intros (v & Hv1 & Hv2); exists v; by split. }
  set (code := fun v => default O (LabelEncoder.index_of (astype_str repr_float v) classes)).
  assert (Hcode : ∀ v, v ∈ values →
            LabelEncoder.index_of (astype_str repr_float v) classes = Some (code v)).
  { intros v Hv. unfold code.
    destruct (index_of_elem (astype_str repr_float v) classes) as [n ->]; [|done].
    unfold classes. apply fit_elem, list_elem_of_fmap. eauto. }
  exists code. split.
  { intros v Hv. split; [by apply Hcode|]. by apply index_of_Some, Hcode. }
  split.
  { intros v w Hv Hw. split.
    - intros Heq. apply (index_of_inj _ _ classes (code v)); [by apply Hcode|].
      rewrite Heq. by apply Hcode.
    - intros Heq. unfold code. by rewrite Heq. }
  apply Forall2_codes in H1, H2. rewrite H1 in HX. rewrite H2 in HXt.
  rewrite map_map in HX, HXt. done.
Qed.

Lemma cells_fillna v s : cells (fillna v s) = map (fill_cell v) (cells s).
Proof. destruct s; simpl; [by rewrite !map_map | done]. Qed.

Lemma cells_replace_inf s : cells (replace_inf s) = map inf_to_nan_cell (cells s).
Proof. destruct s; simpl; [by rewrite !map_map | done]. Qed.

Lemma series_len_fillna v s : series_len (fillna v s) = series_len s.
Proof. destruct s; simpl; by rewrite length_map. Qed.

Lemma series_len_replace_inf s : series_len (replace_inf s) = series_len s.
Proof. destruct s; simpl; by rewrite length_map. Qed.

(** A training column without infinities and with a finite median: its
    missing cells take the median, in the training column and in the test
    column. *)
Lemma reconcile_no_inf xs S :
  Forall (fun x => isinf x = false) xs →
  (count_nan xs = O ∨ isfinite (median xs) = true) →
  reconcile_train xs = map (fill (median xs)) xs ∧
  series_len (reconcile_test xs S) = series_len S ∧
  ∀ j, cells S !! j = Some (Num NaN) →
       cells (reconcile_test xs S) !! j = Some (Num (median xs)).
Proof.
  intros Hinf Hm.
  assert (Htrain : reconcile_train xs = map (fill (median xs)) xs).
  { unfold reconcile_train. destruct (Nat.ltb_spec 0 (count_nan xs)) as [Hk|Hk].
    - destruct Hm as [Hz|Hfin]; [lia|].
      destruct (median xs) as [| | |m] eqn:Em; try done.
      assert (Hn : Forall (fun x => isnan x = false) (map (fill (Fin m)) xs)).
      { apply Forall_fmap, Forall_true. intros x. unfold fill. by destruct x. }
      assert (Hi : Forall (fun x => isinf x = false) (map (fill (Fin m)) xs)).
      { apply Forall_fmap. eapply Forall_impl; [exact Hinf|].
        intros x Hx. unfold fill. by destruct x. }
      rewrite map_inf_to_nan_noinf by done. by apply map_fill_notnan.
    - assert (Hn : Forall (fun x => isnan x = false) xs) by (apply count_nan_zero; lia).
      rewrite map_inf_to_nan_noinf by done.
      by rewrite !map_fill_notnan. }
  split; [exact Htrain|]. split.
  { unfold reconcile_test. rewrite series_len_fillna, series_len_replace_inf.
    destruct (0 <? count_nan xs)%nat; [apply series_len_fillna | done]. }
  intros j Hj. unfold reconcile_test. rewrite cells_fillna, cells_replace_inf.
  rewrite !list_lookup_fmap.
  destruct (Nat.ltb_spec 0 (count_nan xs)) as [Hk|Hk].
  - destruct Hm as [Hz|Hfin]; [lia|].
    rewrite cells_fillna, list_lookup_fmap, Hj.
    destruct (median xs) as [| | |m] eqn:Em; done.
  - rewrite Hj. simpl. rewrite Htrain.
    assert (Hn : Forall (fun x => isnan x = false) xs) by (apply count_nan_zero; lia).
    by rewrite map_fill_notnan.
Qed.


End PreprocessProps.

(** C1, where the code departs from the claim: a retained training column
    with no finite value (one missing cell, two infinities: 33% missing) has
    an infinite median; the missing cell is filled with it, the infinities
    are then turned into missing values, and nothing is left to fill them
    with.  The returned frames hold [NaN]. *)
Theorem nan_survives_reconciliation :
  preprocess_data Toy.repr_stub Toy.train_inf Toy.test_inf "TARGET" =
    Ok ({| index := RangeIndex 3;
           columns := [("CREDIT_TERM", Float64 [NaN; NaN; NaN]);
                       ("AMT_CREDIT", Float64 [Fin 10; Fin 20; Fin 30])] |},
        {| index := RangeIndex 2;
           columns := [("CREDIT_TERM", Float64 [Fin 5; NaN]);
                       ("AMT_CREDIT", Float64 [Fin 40; Fin 50])] |},
        Float64 [Fin 0; Fin 1; Fin 0],
        Float64 [Fin 1; Fin 2; Fin 3],
        Float64 [Fin 7; Fin 8]).
Proof. vm_compute. reflexivity. Qed.

Lemma reconciled20_eq :
  preprocess_data Toy.repr_stub Toy.train20 Toy.test4 "TARGET" =
    Ok (Toy.X_train20, Toy.X_test4, Toy.y_train20, Toy.train_ids20, Toy.test_ids4).
Proof. vm_compute. reflexivity. Qed.

Lemma categorical_nan_is_a_category_witness :
  getitem Toy.X_train20 "OCCUPATION"
    = Ok (Float64 (map f64_of_nat ([1; 2; 0; 1; 2] ++ replicate 15 0))%nat) ∧
  getitem Toy.X_test4 "OCCUPATION" = Ok (Float64 (map f64_of_nat [3; 2; 0; 1]%nat)) ∧
  LabelEncoder.index_of "nan" ["cook"; "driver"; "nan"; "pilot"] = Some 2%nat.
Proof.
  destruct (categorical_nan_is_a_category Toy.repr_stub Toy.train20 Toy.test4 "TARGET"
              Toy.X_train20 Toy.X_test4 Toy.y_train20 Toy.train_ids20 Toy.test_ids4
              "OCCUPATION"
              ([Str "driver"; Num NaN; Str "cook"; Str "driver"; Num NaN]
                 ++ replicate 15 (Str "cook"))
              (Object [Str "pilot"; Num NaN; Str "cook"; Str "driver"])
              reconciled20_eq eq_refl eq_refl eq_refl)
    as (_ & trc & tec & _ & _ & HX & HXt & _); [discriminate | discriminate |].
  split; [|split]; [| | reflexivity].
  - rewrite HX. vm_compute in HX. injection HX as HX. vm_compute. by rewrite HX.
  - rewrite HXt. vm_compute in HXt. injection HXt as HXt. vm_compute. by rewrite HXt.
Defined.

Lemma label_encoding_shared_witness :
  LabelEncoder.fit (map (astype_str Toy.repr_stub)
                        ([Str "driver"; Num NaN; Str "cook"; Str "pilot"; Num NaN]))
    = ["cook"; "driver"; "nan"; "pilot"] ∧
  ∃ code : cell → nat,
    getitem Toy.X_train20 "OCCUPATION"
      = Ok (Float64 (map (fun v => f64_of_nat (code v))
                         ([Str "driver"; Num NaN; Str "cook"; Str "driver"; Num NaN]
                            ++ replicate 15 (Str "cook")))) ∧
    getitem Toy.X_test4 "OCCUPATION"
      = Ok (Float64 (map (fun v => f64_of_nat (code v))
                         [Str "pilot"; Num NaN; Str "cook"; Str "driver"])).
Proof.
  split; [reflexivity|].
  destruct (label_encoding_shared Toy.repr_stub Toy.train20 Toy.test4 "TARGET"
              Toy.X_train20 Toy.X_test4 Toy.y_train20 Toy.train_ids20 Toy.test_ids4
              "OCCUPATION"
              ([Str "driver"; Num NaN; Str "cook"; Str "driver"; Num NaN]
                 ++ replicate 15 (Str "cook"))
              (Object [Str "pilot"; Num NaN; Str "cook"; Str "driver"])
              reconciled20_eq eq_refl eq_refl eq_refl)
    as (_ & code & _ & _ & HX & HXt); [discriminate | discriminate |].
  exists code. split; [exact HX | exact HXt].
Defined.

(** ** Group keys and left joins *)

Lemma f64_ltb_trans x y z :
  f64_ltb x y = true → f64_ltb y z = true → f64_ltb x z = true.
Proof.
  unfold f64_ltb. rewrite !andb_true_iff, !negb_true_iff.
  intros [Hxy Hne] [Hyz Hne']. split; [by eapply f64_leb_trans|].
  destruct (f64_eqb x z) eqn:E; [|done].
  assert (f64_leb z y = true).
  { eapply f64_leb_trans; [|exact Hxy]. apply f64_eqb_leb. by rewrite f64_eqb_sym. }
  by rewrite (f64_leb_antisym y z) in Hne'.
Qed.

Lemma f64_compare_Gt x y :
  isnan x = false → isnan y = false →
  f64_compare x y = Gt → f64_ltb y x = true.
Proof.
  intros Hx Hy. unfold f64_compare, f64_ltb.
  destruct (f64_eqb x y) eqn:E; [done|].
  destruct (f64_leb x y) eqn:L; [done|]. intros _.
  rewrite f64_eqb_sym, E.
  destruct (f64_leb_total x y Hx Hy) as [H|H]; [congruence | by rewrite H].
Qed.

Lemma insert_unique_f64_elem x y l :
  y ∈ insert_unique f64_compare x l → y = x ∨ y ∈ l.
Proof.
  induction l as [|z l IH]; simpl.
  - intros ?%list_elem_of_singleton. by left.
  - destruct (f64_compare x z).
    + by right.
    + rewrite elem_of_cons. tauto.
    + rewrite !elem_of_cons. intros [->|H]; [tauto|]. destruct (IH H); tauto.
Qed.

Lemma np_unique_f64_elem y l : y ∈ np_unique f64_compare l → y ∈ l.
Proof.
  unfold np_unique. induction l as [|x l IH]; simpl; [done|].
  intros [->|H]%insert_unique_f64_elem; [left | right; auto].
Qed.

Lemma insert_unique_increasing x l :
  isnan x = false → Forall (fun k => isnan k = false) l →
  StronglySorted (fun a b => f64_ltb a b = true) l →
  StronglySorted (fun a b => f64_ltb a b = true) (insert_unique f64_compare x l).
Proof.
  intros Hx Hl Hs. induction Hs as [|z l Hs IH Hz]; simpl.
  - repeat constructor.
  - apply Forall_cons in Hl as [Hnz Hl].
    destruct (f64_compare x z) eqn:Hc.
    + by constructor.
    + apply f64_compare_Lt in Hc as [Hle Hne].
      assert (Hxz : f64_ltb x z = true) by (unfold f64_ltb; by rewrite Hle, Hne).
      constructor; [by constructor|]. constructor; [done|].
      eapply Forall_impl; [exact Hz|]. intros w Hw. by eapply f64_ltb_trans.
    + apply f64_compare_Gt in Hc; [|done..].
      constructor; [by apply IH|].
      apply Forall_forall. intros w [->|Hw]%insert_unique_f64_elem; [done|].
      by eapply Forall_forall in Hz.
Qed.

Lemma np_unique_increasing l :
  Forall (fun k => isnan k = false) l →
  StronglySorted (fun a b => f64_ltb a b = true) (np_unique f64_compare l).
Proof.
  unfold np_unique. induction 1 as [|x l Hx Hl IH]; simpl; [constructor|].
  apply insert_unique_increasing; [done | | done].
  apply Forall_forall. intros y Hy%np_unique_f64_elem. by eapply Forall_forall in Hl.
Qed.

Lemma increasing_lookup l i j x y :
  StronglySorted (fun a b => f64_ltb a b = true) l →
  l !! i = Some x → l !! j = Some y → (i < j)%nat → f64_ltb x y = true.
Proof.
  intros Hs. revert i j. induction Hs as [|z l Hs IH Hz]; intros i j; [done|].
  destruct i as [|i], j as [|j]; simpl; try lia.
  - intros [= <-] Hy _. eapply Forall_forall in Hz; [exact Hz|]. by eapply list_elem_of_lookup_2.
  - intros Hx Hy Hij. apply (IH i j); [done | done | lia].
Qed.

Lemma dropna_notnan xs : Forall (fun k => isnan k = false) (dropna xs).
Proof.
  unfold dropna. apply Forall_forall. intros x Hx%list_elem_of_In%filter_In.
  destruct Hx as [_ Hx]. unfold notnan in Hx. by apply negb_true_iff.
Qed.

(** The keys of a group-by are distinct, none is missing, and each is a key
    of the grouped table. *)
Lemma group_keys_distinct ks : distinct_keys (group_keys ks).
Proof.
  unfold group_keys. pose proof (dropna_notnan ks) as Hn.
  pose proof (np_unique_increasing _ Hn) as Hs.
  split.
  - apply Forall_forall. intros y Hy%np_unique_f64_elem. by eapply Forall_forall in Hn.
  - intros i j x y Hi Hj Heq.
    destruct (Nat.lt_trichotomy i j) as [Hlt|[->|Hlt]]; [|done|].
    + pose proof (increasing_lookup _ _ _ _ _ Hs Hi Hj Hlt) as H.
      unfold f64_ltb in H. by rewrite Heq, andb_false_r in H.
    + pose proof (increasing_lookup _ _ _ _ _ Hs Hj Hi Hlt) as H.
      unfold f64_ltb in H. by rewrite f64_eqb_sym, Heq, andb_false_r in H.
Qed.

Lemma group_keys_elem ks x : x ∈ group_keys ks → x ∈ ks.
Proof.
  unfold group_keys, dropna. intros H%np_unique_f64_elem%list_elem_of_In%filter_In.
  apply list_elem_of_In. tauto.
Qed.

Lemma absent_group_keys k ks : absent k ks → absent k (group_keys ks).
Proof. intros H x Hx%group_keys_elem. by apply H. Qed.
(** ** Left joins on a key without duplicates *)

Lemma length_le_1 {A} (l : list A) :
  NoDup l → (∀ x y, x ∈ l → y ∈ l → x = y) → (length l ≤ 1)%nat.
Proof.
  destruct l as [|a [|b l]]; simpl; [lia | lia |].
  intros Hnd Heq. exfalso.
  assert (a = b) as -> by (apply Heq; [left | right; left]).
  apply NoDup_cons in Hnd as [Hnd _]. apply Hnd. left.
Qed.

Lemma nth_lookup_f64 (l : list f64) (i : nat) :
  (i < length l)%nat → l !! i = Some (nth i l NaN).
Proof.
  revert i. induction l as [|x l IH]; intros [|i]; simpl; try lia; [done|].
  intros H. apply IH. lia.
Qed.

Lemma matching_rows_elem rk k j :
  j ∈ matching_rows rk k ↔ (j < length rk)%nat ∧ key_match k (nth j rk NaN) = true.
Proof.
  unfold matching_rows. rewrite list_elem_of_In, filter_In, in_seq. intuition lia.
Qed.

(** A key meets at most one row of a key column without duplicates. *)
Lemma matching_rows_distinct rk k :
  distinct_keys rk → (length (matching_rows rk k) ≤ 1)%nat.
Proof.
  intros [Hn Hd]. apply length_le_1.
  - unfold matching_rows. apply NoDup_ListNoDup, List.NoDup_filter, List.seq_NoDup.
  - intros j1 j2 [H1 M1]%matching_rows_elem [H2 M2]%matching_rows_elem.
    pose proof (nth_lookup_f64 rk j1 H1) as L1.
    pose proof (nth_lookup_f64 rk j2 H2) as L2.
    assert (N1 : isnan (nth j1 rk NaN) = false).
    { eapply Forall_forall in Hn; [exact Hn|]. by eapply list_elem_of_lookup_2. }
    assert (N2 : isnan (nth j2 rk NaN) = false).
    { eapply Forall_forall in Hn; [exact Hn|]. by eapply list_elem_of_lookup_2. }
    unfold key_match in M1, M2. rewrite N1, andb_false_r, orb_false_r in M1.
    rewrite N2, andb_false_r, orb_false_r in M2.
    apply (Hd j1 j2 _ _ L1 L2).
    apply f64_eqb_trans with k; [by rewrite f64_eqb_sym | done].
Qed.

(** A key that is in no row of the key column has no partner. *)
Lemma partner_absent rk k :
  Forall (fun x => isnan x = false) rk → absent k rk → partner rk k = None.
Proof.
  intros Hn Ha. unfold partner.
  destruct (matching_rows rk k) as [|j js] eqn:E; [done|].
  assert (Hj : j ∈ matching_rows rk k) by (rewrite E; left).
  apply matching_rows_elem in Hj as [Hlt M].
  pose proof (nth_lookup_f64 rk j Hlt) as L%list_elem_of_lookup_2.
  unfold key_match in M. rewrite (Ha _ L) in M.
  eapply Forall_forall in Hn; [|exact L]. by rewrite Hn, andb_false_r in M.
Qed.

Lemma flat_map_singletons {A B} (f : A → list B) (g : A → B) (l : list A) :
  (∀ x, f x = [g x]) → flat_map f l = map g l.
Proof.
  intros H. induction l as [|x l IH]; [done|].
  change (f x ++ flat_map f l = g x :: map g l). by rewrite H, IH.
Qed.

(** With distinct right keys every left row is there exactly once, in
    order, with its partner if it has one. *)
Lemma left_join_rows_distinct lk rk :
  distinct_keys rk →
  left_join_rows lk rk =
    map (fun i => (i, partner rk (nth i lk NaN))) (seq 0 (length lk)).
Proof.
  intros Hd. unfold left_join_rows. apply flat_map_singletons. intros i.
  pose proof (matching_rows_distinct rk (nth i lk NaN) Hd) as Hle.
  unfold partner. destruct (matching_rows rk (nth i lk NaN)) as [|j [|j' js]]; simpl in *;
    [done | done | lia].
Qed.

Lemma left_join_rows_fst lk rk :
  distinct_keys rk → map fst (left_join_rows lk rk) = seq 0 (length lk).
Proof.
  intros Hd. rewrite left_join_rows_distinct by done.
  rewrite map_map. simpl. apply map_id.
Qed.

Lemma left_join_rows_length lk rk :
  distinct_keys rk → length (left_join_rows lk rk) = length lk.
Proof.
  intros Hd. rewrite <- (length_map fst), left_join_rows_fst by done. apply length_seq.
Qed.

Lemma take_f64_all xs : take_f64 (seq 0 (length xs)) xs = xs.
Proof.
  unfold take_f64. apply (nth_ext _ _ NaN NaN).
  - by rewrite length_map, length_seq.
  - intros i Hi. rewrite length_map, length_seq in Hi.
    rewrite (nth_indep _ NaN (nth 0 xs NaN)) by (by rewrite length_map, length_seq).
    rewrite (map_nth (fun i => nth i xs NaN) (seq 0 (length xs)) 0%nat i).
    by rewrite seq_nth.
Qed.

Lemma take_cells_all cs : take_cells (seq 0 (length cs)) cs = cs.
Proof.
  unfold take_cells. apply (nth_ext _ _ (Num NaN) (Num NaN)).
  - by rewrite length_map, length_seq.
  - intros i Hi. rewrite length_map, length_seq in Hi.
    rewrite (nth_indep _ (Num NaN) (nth 0 cs (Num NaN))) by (by rewrite length_map, length_seq).
    rewrite (map_nth (fun i => nth i cs (Num NaN)) (seq 0 (length cs)) 0%nat i).
    by rewrite seq_nth.
Qed.

Lemma take_series_all s : take_series (seq 0 (series_len s)) s = s.
Proof. destruct s; simpl; by rewrite ?take_f64_all, ?take_cells_all. Qed.

Lemma series_len_take_right pairs s : series_len (take_right pairs s) = length pairs.
Proof. destruct s; simpl; apply length_map. Qed.

(** A row without a partner holds a missing value in a right-hand column. *)
Lemma take_right_missing pairs s i i' :
  pairs !! i = Some (i', None) → cells (take_right pairs s) !! i = Some (Num NaN).
Proof.
  intros H. destruct s; simpl; rewrite ?list_lookup_fmap, ?list_lookup_fmap, H; done.
Qed.

Lemma assoc_NoDup_elem {V} (k : string) (v : V) (l : list (string * V)) :
  NoDup (map fst l) → (k, v) ∈ l → assoc k l = Some v.
Proof.
  induction l as [|[k' v'] l IH]; simpl; [by intros _ ?%elem_of_nil|].
  intros [Hk Hnd]%NoDup_cons [[= -> ->]|H]%elem_of_cons.
  - by rewrite String.eqb_refl.
  - destruct (String.eqb_spec k k') as [->|Hne]; [|by apply IH].
    exfalso. apply Hk. apply list_elem_of_fmap. by exists (k', v).
Qed.
(** ** [merge] onto a frame, the right-hand key without duplicates *)

Lemma getnum_Ok df col xs :
  getnum df col = Ok xs ↔ assoc col (columns df) = Some (Float64 xs).
Proof.
  unfold getnum, getitem. destruct (assoc col (columns df)) as [[ys|cs]|]; simpl.
  - split; by intros [= ->].
  - done.
  - done.
Qed.

Lemma without_elem on (cols : list (string * Series)) c :
  c ∈ without on cols ↔ c ∈ cols ∧ fst c ≠ on.
Proof.
  unfold without. rewrite !list_elem_of_In, filter_In, negb_true_iff.
  destruct (String.eqb_spec (fst c) on); intuition congruence.
Qed.

Lemma wf_intro df :
  NoDup (names df) →
  (∀ c, c ∈ columns df → series_len (snd c) = len df) →
  wf df = true.
Proof.
  intros Hnd Hlen. unfold wf. apply andb_true_iff. split; [by apply nodup_b_NoDup|].
  apply forallb_forall. intros c Hc%list_elem_of_In. by apply Nat.eqb_eq, Hlen.
Qed.

Lemma wf_elem_len df c :
  wf df = true → c ∈ columns df → series_len (snd c) = len df.
Proof.
  unfold wf. intros [_ H]%andb_true_iff Hc%list_elem_of_In.
  rewrite forallb_forall in H. by apply Nat.eqb_eq, H.
Qed.

Lemma merge_left_spec left right on m lk rk :
  merge_left left right on = Ok m →
  wf left = true →
  getnum left on = Ok lk →
  getnum right on = Ok rk →
  distinct_keys rk →
  ∃ L R,
    columns m = L ++ R ∧
    index m = RangeIndex (len left) ∧
    wf m = true ∧
    Forall2 (fun c l => fst c = left_label on (names right) (fst l) ∧ snd c = snd l)
            L (columns left) ∧
    Forall2 (fun c r => fst c = right_label (names left) (fst r))
            R (without on (columns right)) ∧
    (∀ i k, lk !! i = Some k → absent k rk → row_missing i R).
Proof.
  intros Hm Hwf Hlk Hrk Hd. unfold merge_left in Hm.
  rewrite Hlk, Hrk in Hm. simpl in Hm.
  apply bindR_Ok in Hm as (cols & Hcols & [= <-]).
  assert (Hlen : length lk = len left).
  { apply getnum_Ok in Hlk. by apply (wf_series_len left on (Float64 lk)). }
  pose proof (left_join_rows_fst lk rk Hd) as Hfst.
  pose proof (left_join_rows_length lk rk Hd) as Hpl.
  unfold keyed_columns in Hcols.
  set (pairs := left_join_rows lk rk) in *.
  set (L := map _ (columns left)) in Hcols.
  set (R := map _ (without on (columns right))) in Hcols.
  destruct (nodup_b (map fst (L ++ R))) eqn:Hnd; [|done].
  injection Hcols as <-. apply nodup_b_NoDup in Hnd.
  assert (HL : Forall2 (fun c l => fst c = left_label on (names right) (fst l) ∧ snd c = snd l)
                 L (columns left)).
  { unfold L. apply Forall2_fmap_l, Forall_Forall2_diag, Forall_forall.
    intros [c s] Hc. simpl. split.
    - unfold left_label, names.
      assert (mem c (map fst (columns left)) = true) as ->.
      { apply mem_true, list_elem_of_fmap. by exists (c, s). }
      by rewrite andb_true_r.
    - rewrite Hfst, Hlen, <- (wf_elem_len left (c, s)) by done. apply take_series_all. }
  assert (HR : Forall2 (fun c r => fst c = right_label (names left) (fst r))
                 R (without on (columns right))).
  { unfold R. apply Forall2_fmap_l, Forall_Forall2_diag, Forall_forall.
    intros [c s] [Hc Hne]%without_elem. simpl in *. unfold right_label, names.
    destruct (String.eqb_spec c on) as [?|_]; [done|]. simpl.
    assert (mem c (map fst (columns right)) = true) as ->.
    { apply mem_true, list_elem_of_fmap. by exists (c, s). }
    by rewrite andb_true_r. }
  exists L, R. simpl. split; [done|]. split; [by rewrite Hpl, Hlen|].
  split; [|split; [done|split; [done|]]].
  - apply wf_intro; [done|]. unfold len. simpl. rewrite Hpl, Hlen.
    intros c [Hc|Hc]%elem_of_app.
      destruct (list_elem_of_lookup_1 _ _ Hc) as [i Hi].
      destruct (Forall2_lookup_l _ _ _ i c HL Hi) as (l & Hl & _ & ->).
      apply (wf_elem_len left l Hwf). by eapply list_elem_of_lookup_2.
    + unfold R in Hc. apply list_elem_of_fmap in Hc as (r & -> & _). simpl.
      by rewrite series_len_take_right, Hpl.
  - intros i k Hi Ha c Hc. unfold R in Hc.
    apply list_elem_of_fmap in Hc as (r & -> & _). simpl.
    apply take_right_missing with i. unfold pairs.
    rewrite left_join_rows_distinct by done. rewrite list_lookup_fmap.
    assert (Hlt : (i < length lk)%nat) by (by eapply lookup_lt_Some).
    rewrite lookup_seq_lt by done. simpl.
    rewrite (nth_lookup_f64 lk i Hlt) in Hi. injection Hi as ->.
    rewrite partner_absent; [done | by destruct Hd | done].
Qed.

(** A left-hand column that keeps its label is found as it was. *)
Lemma merge_left_keeps left right on m L R c s :
  columns m = L ++ R →
  wf m = true →
  Forall2 (fun c l => fst c = left_label on (names right) (fst l) ∧ snd c = snd l)
          L (columns left) →
  assoc c (columns left) = Some s →
  left_label on (names right) c = c →
  assoc c (columns m) = Some s.
Proof.
  intros Hcols Hwf HL Hc%assoc_Some_elem Hlab.
  apply assoc_NoDup_elem; [by apply NoDup_names_wf|].
  rewrite Hcols. apply elem_of_app. left.
  destruct (list_elem_of_lookup_1 _ _ Hc) as [i Hi].
  destruct (Forall2_lookup_r _ _ _ i _ HL Hi) as ([c' s'] & Hl & Hn & Hs).
  simpl in *. subst. rewrite Hlab in Hl. by eapply list_elem_of_lookup_2.
Qed.

Lemma left_label_on on rnames : left_label on rnames on = on.
Proof. unfold left_label. by rewrite String.eqb_refl. Qed.

Lemma left_label_notin on rnames c : c ∉ rnames → left_label on rnames c = c.
Proof.
  intros H%mem_false. unfold left_label. by rewrite H, andb_false_r.
Qed.
(** ** The aggregated ledger tables *)

Lemma liftM_Ok {A} (r : result A) (h h' : gmap nat DataFrame) (a : A) :
  lift r h = (Ok a, h') → r = Ok a ∧ h' = h.
Proof. unfold lift. by intros [= -> ->]. Qed.

Lemma bindM_Ok {A B} (m : M A) (f : A → M B) (h h' : gmap nat DataFrame) (b : B) :
  (m ≫= f) h = (Ok b, h') → ∃ a h1, m h = (Ok a, h1) ∧ f a h1 = (Ok b, h').
Proof.
  rewrite bindM_eq. destruct (m h) as [[a|e] h1]; [eauto | done].
Qed.

Lemma deref_Ok (l : nat) (h h' : gmap nat DataFrame) d :
  deref l h = (Ok d, h') → h !! l = Some d ∧ h' = h.
Proof. unfold deref. destruct (h !! l); [by intros [= -> ->] | done]. Qed.

Lemma flatten_columns_names prefix df key spec a :
  groupby_agg df key spec = Ok a →
  names (flatten_columns prefix a) = flat_labels prefix spec.
Proof.
  intros H%groupby_agg_labels. unfold names, flatten_columns, flat_labels. simpl.
  rewrite map_map. simpl. rewrite <- (map_map fst (flat_name prefix)), H.
  by rewrite map_map.
Qed.

Lemma set_columns_Ok labels a df :
  set_columns labels a = Ok df →
  index df = KeyIndex (agg_by a) (agg_keys a) ∧ names df = labels.
Proof.
  unfold set_columns. destruct (Nat.eqb_spec (length labels) (length (agg_columns a))) as [E|];
    [|done].
  intros [= <-]. split; [done|]. unfold names. simpl.
  apply fst_zip. rewrite length_map. lia.
Qed.

(** An index-on-index left join with distinct right keys keeps the index of
    the left table. *)
Lemma merge_left_index_spec left right m :
  merge_left_index left right = Ok m →
  distinct_keys (index_keys (index right)) →
  index m = KeyIndex (index_name (index left)) (index_keys (index left)) ∧
  names m = joined_labels (names left) (names right).
Proof.
  unfold merge_left_index. intros H Hd.
  apply bindR_Ok in H as (cols & Hcols & [= <-]). simpl.
  rewrite left_join_rows_fst, take_f64_all by done. split; [done|].
  unfold joined_columns in Hcols.
  destruct (nodup_b _); [|done]. injection Hcols as <-.
  unfold names, joined_labels. simpl. rewrite map_app, !map_map. done.
Qed.

Lemma merge_left_Ok left right on m :
  merge_left left right on = Ok m →
  ∃ lk rk, getnum left on = Ok lk ∧ getnum right on = Ok rk.
Proof.
  unfold merge_left. intros H.
  apply bindR_Ok in H as (lk & Hlk & H). apply bindR_Ok in H as (rk & Hrk & _). eauto.
Qed.

Lemma reset_index_table a prefix df spec ks :
  groupby_agg df "SK_ID_CURR" spec = Ok a →
  getnum df "SK_ID_CURR" = Ok ks →
  ledger_table (reset_index (flatten_columns prefix a)) ks (flat_labels prefix spec).
Proof.
  intros Ha Hks. pose proof (flatten_columns_names prefix _ _ _ _ Ha) as Hn.
  apply groupby_agg_spec in Ha as (ks' & Hks' & Hby & Hkeys & _).
  rewrite Hks in Hks'. injection Hks' as <-.
  eexists. split; [|exact Hn]. unfold reset_index. simpl. by rewrite Hby, Hkeys.
Qed.

Lemma names_reset_index df :
  names (reset_index df) = index_name (index df) :: names df.
Proof. reflexivity. Qed.

(** The bureau table: the keys are those of the bureau ledger, whatever the
    balance table adds to it. *)
Lemma aggregate_bureau_features_table (b bb : nat) (h h' : gmap nat DataFrame) B db bk :
  aggregate_bureau_features b bb h = (Ok B, h') →
  h !! b = Some db →
  wf db = true →
  getnum db "SK_ID_CURR" = Ok bk →
  h' = h ∧ ledger_table B bk bureau_features.
Proof.
  intros Hrun Hb Hwf Hbk. unfold aggregate_bureau_features in Hrun.
  apply bindM_Ok in Hrun as (db' & h1 & [Hb' ->]%deref_Ok & Hrun).
  rewrite Hb in Hb'. injection Hb' as <-.
  apply bindM_Ok in Hrun as (dbb & h1 & [_ ->]%deref_Ok & Hrun).
  apply liftM_Ok in Hrun as [Hr ->]. split; [done|].
  apply bindR_Ok in Hr as (a0 & Ha0 & Hr). cbv zeta in Hr.
  apply bindR_Ok in Hr as (bureau & Hbur & Hr).
  apply bindR_Ok in Hr as (a1 & Ha1 & Hr).
  apply bindR_Ok in Hr as (act0 & _ & Hr).
  apply bindR_Ok in Hr as (a2 & Ha2 & Hr).
  apply bindR_Ok in Hr as (active & [Hia Hna]%set_columns_Ok & Hr).
  apply bindR_Ok in Hr as (clo0 & _ & Hr).
  apply bindR_Ok in Hr as (a3 & Ha3 & Hr).
  apply bindR_Ok in Hr as (closed & [Hic Hnc]%set_columns_Ok & Hr).
  apply bindR_Ok in Hr as (m1 & Hm1 & Hr).
  apply bindR_Ok in Hr as (m2 & Hm2 & [= <-]).
  (* the balance table joins on the credit key; the applicant key stays *)
  pose proof (flatten_columns_names "" _ _ _ _ Ha0) as Hn0.
  apply groupby_agg_spec in Ha0 as (ks0 & _ & Hby0 & Hkeys0 & _).
  destruct (merge_left_Ok _ _ _ _ Hbur) as (lk & rk & Hlk & Hrk).
  assert (rk = group_keys ks0) as ->.
  { unfold reset_index, flatten_columns, getnum, getitem in Hrk. simpl in Hrk.
    rewrite Hby0 in Hrk. simpl in Hrk. injection Hrk as <-. done. }
  destruct (merge_left_spec _ _ _ _ _ _ Hbur Hwf Hlk Hrk (group_keys_distinct ks0))
    as (L & R & Hcols & _ & Hwfb & HL & _).
  assert (Hcurr : getnum bureau "SK_ID_CURR" = Ok bk).
  { apply getnum_Ok. apply getnum_Ok in Hbk.
    eapply merge_left_keeps; [exact Hcols | done | exact HL | exact Hbk |].
    apply left_label_notin.
    rewrite names_reset_index, Hn0. simpl. rewrite Hby0. apply mem_false. reflexivity. }
  pose proof (flatten_columns_names "BUREAU_" _ _ _ _ Ha1) as Hn1.
  apply groupby_agg_spec in Ha1 as (ks1 & Hks1 & Hby1 & Hkeys1 & _).
  rewrite Hcurr in Hks1. injection Hks1 as <-.
  apply groupby_agg_spec in Ha2 as (ks2 & _ & _ & Hkeys2 & _).
  apply groupby_agg_spec in Ha3 as (ks3 & _ & _ & Hkeys3 & _).
  apply merge_left_index_spec in Hm1 as [Hi1 Hnm1];
    [|rewrite Hia, Hkeys2; apply group_keys_distinct].
  apply merge_left_index_spec in Hm2 as [Hi2 Hnm2];
    [|rewrite Hic, Hkeys3; apply group_keys_distinct].
  rewrite Hi1 in Hi2. simpl in Hi1, Hi2. rewrite Hby1, Hkeys1 in Hi2.
  eexists. unfold reset_index. rewrite Hi2. simpl. split; [reflexivity|].
  fold (names m2). rewrite Hnm2, Hnm1, Hn1, Hna, Hnc. reflexivity.
Qed.

Lemma aggregate_previous_applications_table (p : nat) (h h' : gmap nat DataFrame) P dp pk :
  aggregate_previous_applications p h = (Ok P, h') →
  h !! p = Some dp →
  getnum dp "SK_ID_CURR" = Ok pk →
  h' = h ∧ ledger_table P pk previous_features.
Proof.
  intros Hrun Hp Hpk. unfold aggregate_previous_applications in Hrun.
  apply bindM_Ok in Hrun as (dp' & h1 & [Hp' ->]%deref_Ok & Hrun).
  rewrite Hp in Hp'. injection Hp' as <-.
  apply liftM_Ok in Hrun as [Hr ->]. split; [done|].
  apply bindR_Ok in Hr as (a1 & Ha1 & Hr). cbv zeta in Hr.
  apply bindR_Ok in Hr as (app0 & _ & Hr).
  apply bindR_Ok in Hr as (a2 & Ha2 & Hr).
  apply bindR_Ok in Hr as (approved & [Hia Hna]%set_columns_Ok & Hr).
  apply bindR_Ok in Hr as (ref0 & _ & Hr).
  apply bindR_Ok in Hr as (a3 & Ha3 & Hr).
  apply bindR_Ok in Hr as (refused & [Hic Hnc]%set_columns_Ok & Hr).
  apply bindR_Ok in Hr as (m1 & Hm1 & Hr).
  apply bindR_Ok in Hr as (m2 & Hm2 & [= <-]).
  pose proof (flatten_columns_names "PREV_" _ _ _ _ Ha1) as Hn1.
  apply groupby_agg_spec in Ha1 as (ks1 & Hks1 & Hby1 & Hkeys1 & _).
  rewrite Hpk in Hks1. injection Hks1 as <-.
  apply groupby_agg_spec in Ha2 as (ks2 & _ & _ & Hkeys2 & _).
  apply groupby_agg_spec in Ha3 as (ks3 & _ & _ & Hkeys3 & _).
  apply merge_left_index_spec in Hm1 as [Hi1 Hnm1];
    [|rewrite Hia, Hkeys2; apply group_keys_distinct].
  apply merge_left_index_spec in Hm2 as [Hi2 Hnm2];
    [|rewrite Hic, Hkeys3; apply group_keys_distinct].
  rewrite Hi1 in Hi2. simpl in Hi1, Hi2. rewrite Hby1, Hkeys1 in Hi2.
  eexists. unfold reset_index. rewrite Hi2. simpl. split; [reflexivity|].
  fold (names m2). rewrite Hnm2, Hnm1, Hn1, Hna, Hnc. reflexivity.
Qed.

Lemma aggregate_installments_table (l : nat) (h h' : gmap nat DataFrame) T d ik :
  aggregate_installments l h = (Ok T, h') →
  h !! l = Some d →
  getnum d "SK_ID_CURR" = Ok ik →
  ledger_table T ik installments_features.
Proof.
  intros Hrun Hd Hik.
  destruct (aggregate_installments_inv _ _ _ _ _ Hd Hrun)
    as (payment & instalment & entry & due & Hp & Hi & He & Hdue).
  rewrite (aggregate_installments_run _ _ _ _ _ _ _ Hd Hp Hi He Hdue) in Hrun.
  injection Hrun as Hout _.
  apply bindR_Ok in Hout as (a & Ha & [= <-]).
  apply (reset_index_table a "INST_" _ _ ik Ha).
  unfold with_payment_columns. by rewrite !getnum_setitem_ne.
Qed.
(** ** Feature engineering keeps the applicant rows *)

Lemma set_assoc_elem {V} (k : string) (v : V) (l : list (string * V)) c :
  c ∈ set_assoc k v l → c = (k, v) ∨ c ∈ l.
Proof.
  induction l as [|[k0 v0] l IH]; simpl.
  - intros ?%list_elem_of_singleton. by left.
  - destruct (String.eqb k k0).
    + intros [->|H]%elem_of_cons; [by left | right; by right].
    + intros [->|H]%elem_of_cons; [right; left|]. destruct (IH H); [by left | right; by right].
Qed.

Lemma wf_setitem df col s :
  wf df = true → series_len s = len df → wf (setitem df col s) = true.
Proof.
  intros Hwf Hs. apply wf_intro.
  - pose proof (NoDup_names_wf df Hwf) as Hnd.
    unfold names, setitem in *. simpl.
    destruct (decide (col ∈ map fst (columns df))) as [Hin|Hnin].
    + by rewrite set_assoc_names_in.
    + rewrite set_assoc_names_new by done. apply NoDup_app.
      split; [done|]. split; [|apply NoDup_cons; split; [apply not_elem_of_nil | apply NoDup_nil_2]].
      intros x Hx ->%list_elem_of_singleton. done.
  - intros c [->|Hc]%set_assoc_elem; [done|]. by apply (wf_elem_len df).
Qed.

Lemma same_rows_refl d : wf d = true → same_rows d d.
Proof. done. Qed.

Lemma same_rows_setitem d0 d col s :
  same_rows d0 d → series_len s = len d0 → col ≠ "SK_ID_CURR" →
  same_rows d0 (setitem d col s).
Proof.
  intros (Hwf & Hi & Hk) Hs Hne. split; [|split].
  - apply wf_setitem; [done|]. unfold len. by rewrite Hi.
  - done.
  - simpl. by rewrite assoc_set_assoc_ne.
Qed.

Lemma same_rows_getnum d0 d col xs :
  same_rows d0 d → getnum d col = Ok xs → length xs = len d0.
Proof.
  intros (Hwf & Hi & _) H%getnum_Ok.
  pose proof (wf_series_len d col (Float64 xs) Hwf H) as Hlen. simpl in Hlen.
  rewrite Hlen. unfold len. by rewrite Hi.
Qed.

Lemma same_rows_getitem d0 d col s :
  same_rows d0 d → getitem d col = Ok s → series_len s = len d0.
Proof.
  intros (Hwf & Hi & _) H%getitem_Ok.
  rewrite (wf_series_len d col s Hwf H). unfold len. by rewrite Hi.
Qed.

Lemma same_rows_len d0 d : same_rows d0 d → len d = len d0.
Proof. intros (_ & Hi & _). unfold len. by rewrite Hi. Qed.

Lemma series_len_replace_value old new s :
  series_len (replace_value old new s) = series_len s.
Proof. destruct s; simpl; apply length_map. Qed.

Lemma series_len_eq_scalar_int v s :
  series_len (eq_scalar_int v s) = series_len s.
Proof. unfold eq_scalar_int. simpl. by rewrite length_map, length_cells. Qed.

Lemma length_rowwise f n cols : length (rowwise f n cols) = n.
Proof. unfold rowwise. by rewrite length_map, length_seq. Qed.

(** The length of a computed column. *)
Ltac column_length d0 :=
  simpl;
  repeat first [ rewrite series_len_fillna | rewrite series_len_replace_value
               | rewrite series_len_eq_scalar_int | rewrite length_map
               | rewrite length_zip_with | rewrite length_rowwise
               | rewrite length_cells ];
  repeat match goal with
         | Hx : length _ = len d0 |- _ => rewrite Hx
         | Hx : series_len _ = len d0 |- _ => rewrite Hx
         | Hx : same_rows d0 ?e |- _ => rewrite (same_rows_len d0 e Hx)
         end;
  lia.

(** A frame built by assignments from one that keeps the rows keeps them. *)
Ltac frame_rows d0 :=
  first [ assumption
        | apply same_rows_setitem; [frame_rows d0 | column_length d0 | discriminate] ].

(** Names the frame an expression reads from, once it is known to keep the
    rows. *)
Ltac name_frame d d0 :=
  first [ is_var d
        | let d' := fresh "df" in
          let Hd' := fresh "Hrows" in
          assert (Hd' : same_rows d0 d) by frame_rows d0;
          set (d' := d) in *; clearbody d' ].

Ltac read_column H d0 :=
  lazymatch type of H with
  | (getnum ?d ?c ≫= _) = _ =>
      name_frame d d0;
      let xs := fresh "xs" in
      let Hx := fresh "Hx" in
      let Hl := fresh "Hl" in
      apply bindR_Ok in H as (xs & Hx & H);
      assert (Hl : length xs = len d0) by (eapply same_rows_getnum; [|exact Hx]; assumption);
      clear Hx
  | (getitem ?d ?c ≫= _) = _ =>
      name_frame d d0;
      let s := fresh "s" in
      let Hx := fresh "Hx" in
      let Hl := fresh "Hl" in
      apply bindR_Ok in H as (s & Hx & H);
      assert (Hl : series_len s = len d0) by (eapply same_rows_getitem; [|exact Hx]; assumption);
      clear Hx
  | (mapR (getnum ?d) _ ≫= _) = _ =>
      name_frame d d0;
      let xs := fresh "cols" in
      apply bindR_Ok in H as (xs & _ & H)
  end.

(** What [engineer_application_features] returns has the rows of the frame
    it was given: as many, in the same order, under the same keys. *)
Lemma engineer_application_features_rows fsqrt (l : nat) (h h' : gmap nat DataFrame) d0 fe :
  engineer_application_features fsqrt l h = (Ok fe, h') →
  h !! l = Some d0 →
  wf d0 = true →
  h' = h ∧ same_rows d0 fe.
Proof.
  intros Hrun Hl Hwf. unfold engineer_application_features in Hrun.
  apply bindM_Ok in Hrun as (d & h1 & [Hd ->]%deref_Ok & Hrun).
  rewrite Hl in Hd. injection Hd as <-.
  apply liftM_Ok in Hrun as [H ->]. split; [done|].
  pose proof (same_rows_refl d0 Hwf) as Hrows0.
  repeat read_column H d0.
  injection H as <-. frame_rows d0.
Qed.
(** ** The three merges onto the applicant frame *)

Lemma without_head on s (cols : list (string * Series)) :
  on ∉ map fst cols → without on ((on, s) :: cols) = cols.
Proof.
  intros Hn. unfold without. simpl. rewrite String.eqb_refl. simpl.
  induction cols as [|[c x] cols IH]; simpl; [done|].
  destruct (String.eqb_spec c on) as [->|_]; simpl.
  - exfalso. apply Hn. left.
  - f_equal. apply IH. intros ?. apply Hn. by right.
Qed.

Lemma row_missing_snd i (C C0 : list (string * Series)) :
  map snd C = map snd C0 → row_missing i C0 → row_missing i C.
Proof.
  intros Heq H c Hc.
  assert (Hs : snd c ∈ map snd C0).
  { rewrite <- Heq. apply list_elem_of_fmap. by exists c. }
  apply list_elem_of_fmap in Hs as (c0 & -> & Hc0). by apply H.
Qed.

(** One merge of a ledger table onto a frame with the applicant keys
    [ids]. *)
Lemma merge_ledger_table left T m ids ks features :
  merge_left left T "SK_ID_CURR" = Ok m →
  wf left = true →
  getnum left "SK_ID_CURR" = Ok ids →
  ledger_table T ks features →
  mem "SK_ID_CURR" features = false →
  ∃ L R,
    columns m = L ++ R ∧
    index m = RangeIndex (len left) ∧
    wf m = true ∧
    getnum m "SK_ID_CURR" = Ok ids ∧
    Forall2 (fun c l => fst c = left_label "SK_ID_CURR" ("SK_ID_CURR" :: features) (fst l) ∧
                        snd c = snd l)
            L (columns left) ∧
    labelled R features ∧
    (∀ i k, ids !! i = Some k → absent k ks → row_missing i R).
Proof.
  intros Hm Hwf Hids (cols & Hcols & Hfeat) Hnot%mem_false.
  assert (Hrk : getnum T "SK_ID_CURR" = Ok (group_keys ks)).
  { apply getnum_Ok. by rewrite Hcols. }
  destruct (merge_left_spec _ _ _ _ _ _ Hm Hwf Hids Hrk (group_keys_distinct ks))
    as (L & R & Hc & Hi & Hwfm & HL & HR & Hmiss).
  assert (Hn : names T = "SK_ID_CURR" :: features).
  { unfold names. rewrite Hcols. simpl. by rewrite Hfeat. }
  rewrite Hn in HL.
  rewrite Hcols, without_head in HR by (by rewrite Hfeat).
  exists L, R. repeat (split; [done|]). split; [|split; [done|split]].
  - apply getnum_Ok. apply getnum_Ok in Hids.
    eapply merge_left_keeps; [exact Hc | done | | exact Hids | apply left_label_on].
    by rewrite Hn.
  - unfold labelled. rewrite <- Hfeat. apply Forall2_fmap_r.
    eapply Forall2_impl; [exact HR|]. intros c r ->. simpl. unfold right_label.
    destruct (mem (fst r) (names left)); [by right | by left].
  - intros i k Hk Ha. apply (Hmiss i k Hk). by apply absent_group_keys.
Qed.

(** A block of labelled columns on the left of a merge stays as it is when
    the merged table has none of its labels. *)
Lemma labelled_kept on rnames (C C0 : list (string * Series)) labels :
  Forall2 (fun c l => fst c = left_label on rnames (fst l) ∧ snd c = snd l) C C0 →
  labelled C0 labels →
  apart labels rnames = true →
  labelled C labels ∧ map snd C = map snd C0.
Proof.
  intros HC Hlab Hap. unfold apart in Hap. rewrite forallb_forall in Hap.
  revert C HC. induction Hlab as [|c0 n C0 labels Hn Hlab IH]; intros C HC.
  - apply Forall2_nil_inv_r in HC as ->. split; [constructor | done].
  - apply Forall2_cons_inv_r in HC as (c & C' & [Hc Hs] & HC & ->).
    destruct IH with C' as [IH1 IH2]; [|done|].
    { intros x Hx. apply Hap. by right. }
    split; [|simpl; by rewrite Hs, IH2]. constructor; [|done].
    rewrite Hc. specialize (Hap n (or_introl eq_refl)).
    apply andb_true_iff in Hap as [H1%negb_true_iff%mem_false H2%negb_true_iff%mem_false].
    destruct Hn as [->| ->]; rewrite left_label_notin by done; [by left | by right].
Qed.

Lemma Forall2_map_snd (on : string) rnames (L C : list (string * Series)) :
  Forall2 (fun c l => fst c = left_label on rnames (fst l) ∧ snd c = snd l) L C →
  map snd L = map snd C.
Proof. induction 1 as [|c l L C [_ Hs] _ IH]; simpl; [done|]. by rewrite Hs, IH. Qed.

(** The three merges, one after the other. *)
Lemma three_merges fe B P T m1 m2 m3 ids bk pk ik :
  wf fe = true →
  getnum fe "SK_ID_CURR" = Ok ids →
  ledger_table B bk bureau_features →
  ledger_table P pk previous_features →
  ledger_table T ik installments_features →
  merge_left fe B "SK_ID_CURR" = Ok m1 →
  merge_left m1 P "SK_ID_CURR" = Ok m2 →
  merge_left m2 T "SK_ID_CURR" = Ok m3 →
  left_joined fe m3 bk pk ik.
Proof.
  intros Hwf Hids HB HP HT H1 H2 H3.
  destruct (merge_ledger_table _ _ _ _ _ _ H1 Hwf Hids HB eq_refl)
    as (L1 & CB1 & Hc1 & Hi1 & Hwf1 & Hids1 & HL1 & Hlab1 & Hmiss1).
  destruct (merge_ledger_table _ _ _ _ _ _ H2 Hwf1 Hids1 HP eq_refl)
    as (L2 & CP2 & Hc2 & Hi2 & Hwf2 & Hids2 & HL2 & Hlab2 & Hmiss2).
  destruct (merge_ledger_table _ _ _ _ _ _ H3 Hwf2 Hids2 HT eq_refl)
    as (L3 & CI & Hc3 & Hi3 & Hwf3 & Hids3 & HL3 & Hlab3 & Hmiss3).
  (* the second merge keeps the columns of the first *)
  rewrite Hc1 in HL2.
  apply Forall2_app_inv_r in HL2 as (L2a & CB2 & HL2a & HCB2 & ->).
  destruct (labelled_kept _ _ _ _ _ HCB2 Hlab1 eq_refl) as [Hlab1' Hsnd1].
  (* the third merge keeps the columns of the second *)
  rewrite Hc2 in HL3.
  apply Forall2_app_inv_r in HL3 as (L3ab & CP & HL3ab & HCP & ->).
  apply Forall2_app_inv_r in HL3ab as (L & CB & HL & HCB & ->).
  destruct (labelled_kept _ _ _ _ _ HCB Hlab1' eq_refl) as [HlabB HsndB].
  destruct (labelled_kept _ _ _ _ _ HCP Hlab2 eq_refl) as [HlabP HsndP].
  exists ids, L, CB, CP, CI.
  split; [done|]. split; [done|].
  split.
  { assert (E1 : len m1 = len fe) by (unfold len at 1; by rewrite Hi1).
    assert (E2 : len m2 = len m1) by (unfold len at 1; by rewrite Hi2).
    by rewrite Hi3, E2, E1. }
  split; [done|].
  split. { by rewrite Hc3, <- !app_assoc. }
  split.
  { rewrite (Forall2_map_snd _ _ _ _ HL), (Forall2_map_snd _ _ _ _ HL2a).
    apply (Forall2_map_snd _ _ _ _ HL1). }
  repeat (split; [done|]).
  intros i k Hk. split; [|split].
  - intros Ha. apply (row_missing_snd i CB CB1); [by rewrite HsndB, Hsnd1 | eauto].
  - intros Ha. apply (row_missing_snd i CP CP2); [done | eauto].
  - intros Ha. eauto.
Qed.
(** ** The applicant frames after the ledger merges *)

Section LeftJoins.

Context (fsqrt : Q → Q).


End LeftJoins.

(** ** The frames [preprocess_data] returns *)

Lemma filter_filter_b {A} (p q : A → bool) (l : list A) :
  List.filter p (List.filter q l) = List.filter (fun x => q x && p x) l.
Proof.
  induction l as [|x l IH]; simpl; [done|].
  destruct (q x); simpl; [|done]. destruct (p x); by rewrite IH.
Qed.

Lemma mem_filter (q : string → bool) (l : list string) (c : string) :
  mem c (List.filter q l) = q c && mem c l.
Proof.
  apply eq_true_iff_eq. rewrite andb_true_iff, !mem_true, filter_elem_of. tauto.
Qed.

Lemma mem_singleton (c d : string) : mem c [d] = String.eqb c d.
Proof. unfold mem. simpl. by rewrite orb_false_r. Qed.

Lemma elem_columns_names (df : DataFrame) (c : string * Series) :
  c ∈ columns df → fst c ∈ names df.
Proof. intros H. apply list_elem_of_fmap. by exists c. Qed.

Lemma assoc_of_elem (df : DataFrame) (c : string * Series) :
  NoDup (names df) → c ∈ columns df → assoc (fst c) (columns df) = Some (snd c).
Proof. intros Hnd Hc. apply assoc_NoDup_elem; [done|]. by destruct c. Qed.

Section Schema.
Context (repr_float : Q → string).

(** The first half of [preprocess_data]: which labels are left, in which
    order, and what is set aside. *)
Lemma aligned_frames_names train test target tr te y i1 i2 :
  aligned_frames repr_float train test target = Ok (tr, te, y, i1, i2) →
  wf train = true →
  names tr =
    List.filter (fun c => negb (String.eqb c target) && negb (String.eqb c "SK_ID_CURR") &&
                          mem c (names test))
                (names train) ∧
  getitem train target = Ok y ∧
  getitem train "SK_ID_CURR" = Ok i1 ∧
  getitem test "SK_ID_CURR" = Ok i2.
Proof.
  unfold aligned_frames. intros H Hwf.
  apply bindR_Ok in H as (y' & Hy & H).
  apply bindR_Ok in H as (tr0 & Hdrop0 & H).
  apply bindR_Ok in H as (i1' & Hi1 & H).
  apply bindR_Ok in H as (i2' & Hi2 & H).
  apply bindR_Ok in H as ([tr1 te1] & Hloop & H).
  apply bindR_Ok in H as (tr2 & Hdrop1 & H).
  apply bindR_Ok in H as (te2 & Hdrop2 & H).
  destruct (align_inner tr2 te2) as [tr3 te3] eqn:Halign.
  injection H as <- <- <- <- <-.
  pose proof (NoDup_names_wf _ Hwf) as Hnd.
  assert (Hcats : NoDup (select_dtypes_object tr0)).
  { unfold select_dtypes_object. apply NoDup_map_fst_filter.
    fold (names tr0). rewrite (drop_names _ _ _ Hdrop0). by apply NoDup_filter_b. }
  apply encode_loop_spec in Hloop as (_ & _ & Hn1 & Hn1' & _ & _); [|done].
  apply align_inner_spec in Halign as (Hn3 & _).
  split; [|split; [done|split; [|done]]].
  - rewrite Hn3, (drop_names _ _ _ Hdrop1), (drop_names _ _ _ Hdrop2), Hn1, Hn1'.
    rewrite (drop_names _ _ _ Hdrop0), !filter_filter_b.
    apply filter_ext. intros c. rewrite mem_filter, !mem_singleton.
    destruct (String.eqb c target), (String.eqb c "SK_ID_CURR"); reflexivity.
  - apply getitem_Ok in Hi1. rewrite (drop_assoc _ _ _ _ Hdrop0) in Hi1.
    apply getitem_Ok. by destruct (mem "SK_ID_CURR" [target]).
Qed.

(** The columns of the aligned training frame are numeric, as long as the
    frame, and so are those of the aligned test frame next to a categorical
    training column. *)
Lemma aligned_frames_wf train test target tr te y i1 i2 :
  aligned_frames repr_float train test target = Ok (tr, te, y, i1, i2) →
  wf train = true → wf test = true →
  wf tr = true ∧ wf te = true ∧
  ∀ c, c ∈ names tr → ∃ xs, assoc c (columns tr) = Some (Float64 xs).
Proof.
  intros Hal Hwf Hwft.
  destruct (aligned_frames_spec _ _ _ _ _ _ _ _ _ Hal Hwf)
    as (Hnd & Hnames & Hidx & Hidx' & Hin & Hcols).
  assert (Hcol : ∀ c, c ∈ names tr →
            ∃ xs b', assoc c (columns tr) = Some (Float64 xs) ∧
                     assoc c (columns te) = Some b' ∧
                     length xs = len train ∧ series_len b' = len test).
  { intros c Hc. destruct (Hcols c Hc) as (a & b & a' & b' & Ha & Hb & Ha' & Hb' & Hcol).
    pose proof (wf_series_len _ _ _ Hwf Ha) as La.
    pose proof (wf_series_len _ _ _ Hwft Hb) as Lb.
    destruct a as [xs|cs]; simpl in Hcol.
    - destruct Hcol as [-> ->]. by exists xs, b.
    - destruct Hcol as (codes & Hcodes & -> & ->).
      apply fit_transform_spec, Forall2_length in Hcodes.
      rewrite length_map, length_app, length_cells in Hcodes. simpl in La.
      eexists _, _. split; [done|]. split; [done|]. simpl.
      rewrite !length_map, length_take, length_skipn. lia. }
  split; [|split].
  - apply wf_intro; [done|]. intros c Hc.
    pose proof (assoc_of_elem _ _ Hnd Hc) as Ha.
    destruct (Hcol (fst c) (elem_columns_names _ _ Hc)) as (xs & b' & Hxs & _ & Hl & _).
    rewrite Ha in Hxs. injection Hxs as ->. simpl. unfold len. by rewrite Hidx.
  - assert (Hnd' : NoDup (names te)) by (by rewrite Hnames).
    apply wf_intro; [done|]. intros c Hc.
    pose proof (assoc_of_elem _ _ Hnd' Hc) as Ha.
    pose proof (elem_columns_names _ _ Hc) as Hn. rewrite Hnames in Hn.
    destruct (Hcol (fst c) Hn) as (xs & b' & _ & Hb' & _ & Hl).
    rewrite Ha in Hb'. injection Hb' as ->. unfold len. by rewrite Hidx'.
  - intros c Hc. destruct (Hcol c Hc) as (xs & _ & Hxs & _). eauto.
Qed.

Lemma length_reconcile_train xs : length (reconcile_train xs) = length xs.
Proof.
  unfold reconcile_train. rewrite !length_map.
  destruct (0 <? count_nan xs)%nat; [apply length_map | done].
Qed.

Lemma series_len_reconcile_test xs S :
  series_len (reconcile_test xs S) = series_len S.
Proof.
  unfold reconcile_test. rewrite series_len_fillna, series_len_replace_inf.
  destruct (0 <? count_nan xs)%nat; [apply series_len_fillna | done].
Qed.

(** A feature is a column of both inputs, and neither the target nor the
    identifier. *)
Lemma feature_is_shared train test target X_train X_test y i1 i2 c :
  preprocess_data repr_float train test target = Ok (X_train, X_test, y, i1, i2) →
  wf train = true →
  c ∈ names X_train →
  c ≠ target ∧ c ≠ "SK_ID_CURR" ∧ c ∈ names train ∧ c ∈ names test.
Proof.
  intros Hrun Hwf Hc.
  apply preprocess_data_Ok in Hrun as (tr & te & Hal & Hfin).
  destruct (aligned_frames_spec _ _ _ _ _ _ _ _ _ Hal Hwf)
    as (Hnd & Hnames & _ & _ & Hin & _).
  destruct (finalize_frames_spec _ _ _ _ Hfin Hnd Hnames) as (_ & _ & HnX & _).
  rewrite HnX in Hc. apply filter_elem_of in Hc as [Hc _]. by apply Hin.
Qed.

(** The feature frames have the rows of the frames that were passed, in
    their order, and every column is as long as its frame; the labels and
    the two identifier columns are returned as they were read. *)
Theorem preprocess_data_rows train test target X_train X_test y i1 i2 :
  preprocess_data repr_float train test target = Ok (X_train, X_test, y, i1, i2) →
  wf train = true →
  wf test = true →
  index X_train = index train ∧
  index X_test = index test ∧
  wf X_train = true ∧
  wf X_test = true ∧
  getitem train target = Ok y ∧
  getitem train "SK_ID_CURR" = Ok i1 ∧
  getitem test "SK_ID_CURR" = Ok i2.
Proof.
  intros Hrun Hwf Hwft.
  apply preprocess_data_Ok in Hrun as (tr & te & Hal & Hfin).
  destruct (aligned_frames_names _ _ _ _ _ _ _ _ Hal Hwf) as (_ & Hy & Hi1 & Hi2).
  destruct (aligned_frames_wf _ _ _ _ _ _ _ _ Hal Hwf Hwft) as (Hwtr & Hwte & _).
  destruct (aligned_frames_spec _ _ _ _ _ _ _ _ _ Hal Hwf)
    as (Hnd & Hnames & Hidx & Hidx' & _).
  destruct (finalize_frames_spec _ _ _ _ Hfin Hnd Hnames)
    as (HiX & HiXt & HnX & HnXt & Hcols).
  assert (HndX : NoDup (names X_train)) by (rewrite HnX; by apply NoDup_filter_b).
  split; [by rewrite HiX|]. split; [by rewrite HiXt|].
  split; [|split; [|done]].
  - apply wf_intro; [done|]. intros c Hc.
    destruct (Hcols _ (elem_columns_names _ _ Hc)) as (xs & S & Hxs & _ & HX & _).
    rewrite (assoc_of_elem _ _ HndX Hc) in HX. injection HX as ->. simpl.
    rewrite length_reconcile_train. unfold len. rewrite HiX.
    apply (wf_series_len tr (fst c) (Float64 xs) Hwtr Hxs).
  - assert (HndXt : NoDup (names X_test)) by (by rewrite HnXt).
    apply wf_intro; [done|]. intros c Hc.
    pose proof (elem_columns_names _ _ Hc) as Hn. rewrite HnXt in Hn.
    destruct (Hcols _ Hn) as (xs & S & _ & HS & _ & HXt).
    rewrite (assoc_of_elem _ _ HndXt Hc) in HXt. injection HXt as ->.
    rewrite series_len_reconcile_test. unfold len. rewrite HiXt.
    apply (wf_series_len te (fst c) S Hwte HS).
Qed.

(** The features are the training columns, in their order, that are neither
    the target nor the identifier, that the test frame has too, and whose
    missing values do not exceed the threshold; both frames carry the same
    labels.  The target and the identifier are never among them. *)
Theorem preprocess_data_features train test target X_train X_test y i1 i2 :
  preprocess_data repr_float train test target = Ok (X_train, X_test, y, i1, i2) →
  wf train = true →
  names X_train = List.filter (is_feature train test target) (names train) ∧
  names X_test = names X_train ∧
  (target ∉ names X_train) ∧
  ("SK_ID_CURR" ∉ names X_train).
Proof.
  intros Hrun Hwf.
  apply preprocess_data_Ok in Hrun as (tr & te & Hal & Hfin).
  destruct (aligned_frames_names _ _ _ _ _ _ _ _ Hal Hwf) as (Hntr & _).
  destruct (aligned_frames_spec _ _ _ _ _ _ _ _ _ Hal Hwf)
    as (Hnd & Hnames & Hidx & _ & Hin & Hcols).
  destruct (finalize_frames_spec _ _ _ _ Hfin Hnd Hnames)
    as (_ & _ & HnX & HnXt & _).
  assert (Hfeat : names X_train = List.filter (is_feature train test target) (names train)).
  { rewrite HnX, Hntr, filter_filter_b. apply filter_ext_in. intros c Hc.
    unfold is_feature.
    destruct (negb (c =? target)%string && negb (c =? "SK_ID_CURR")%string &&
              mem c (names test)) eqn:Hsh; [|done].
    simpl.
    assert (Hctr : c ∈ names tr).
    { rewrite Hntr, filter_elem_of. split; [by apply list_elem_of_In | done]. }
    destruct (Hcols c Hctr) as (a & b & a' & b' & Ha & Hb & Ha' & Hb' & Hcol).
    rewrite Ha.
    assert (Hlen : len tr = len train) by (unfold len; by rewrite Hidx).
    assert (Hcount : count_null a' = missing_count a).
    { destruct a as [xs|cs]; simpl in Hcol.
      - destruct Hcol as [-> _]. apply count_null_Float64.
      - destruct Hcol as (codes & _ & -> & _). rewrite count_null_Float64.
        apply count_nan_zero, Forall_fmap. by apply Forall_true. }
    f_equal. apply eq_true_iff_eq. rewrite mem_true, high_missing_cols_elem by done.
    rewrite <- Hcount, <- Hlen. split.
    - intros (s & Hs & He). rewrite Ha' in Hs. by injection Hs as <-.
    - intros He. eauto. }
  split; [done|]. split; [done|].
  rewrite Hfeat. unfold is_feature. split.
  - rewrite filter_elem_of, String.eqb_refl. by intros [_ ?].
  - rewrite filter_elem_of, String.eqb_refl, andb_false_r. by intros [_ ?].
Qed.

End Schema.

Lemma preprocess_data_rows_witness :
  len Toy.X_train20 = 20%nat ∧ len Toy.X_test4 = 4%nat ∧
  wf Toy.X_train20 = true ∧ wf Toy.X_test4 = true ∧
  getitem Toy.train20 "TARGET" = Ok Toy.y_train20.
Proof.
  destruct (preprocess_data_rows Toy.repr_stub Toy.train20 Toy.test4 "TARGET"
              Toy.X_train20 Toy.X_test4 Toy.y_train20 Toy.train_ids20 Toy.test_ids4
              reconciled20_eq eq_refl eq_refl)
    as (H1 & H2 & H3 & H4 & H5 & _).
  unfold len. rewrite H1, H2. repeat split; assumption.
Defined.

Lemma preprocess_data_features_witness :
  names Toy.X_train20 = ["OCCUPATION"; "GAP65"] ∧
  names Toy.X_test4 = ["OCCUPATION"; "GAP65"].
Proof.
  destruct (preprocess_data_features Toy.repr_stub Toy.train20 Toy.test4 "TARGET"
              Toy.X_train20 Toy.X_test4 Toy.y_train20 Toy.train_ids20 Toy.test_ids4
              reconciled20_eq eq_refl)
    as (H1 & H2 & _).
  rewrite H2, H1. split; vm_compute; reflexivity.
Defined.
(** ** What reconciliation does to the cells of a retained column *)

Lemma fill_finite v q : fill v (Fin q) = Fin q.
Proof. reflexivity. Qed.

Lemma inf_to_nan_noinf x : isinf (inf_to_nan x) = false.
Proof. by destruct x. Qed.

(** A finite training value is never altered. *)
Lemma reconcile_train_lookup_finite xs i q :
  xs !! i = Some (Fin q) → reconcile_train xs !! i = Some (Fin q).
Proof.
  intros H. unfold reconcile_train. rewrite !list_lookup_fmap.
  destruct (0 <? count_nan xs)%nat; [rewrite list_lookup_fmap|]; by rewrite H.
Qed.

(** Neither is a finite test value, nor a string in a test column. *)
Lemma reconcile_test_lookup xs S j v :
  cells S !! j = Some v →
  (∃ q, v = Num (Fin q)) ∨ (∃ t, v = Str t) →
  cells (reconcile_test xs S) !! j = Some v.
Proof.
  intros H Hv. unfold reconcile_test.
  rewrite cells_fillna, cells_replace_inf, !list_lookup_fmap.
  destruct (0 <? count_nan xs)%nat;
    [rewrite cells_fillna, list_lookup_fmap|]; rewrite H;
    by destruct Hv as [[q ->]|[t ->]].
Qed.

Lemma finite_of_notnan_noinf x :
  isnan x = false → isinf x = false → isfinite x = true.
Proof. by destruct x. Qed.

Lemma fill_inf_to_nan_finite m x :
  isfinite m = true → isfinite (fill m (inf_to_nan x)) = true.
Proof. intros Hm. destruct x; simpl; done. Qed.

(** With one finite value in the training column, the median that fills the
    cleaned column is finite, and so is every cell of the result. *)
Lemma reconcile_train_all_finite xs :
  Exists (fun x => isfinite x = true) xs →
  Forall (fun x => isfinite x = true) (reconcile_train xs).
Proof.
  intros Hex. unfold reconcile_train.
  set (xs1 := if (0 <? count_nan xs)%nat then map (fill (median xs)) xs else xs).
  set (xs2 := map inf_to_nan xs1).
  assert (Hfin : isfinite (median xs2) = true).
  { apply median_finite.
    - apply Forall_fmap, Forall_true. intros x. apply inf_to_nan_noinf.
    - apply Exists_exists in Hex as (x & Hx & Hf).
      destruct x as [| | |q]; try done.
      assert (Hin : Fin q ∈ dropna xs2).
      { unfold dropna. apply list_elem_of_In, filter_In. split; [|done].
        apply list_elem_of_In. unfold xs2.
        change (Fin q) with (inf_to_nan (Fin q)). apply list_elem_of_fmap_2.
        unfold xs1. destruct (0 <? count_nan xs)%nat; [|done].
        change (Fin q) with (fill (median xs) (Fin q)). by apply list_elem_of_fmap_2. }
      intros E. rewrite E in Hin. by apply elem_of_nil in Hin. }
  unfold xs2. rewrite map_map. apply Forall_fmap, Forall_true.
  intros x. by apply fill_inf_to_nan_finite.
Qed.

Lemma reconcile_test_all_finite xs ys :
  Exists (fun x => isfinite x = true) xs →
  ∃ zs, reconcile_test xs (Float64 ys) = Float64 zs ∧
        Forall (fun x => isfinite x = true) zs.
Proof.
  intros Hex. pose proof (reconcile_train_all_finite xs Hex) as Htr.
  assert (Hfin : isfinite (median (reconcile_train xs)) = true).
  { apply median_finite.
    - eapply Forall_impl; [exact Htr|]. by intros [| | |q].
    - apply Exists_exists in Hex as (x & Hx & Hf).
      apply list_elem_of_lookup_1 in Hx as [i Hi].
      destruct x as [| | |q]; try done.
      apply reconcile_train_lookup_finite in Hi.
      assert (Hin : Fin q ∈ dropna (reconcile_train xs)).
      { unfold dropna. apply list_elem_of_In, filter_In. split; [|done].
        apply list_elem_of_In. by eapply list_elem_of_lookup_2. }
      intros E. rewrite E in Hin. by apply elem_of_nil in Hin. }
  unfold reconcile_test.
  destruct (0 <? count_nan xs)%nat; simpl; eexists; (split; [reflexivity|]);
    rewrite ?map_map; apply Forall_fmap, Forall_true; intros x;
    by apply fill_inf_to_nan_finite.
Qed.

Section Values.
Context (repr_float : Q → string).

(** A retained column is in both outputs, reconciled. *)
Lemma retained_column train test target X_train X_test y i1 i2 c xs S :
  preprocess_data repr_float train test target = Ok (X_train, X_test, y, i1, i2) →
  wf train = true →
  getitem train c = Ok (Float64 xs) →
  getitem test c = Ok S →
  c ∈ names X_train →
  getitem X_train c = Ok (Float64 (reconcile_train xs)) ∧
  getitem X_test c = Ok (reconcile_test xs S).
Proof.
  intros Hrun Hwf Ha%getitem_Ok Hb%getitem_Ok Hc.
  destruct (feature_is_shared _ _ _ _ _ _ _ _ _ _ Hrun Hwf Hc) as (Hct & Hcs & _).
  destruct (preprocess_data_column _ _ _ _ _ _ _ _ _ _ _ _ Hrun Hwf Ha Hb Hct Hcs)
    as (xs' & b' & Hcol & Hdrop & Hkeep).
  simpl in Hcol. destruct Hcol as [[= ->] ->].
  destruct (exceeds_threshold (count_nan xs) (len train)) eqn:He.
  - by destruct Hdrop.
  - destruct Hkeep as [HX HXt]; [done|]. split; by apply getitem_Ok.
Qed.

(** Reconciliation never alters a value that is there: a finite number of
    the training column or of the test column is returned as it was, and a
    string of a test column whose training column is numeric stays a
    string. *)
Theorem preprocess_data_keeps_values train test target X_train X_test y i1 i2 c xs S :
  preprocess_data repr_float train test target = Ok (X_train, X_test, y, i1, i2) →
  wf train = true →
  getitem train c = Ok (Float64 xs) →
  getitem test c = Ok S →
  c ∈ names X_train →
  ∃ X_c Xt_c,
    getitem X_train c = Ok (Float64 X_c) ∧
    getitem X_test c = Ok Xt_c ∧
    (∀ i q, xs !! i = Some (Fin q) → X_c !! i = Some (Fin q)) ∧
    (∀ j q, cells S !! j = Some (Num (Fin q)) → cells Xt_c !! j = Some (Num (Fin q))) ∧
    (∀ j t, cells S !! j = Some (Str t) → cells Xt_c !! j = Some (Str t)).
Proof.
  intros Hrun Hwf Ha Hb Hc.
  destruct (retained_column _ _ _ _ _ _ _ _ _ _ _ Hrun Hwf Ha Hb Hc) as [HX HXt].
  exists (reconcile_train xs), (reconcile_test xs S).
  split; [done|]. split; [done|]. split; [|split].
  - intros i q. apply reconcile_train_lookup_finite.
  - intros j q Hj. apply reconcile_test_lookup; [done | left; eauto].
  - intros j t Hj. apply reconcile_test_lookup; [done | right; eauto].
Qed.


End Values.

Lemma preprocess_data_keeps_values_witness :
  ∃ X_c Xt_c,
    getitem Toy.X_train20 "GAP65" = Ok (Float64 X_c) ∧
    getitem Toy.X_test4 "GAP65" = Ok (Float64 Xt_c) ∧
    X_c !! 13%nat = Some (Fin 1) ∧ Xt_c !! 1%nat = Some (Fin 9).
Proof.
  destruct (preprocess_data_keeps_values Toy.repr_stub Toy.train20 Toy.test4 "TARGET"
              Toy.X_train20 Toy.X_test4 Toy.y_train20 Toy.train_ids20 Toy.test_ids4
              "GAP65"
              (replicate 13 NaN ++ [Fin 1; Fin 2; Fin 3; Fin 4; Fin 5; Fin 6; Fin 7])
              (Float64 [NaN; Fin 9; NaN; Fin 2])
              reconciled20_eq eq_refl eq_refl eq_refl)
    as (X_c & Xt_c & HX & HXt & Htr & Hte & _).
  { vm_compute. apply list_elem_of_In. simpl. tauto. }
  destruct Xt_c as [zs|cs]; [|vm_compute in HXt; discriminate].
  exists X_c, zs. split; [exact HX|]. split; [exact HXt|]. split.
  - apply (Htr 13%nat 1%Q). reflexivity.
  - specialize (Hte 1%nat 9%Q eq_refl). simpl in Hte.
    rewrite list_lookup_fmap in Hte.
    destruct (zs !! 1%nat) as [z|]; simpl in Hte; [|discriminate].
    by injection Hte as ->.
Defined.

(** ** When [preprocess_data] returns, and what it raises otherwise *)

Lemma getitem_in df c : c ∈ names df → ∃ s, getitem df c = Ok s.
Proof.
  intros [s Hs]%assoc_is_Some. exists s. by apply getitem_Ok.
Qed.

Lemma getitem_notin df c : c ∉ names df → getitem df c = Raise (KeyError c).
Proof. intros H%assoc_None. unfold getitem. by rewrite H. Qed.

Lemma getitem_names df c s : getitem df c = Ok s → c ∈ names df.
Proof. intros H%getitem_Ok. apply assoc_is_Some. eauto. Qed.

Lemma drop_total df cs :
  (∀ c, c ∈ cs → c ∈ names df) → ∃ df', drop df cs = Ok df'.
Proof.
  intros H. unfold drop.
  destruct (List.find _ cs) as [c|] eqn:Hfind; [|eauto].
  apply find_some in Hfind as [Hin Hc]. exfalso.
  apply negb_true_iff, mem_false in Hc. apply Hc, H. by apply list_elem_of_In.
Qed.

Lemma drop_missing df c :
  c ∉ names df → drop df [c] = Raise (KeyError c).
Proof.
  intros H%mem_false. unfold drop. simpl. by rewrite H.
Qed.

Lemma names_setitem_in df c s : c ∈ names df → names (setitem df c s) = names df.
Proof. intros H. unfold names, setitem. simpl. by apply set_assoc_names_in. Qed.

(** The categorical columns of the frame without the target. *)
Lemma select_dtypes_object_drop df target df' :
  drop df [target] = Ok df' →
  select_dtypes_object df' =
    List.filter (fun c => negb (String.eqb c target)) (select_dtypes_object df).
Proof.
  intros (_ & Hc & _)%drop_Ok. unfold select_dtypes_object. rewrite Hc.
  rewrite <- (map_fst_filter_key (fun c => negb (String.eqb c target))).
  rewrite !filter_filter_b. f_equal. apply filter_ext. intros [k s]. simpl.
  rewrite orb_false_r. apply andb_comm.
Qed.

Lemma select_dtypes_object_names df c :
  c ∈ select_dtypes_object df → c ∈ names df.
Proof.
  unfold select_dtypes_object, names.
  intros ([k s] & -> & Hin%list_elem_of_In%filter_In)%list_elem_of_fmap.
  apply list_elem_of_fmap. exists (k, s). split; [done|].
  apply list_elem_of_In. tauto.
Qed.

Section Total.
Context (repr_float : Q → string).

(** The encoding loop goes through when both frames have every column of
    the list. *)
Lemma encode_loop_total (cats : list string) :
  ∀ tr te,
    (∀ c, c ∈ cats → c ∈ names tr ∧ c ∈ names te) →
    ∃ out, foldR (encode_column repr_float) (tr, te) cats = Ok out.
Proof.
  induction cats as [|c cats IH]; intros tr te H; simpl; [eauto|].
  destruct (H c) as [Hc Hc']; [left|].
  destruct (getitem_in _ _ Hc) as [a Ha]. destruct (getitem_in _ _ Hc') as [b Hb].
  unfold encode_column at 1. rewrite Ha, Hb. cbn [mbind result_bind].
  destruct (fit_transform_total (map (astype_str repr_float) (cells a ++ cells b)))
    as [codes ->]. cbn [mbind result_bind].
  apply IH. intros d Hd. rewrite !names_setitem_in by done. apply H. by right.
Qed.

Lemma encode_loop_names (cats : list string) :
  ∀ tr te tr1 te1,
    foldR (encode_column repr_float) (tr, te) cats = Ok (tr1, te1) →
    names tr1 = names tr ∧ names te1 = names te.
Proof.
  induction cats as [|c cats IH]; intros tr te tr1 te1 Hloop.
  - simpl in Hloop. by injection Hloop as <- <-.
  - simpl in Hloop. apply bindR_Ok in Hloop as ([tr' te'] & Hstep & Hloop).
    apply encode_column_Ok in Hstep as (a & b & codes & Ha & Hb & _ & -> & ->).
    apply IH in Hloop as [-> ->].
    rewrite !names_setitem_in; [done | |]; apply assoc_is_Some; eauto.
Qed.

(** It stops at the first column the test frame lacks, with a [KeyError]
    for that column. *)
Lemma encode_loop_key_error (cats : list string) :
  ∀ tr te c,
    (∀ d, d ∈ cats → d ∈ names tr) →
    List.find (fun d => negb (mem d (names te))) cats = Some c →
    foldR (encode_column repr_float) (tr, te) cats = Raise (KeyError c).
Proof.
  induction cats as [|d cats IH]; intros tr te c H Hfind; simpl in *; [done|].
  destruct (getitem_in tr d) as [a Ha]; [apply H; left|].
  unfold encode_column at 1. rewrite Ha. cbn [mbind result_bind].
  destruct (mem d (names te)) eqn:Hd; simpl in Hfind.
  - apply mem_true in Hd. destruct (getitem_in _ _ Hd) as [b Hb].
    rewrite Hb. cbn [mbind result_bind].
    destruct (fit_transform_total (map (astype_str repr_float) (cells a ++ cells b)))
      as [codes ->]. cbn [mbind result_bind].
    apply IH.
    + intros e He. rewrite names_setitem_in by (apply H; left). apply H. by right.
    + by rewrite names_setitem_in.
  - injection Hfind as <-. apply mem_false in Hd.
    by rewrite (getitem_notin _ _ Hd).
Qed.

End Total.

(** Every column of the frame is numeric. *)
Lemma all_numeric_setitem df c xs :
  (∀ d, d ∈ names df → ∃ ys, assoc d (columns df) = Some (Float64 ys)) →
  ∀ d, d ∈ names (setitem df c (Float64 xs)) →
       ∃ ys, assoc d (columns (setitem df c (Float64 xs))) = Some (Float64 ys).
Proof.
  intros H d Hd. simpl. destruct (decide (c = d)) as [->|Hne].
  - rewrite assoc_set_assoc_eq. eauto.
  - rewrite assoc_set_assoc_ne by done. apply H.
    unfold names, setitem in Hd. simpl in Hd.
    apply set_assoc_names_elem in Hd as [->|Hd]; done.
Qed.

Lemma impute_loop_total (cs : list string) :
  ∀ tr te,
    (∀ c, c ∈ cs → c ∈ names tr ∧ c ∈ names te) →
    (∀ d, d ∈ names tr → ∃ ys, assoc d (columns tr) = Some (Float64 ys)) →
    ∃ tr' te', foldR impute_column (tr, te) cs = Ok (tr', te') ∧
      (∀ d, d ∈ names tr' → ∃ ys, assoc d (columns tr') = Some (Float64 ys)).
Proof.
  induction cs as [|c cs IH]; intros tr te H Hnum; simpl; [eauto|].
  destruct (H c) as [Hc Hc']; [left|].
  destruct (Hnum c Hc) as [xs Hxs]. destruct (getitem_in _ _ Hc') as [b Hb].
  unfold impute_column at 1. apply getitem_Ok in Hxs as Hg. rewrite Hg.
  cbn [mbind result_bind].
  destruct (0 <? count_null (Float64 xs))%nat.
  - simpl. rewrite Hb. cbn [mbind result_bind]. apply IH.
    + intros d Hd. rewrite !names_setitem_in by done. apply H. by right.
    + by apply all_numeric_setitem.
  - apply IH; [|done]. intros d Hd. apply H. by right.
Qed.

Lemma df_median_total df :
  (∀ c, c ∈ columns df → ∃ ys, snd c = Float64 ys) →
  ∃ m, df_median df = Ok m.
Proof.
  unfold df_median. induction (columns df) as [|[k s] l IH]; intros H; simpl; [eauto|].
  destruct (H (k, s)) as [ys Hys]; [left|]. simpl in Hys. subst s. simpl.
  destruct IH as [m ->]; [intros c Hc; apply H; by right|]. simpl. eauto.
Qed.

(** The second half goes through on aligned numeric frames. *)
Lemma finalize_frames_total tr te :
  NoDup (names tr) →
  names te = names tr →
  (∀ d, d ∈ names tr → ∃ ys, assoc d (columns tr) = Some (Float64 ys)) →
  ∃ out, finalize_frames tr te = Ok out.
Proof.
  intros Hnd Hnames Hnum. unfold finalize_frames.
  set (hm := high_missing_cols tr).
  assert (Hhm : ∀ c, c ∈ hm → c ∈ names tr).
  { intros c (s & Hs & _)%high_missing_cols_elem; [|done]. apply assoc_is_Some. eauto. }
  assert (Hdrop : ∃ tr1 te1,
            (if (0 <? length hm)%nat
             then tr1 ← drop tr hm; te1 ← drop te hm; Ok (tr1, te1)
             else Ok (tr, te)) = Ok (tr1, te1)).
  { destruct (0 <? length hm)%nat; [|eauto].
    destruct (drop_total tr hm Hhm) as [tr1 ->].
    destruct (drop_total te hm) as [te1 ->]; [by rewrite Hnames|]. simpl. eauto. }
  destruct Hdrop as (tr1 & te1 & Hdrop). rewrite Hdrop. cbn [mbind result_bind].
  apply drop_high_missing in Hdrop as (_ & _ & Hc1 & Hc1').
  assert (Hn1 : names tr1 = List.filter (fun c => negb (mem c hm)) (names tr)).
  { unfold names. rewrite Hc1. apply (map_fst_filter_key (fun k => negb (mem k hm))). }
  assert (Hn1' : names te1 = names tr1).
  { rewrite Hn1. unfold names at 1. rewrite Hc1'.
    rewrite (map_fst_filter_key (fun k => negb (mem k hm))). by rewrite <- Hnames. }
  assert (Hnum1 : ∀ d, d ∈ names tr1 → ∃ ys, assoc d (columns tr1) = Some (Float64 ys)).
  { intros d Hd. rewrite Hn1 in Hd. apply filter_elem_of in Hd as [Hd Hk].
    rewrite Hc1, (assoc_filter_key (fun k => negb (mem k hm))), Hk. by apply Hnum. }
  destruct (impute_loop_total (names tr1) tr1 te1) as (tr2 & te2 & Hloop & Hnum2);
    [by intros c Hc; rewrite Hn1' | done |].
  rewrite Hloop. cbn [mbind result_bind].
  assert (Hcols2 : ∀ c, c ∈ columns tr2 → ∃ ys, snd c = Float64 ys).
  { intros [k s] Hc. simpl.
    assert (Hk : k ∈ names tr2) by (apply list_elem_of_fmap; by exists (k, s)).
    apply impute_loop_spec in Hloop as (_ & _ & Hn2 & _);
      [|rewrite Hn1; by apply NoDup_filter_b].
    destruct (Hnum2 k Hk) as [ys Hys].
    rewrite (assoc_NoDup_elem k s (columns tr2)) in Hys;
      [injection Hys as ->; eauto | | done].
    fold (names tr2). rewrite Hn2, Hn1. by apply NoDup_filter_b. }
  destruct (df_median_total (df_replace_inf tr2)) as [m1 ->].
  { intros c Hc. unfold df_replace_inf in Hc. simpl in Hc.
    apply list_elem_of_fmap in Hc as (c0 & -> & Hc0). simpl.
    destruct (Hcols2 c0 Hc0) as [ys ->]. simpl. eauto. }
  cbn [mbind result_bind].
  destruct (df_median_total (df_fillna (df_replace_inf tr2) m1)) as [m2 ->]; [|simpl; eauto].
  intros c Hc. unfold df_fillna, df_replace_inf in Hc. simpl in Hc.
  rewrite map_map in Hc.
  apply list_elem_of_fmap in Hc as (c0 & -> & Hc0). simpl.
  destruct (Hcols2 c0 Hc0) as [ys ->]. simpl.
  destruct (assoc (fst c0) m1); simpl; eauto.
Qed.

Section Returns.
Context (repr_float : Q → string).

Lemma aligned_frames_total train test target :
  target ∈ names train →
  target ≠ "SK_ID_CURR" →
  "SK_ID_CURR" ∈ names train →
  "SK_ID_CURR" ∈ names test →
  (∀ c, c ∈ select_dtypes_object train → c ≠ target → c ∈ names test) →
  ∃ out, aligned_frames repr_float train test target = Ok out.
Proof.
  intros Ht Hne Hid Hid' Hcat. unfold aligned_frames.
  destruct (getitem_in _ _ Ht) as [y ->]. cbn [mbind result_bind].
  destruct (drop_total train [target]) as [tr0 Hdrop].
  { by intros c ->%list_elem_of_singleton. }
  rewrite Hdrop. cbn [mbind result_bind].
  pose proof (drop_names _ _ _ Hdrop) as Hn0.
  assert (Hid0 : "SK_ID_CURR" ∈ names tr0).
  { rewrite Hn0, filter_elem_of, mem_singleton. split; [done|].
    apply negb_true_iff, String.eqb_neq. congruence. }
  destruct (getitem_in _ _ Hid0) as [i1 ->]. cbn [mbind result_bind].
  destruct (getitem_in _ _ Hid') as [i2 ->]. cbn [mbind result_bind].
  destruct (encode_loop_total repr_float (select_dtypes_object tr0) tr0 test)
    as [[tr1 te1] Hloop].
  { intros c Hc. split; [by apply select_dtypes_object_names|].
    rewrite (select_dtypes_object_drop _ _ _ Hdrop) in Hc.
    apply filter_elem_of in Hc as [Hc Hct].
    apply Hcat; [done|]. by apply negb_true_iff, String.eqb_neq in Hct. }
  rewrite Hloop. cbn [mbind result_bind].
  pose proof (encode_loop_names repr_float _ _ _ _ _ Hloop) as Hnames.
  destruct Hnames as [Hn1 Hn1'].
  destruct (drop_total tr1 ["SK_ID_CURR"]) as [tr2 ->].
  { intros c ->%list_elem_of_singleton. by rewrite Hn1. }
  cbn [mbind result_bind].
  destruct (drop_total te1 ["SK_ID_CURR"]) as [te2 ->].
  { intros c ->%list_elem_of_singleton. by rewrite Hn1'. }
  cbn [mbind result_bind]. destruct (align_inner tr2 te2). eauto.
Qed.

(** [preprocess_data] returns exactly when the training frame has the
    target and the identifier (two different columns), the test frame has
    the identifier, and the test frame has every categorical training
    column other than the target. *)
Theorem preprocess_data_returns train test target :
  wf train = true →
  (∃ out, preprocess_data repr_float train test target = Ok out) ↔
  target ∈ names train ∧
  target ≠ "SK_ID_CURR" ∧
  "SK_ID_CURR" ∈ names train ∧
  "SK_ID_CURR" ∈ names test ∧
  (∀ c, c ∈ select_dtypes_object train → c ≠ target → c ∈ names test).
Proof.
  intros Hwf. split.
  - intros [[[[[X Xt] y] i1] i2] Hrun].
    apply preprocess_data_Ok in Hrun as (tr & te & Hal & _).
    unfold aligned_frames in Hal.
    apply bindR_Ok in Hal as (y' & Hy & H).
    apply bindR_Ok in H as (tr0 & Hdrop & H).
    apply bindR_Ok in H as (i1' & Hi1 & H).
    apply bindR_Ok in H as (i2' & Hi2 & H).
    apply bindR_Ok in H as ([tr1 te1] & Hloop & _).
    apply getitem_names in Hy, Hi1, Hi2.
    rewrite (drop_names _ _ _ Hdrop), filter_elem_of, mem_singleton in Hi1.
    destruct Hi1 as [Hid Hne%negb_true_iff%String.eqb_neq].
    split; [done|]. split; [congruence|]. split; [done|]. split; [done|].
    intros c Hc Hct.
    assert (Hcats : NoDup (select_dtypes_object tr0)).
    { unfold select_dtypes_object. apply NoDup_map_fst_filter.
      fold (names tr0). rewrite (drop_names _ _ _ Hdrop).
      apply NoDup_filter_b. by apply NoDup_names_wf. }
    apply encode_loop_spec in Hloop as (_ & _ & _ & _ & _ & Hin); [|done].
    destruct (Hin c) as (a & b & codes & _ & Hb & _).
    { rewrite (select_dtypes_object_drop _ _ _ Hdrop), filter_elem_of.
      split; [done|]. by apply negb_true_iff, String.eqb_neq. }
    apply assoc_is_Some. eauto.
  - intros (Ht & Hne & Hid & Hid' & Hcat).
    destruct (aligned_frames_total _ _ _ Ht Hne Hid Hid' Hcat)
      as [[[[[tr te] y] i1] i2] Hal].
    destruct (aligned_frames_spec _ _ _ _ _ _ _ _ _ Hal Hwf)
      as (Hnd & Hnames & _ & _ & _ & Hcols).
    destruct (finalize_frames_total tr te Hnd Hnames) as [[X Xt] Hfin].
    { intros d Hd. destruct (Hcols d Hd) as (a & b & a' & b' & _ & _ & Ha' & _ & Hcol).
      destruct a as [xs|cs]; simpl in Hcol.
      - destruct Hcol as [-> _]. eauto.
      - destruct Hcol as (codes & _ & -> & _). eauto. }
    exists (X, Xt, y, i1, i2). apply preprocess_data_Ok. eauto.
Qed.

Lemma aligned_frames_raises train test target e :
  aligned_frames repr_float train test target = Raise e →
  preprocess_data repr_float train test target = Raise e.
Proof. intros H. by rewrite preprocess_data_split, H. Qed.


End Returns.

Lemma preprocess_data_returns_witness :
  ∃ out, preprocess_data Toy.repr_stub Toy.train20 Toy.test4 "TARGET" = Ok out.
Proof.
  apply (preprocess_data_returns Toy.repr_stub Toy.train20 Toy.test4 "TARGET" eq_refl).
  split; [vm_compute; apply list_elem_of_In; simpl; tauto|].
  split; [discriminate|].
  split; [vm_compute; apply list_elem_of_In; simpl; tauto|].
  split; [vm_compute; apply list_elem_of_In; simpl; tauto|].
  intros c Hc _. vm_compute in Hc. apply list_elem_of_singleton in Hc as ->.
  vm_compute. apply list_elem_of_In. simpl. tauto.
Defined.

(** ** The engineered application features *)

Lemma getnum_setitem_eq df col s : getnum (setitem df col s) col = numeric s.
Proof. unfold getnum. by rewrite getitem_setitem_eq. Qed.

Lemma numeric_Ok s xs : numeric s = Ok xs ↔ s = Float64 xs.
Proof. destruct s; simpl; split; congruence. Qed.

Lemma names_setitem_elem df c s k :
  k ∈ names (setitem df c s) ↔ k = c ∨ k ∈ names df.
Proof. unfold names, setitem. simpl. apply set_assoc_names_elem. Qed.

(** A read of the function body, brought back to the frame that was
    passed: assignments to other columns are skipped, an assignment to the
    column itself is what is read. *)
Ltac strip_assignments H :=
  repeat first [ rewrite getnum_setitem_ne in H by discriminate
               | rewrite getitem_setitem_ne in H by discriminate ];
  try rewrite getnum_setitem_eq in H;
  try rewrite getitem_setitem_eq in H.

Ltac next_read H :=
  let x := fresh "x" in
  let Hx := fresh "R" in
  apply bindR_Ok in H as (x & Hx & H);
  cbn [mapR] in Hx;
  strip_assignments Hx.

(** Two reads of one column give one value. *)
Ltac merge_reads :=
  repeat match goal with
         | H1 : ?e = ?k ?a, H2 : ?e = ?k ?b |- _ =>
             tryif constr_eq a b then fail
             else (rewrite H1 in H2; injection H2 as <-)
         end.

Lemma isnan_fill v x : isnan v = false → isnan (fill v x) = false.
Proof. intros Hv. unfold fill. by destruct x. Qed.

Section Engineered.
Context (fsqrt : Q → Q).

(** What [engineer_application_features] has read when it returns, and the
    frame it has built from it. *)
Lemma engineer_reads (l : nat) (h h' : gmap nat DataFrame) d fe :
  engineer_application_features fsqrt l h = (Ok fe, h') →
  h !! l = Some d →
  ∃ birth employed_raw employed income fam children credit annuity goods e1 e2 e3
    docs mobil work_phone phone email region region_city,
    getnum d "DAYS_BIRTH" = Ok birth ∧
    getitem d "DAYS_EMPLOYED" = Ok employed_raw ∧
    replace_value (Fin 365243) NaN employed_raw = Float64 employed ∧
    getnum d "AMT_INCOME_TOTAL" = Ok income ∧
    getnum d "CNT_FAM_MEMBERS" = Ok fam ∧
    getnum d "CNT_CHILDREN" = Ok children ∧
    getnum d "AMT_CREDIT" = Ok credit ∧
    getnum d "AMT_ANNUITY" = Ok annuity ∧
    getnum d "AMT_GOODS_PRICE" = Ok goods ∧
    getnum d "EXT_SOURCE_1" = Ok e1 ∧
    getnum d "EXT_SOURCE_2" = Ok e2 ∧
    getnum d "EXT_SOURCE_3" = Ok e3 ∧
    getitem d "FLAG_MOBIL" = Ok mobil ∧
    getitem d "FLAG_WORK_PHONE" = Ok work_phone ∧
    getitem d "FLAG_PHONE" = Ok phone ∧
    getitem d "FLAG_EMAIL" = Ok email ∧
    getnum d "REGION_RATING_CLIENT" = Ok region ∧
    getnum d "REGION_RATING_CLIENT_W_CITY" = Ok region_city ∧
    fe = engineered_frame fsqrt d birth employed_raw employed income fam children credit
           annuity goods e1 e2 e3 docs mobil work_phone phone email region region_city.
Proof.
  intros Hrun Hl.
  unfold engineer_application_features in Hrun.
  apply bindM_Ok in Hrun as (d' & h1 & [Hd ->]%deref_Ok & Hrun).
  rewrite Hl in Hd. injection Hd as <-.
  apply liftM_Ok in Hrun as [H _].
  repeat next_read H.
  injection H as <-.
  repeat match goal with
         | R : numeric _ = Ok _ |- _ => apply numeric_Ok in R
         | R : Ok _ = Ok _ |- _ => injection R as <-
         end.
  merge_reads.
  repeat match goal with
         | R : getnum d ?c = Ok _, R' : ?lhs = Ok _ |- _ =>
             lazymatch lhs with
             | getnum _ _ => fail
             | context [getnum d c] => rewrite R in R'; cbn [mbind result_bind] in R'
             end
         | R : Ok _ = Ok _ |- _ => injection R as <-
         end.
  repeat match goal with
         | R : eq_scalar_int _ _ = Float64 _ |- _ =>
             unfold eq_scalar_int in R; injection R as <-
         end.
  match goal with R : getnum d "DAYS_BIRTH" = Ok ?v |- _ => exists v end.
  match goal with R : getitem d "DAYS_EMPLOYED" = Ok ?v |- _ => exists v end.
  match goal with R : replace_value _ _ _ = Float64 ?v |- _ => exists v end.
  match goal with R : getnum d "AMT_INCOME_TOTAL" = Ok ?v |- _ => exists v end.
  match goal with R : getnum d "CNT_FAM_MEMBERS" = Ok ?v |- _ => exists v end.
  match goal with R : getnum d "CNT_CHILDREN" = Ok ?v |- _ => exists v end.
  match goal with R : getnum d "AMT_CREDIT" = Ok ?v |- _ => exists v end.
  match goal with R : getnum d "AMT_ANNUITY" = Ok ?v |- _ => exists v end.
  match goal with R : getnum d "AMT_GOODS_PRICE" = Ok ?v |- _ => exists v end.
  match goal with R : getnum d "EXT_SOURCE_1" = Ok ?v |- _ => exists v end.
  match goal with R : getnum d "EXT_SOURCE_2" = Ok ?v |- _ => exists v end.
  match goal with R : getnum d "EXT_SOURCE_3" = Ok ?v |- _ => exists v end.
  match goal with R : mapR _ (List.filter _ _) = Ok ?v |- _ => exists v end.
  match goal with R : getitem d "FLAG_MOBIL" = Ok ?v |- _ => exists v end.
  match goal with R : getitem d "FLAG_WORK_PHONE" = Ok ?v |- _ => exists v end.
  match goal with R : getitem d "FLAG_PHONE" = Ok ?v |- _ => exists v end.
  match goal with R : getitem d "FLAG_EMAIL" = Ok ?v |- _ => exists v end.
  match goal with R : getnum d "REGION_RATING_CLIENT" = Ok ?v |- _ => exists v end.
  match goal with R : getnum d "REGION_RATING_CLIENT_W_CITY" = Ok ?v |- _ => exists v end.
  do 18 (split; [assumption|]).
  reflexivity.
Qed.

(** The frame [engineer_application_features] returns: the rows and the
    index of the frame it was passed; its columns and the engineered ones;
    and every column it does not assign as it was. *)
Theorem engineer_features_frame (l : nat) (h h' : gmap nat DataFrame) d fe :
  engineer_application_features fsqrt l h = (Ok fe, h') →
  h !! l = Some d →
  wf d = true →
  index fe = index d ∧
  wf fe = true ∧
  (∀ c, c ∈ names fe ↔ c ∈ names d ∨ c ∈ engineered_columns) ∧
  (∀ c, c ∉ "DAYS_EMPLOYED" :: engineered_columns → getitem fe c = getitem d c).
Proof.
  intros Hrun Hl Hwf.
  destruct (engineer_application_features_rows _ _ _ _ _ _ Hrun Hl Hwf)
    as (_ & Hwfe & Hidx & _).
  split; [done|]. split; [done|].
  destruct (engineer_reads _ _ _ _ _ Hrun Hl)
    as (birth & employed_raw & employed & income & fam & children & credit & annuity &
        goods & e1 & e2 & e3 & docs & mobil & work_phone & phone & email & region &
        region_city & _ & Hemp & _ & _ & _ & _ & _ & _ & _ & _ & _ & _ & _ & _ & _ & _ &
        _ & _ & ->).
  unfold engineered_frame. cbv zeta. split.
  - intros c. rewrite !names_setitem_elem. unfold engineered_columns.
    rewrite !elem_of_cons.
    assert (He : "DAYS_EMPLOYED" ∈ names d) by apply (getitem_names _ _ _ Hemp).
    pose proof (not_elem_of_nil c) as Hnil.
    split.
    + intros Hc.
      repeat match type of Hc with
             | _ = _ ∨ _ =>
                 destruct Hc as [->|Hc];
                 [first [ left; assumption
                        | right; repeat first [ left; reflexivity | right ] ]|]
             end.
      by left.
    + tauto.
  - intros c Hc. unfold engineered_columns in Hc. rewrite !not_elem_of_cons in Hc.
    rewrite !getitem_setitem_ne; [done|..]; intros <-; tauto.
Qed.

(** [DAYS_EMPLOYED] loses the sentinel 365243, which becomes a missing
    value; [EMPLOYMENT_YEARS] is the negated days over 365, and 0 where the
    days are the sentinel or missing: it has no missing value. *)
Theorem engineer_features_employment (l : nat) (h h' : gmap nat DataFrame) d fe :
  engineer_application_features fsqrt l h = (Ok fe, h') →
  h !! l = Some d →
  ∃ days years,
    getnum d "DAYS_EMPLOYED" = Ok days ∧
    getnum fe "DAYS_EMPLOYED" =
      Ok (map (fun x => if f64_eqb x (Fin 365243) then NaN else x) days) ∧
    getnum fe "EMPLOYMENT_YEARS" = Ok years ∧
    length years = length days ∧
    count_nan years = O ∧
    ∀ i x, days !! i = Some x →
           years !! i =
             Some (if f64_eqb x (Fin 365243) || isnan x then Fin 0
                   else f64_div (f64_neg x) (Fin 365)).
Proof.
  intros Hrun Hl.
  destruct (engineer_reads _ _ _ _ _ Hrun Hl)
    as (birth & employed_raw & employed & income & fam & children & credit & annuity &
        goods & e1 & e2 & e3 & docs & mobil & work_phone & phone & email & region &
        region_city & _ & Hemp & Hrep & _ & _ & _ & _ & _ & _ & _ & _ & _ & _ & _ & _ & _ &
        _ & _ & ->).
  destruct employed_raw as [days|cs]; [|done]. simpl in Hrep. injection Hrep as <-.
  exists days. eexists. split.
  { unfold getnum. by rewrite Hemp. }
  unfold engineered_frame. cbv zeta.
  split.
  { rewrite !getnum_setitem_ne by discriminate. by rewrite getnum_setitem_eq. }
  split.
  { rewrite !getnum_setitem_ne by discriminate. rewrite getnum_setitem_eq. reflexivity. }
  split; [by rewrite !length_map|].
  split.
  { apply count_nan_zero. rewrite !map_map. apply Forall_fmap, Forall_true.
    intros x. by apply isnan_fill. }
  intros i x Hi. rewrite !list_lookup_fmap, Hi. simpl. f_equal.
  destruct x as [| | |q]; simpl; try done.
  destruct (Qeq_bool q 365243); simpl; [done|].
  by destruct (Qneg_b (- q)).
Qed.

(** The contact flags are 1 where the source flag equals 1 and 0 elsewhere
    (also where it is missing), and [CONTACT_COUNT] is the number of the
    four flags that equal 1. *)
Theorem engineer_features_contact (l : nat) (h h' : gmap nat DataFrame) d fe :
  engineer_application_features fsqrt l h = (Ok fe, h') →
  h !! l = Some d →
  ∃ mobil work_phone phone email count,
    getitem d "FLAG_MOBIL" = Ok mobil ∧
    getitem d "FLAG_WORK_PHONE" = Ok work_phone ∧
    getitem d "FLAG_PHONE" = Ok phone ∧
    getitem d "FLAG_EMAIL" = Ok email ∧
    getnum fe "HAS_MOBILE" =
      Ok (map (fun c => if cell_eq_num (Fin 1) c then Fin 1 else Fin 0) (cells mobil)) ∧
    getnum fe "CONTACT_COUNT" = Ok count ∧
    ∀ i a b c e,
      cells mobil !! i = Some a → cells work_phone !! i = Some b →
      cells phone !! i = Some c → cells email !! i = Some e →
      count !! i =
        Some (f64_of_nat (length (List.filter (cell_eq_num (Fin 1)) [a; b; c; e]))).
Proof.
  intros Hrun Hl.
  destruct (engineer_reads _ _ _ _ _ Hrun Hl)
    as (birth & employed_raw & employed & income & fam & children & credit & annuity &
        goods & e1 & e2 & e3 & docs & mobil & work_phone & phone & email & region &
        region_city & _ & _ & _ & _ & _ & _ & _ & _ & _ & _ & _ & _ & Hm & Hw & Hp & He &
        _ & _ & ->).
  exists mobil, work_phone, phone, email. eexists.
  do 4 (split; [done|]).
  unfold engineered_frame. cbv zeta.
  split.
  { rewrite !getnum_setitem_ne by discriminate. by rewrite getnum_setitem_eq. }
  split.
  { rewrite !getnum_setitem_ne by discriminate. rewrite getnum_setitem_eq. reflexivity. }
  intros i a b c e Ha Hb Hc He'.
  rewrite !lookup_zip_with, !list_lookup_fmap, Ha, Hb, Hc, He'. simpl. f_equal.
  destruct (cell_eq_num (Fin 1) a), (cell_eq_num (Fin 1) b),
           (cell_eq_num (Fin 1) c), (cell_eq_num (Fin 1) e); reflexivity.
Qed.


End Engineered.

Lemma engineered_train_eq :
  engineer_application_features Toy.sqrt_stub 0 Toy.store =
    (Ok Toy.engineered_train, Toy.store).
Proof. vm_compute. reflexivity. Qed.

Lemma engineer_features_frame_witness :
  len Toy.engineered_train = 2%nat ∧ wf Toy.engineered_train = true ∧
  getitem Toy.engineered_train "SK_ID_CURR" = Ok (Float64 [Fin 7; Fin 8]) ∧
  "CREDIT_TERM" ∈ names Toy.engineered_train.
Proof.
  destruct (engineer_features_frame Toy.sqrt_stub 0%nat Toy.store Toy.store
              Toy.applicants_train Toy.engineered_train engineered_train_eq
              eq_refl eq_refl) as (Hi & Hw & Hn & Hg).
  unfold len. rewrite Hi. split; [reflexivity|]. split; [exact Hw|]. split.
  - rewrite Hg; [reflexivity|]. vm_compute. intros Hin%list_elem_of_In. simpl in Hin.
    repeat destruct Hin as [Hin|Hin]; try discriminate; done.
  - apply Hn. right. vm_compute. apply list_elem_of_In. simpl. tauto.
Defined.

Lemma engineer_features_employment_witness :
  ∃ years,
    getnum Toy.engineered_train "DAYS_EMPLOYED" = Ok [Fin (-730); NaN] ∧
    getnum Toy.engineered_train "EMPLOYMENT_YEARS" = Ok years ∧
    years !! 0%nat = Some (Fin 2) ∧ years !! 1%nat = Some (Fin 0).
Proof.
  destruct (engineer_features_employment Toy.sqrt_stub 0%nat Toy.store Toy.store
              Toy.applicants_train Toy.engineered_train engineered_train_eq eq_refl)
    as (days & years & Hd & Hfe & Hy & _ & _ & Hcell).
  vm_compute in Hd. injection Hd as <-.
  exists years. split; [exact Hfe|]. split; [exact Hy|]. split.
  - apply (Hcell 0%nat (Fin (-730))). reflexivity.
  - apply (Hcell 1%nat (Fin 365243)). reflexivity.
Defined.

Lemma engineer_features_contact_witness :
  ∃ count,
    getnum Toy.engineered_train "CONTACT_COUNT" = Ok count ∧
    count !! 0%nat = Some (Fin 2) ∧ count !! 1%nat = Some (Fin 2).
Proof.
  destruct (engineer_features_contact Toy.sqrt_stub 0%nat Toy.store Toy.store
              Toy.applicants_train Toy.engineered_train engineered_train_eq eq_refl)
    as (m & w & p & e & count & Hm & Hw & Hp & He & _ & Hc & Hcell).
  vm_compute in Hm, Hw, Hp, He.
  injection Hm as <-. injection Hw as <-. injection Hp as <-. injection He as <-.
  exists count. split; [exact Hc|]. split.
  - apply (Hcell 0%nat (Num (Fin 1)) (Num (Fin 0)) (Num (Fin 1)) (Num (Fin 0)));
      reflexivity.
  - apply (Hcell 1%nat (Num (Fin 1)) (Num (Fin 1)) (Num (Fin 0)) (Num (Fin 0)));
      reflexivity.
Defined.

(** ** One row per applicant of the ledger *)

Lemma insert_unique_keeps x l z :
  z ∈ l → z ∈ insert_unique f64_compare x l.
Proof.
  induction l as [|y l IH]; simpl; [by intros ?%elem_of_nil|].
  intros Hz. destruct (f64_compare x y); [done | by right |].
  apply elem_of_cons in Hz as [->|Hz]; [left | right; auto].
Qed.

Lemma insert_unique_represents x l :
  isnan x = false → ∃ y, y ∈ insert_unique f64_compare x l ∧ f64_eqb x y = true.
Proof.
  intros Hx. induction l as [|y l IH]; simpl.
  - exists x. split; [left | by apply f64_eqb_refl].
  - destruct (f64_compare x y) eqn:Hc.
    + apply f64_compare_Eq in Hc. exists y. split; [left | done].
    + exists x. split; [left | by apply f64_eqb_refl].
    + destruct IH as (z & Hz & He). exists z. split; [by right | done].
Qed.

Lemma np_unique_represents l x :
  x ∈ l → isnan x = false →
  ∃ y, y ∈ np_unique f64_compare l ∧ f64_eqb x y = true.
Proof.
  unfold np_unique. induction l as [|a l IH]; simpl; [by intros ?%elem_of_nil|].
  intros [->|Hx]%elem_of_cons Hn.
  - by apply insert_unique_represents.
  - destruct (IH Hx Hn) as (y & Hy & He). exists y. split; [|done].
    by apply insert_unique_keeps.
Qed.

Lemma group_keys_of_ledger ks : keys_of_ledger (group_keys ks) ks.
Proof.
  split; [|split; [|split]].
  - apply np_unique_increasing, dropna_notnan.
  - by destruct (group_keys_distinct ks).
  - apply group_keys_elem.
  - intros x Hx Hn. apply np_unique_represents; [|done].
    unfold dropna. apply list_elem_of_In, filter_In. split; [by apply list_elem_of_In|].
    unfold notnan. by rewrite Hn.
Qed.

Lemma ledger_table_keys T ks features :
  ledger_table T ks features →
  ∃ keys, getnum T "SK_ID_CURR" = Ok keys ∧ keys_of_ledger keys ks ∧
          names T = "SK_ID_CURR" :: features.
Proof.
  intros (cols & Hc & Hf). exists (group_keys ks). split; [|split].
  - apply getnum_Ok. by rewrite Hc.
  - apply group_keys_of_ledger.
  - unfold names. rewrite Hc. simpl. by rewrite Hf.
Qed.

(** Each of the three aggregated tables has the applicant key in its first
    column, followed by its feature columns; the keys are those of the
    ledger, each once, in increasing order, and a row of the ledger without
    a key is in no group. *)
Theorem aggregated_tables_keys :
  (∀ (b bb : nat) (h h' : gmap nat DataFrame) B db bk,
     aggregate_bureau_features b bb h = (Ok B, h') →
     h !! b = Some db → wf db = true → getnum db "SK_ID_CURR" = Ok bk →
     ∃ keys, getnum B "SK_ID_CURR" = Ok keys ∧ keys_of_ledger keys bk ∧
             names B = "SK_ID_CURR" :: bureau_features) ∧
  (∀ (p : nat) (h h' : gmap nat DataFrame) P dp pk,
     aggregate_previous_applications p h = (Ok P, h') →
     h !! p = Some dp → getnum dp "SK_ID_CURR" = Ok pk →
     ∃ keys, getnum P "SK_ID_CURR" = Ok keys ∧ keys_of_ledger keys pk ∧
             names P = "SK_ID_CURR" :: previous_features) ∧
  (∀ (l : nat) (h h' : gmap nat DataFrame) T di ik,
     aggregate_installments l h = (Ok T, h') →
     h !! l = Some di → getnum di "SK_ID_CURR" = Ok ik →
     ∃ keys, getnum T "SK_ID_CURR" = Ok keys ∧ keys_of_ledger keys ik ∧
             names T = "SK_ID_CURR" :: installments_features).
Proof.
  split; [|split].
  - intros b bb h h' B db bk Hrun Hb Hwf Hbk.
    destruct (aggregate_bureau_features_table _ _ _ _ _ _ _ Hrun Hb Hwf Hbk) as [_ Ht].
    by apply ledger_table_keys.
  - intros p h h' P dp pk Hrun Hp Hpk.
    destruct (aggregate_previous_applications_table _ _ _ _ _ _ Hrun Hp Hpk) as [_ Ht].
    by apply ledger_table_keys.
  - intros l h h' T di ik Hrun Hl Hik.
    apply ledger_table_keys. by eapply aggregate_installments_table.
Qed.

Lemma aggregated_tables_keys_witness :
  ∃ T keys,
    fst (aggregate_installments 7 Toy.store) = Ok T ∧
    getnum T "SK_ID_CURR" = Ok keys ∧
    keys_of_ledger keys [Fin 7; Fin 7; Fin 9] ∧
    length (names T) = 29%nat.
Proof.
  destruct (aggregate_installments 7 Toy.store) as [r h'] eqn:Hrun.
  assert (Hr : ∃ T, r = Ok T).
  { apply (f_equal fst) in Hrun. simpl in Hrun. subst r. vm_compute. eauto. }
  destruct Hr as [T ->].
  destruct aggregated_tables_keys as (_ & _ & H).
  destruct (H 7%nat Toy.store h' T Toy.inst_ledger [Fin 7; Fin 7; Fin 9] Hrun eq_refl eq_refl)
    as (keys & Hk & Hkeys & Hn).
  exists T, keys. split; [reflexivity|]. split; [exact Hk|]. split; [exact Hkeys|].
  by rewrite Hn.
Defined.
(** ** The preprocessing pipeline from the files to the model inputs *)

(** A column whose label is none that the merge can give a column of the
    ledger table is, after the merge, what it was before: the merge neither
    alters it nor brings one in under its label. *)
Lemma merge_ledger_column left T m ids ks features c :
  merge_left left T "SK_ID_CURR" = Ok m →
  wf left = true →
  getnum left "SK_ID_CURR" = Ok ids →
  ledger_table T ks features →
  mem "SK_ID_CURR" features = false →
  mem c (merge_labels features) = false →
  assoc c (columns m) = assoc c (columns left).
Proof.
  intros Hm Hwf Hids HT Hnot Hc.
  destruct (merge_ledger_table _ _ _ _ _ _ Hm Hwf Hids HT Hnot)
    as (L & R & Hcols & _ & Hwfm & _ & HL & HR & _).
  destruct HT as (cols & HTc & Hfeat).
  assert (Hn : names T = "SK_ID_CURR" :: features).
  { unfold names. rewrite HTc. simpl. by rewrite Hfeat. }
  apply mem_false in Hc. unfold merge_labels in Hc.
  rewrite !not_elem_of_app in Hc. destruct Hc as (Hc & Hcx & Hcy).
  assert (Hfwd : ∀ s, assoc c (columns left) = Some s → assoc c (columns m) = Some s).
  { intros s Hs. rewrite <- Hn in HL.
    eapply merge_left_keeps; [exact Hcols | done | exact HL | exact Hs |].
    rewrite Hn. destruct (decide (c = "SK_ID_CURR")) as [->|Hne]; [apply left_label_on|].
    apply left_label_notin. rewrite not_elem_of_cons. by split. }
  destruct (assoc c (columns left)) as [s|] eqn:E; [by apply Hfwd|].
  destruct (assoc c (columns m)) as [s|] eqn:E'; [|done]. exfalso.
  apply assoc_Some_elem in E'. rewrite Hcols in E'.
  apply elem_of_app in E' as [Hin|Hin]; apply list_elem_of_lookup in Hin as [i Hi].
  - destruct (Forall2_lookup_l _ _ _ _ _ HL Hi) as ([c0 s0] & Hi0 & Hlab & Hs0).
    simpl in Hlab, Hs0. subst s0. unfold left_label in Hlab.
    destruct (negb (String.eqb c0 "SK_ID_CURR") && mem c0 ("SK_ID_CURR" :: features)) eqn:Eb.
    + apply andb_true_iff in Eb as [Hne%negb_true_iff Hmem%mem_true].
      apply elem_of_cons in Hmem as [->|Hmem]; [by rewrite String.eqb_refl in Hne|].
      apply Hcx. rewrite Hlab. apply list_elem_of_fmap. by exists c0.
    + subst c0. apply list_elem_of_lookup_2 in Hi0.
      apply (assoc_NoDup_elem c s) in Hi0; [congruence | by apply NoDup_names_wf].
  - destruct (Forall2_lookup_l _ _ _ _ _ HR Hi) as (n & Hn' & Hlab).
    apply list_elem_of_lookup_2 in Hn'. simpl in Hlab. destruct Hlab as [->| ->].
    + done.
    + apply Hcy. apply list_elem_of_fmap. by exists n.
Qed.

(** A frame after the three ledger merges: the rows are numbered anew, and
    a column whose label is none of a ledger's is what it was in the frame
    before the merges. *)
Lemma three_merges_column fe B P T m1 m2 m3 ids bk pk ik :
  wf fe = true →
  getnum fe "SK_ID_CURR" = Ok ids →
  ledger_table B bk bureau_features →
  ledger_table P pk previous_features →
  ledger_table T ik installments_features →
  merge_left fe B "SK_ID_CURR" = Ok m1 →
  merge_left m1 P "SK_ID_CURR" = Ok m2 →
  merge_left m2 T "SK_ID_CURR" = Ok m3 →
  wf m3 = true ∧
  index m3 = RangeIndex (len fe) ∧
  ∀ c, mem c ledger_labels = false → assoc c (columns m3) = assoc c (columns fe).
Proof.
  intros Hwf Hids HB HP HT H1 H2 H3.
  destruct (merge_ledger_table _ _ _ _ _ _ H1 Hwf Hids HB eq_refl)
    as (_ & _ & _ & Hi1 & Hwf1 & Hids1 & _).
  destruct (merge_ledger_table _ _ _ _ _ _ H2 Hwf1 Hids1 HP eq_refl)
    as (_ & _ & _ & Hi2 & Hwf2 & Hids2 & _).
  destruct (merge_ledger_table _ _ _ _ _ _ H3 Hwf2 Hids2 HT eq_refl)
    as (_ & _ & _ & Hi3 & Hwf3 & _).
  split; [done|]. split.
  { assert (E1 : len m1 = len fe) by (unfold len at 1; by rewrite Hi1).
    assert (E2 : len m2 = len m1) by (unfold len at 1; by rewrite Hi2).
    by rewrite Hi3, E2, E1. }
  intros c Hc%mem_false. unfold ledger_labels in Hc.
  rewrite !not_elem_of_app in Hc. destruct Hc as (Hcb & Hcp & Hci).
  apply mem_false in Hcb, Hcp, Hci.
  rewrite (merge_ledger_column m2 T m3 ids ik installments_features c H3 Hwf2 Hids2 HT eq_refl Hci).
  rewrite (merge_ledger_column m1 P m2 ids pk previous_features c H2 Hwf1 Hids1 HP eq_refl Hcp).
  apply (merge_ledger_column fe B m1 ids bk bureau_features c H1 Hwf Hids HB eq_refl Hcb).
Qed.

Section EndToEnd.

Context (repr_float : Q → string) (fsqrt : Q → Q).

(** Feature engineering leaves every column it does not assign as it is. *)
Lemma engineer_keeps_column (l : nat) (h h' : gmap nat DataFrame) d fe c :
  engineer_application_features fsqrt l h = (Ok fe, h') →
  h !! l = Some d →
  c ∉ "DAYS_EMPLOYED" :: engineered_columns →
  getitem fe c = getitem d c.
Proof.
  intros Hrun Hl Hc.
  destruct (engineer_reads _ _ _ _ _ _ Hrun Hl)
    as (birth & employed_raw & employed & income & fam & children & credit & annuity &
        goods & e1 & e2 & e3 & docs & mobil & work_phone & phone & email & region &
        region_city & _ & _ & _ & _ & _ & _ & _ & _ & _ & _ & _ & _ & _ & _ & _ & _ &
        _ & _ & ->).
  unfold engineered_columns in Hc. rewrite !not_elem_of_cons in Hc.
  unfold engineered_frame. cbv zeta.
  rewrite !getitem_setitem_ne; [done|..]; intros <-; tauto.
Qed.

(** The two frames handed to [preprocess_data]: the rows of the files,
    numbered anew, and every column that is neither assigned by the feature
    engineering nor labelled like a ledger feature as it is in the file. *)
Lemma run_preprocessing_features_columns data (h h' : gmap nat DataFrame)
    train_fe test_fe tr te db dp di bk pk ik :
  run_preprocessing_features fsqrt data h = (Ok (train_fe, test_fe), h') →
  h !! train data = Some tr → wf tr = true →
  h !! test data = Some te → wf te = true →
  h !! bureau data = Some db → wf db = true →
  h !! prev_app data = Some dp →
  h !! installments data = Some di →
  getnum db "SK_ID_CURR" = Ok bk →
  getnum dp "SK_ID_CURR" = Ok pk →
  getnum di "SK_ID_CURR" = Ok ik →
  (wf train_fe = true ∧ index train_fe = RangeIndex (len tr) ∧
   ∀ c, c ∉ "DAYS_EMPLOYED" :: engineered_columns → mem c ledger_labels = false →
        getitem train_fe c = getitem tr c) ∧
  (wf test_fe = true ∧ index test_fe = RangeIndex (len te) ∧
   ∀ c, c ∉ "DAYS_EMPLOYED" :: engineered_columns → mem c ledger_labels = false →
        getitem test_fe c = getitem te c).
Proof.
  intros Hrun Htr Hwtr Hte Hwte Hdb Hwdb Hdp Hdi Hbk Hpk Hik.
  unfold run_preprocessing_features in Hrun.
  apply bindM_Ok in Hrun as (tr_fe & h1 & He1 & Hrun).
  pose proof (λ c, engineer_keeps_column _ _ _ _ _ c He1 Htr) as Hk1.
  destruct (engineer_application_features_rows _ _ _ _ _ _ He1 Htr Hwtr) as [-> Hr1].
  apply bindM_Ok in Hrun as (te_fe & h1 & He2 & Hrun).
  pose proof (λ c, engineer_keeps_column _ _ _ _ _ c He2 Hte) as Hk2.
  destruct (engineer_application_features_rows _ _ _ _ _ _ He2 Hte Hwte) as [-> Hr2].
  apply bindM_Ok in Hrun as (B & h1 & HB & Hrun).
  destruct (aggregate_bureau_features_table _ _ _ _ _ _ _ HB Hdb Hwdb Hbk) as [-> HBt].
  apply bindM_Ok in Hrun as (m1 & h1 & [Hm1 ->]%liftM_Ok & Hrun).
  apply bindM_Ok in Hrun as (n1 & h1 & [Hn1 ->]%liftM_Ok & Hrun).
  apply bindM_Ok in Hrun as (P & h1 & HP & Hrun).
  destruct (aggregate_previous_applications_table _ _ _ _ _ _ HP Hdp Hpk) as [-> HPt].
  apply bindM_Ok in Hrun as (m2 & h1 & [Hm2 ->]%liftM_Ok & Hrun).
  apply bindM_Ok in Hrun as (n2 & h1 & [Hn2 ->]%liftM_Ok & Hrun).
  apply bindM_Ok in Hrun as (T & h1 & HT & Hrun).
  pose proof (aggregate_installments_table _ _ _ _ _ _ HT Hdi Hik) as HTt.
  apply bindM_Ok in Hrun as (m3 & h2 & [Hm3 ->]%liftM_Ok & Hrun).
  apply bindM_Ok in Hrun as (n3 & h2 & [Hn3 ->]%liftM_Ok & Hrun).
  injection Hrun as <- <- _.
  destruct (merge_left_Ok _ _ _ _ Hm1) as (ids1 & _ & Hids1 & _).
  destruct (merge_left_Ok _ _ _ _ Hn1) as (ids2 & _ & Hids2 & _).
  pose proof (same_rows_len _ _ Hr1) as Hl1. pose proof (same_rows_len _ _ Hr2) as Hl2.
  destruct Hr1 as (Hw1 & _), Hr2 as (Hw2 & _).
  destruct (three_merges_column _ _ _ _ _ _ _ _ _ _ _ Hw1 Hids1 HBt HPt HTt Hm1 Hm2 Hm3)
    as (Hwm & Him & Hkm).
  destruct (three_merges_column _ _ _ _ _ _ _ _ _ _ _ Hw2 Hids2 HBt HPt HTt Hn1 Hn2 Hn3)
    as (Hwn & Hin & Hkn).
  rewrite Hl1 in Him. rewrite Hl2 in Hin.
  split; (split; [done|]; split; [done|]); intros c Hc Hled.
  - rewrite <- Hk1 by done. unfold getitem. by rewrite Hkm.
  - rewrite <- Hk2 by done. unfold getitem. by rewrite Hkn.
Qed.

(** The returned frames are well formed. *)
Lemma preprocess_data_wf train test target X_train X_test y i1 i2 :
  preprocess_data repr_float train test target = Ok (X_train, X_test, y, i1, i2) →
  wf train = true →
  wf test = true →
  wf X_train = true ∧ wf X_test = true.
Proof.
  intros Hrun Hwf Hwft.
  apply preprocess_data_Ok in Hrun as (tr & te & Hal & Hfin).
  destruct (aligned_frames_wf _ _ _ _ _ _ _ _ _ Hal Hwf Hwft) as (Hwtr & Hwte & _).
  destruct (aligned_frames_spec _ _ _ _ _ _ _ _ _ Hal Hwf)
    as (Hnd & Hnames & Hidx & Hidx' & _).
  destruct (finalize_frames_spec _ _ _ _ Hfin Hnd Hnames)
    as (HiX & HiXt & HnX & HnXt & Hcols).
  assert (HndX : NoDup (names X_train)) by (rewrite HnX; by apply NoDup_filter_b).
  split.
  - apply wf_intro; [done|]. intros c Hc.
    destruct (Hcols _ (elem_columns_names _ _ Hc)) as (xs & S & Hxs & _ & HX & _).
    rewrite (assoc_of_elem _ _ HndX Hc) in HX. injection HX as ->. simpl.
    rewrite length_reconcile_train. unfold len. rewrite HiX.
    apply (wf_series_len tr (fst c) (Float64 xs) Hwtr Hxs).
  - assert (HndXt : NoDup (names X_test)) by (by rewrite HnXt).
    apply wf_intro; [done|]. intros c Hc.
    pose proof (elem_columns_names _ _ Hc) as Hn. rewrite HnXt in Hn.
    destruct (Hcols _ Hn) as (xs & S & _ & HS & _ & HXt).
    rewrite (assoc_of_elem _ _ HndXt Hc) in HXt. injection HXt as ->.
    rewrite series_len_reconcile_test. unfold len. rewrite HiXt.
    apply (wf_series_len te (fst c) S Hwte HS).
Qed.


End EndToEnd.

(** ** What cross-validation and the training pipeline return *)

Section CvResults.

Context (Booster : Type)
        (lgb_train_oracle : lgb_call → result Booster)
        (best_iteration : Booster → Z)
        (predict : Booster → DataFrame → Z → list f64)
        (feature_importance : Booster → list f64)
        (kfold_split : nat → Z → DataFrame → Series → result (list (list nat * list nat)))
        (roc_auc_score : Series → list f64 → result f64)
        (Importance : Type)
        (aggregate_importance : list (nat * list string * list f64) → Importance)
        (final_importance : list string → list f64 → Importance).

Local Abbreviation train_lightgbm := (train_lightgbm Booster lgb_train_oracle).
Local Abbreviation cross_validate_fold :=
  (cross_validate_fold Booster lgb_train_oracle best_iteration predict
                       feature_importance roc_auc_score).
Local Abbreviation cross_validate :=
  (cross_validate Booster lgb_train_oracle best_iteration predict feature_importance
                  kfold_split roc_auc_score Importance aggregate_importance).
Local Abbreviation train_final_model := (train_final_model Booster lgb_train_oracle).
Local Abbreviation run_training :=
  (run_training Booster lgb_train_oracle best_iteration predict feature_importance
                kfold_split roc_auc_score Importance aggregate_importance final_importance).

(** The score of a model on the held-out rows of a fold. *)
Local Abbreviation held_out_score X y f model :=
  (roc_auc_score (series_iloc y (snd f))
                 (predict model (iloc X (snd f)) (best_iteration model))).

(** One turn of the loop, by what the library answers. *)
Lemma cross_validate_fold_eq p X y st k tr va log :
  (∀ v, <["scale_pos_weight" := v]> (cv_params _ st) = <["scale_pos_weight" := v]> p) →
  cross_validate_fold X y st (k, (tr, va)) log =
    (match lgb_train_oracle (call_of_fold p X y (tr, va)) with
     | Ok model =>
         match held_out_score X y (tr, va) model with
         | Ok score =>
             Ok {| cv_params := <["scale_pos_weight" := PNum (neg_pos_ratio (series_iloc y tr))]>
                                  (cv_params _ st);
                   cv_scores := cv_scores _ st ++ [score];
                   cv_models := cv_models _ st ++ [model];
                   cv_importance := cv_importance _ st ++
                                      [(k, names X, feature_importance model)] |}
         | Raise e => Raise e
         end
     | Raise e => Raise e
     end,
     log ++ [call_of_fold p X y (tr, va)]).
Proof.
  intros Hp. unfold cross_validate_fold.
  rewrite bindL_eq, train_lightgbm_fold.
  assert (Hc : fold_call (cv_params _ st) (iloc X tr) (series_iloc y tr)
                 (iloc X va) (series_iloc y va) = call_of_fold p X y (tr, va)).
  { unfold call_of_fold, fold_call. simpl. by rewrite Hp. }
  rewrite Hc. destruct (lgb_train_oracle _) as [model|e]; [|done].
  rewrite bindL_eq. unfold liftL at 1. simpl.
  destruct (roc_auc_score _ _); reflexivity.
Qed.

(** The loop, when it ends without an exception: one model and one score
    per fold, in the order of the folds. *)
Lemma cross_validate_loop_results p X y fs :
  ∀ k st log st' log',
    (∀ v, <["scale_pos_weight" := v]> (cv_params _ st) = <["scale_pos_weight" := v]> p) →
    foldL (cross_validate_fold X y) st (zip (seq k (length fs)) fs) log = (Ok st', log') →
    ∃ res : list (Booster * f64),
      cv_models _ st' = cv_models _ st ++ map fst res ∧
      cv_scores _ st' = cv_scores _ st ++ map snd res ∧
      cv_importance _ st' =
        cv_importance _ st ++
          imap (fun i r => ((k + i)%nat, names X, feature_importance (fst r))) res ∧
      Forall2 (fun f r => lgb_train_oracle (call_of_fold p X y f) = Ok (fst r) ∧
                          held_out_score X y f (fst r) = Ok (snd r)) fs res.
Proof.
  induction fs as [|[tr va] fs IH]; intros k st log st' log' Hp Hrun.
  - simpl in Hrun. injection Hrun as <- <-. exists []. simpl.
    rewrite !app_nil_r. auto.
  - change (zip (seq k (length ((tr, va) :: fs))) ((tr, va) :: fs))
      with ((k, (tr, va)) :: zip (seq (S k) (length fs)) fs) in Hrun.
    cbn [foldL] in Hrun.
    rewrite bindL_eq, (cross_validate_fold_eq p) in Hrun by done.
    destruct (lgb_train_oracle _) as [model|e] eqn:Hmodel; [|done].
    destruct (roc_auc_score _ _) as [score|e] eqn:Hscore; [|done].
    apply IH in Hrun as (res & Hm & Hs & Hi & Hres).
    + exists ((model, score) :: res). simpl in *.
      rewrite Hm, Hs, Hi, <- !app_assoc. simpl. rewrite Nat.add_0_r.
      repeat (split; [done|]). split.
      * apply (f_equal (app _)), (f_equal (cons _)), imap_ext.
        intros i r _. simpl. do 2 f_equal. lia.
      * by constructor.
    + intros v. simpl. rewrite insert_insert_eq. apply Hp.
Qed.

(** The loop, when it ends with an exception: it is the exception of the
    first fold whose training or whose scoring raises, and that fold's call
    of [lgb.train] is the last one made. *)
Lemma cross_validate_loop_raises p X y fs :
  ∀ k st log e log',
    (∀ v, <["scale_pos_weight" := v]> (cv_params _ st) = <["scale_pos_weight" := v]> p) →
    foldL (cross_validate_fold X y) st (zip (seq k (length fs)) fs) log = (Raise e, log') →
    ∃ j f,
      fs !! j = Some f ∧
      log' = log ++ map (call_of_fold p X y) (take (S j) fs) ∧
      (lgb_train_oracle (call_of_fold p X y f) = Raise e ∨
       ∃ model, lgb_train_oracle (call_of_fold p X y f) = Ok model ∧
                held_out_score X y f model = Raise e) ∧
      ∀ i g, (i < j)%nat → fs !! i = Some g →
             ∃ model score, lgb_train_oracle (call_of_fold p X y g) = Ok model ∧
                            held_out_score X y g model = Ok score.
Proof.
  induction fs as [|[tr va] fs IH]; intros k st log e log' Hp Hrun.
  - simpl in Hrun. done.
  - change (zip (seq k (length ((tr, va) :: fs))) ((tr, va) :: fs))
      with ((k, (tr, va)) :: zip (seq (S k) (length fs)) fs) in Hrun.
    cbn [foldL] in Hrun.
    rewrite bindL_eq, (cross_validate_fold_eq p) in Hrun by done.
    destruct (lgb_train_oracle _) as [model|e0] eqn:Hmodel.
    + destruct (roc_auc_score _ _) as [score|e0] eqn:Hscore.
      * apply IH in Hrun as (j & f & Hj & -> & Hwhy & Hbefore).
        -- exists (S j), f. split; [done|]. split.
           { rewrite <- app_assoc. reflexivity. }
           split; [done|]. intros [|i] g Hi Hg.
           ++ injection Hg as <-. eauto.
           ++ apply (Hbefore i); [lia | done].
        -- intros v. simpl. rewrite insert_insert_eq. apply Hp.
      * injection Hrun as <- <-. exists O, (tr, va). split; [done|].
        split; [simpl; by rewrite ?take_0|]. split; [right; eauto|]. intros i g Hi. lia.
    + injection Hrun as <- <-. exists O, (tr, va). split; [done|].
      split; [simpl; by rewrite ?take_0|]. split; [by left|]. intros i g Hi. lia.
Qed.

(** What [cross_validate] returns, fold by fold. *)
Lemma cross_validate_results X y n folds scores models imp log :
  kfold_split n Config.RANDOM_STATE X y = Ok folds →
  cross_validate X y n None [] = (Ok (scores, models, imp), log) →
  ∃ res : list (Booster * f64),
    models = map fst res ∧
    scores = map snd res ∧
    imp = aggregate_importance
            (imap (fun i r => (S i, names X, feature_importance (fst r))) res) ∧
    Forall2 (fun f r => lgb_train_oracle (call_of_fold LGBM_PARAMS X y f) = Ok (fst r) ∧
                        held_out_score X y f (fst r) = Ok (snd r)) folds res.
Proof.
  intros Hsplit Hrun. unfold cross_validate in Hrun.
  rewrite bindL_eq in Hrun. unfold liftL in Hrun at 1. rewrite Hsplit in Hrun.
  rewrite bindL_eq in Hrun. unfold enumerate1 in Hrun.
  destruct (foldL _ _ _ _) as [[st|e] log1] eqn:Hloop; [|done].
  injection Hrun as <- <- <- <-.
  apply (cross_validate_loop_results LGBM_PARAMS) in Hloop
    as (res & Hm & Hs & Hi & Hres); [|done].
  simpl in Hm, Hs, Hi. exists res. by rewrite Hm, Hs, Hi.
Qed.

(** Cross-validation is out of fold: when it returns, there is one model
    and one score per fold, in the order of the folds; the model of a fold
    is what [lgb.train] returned on the fold's training rows (with the
    fold's held-out rows as validation set), its score is the AUC of its
    predictions, at its best iteration, on the held-out rows; and the
    importance table is built from the gains of these models, the folds
    numbered from 1. *)
Theorem cross_validate_out_of_fold X y n folds scores models imp log :
  kfold_split n Config.RANDOM_STATE X y = Ok folds →
  cross_validate X y n None [] = (Ok (scores, models, imp), log) →
  length models = length folds ∧
  length scores = length folds ∧
  (∀ i f, folds !! i = Some f →
     ∃ model score,
       models !! i = Some model ∧
       scores !! i = Some score ∧
       lgb_train_oracle (call_of_fold LGBM_PARAMS X y f) = Ok model ∧
       held_out_score X y f model = Ok score) ∧
  imp = aggregate_importance
          (imap (fun i model => (S i, names X, feature_importance model)) models).
Proof.
  intros Hsplit Hrun.
  destruct (cross_validate_results _ _ _ _ _ _ _ _ Hsplit Hrun)
    as (res & -> & -> & -> & Hres).
  pose proof (Forall2_length _ _ _ Hres) as Hlen.
  rewrite !length_map. repeat (split; [done|]). split.
  - intros i f Hf.
    destruct (Forall2_lookup_l _ _ _ _ _ Hres Hf) as ([model score] & Hr & Hmodel & Hscore).
    exists model, score. rewrite !list_lookup_fmap, Hr. done.
  - f_equal. rewrite imap_fmap. apply imap_ext. intros i r _. reflexivity.
Qed.

(** The training pipeline stops at the first failure.  When a fold's
    training or scoring raises, [run_training] raises the same exception;
    the failing fold's call of [lgb.train] is the last one made, so no
    later fold is trained and no final model is fitted; every fold before
    it was trained and scored.  When the splitter raises, [lgb.train] is
    never called. *)
Theorem run_training_stops_at_failure X y folds r e log :
  run_training X y true [] = (r, log) →
  (kfold_split Config.N_SPLITS Config.RANDOM_STATE X y = Raise e →
   r = Raise e ∧ log = []) ∧
  (kfold_split Config.N_SPLITS Config.RANDOM_STATE X y = Ok folds →
   fst (cross_validate X y Config.N_SPLITS None []) = Raise e →
   r = Raise e ∧
   ∃ j f,
     folds !! j = Some f ∧
     log = map (call_of_fold LGBM_PARAMS X y) (take (S j) folds) ∧
     (lgb_train_oracle (call_of_fold LGBM_PARAMS X y f) = Raise e ∨
      ∃ model, lgb_train_oracle (call_of_fold LGBM_PARAMS X y f) = Ok model ∧
               held_out_score X y f model = Raise e) ∧
     ∀ i g, (i < j)%nat → folds !! i = Some g →
            ∃ model score,
              lgb_train_oracle (call_of_fold LGBM_PARAMS X y g) = Ok model ∧
              held_out_score X y g model = Ok score).
Proof.
  intros Hrun. unfold run_training in Hrun.
  rewrite bindL_eq, bindL_eq in Hrun. split.
  - intros Hsplit. unfold cross_validate in Hrun.
    rewrite bindL_eq in Hrun. unfold liftL in Hrun at 1. rewrite Hsplit in Hrun.
    by injection Hrun as <- <-.
  - intros Hsplit Hcv.
    destruct (cross_validate X y Config.N_SPLITS None []) as [rcv cvlog] eqn:Hcvrun.
    simpl in Hcv. subst rcv. injection Hrun as <- <-. split; [done|].
    unfold cross_validate in Hcvrun.
    rewrite bindL_eq in Hcvrun. unfold liftL in Hcvrun at 1. rewrite Hsplit in Hcvrun.
    rewrite bindL_eq in Hcvrun. unfold enumerate1 in Hcvrun.
    destruct (foldL _ _ _ _) as [[st|e0] log1] eqn:Hloop; [done|].
    injection Hcvrun as <- <-.
    apply (cross_validate_loop_raises LGBM_PARAMS) in Hloop; [|done].
    exact Hloop.
Qed.

(** Whatever the mode, the final model is what [lgb.train] returns on the
    whole training set, with that same set as its only validation set and
    the default parameters plus the class weight of all the labels; it is
    the last call made.  Without cross-validation it is the only call: all
    the rounds, stopped early on the training data itself, and no scores
    are returned.  With cross-validation the call has no early stopping. *)
Theorem final_model_call X y do_cv model scores imp log :
  run_training X y do_cv [] = (Ok (model, scores, imp), log) →
  ∃ c,
    last log = Some c ∧
    lgb_train_oracle c = Ok model ∧
    call_train_set c = mkDataset X y ∧
    call_valid_sets c = [mkDataset X y] ∧
    call_params c = <["scale_pos_weight" := PNum (neg_pos_ratio y)]> LGBM_PARAMS ∧
    (do_cv = false →
       c = final_call X y ∧ log = [c] ∧ scores = None ∧
       imp = final_importance (names X) (feature_importance model)) ∧
    (do_cv = true →
       existsb is_early_stopping (call_callbacks c) = false ∧
       ∃ s, scores = Some s ∧ length log = S (length s)).
Proof.
  intros Hrun. destruct do_cv.
  - destruct (cross_validate X y Config.N_SPLITS None []) as [[[[ss ms] im]|e] cvlog] eqn:Hcv.
    + destruct ms as [|m ms].
      { unfold run_training in Hrun. rewrite bindL_eq, bindL_eq, Hcv in Hrun.
        rewrite bindL_eq in Hrun. by unfold liftL in Hrun at 1. }
      rewrite (run_training_cv _ _ _ _ _ _ _ _ _ _ _ _ _ _ _ _ Hcv) in Hrun by done.
      cbv zeta in Hrun.
      destruct (lgb_train_oracle _) as [m'|] eqn:Hm; [|done].
      injection Hrun as <- <- <- <-.
      eexists. split; [apply last_snoc|]. split; [exact Hm|].
      repeat (split; [reflexivity|]). split; [done|]. intros _.
      split; [reflexivity|]. exists ss. split; [done|].
      rewrite length_app. simpl.
      destruct (kfold_split Config.N_SPLITS Config.RANDOM_STATE X y) as [folds|e] eqn:Hsplit.
      * destruct (cross_validate_results _ _ _ _ _ _ _ _ Hsplit Hcv)
          as (res & _ & -> & _ & Hres%Forall2_length).
        destruct (cross_validate_log _ _ _ _ _ _ _ _ _ _ _ _ _ _ _ Hsplit Hcv)
          as (k & _ & -> & Hk).
        rewrite !length_map, length_take, (Hk _ eq_refl). lia.
      * unfold cross_validate in Hcv. rewrite bindL_eq in Hcv.
        unfold liftL in Hcv at 1. by rewrite Hsplit in Hcv.
    + unfold run_training in Hrun. by rewrite bindL_eq, bindL_eq, Hcv in Hrun.
  - unfold run_training in Hrun. rewrite bindL_eq in Hrun.
    unfold mret, L_ret in Hrun. rewrite bindL_eq in Hrun.
    change (train_final_model X y None None [])
      with (lgb_train_oracle (final_call X y), [final_call X y]) in Hrun.
    destruct (lgb_train_oracle (final_call X y)) as [m|] eqn:Hm; [|done].
    injection Hrun as <- <- <- <-.
    exists (final_call X y). repeat (split; [done|]). discriminate.
Qed.

End CvResults.

Lemma cross_validate_out_of_fold_witness :
  ∃ scores models imp log,
    Toy.cross_validate Toy.X5 Toy.y_two_positive 5 None [] = (Ok (scores, models, imp), log) ∧
    length models = 5%nat ∧
    length scores = 5%nat ∧
    models !! 0%nat = Some 11 ∧
    scores !! 0%nat = Some (Fin (1 # 2)).
Proof.
  destruct (Toy.cross_validate Toy.X5 Toy.y_two_positive 5 None []) as [r log] eqn:Hrun.
  assert (Hr : r = fst (Toy.cross_validate Toy.X5 Toy.y_two_positive 5 None []))
    by (by rewrite Hrun).
  vm_compute in Hr.
  match type of Hr with
  | r = Ok (?s, ?m, ?i) => exists s, m, i, log
  end.
  subst r.
  destruct (cross_validate_out_of_fold Toy.Booster Toy.lgb_train_oracle
              Toy.best_iteration Toy.predict Toy.feature_importance Toy.kfold_split
              Toy.roc_auc_score Toy.Importance Toy.aggregate_importance
              Toy.X5 Toy.y_two_positive 5%nat _ _ _ _ _ eq_refl Hrun)
    as (Hm & Hs & _ & _).
  split; [reflexivity|]. split; [exact Hm|]. split; [exact Hs|].
  split; reflexivity.
Defined.

Lemma run_training_stops_at_failure_witness :
  let run := run_training Toy.Booster Toy.strict_train_oracle Toy.best_iteration
               Toy.predict Toy.feature_importance Toy.kfold_split Toy.roc_auc_score
               Toy.Importance Toy.aggregate_importance Toy.final_importance
               Toy.X5 Toy.y_third_positive true [] in
  fst run = Raise ValueError ∧ length (snd run) = 3%nat.
Proof.
  intros run.
  destruct (run_training_stops_at_failure Toy.Booster Toy.strict_train_oracle
              Toy.best_iteration Toy.predict Toy.feature_importance Toy.kfold_split
              Toy.roc_auc_score Toy.Importance Toy.aggregate_importance
              Toy.final_importance Toy.X5 Toy.y_third_positive
              (map (fun k => (List.filter (fun i => negb (i =? k)%nat) (seq 0 5), [k]))
                   (seq 0 5))
              (fst run) ValueError (snd run) (surjective_pairing run))
    as [_ H].
  destruct (H eq_refl eq_refl) as (Hr & j & f & _ & Hlog & _).
  split; [exact Hr|]. vm_compute. reflexivity.
Defined.

Lemma final_model_call_witness :
  ∃ model imp,
    Toy.run_training Toy.X5 Toy.y_two_positive false []
      = (Ok (model, None, imp), [final_call Toy.X5 Toy.y_two_positive]).
Proof.
  destruct (Toy.run_training Toy.X5 Toy.y_two_positive false []) as [r log] eqn:Hrun.
  assert (Hr : r = fst (Toy.run_training Toy.X5 Toy.y_two_positive false []))
    by (by rewrite Hrun).
  vm_compute in Hr.
  match type of Hr with
  | r = Ok (?m, ?s, ?i) => exists m, i
  end.
  subst r.
  destruct (final_model_call Toy.Booster Toy.lgb_train_oracle
              Toy.best_iteration Toy.predict Toy.feature_importance Toy.kfold_split
              Toy.roc_auc_score Toy.Importance Toy.aggregate_importance
              Toy.final_importance Toy.X5 Toy.y_two_positive false _ _ _ _ Hrun)
    as (c & _ & _ & _ & _ & _ & Hno & _).
  destruct (Hno eq_refl) as (-> & -> & _ & _). reflexivity.
Defined.
(** ** The optimal threshold: when there is one, and what it can be *)

Lemma mapR_total {A B} (f : A → result B) (l : list A) :
  Forall (fun a => ∃ b, f a = Ok b) l → ∃ l', mapR f l = Ok l'.
Proof.
  induction 1 as [|a l [b Hb] _ [l' IH]]; [by exists []|].
  exists (b :: l'). simpl. rewrite Hb. cbn [mbind result_bind]. by rewrite IH.
Qed.

Lemma mapR_Raise {A B} (f : A → result B) (l : list A) (e : exn) :
  mapR f l = Raise e → ∃ a, a ∈ l ∧ f a = Raise e.
Proof.
  induction l as [|a l IH]; simpl; [done|].
  destruct (f a) as [b|e0] eqn:Ea; cbn [mbind result_bind].
  - destruct (mapR f l) as [bs|e1]; cbn [mbind result_bind]; [done|].
    intros [= ->]. destruct IH as (x & Hx & Hfx); [done|]. exists x. split; [by right | done].
  - intros [= ->]. exists a. split; [left | done].
Qed.

Lemma binary_label_Ok (y : f64) (b : bool) :
  binary_label y = Ok b →
  (f64_eqb y (Fin 1) || f64_eqb y (Fin 0)) = true ∧ b = f64_eqb y (Fin 1).
Proof.
  unfold binary_label. destruct (f64_eqb y (Fin 1)); [by intros [= <-]|].
  destruct (f64_eqb y (Fin 0)); [by intros [= <-] | done].
Qed.

Lemma binary_label_total (y : f64) :
  (f64_eqb y (Fin 1) || f64_eqb y (Fin 0)) = true →
  binary_label y = Ok (f64_eqb y (Fin 1)).
Proof.
  unfold binary_label. destruct (f64_eqb y (Fin 1)); [done|].
  by destruct (f64_eqb y (Fin 0)).
Qed.

Lemma binary_label_Raise (y : f64) (e : exn) : binary_label y = Raise e → e = ValueError.
Proof.
  unfold binary_label. destruct (f64_eqb y (Fin 1)); [done|].
  destruct (f64_eqb y (Fin 0)); [done | by intros [= <-]].
Qed.

Lemma finite_score_Ok (s : f64) (q : Q) : finite_score s = Ok q ↔ s = Fin q.
Proof. destruct s; simpl; split; congruence. Qed.

Lemma finite_score_Raise (s : f64) (e : exn) : finite_score s = Raise e → e = ValueError.
Proof. destruct s; simpl; congruence. Qed.

(** [roc_curve] returns exactly on arrays of one length, not empty, of
    labels 0 or 1 and finite scores; what it returns is read off the kept
    points. *)
Lemma roc_curve_inv y s out :
  roc_curve y s = Ok out →
  ∃ labels scores,
    length y = length s ∧ y ≠ [] ∧
    mapR binary_label y = Ok labels ∧
    mapR finite_score s = Ok scores ∧
    out = (rates (O :: map pt_fps (kept_points (zip scores labels))),
           rates (O :: map pt_tps (kept_points (zip scores labels))),
           PInf :: map pt_thr (kept_points (zip scores labels))).
Proof.
  unfold roc_curve. destruct (length y =? length s)%nat eqn:El; [|done].
  apply Nat.eqb_eq in El. cbn [negb]. intros H.
  apply bindR_Ok in H as (labels & Hl & H).
  apply bindR_Ok in H as (scores & Hs & H).
  exists labels, scores. split; [done|].
  destruct (zip scores labels) as [|z zs] eqn:Ez; [done|].
  split.
  { intros ->. simpl in Hl. injection Hl as <-. destruct scores; simpl in Ez; discriminate. }
  injection H as <-. done.
Qed.

Lemma roc_curve_eq y s labels scores :
  length y = length s → y ≠ [] →
  mapR binary_label y = Ok labels →
  mapR finite_score s = Ok scores →
  roc_curve y s =
    Ok (rates (O :: map pt_fps (kept_points (zip scores labels))),
        rates (O :: map pt_tps (kept_points (zip scores labels))),
        PInf :: map pt_thr (kept_points (zip scores labels))).
Proof.
  intros Hlen Hne Hl Hs. unfold roc_curve. rewrite Hlen, Nat.eqb_refl. cbn [negb].
  rewrite Hl, Hs. cbn [mbind result_bind].
  pose proof (Forall2_length _ _ _ (proj1 (mapR_Ok _ _ _) Hl)) as H1.
  pose proof (Forall2_length _ _ _ (proj1 (mapR_Ok _ _ _) Hs)) as H2.
  destruct (zip scores labels) as [|z zs] eqn:Ez; [|by rewrite <- Ez].
  exfalso. destruct y as [|y0 y]; [done|].
  destruct labels as [|l0 labels]; [done|]. destruct scores as [|s0 scores]; [|done].
  simpl in *. lia.
Qed.

Lemma roc_curve_Raise y s e : roc_curve y s = Raise e → e = ValueError.
Proof.
  unfold roc_curve. destruct (negb _); [by intros [= <-]|].
  destruct (mapR binary_label y) as [labels|e0] eqn:Hl; cbn [mbind result_bind].
  - destruct (mapR finite_score s) as [scores|e1] eqn:Hs; cbn [mbind result_bind].
    + destruct (zip scores labels); [by intros [= <-] | done].
    + intros [= ->]. apply mapR_Raise in Hs as (a & _ & Ha). by eapply finite_score_Raise.
  - intros [= ->]. apply mapR_Raise in Hl as (a & _ & Ha). by eapply binary_label_Raise.
Qed.

Lemma rates_cons (c : nat) (l : list nat) : ∃ r rs, rates (c :: l) = r :: rs.
Proof. unfold rates. destruct (last (c :: l)) as [[|n]|]; simpl; eauto. Qed.

(** Without a sample counted, every rate is undefined. *)
Lemma rates_all_zero (counts : list nat) :
  Forall (fun c => c = O) counts → rates counts = map (fun _ => NaN) counts.
Proof.
  intros H. unfold rates. destruct (last counts) as [[|n]|] eqn:E; [done| |done].
  apply last_Some_elem_of in E. rewrite Forall_forall in H. by apply H in E.
Qed.

Lemma argmax_from_nan (bi i : nat) (l : list f64) : argmax_from NaN bi i l = bi.
Proof. by destruct l. Qed.

(** Every threshold of the curve is one of the scores. *)
Lemma clf_curve_thr (l : list (Q * bool)) :
  ∀ fps tps p, p ∈ binary_clf_curve fps tps l → ∃ x, x ∈ l ∧ pt_thr p = Fin (fst x).
Proof.
  induction l as [|[s y] l IH]; intros fps tps p; [by intros ?%elem_of_nil|].
  destruct l as [|[s' y'] l].
  - simpl. intros ->%list_elem_of_singleton. exists (s, y). split; [left | done].
  - rewrite binary_clf_curve_step. destruct (Qeq_bool s s').
    + intros (x & Hx & Hp)%IH. exists x. split; [by right | done].
    + intros [->|(x & Hx & Hp)%IH]%elem_of_cons.
      * exists (s, y). split; [left | done].
      * exists x. split; [by right | done].
Qed.

(** With positives only the false-positive count stands still; with
    negatives only, the true-positive count. *)
Lemma clf_curve_fps_flat (l : list (Q * bool)) :
  ∀ fps tps, Forall (fun x => snd x = true) l →
             Forall (fun p => pt_fps p = fps) (binary_clf_curve fps tps l).
Proof.
  induction l as [|[s y] l IH]; intros fps tps Hl; [constructor|].
  apply Forall_cons in Hl as [Hy Hl]. simpl in Hy. subst y.
  destruct l as [|[s' y'] l].
  - simpl. by repeat constructor.
  - rewrite binary_clf_curve_step. destruct (Qeq_bool s s'); [by apply IH|].
    constructor; [done | by apply IH].
Qed.

Lemma clf_curve_tps_flat (l : list (Q * bool)) :
  ∀ fps tps, Forall (fun x => snd x = false) l →
             Forall (fun p => pt_tps p = tps) (binary_clf_curve fps tps l).
Proof.
  induction l as [|[s y] l IH]; intros fps tps Hl; [constructor|].
  apply Forall_cons in Hl as [Hy Hl]. simpl in Hy. subst y.
  destruct l as [|[s' y'] l].
  - simpl. by repeat constructor.
  - rewrite binary_clf_curve_step. destruct (Qeq_bool s s'); [by apply IH|].
    constructor; [done | by apply IH].
Qed.

Lemma kept_points_elem (samples : list (Q * bool)) (p : point) :
  p ∈ kept_points samples →
  p ∈ binary_clf_curve 0 0 (reverse (sort_by score_leb samples)).
Proof. apply drop_intermediate_elem. Qed.

Lemma kept_points_one_class (b : bool) (samples : list (Q * bool)) :
  Forall (fun x => snd x = b) samples →
  Forall (fun c => c = O)
         (O :: map (if b then pt_fps else pt_tps) (kept_points samples)).
Proof.
  intros H. constructor; [done|]. apply Forall_fmap, Forall_forall.
  intros p Hp%kept_points_elem.
  assert (Hd : Forall (fun x => snd x = b) (reverse (sort_by score_leb samples))).
  { destruct (descending_samples samples) as [Hperm _]. by rewrite Hperm. }
  destruct b.
  - pose proof (clf_curve_fps_flat _ O O Hd) as Hf. rewrite Forall_forall in Hf. by apply Hf.
  - pose proof (clf_curve_tps_flat _ O O Hd) as Hf. rewrite Forall_forall in Hf. by apply Hf.
Qed.

(** A label that is 0 is not 1. *)
Lemma label_zero_not_one (y : f64) : f64_eqb y (Fin 0) = true → f64_eqb y (Fin 1) = false.
Proof.
  intros H0. destruct (f64_eqb y (Fin 1)) eqn:E1; [|done].
  rewrite f64_eqb_sym in E1. by pose proof (f64_eqb_trans _ _ _ E1 H0).
Qed.

(** Classes that separate at a cut [c]: the threshold selected is a score
    at which every sample is classified as it is labelled. *)
Lemma separated_threshold (c : Q) (y_true y_pred_proba : list f64) :
  Forall2 (separated_at c) y_true y_pred_proba →
  Exists (fun y => f64_eqb y (Fin 1) = true) y_true →
  Exists (fun y => f64_eqb y (Fin 0) = true) y_true →
  ∃ t, find_optimal_threshold y_true y_pred_proba = Ok (Fin t) ∧
       Forall2 (classified_by t) y_true y_pred_proba.
Proof.
  intros Hsep Hpos Hneg.
  destruct (separated_samples _ _ _ Hsep) as (labels & scores & Hl & Hs & H1 & H2 & Hside).
  pose proof (Forall2_length _ _ _ Hsep) as Hlen.
  assert (Hsample : ∀ i yi, y_true !! i = Some yi →
            ∃ q, y_pred_proba !! i = Some (Fin q) ∧
                 (q, f64_eqb yi (Fin 1)) ∈ zip scores labels).
  { intros i yi Hyi.
    destruct (Forall2_lookup_l _ _ _ _ _ H1 Hyi) as (l & Hli & ->).
    destruct (Forall2_lookup_l _ _ _ _ _ Hsep Hyi) as (si & Hsi & _).
    destruct (Forall2_lookup_l _ _ _ _ _ H2 Hsi) as (q & Hqi & ->).
    exists q. split; [done|]. apply list_elem_of_lookup. exists i.
    unfold zip. apply lookup_zip_with_Some. eauto. }
  assert (Hp : ∃ x, x ∈ zip scores labels ∧ snd x = true).
  { apply Exists_exists in Hpos as (yi & Hin & Hyi).
    apply list_elem_of_lookup in Hin as [i Hi].
    destruct (Hsample i yi Hi) as (q & _ & Hq). rewrite Hyi in Hq. eauto. }
  assert (Hn : ∃ x, x ∈ zip scores labels ∧ snd x = false).
  { apply Exists_exists in Hneg as (yi & Hin & Hyi).
    apply list_elem_of_lookup in Hin as [i Hi].
    destruct (Hsample i yi Hi) as (q & _ & Hq).
    rewrite (label_zero_not_one _ Hyi) in Hq. eauto. }
  destruct (roc_points_separated _ _ Hside Hp Hn)
    as (np & nn & t & Hnp & Hnn & Hstar & [thr Hlast] & Hall & Hcls).
  destruct (youden_argmax_points _ _ _ _ _ Hnp Hnn Hstar Hlast Hall)
    as (i & Harg & Hthr & _).
  assert (Hne : y_true ≠ []).
  { intros ->. by apply Exists_nil in Hpos. }
  exists t. split.
  { unfold find_optimal_threshold.
    rewrite (roc_curve_eq _ _ _ _ Hlen Hne Hl Hs). cbn [mbind result_bind].
    unfold kept_points. rewrite Harg. cbn [mbind result_bind]. f_equal.
    by apply nth_lookup_Some. }
  apply Forall2_same_length_lookup_2; [done|].
  intros j yj sj Hyj Hsj.
  destruct (Hsample j yj Hyj) as (q & Hq & Hin).
  rewrite Hsj in Hq. injection Hq as ->.
  specialize (Hcls _ Hin). unfold on_its_side, classified_by in *. simpl in *.
  destruct (f64_eqb yj (Fin 1)).
  - by apply Qle_bool_iff.
  - apply not_true_is_false. intros H%Qle_bool_iff.
    apply (Qlt_irrefl q). eapply Qlt_le_trans; [exact Hcls | exact H].
Qed.


(** The threshold returned is [+inf] (the start of the curve, above every
    score) or one of the scores it was given: never a value in between. *)
Theorem optimal_threshold_is_a_score (y_true y_pred_proba : list f64) (t : f64) :
  find_optimal_threshold y_true y_pred_proba = Ok t →
  t = PInf ∨ (t ∈ y_pred_proba ∧ isfinite t = true).
Proof.
  intros H. apply find_optimal_threshold_spec in H as (fpr & tpr & thr & i & Hroc & _ & Hi).
  apply roc_curve_inv in Hroc as (labels & scores & _ & _ & _ & Hs & [= _ _ ->]).
  destruct i as [|i]; [left; by injection Hi as <-|]. right.
  simpl in Hi. apply list_lookup_fmap_Some in Hi as (p & -> & Hp).
  apply list_elem_of_lookup_2, kept_points_elem, clf_curve_thr in Hp as ([q b] & Hx & ->).
  destruct (descending_samples (zip scores labels)) as [Hperm _].
  rewrite Hperm in Hx. apply elem_of_zip_l in Hx. simpl. split; [|done].
  apply mapR_Ok in Hs. apply list_elem_of_lookup in Hx as [j Hj].
  destruct (Forall2_lookup_r _ _ _ _ _ Hs Hj) as (sj & Hsj & ->%finite_score_Ok).
  by eapply list_elem_of_lookup_2.
Qed.

(** With one class only among the labels nothing is raised: one of the two
    rates is undefined everywhere, the first index wins and the threshold
    returned is [+inf]. *)
Theorem optimal_threshold_one_class (y_true y_pred_proba : list f64) :
  length y_true = length y_pred_proba →
  y_true ≠ [] →
  Forall (fun s => isfinite s = true) y_pred_proba →
  Forall (fun y => f64_eqb y (Fin 1) = true) y_true ∨
  Forall (fun y => f64_eqb y (Fin 0) = true) y_true →
  find_optimal_threshold y_true y_pred_proba = Ok PInf.
Proof.
  intros Hlen Hne Hs Hone.
  destruct (mapR_total finite_score y_pred_proba) as [scores Hsc].
  { eapply Forall_impl; [exact Hs|]. intros [| | |q] Hq; try done. by exists q. }
  assert (Hlab : ∃ b labels, mapR binary_label y_true = Ok labels ∧
                             Forall (fun l => l = b) labels).
  { destruct Hone as [H|H]; [exists true | exists false].
    - destruct (mapR_total binary_label y_true) as [labels Hl].
      { eapply Forall_impl; [exact H|]. intros yi Hyi. eexists.
        apply binary_label_total. by rewrite Hyi. }
      exists labels. split; [done|]. apply mapR_Ok in Hl.
      apply Forall_forall. intros l Hin. apply list_elem_of_lookup in Hin as [i Hi].
      destruct (Forall2_lookup_r _ _ _ _ _ Hl Hi) as (yi & Hyi & [_ ->]%binary_label_Ok).
      rewrite Forall_forall in H. apply H. by eapply list_elem_of_lookup_2.
    - destruct (mapR_total binary_label y_true) as [labels Hl].
      { eapply Forall_impl; [exact H|]. intros yi Hyi. eexists.
        apply binary_label_total. by rewrite Hyi, orb_true_r. }
      exists labels. split; [done|]. apply mapR_Ok in Hl.
      apply Forall_forall. intros l Hin. apply list_elem_of_lookup in Hin as [i Hi].
      destruct (Forall2_lookup_r _ _ _ _ _ Hl Hi) as (yi & Hyi & [_ ->]%binary_label_Ok).
      apply label_zero_not_one. rewrite Forall_forall in H. apply H.
      by eapply list_elem_of_lookup_2. }
  destruct Hlab as (b & labels & Hl & Hb).
  assert (Hside : Forall (fun x => snd x = b) (zip scores labels)).
  { apply Forall_forall. intros [q l] Hx%elem_of_zip_r.
    rewrite Forall_forall in Hb. by apply Hb. }
  pose proof (rates_all_zero _ (kept_points_one_class b _ Hside)) as Hnan.
  unfold find_optimal_threshold.
  rewrite (roc_curve_eq _ _ _ _ Hlen Hne Hl Hsc). cbn [mbind result_bind].
  destruct b.
  - rewrite Hnan.
    destruct (rates_cons O (map pt_tps (kept_points (zip scores labels)))) as (t & ts & ->).
    simpl. assert (E : f64_sub t NaN = NaN) by (by destruct t).
    rewrite E, argmax_from_nan. reflexivity.
  - rewrite Hnan.
    destruct (rates_cons O (map pt_fps (kept_points (zip scores labels)))) as (f & fs & ->).
    simpl. rewrite argmax_from_nan. reflexivity.
Qed.

Section Evaluate.

Context (Booster : Type)
        (best_iteration : Booster → Z)
        (predict : Booster → DataFrame → Z → list f64)
        (roc_auc_score : Series → list f64 → result f64)
        (classification_report : Series → list Z → result unit).

Local Abbreviation evaluate_model :=
  (evaluate_model Booster best_iteration predict roc_auc_score classification_report).

Lemma evaluate_model_Ok model X_val y_val t m :
  evaluate_model model X_val y_val t = Ok m →
  threshold m = t ∧
  predictions_proba m = predict model X_val (best_iteration model) ∧
  predictions m = map (decide_at t) (predictions_proba m).
Proof.
  unfold evaluate_model. intros H.
  apply bindR_Ok in H as (auc & _ & H). cbv zeta in H.
  apply bindR_Ok in H as (u & _ & [= <-]). done.
Qed.

(** Evaluation at the optimal threshold, as the evaluation pipeline does
    it: when the scores of the model separate the two classes of the
    validation set (at any cut, both classes present), the threshold is
    found and the predictions returned for it are the labels, sample by
    sample. *)
Theorem optimal_threshold_recovers_labels model X_val (y_val : list f64) (c : Q) m t :
  let scores := predict model X_val (best_iteration model) in
  Forall2 (separated_at c) y_val scores →
  Exists (fun y => f64_eqb y (Fin 1) = true) y_val →
  Exists (fun y => f64_eqb y (Fin 0) = true) y_val →
  find_optimal_threshold y_val scores = Ok t →
  evaluate_model model X_val (Float64 y_val) t = Ok m →
  isfinite t = true ∧
  t ∈ scores ∧
  predictions m = map class_of y_val.
Proof.
  intros scores Hsep Hpos Hneg Hfind Heval.
  destruct (separated_threshold c _ _ Hsep Hpos Hneg) as (q & Hq & Hcls).
  rewrite Hq in Hfind. injection Hfind as <-.
  apply evaluate_model_Ok in Heval as (_ & Hp & ->). rewrite Hp. fold scores.
  split; [done|]. split.
  - apply find_optimal_threshold_spec in Hq as (fpr & tpr & thr & i & Hroc & _ & Hi).
    apply roc_curve_inv in Hroc as (labels & sc & _ & _ & _ & Hs & [= _ _ ->]).
    destruct i as [|i]; [done|].
    simpl in Hi. apply list_lookup_fmap_Some in Hi as (p & Hpt & Hp').
    apply list_elem_of_lookup_2, kept_points_elem, clf_curve_thr in Hp' as ([q' b] & Hx & Hthr).
    rewrite Hthr in Hpt. simpl in Hpt. injection Hpt as ->.
    destruct (descending_samples (zip sc labels)) as [Hperm _].
    rewrite Hperm in Hx. apply elem_of_zip_l in Hx. simpl in Hx.
    apply mapR_Ok in Hs. apply list_elem_of_lookup in Hx as [j Hj].
    destruct (Forall2_lookup_r _ _ _ _ _ Hs Hj) as (sj & Hsj & ->%finite_score_Ok).
    by eapply list_elem_of_lookup_2.
  - clear -Hcls. induction Hcls as [|y s ys ss Hys _ IH]; [done|].
    simpl. rewrite IH. f_equal. unfold decide_at, class_of.
    unfold classified_by in Hys. by rewrite Hys.
Qed.


End Evaluate.


Lemma optimal_threshold_is_a_score_witness :
  Fin (7 # 10) = PInf ∨ (Fin (7 # 10) ∈ Toy.y_score ∧ isfinite (Fin (7 # 10)) = true).
Proof.
  apply (optimal_threshold_is_a_score Toy.y_true Toy.y_score).
  vm_compute. reflexivity.
Defined.

Lemma optimal_threshold_one_class_witness :
  find_optimal_threshold [Fin 1; Fin 1; Fin 1] [Fin (2 # 10); Fin (9 # 10); Fin (5 # 10)]
    = Ok PInf.
Proof.
  apply optimal_threshold_one_class.
  - reflexivity.
  - discriminate.
  - repeat constructor.
  - left. repeat constructor.
Defined.

Lemma optimal_threshold_recovers_labels_witness :
  ∃ m,
    evaluate_model Toy.Booster Toy.best_iteration Toy.scoring_predict Toy.roc_auc_score
      Toy.classification_report 0 Toy.X5 (Float64 Toy.y_true) (Fin (7 # 10)) = Ok m ∧
    predictions m = [0; 1; 0; 1].
Proof.
  exists (mkMetrics (Fin (1 # 2)) (Fin (7 # 10)) Toy.y_score [0; 1; 0; 1]).
  split; [vm_compute; reflexivity|].
  assert (Hsep : Forall2 (separated_at (6 # 10)) Toy.y_true Toy.y_score).
  { repeat constructor; eexists; (split; [reflexivity|]);
      first [ left; split; [reflexivity | unfold Qle; simpl; lia]
            | right; split; [reflexivity | unfold Qlt; simpl; lia] ]. }
  destruct (optimal_threshold_recovers_labels Toy.Booster Toy.best_iteration
              Toy.scoring_predict Toy.roc_auc_score Toy.classification_report
              0 Toy.X5 Toy.y_true (6 # 10)
              (mkMetrics (Fin (1 # 2)) (Fin (7 # 10)) Toy.y_score [0; 1; 0; 1])
              (Fin (7 # 10)) Hsep)
    as (_ & _ & Hp).
  - apply Exists_cons_tl, Exists_cons_hd. reflexivity.
  - apply Exists_cons_hd. reflexivity.
  - vm_compute. reflexivity.
  - vm_compute. reflexivity.
  - exact Hp.
Defined.

(** ** Risk segments and the submission *)

Lemma f64_leb_ltb_trans (p q t : f64) :
  f64_leb p q = true → f64_ltb q t = true → f64_ltb p t = true.
Proof.
  unfold f64_ltb. intros Hpq [Hqt Hne%negb_true_iff]%andb_true_iff.
  apply andb_true_iff. split; [by eapply f64_leb_trans|]. apply negb_true_iff.
  destruct (f64_eqb p t) eqn:E; [|done]. exfalso.
  destruct p as [| | |a], q as [| | |b], t as [| | |c]; simpl in *; try done.
  apply Qle_bool_iff in Hpq, Hqt. apply Qeq_bool_iff in E.
  assert (Hbc : (b == c)%Q) by (apply Qle_antisym; [done | by rewrite <- E]).
  apply Qeq_bool_iff in Hbc. congruence.
Qed.

Lemma f64_ltb_nan (t : f64) : f64_ltb NaN t = false.
Proof. done. Qed.

(** What the loop returns, prediction by prediction. *)
Lemma create_risk_segments_Returned (predictions thresholds : list f64) segments :
  create_risk_segments predictions thresholds = Returned segments ↔
  Forall2 (fun p s => risk_segment thresholds p = Returned s) predictions segments.
Proof.
  revert segments. induction predictions as [|p ps IH]; intros segments; simpl.
  - split; [intros [= <-]; constructor | by intros ->%Forall2_nil_inv_l].
  - split.
    + destruct (risk_segment thresholds p) as [s| |e] eqn:Hs; [|done..].
      destruct (create_risk_segments ps thresholds) as [ss| |e] eqn:Hss; [|done..].
      intros [= <-]. constructor; [done | by apply IH].
    + intros (s & ss & Hs & Hss & ->)%Forall2_cons_inv_l.
      rewrite Hs. apply IH in Hss. by rewrite Hss.
Qed.

Lemma risk_segment_not_Raised (thresholds : list f64) (p : f64) e :
  risk_segment thresholds p ≠ Raised e.
Proof.
  unfold risk_segment.
  repeat first [ destruct (thresholds !! _) | destruct (f64_ltb p _) ]; done.
Qed.

Lemma create_risk_segments_not_Raised (predictions thresholds : list f64) e :
  create_risk_segments predictions thresholds ≠ Raised e.
Proof.
  induction predictions as [|p ps IH]; simpl; [done|].
  destruct (risk_segment thresholds p) as [s| |e'] eqn:Hs;
    [|done|by apply risk_segment_not_Raised in Hs].
  destruct (create_risk_segments ps thresholds) as [ss| |e'']; [done|done|].
  intros [= ->]. by apply IH.
Qed.

(** With three thresholds or more every prediction has its segment. *)
Lemma risk_segment_total (thresholds : list f64) (p : f64) :
  (3 ≤ length thresholds)%nat →
  ∃ s, risk_segment thresholds p = Returned s ∧
       s ∈ ["Very Low Risk"; "Low Risk"; "Medium Risk"; "High Risk"] ∧
       (isnan p = true → s = "High Risk").
Proof.
  intros Hlen. destruct thresholds as [|t0 [|t1 [|t2 ts]]]; simpl in Hlen; try lia.
  unfold risk_segment. simpl.
  destruct (f64_ltb p t0) eqn:E0.
  { eexists. split; [done|]. split; [set_solver|]. by destruct p. }
  destruct (f64_ltb p t1) eqn:E1.
  { eexists. split; [done|]. split; [set_solver|]. by destruct p. }
  destruct (f64_ltb p t2) eqn:E2.
  { eexists. split; [done|]. split; [set_solver|]. by destruct p. }
  eexists. split; [done|]. split; [set_solver | done].
Qed.

(** A higher prediction never gets a lower segment. *)
Lemma risk_segment_monotone (thresholds : list f64) (p q : f64) a b :
  risk_segment thresholds p = Returned a →
  risk_segment thresholds q = Returned b →
  f64_leb p q = true →
  (segment_rank a ≤ segment_rank b)%nat.
Proof.
  intros Ha Hb Hpq. unfold risk_segment in Ha, Hb.
  pose proof (f64_leb_ltb_trans p q) as Htr.
  destruct (thresholds !! 0%nat) as [t0|]; [|done].
  destruct (f64_ltb q t0) eqn:Q0.
  { rewrite (Htr _ Hpq Q0) in Ha. by injection Ha as <-; injection Hb as <-. }
  destruct (f64_ltb p t0) eqn:P0.
  { injection Ha as <-. exact (Nat.le_0_l _). }
  destruct (thresholds !! 1%nat) as [t1|]; [|done].
  destruct (f64_ltb q t1) eqn:Q1.
  { rewrite (Htr _ Hpq Q1) in Ha. by injection Ha as <-; injection Hb as <-. }
  destruct (thresholds !! 2%nat) as [t2|].
  - destruct (f64_ltb q t2) eqn:Q2.
    + injection Hb as <-. destruct (f64_ltb p t1).
      * injection Ha as <-. vm_compute. lia.
      * rewrite (Htr _ Hpq Q2) in Ha. injection Ha as <-. done.
    + injection Hb as <-.
      destruct (f64_ltb p t1); [|destruct (f64_ltb p t2)];
        injection Ha as <-; vm_compute; lia.
  - done.
Qed.

(** With three thresholds or more [create_risk_segments] raises nothing: it
    returns one segment per prediction, each one of the four names, and a
    prediction that is missing ([NaN]) is a "High Risk". *)
Theorem create_risk_segments_returns (predictions thresholds : list f64) :
  (3 ≤ length thresholds)%nat →
  ∃ segments,
    create_risk_segments predictions thresholds = Returned segments ∧
    length segments = length predictions ∧
    Forall (fun s => s ∈ ["Very Low Risk"; "Low Risk"; "Medium Risk"; "High Risk"])
           segments ∧
    ∀ i p, predictions !! i = Some p → isnan p = true →
           segments !! i = Some "High Risk".
Proof.
  intros Hlen.
  assert (H : ∃ segments,
            Forall2 (fun p s => risk_segment thresholds p = Returned s ∧
                                s ∈ ["Very Low Risk"; "Low Risk"; "Medium Risk"; "High Risk"] ∧
                                (isnan p = true → s = "High Risk"))
                    predictions segments).
  { induction predictions as [|p ps [ss IH]]; [exists []; constructor|].
    destruct (risk_segment_total thresholds p Hlen) as (s & Hs).
    exists (s :: ss). by constructor. }
  destruct H as [segments H]. exists segments. split; [|split; [|split]].
  - apply create_risk_segments_Returned.
    eapply Forall2_impl; [exact H|]. by intros p s [? _].
  - symmetry. by eapply Forall2_length.
  - apply Forall_forall. intros s Hs. apply list_elem_of_lookup in Hs as [i Hi].
    by destruct (Forall2_lookup_r _ _ _ _ _ H Hi) as (p & _ & _ & ? & _).
  - intros i p Hp Hnan.
    destruct (Forall2_lookup_l _ _ _ _ _ H Hp) as (s & Hs & _ & _ & Hhigh).
    by rewrite Hs, Hhigh.
Qed.

(** The segments follow the predictions: whatever the thresholds, of two
    predictions the one that is not smaller gets a segment that is not
    lower. *)
Theorem create_risk_segments_monotone (predictions thresholds : list f64) segments :
  create_risk_segments predictions thresholds = Returned segments →
  ∀ i j p q, predictions !! i = Some p → predictions !! j = Some q →
             f64_leb p q = true →
             ∃ a b, segments !! i = Some a ∧ segments !! j = Some b ∧
                    (segment_rank a ≤ segment_rank b)%nat.
Proof.
  intros H%create_risk_segments_Returned i j p q Hp Hq Hpq.
  destruct (Forall2_lookup_l _ _ _ _ _ H Hp) as (a & Ha & Hsa).
  destruct (Forall2_lookup_l _ _ _ _ _ H Hq) as (b & Hb & Hsb).
  exists a, b. split; [done|]. split; [done|]. by eapply risk_segment_monotone.
Qed.

(** With fewer than three thresholds the function still returns as long as
    every prediction is below one of them; the first prediction that is
    below none runs past the end of the list, and the call raises an
    [IndexError].  No other exception is ever raised. *)
Theorem create_risk_segments_index_error (predictions thresholds : list f64) :
  (length thresholds < 3)%nat →
  (Exists (fun p => Forall (fun t => f64_ltb p t = false) thresholds) predictions →
   create_risk_segments predictions thresholds = IndexError) ∧
  (Forall (fun p => Exists (fun t => f64_ltb p t = true) thresholds) predictions →
   ∃ segments, create_risk_segments predictions thresholds = Returned segments ∧
               length segments = length predictions).
Proof.
  intros Hlen.
  assert (Hone : ∀ p,
            (Forall (fun t => f64_ltb p t = false) thresholds →
             risk_segment thresholds p = IndexError) ∧
            (Exists (fun t => f64_ltb p t = true) thresholds →
             ∃ s, risk_segment thresholds p = Returned s)).
  { intros p. unfold risk_segment.
    destruct thresholds as [|t0 [|t1 [|t2 ts]]]; simpl in Hlen; try lia; simpl.
    - split; [done | by intros ?%Exists_nil].
    - split.
      + intros [-> _]%Forall_cons. done.
      + intros [->|?%Exists_nil]%Exists_cons; [eauto | done].
    - split.
      + intros [-> [-> _]%Forall_cons]%Forall_cons. done.
      + intros [H0|[H1|?%Exists_nil]%Exists_cons]%Exists_cons; [| |done].
        * rewrite H0. eauto.
        * destruct (f64_ltb p t0); [eauto|]. rewrite H1. eauto. }
  split.
  - induction 1 as [p ps Hp|p ps _ IH]; simpl.
    + by rewrite (proj1 (Hone p) Hp).
    + destruct (risk_segment thresholds p) as [s| |e] eqn:E;
        [by rewrite IH | done | by apply risk_segment_not_Raised in E].
  - intros H.
    assert (Hall : ∃ segments,
              Forall2 (fun p s => risk_segment thresholds p = Returned s)
                      predictions segments).
    { induction H as [|p ps Hp _ [ss IH]]; [exists []; constructor|].
      destruct (proj2 (Hone p) Hp) as [s Hs]. exists (s :: ss). by constructor. }
    destruct Hall as [segments Hall]. exists segments.
    split; [by apply create_risk_segments_Returned|].
    symmetry. by eapply Forall2_length.
Qed.

Section Submission.

Context (Booster : Type)
        (best_iteration : Booster → Z)
        (predict : Booster → DataFrame → Z → list f64).

Local Abbreviation predict_test_set := (predict_test_set Booster best_iteration predict).


End Submission.

Lemma create_risk_segments_returns_witness :
  create_risk_segments [Fin (5 # 100); NaN; Fin (1 # 10); Fin (4 # 10); PInf]
                       SEGMENT_THRESHOLDS
    = Returned ["Very Low Risk"; "High Risk"; "Low Risk"; "Medium Risk"; "High Risk"].
Proof.
  destruct (create_risk_segments_returns
              [Fin (5 # 100); NaN; Fin (1 # 10); Fin (4 # 10); PInf] SEGMENT_THRESHOLDS)
    as (segments & Hseg & _); [simpl; lia|].
  vm_compute. reflexivity.
Defined.

Lemma create_risk_segments_monotone_witness :
  ∃ a b,
    ["Very Low Risk"; "High Risk"; "Low Risk"] !! 2%nat = Some a ∧
    ["Very Low Risk"; "High Risk"; "Low Risk"] !! 1%nat = Some b ∧
    (segment_rank a ≤ segment_rank b)%nat.
Proof.
  apply (create_risk_segments_monotone
           [Fin (5 # 100); Fin (9 # 10); Fin (1 # 10)] SEGMENT_THRESHOLDS
           ["Very Low Risk"; "High Risk"; "Low Risk"] eq_refl
           2%nat 1%nat (Fin (1 # 10)) (Fin (9 # 10)) eq_refl eq_refl eq_refl).
Defined.

Lemma create_risk_segments_index_error_witness :
  create_risk_segments [Fin (2 # 10); Fin (7 # 10)] [Fin (5 # 10)] = IndexError ∧
  ∃ segments, create_risk_segments [Fin (2 # 10); Fin (3 # 10)] [Fin (5 # 10)]
                = Returned segments ∧ length segments = 2%nat.
Proof.
  split.
  - apply (create_risk_segments_index_error [Fin (2 # 10); Fin (7 # 10)] [Fin (5 # 10)]).
    + simpl. lia.
    + apply Exists_cons_tl, Exists_cons_hd. by repeat constructor.
  - apply (create_risk_segments_index_error [Fin (2 # 10); Fin (3 # 10)] [Fin (5 # 10)]).
    + simpl. lia.
    + repeat constructor.
Defined.

(** ** Imputation with the training median *)

(** A training column without an infinite value is filled with its own
    median, once. *)
Lemma reconcile_train_no_inf xs :
  Forall (fun x => isinf x = false) xs →
  Exists (fun x => isfinite x = true) xs →
  isfinite (median xs) = true ∧ reconcile_train xs = map (fill (median xs)) xs.
Proof.
  intros Hinf Hex.
  assert (Hm : isfinite (median xs) = true).
  { apply median_finite; [done|].
    apply Exists_exists in Hex as (x & Hx & Hf). destruct x as [| | |q]; try done.
    assert (Hin : Fin q ∈ dropna xs).
    { unfold dropna. apply list_elem_of_In, filter_In. split; [by apply list_elem_of_In | done]. }
    intros E. rewrite E in Hin. by apply elem_of_nil in Hin. }
  split; [done|].
  assert (Hfilled : Forall (fun x => isfinite x = true) (map (fill (median xs)) xs)).
  { apply Forall_fmap. eapply Forall_impl; [exact Hinf|]. intros x Hx. simpl.
    unfold fill. destruct (isnan x) eqn:E; [done|]. by apply finite_of_notnan_noinf. }
  assert (Hclean : ∀ l m, Forall (fun x => isfinite x = true) l →
            map (fill m) (map inf_to_nan l) = l).
  { intros l m Hl. rewrite map_inf_to_nan_noinf, map_fill_notnan; [done|..];
      eapply Forall_impl; try exact Hl; by intros [| | |q]. }
  unfold reconcile_train. destruct (0 <? count_nan xs)%nat eqn:E.
  - by apply Hclean.
  - apply Nat.ltb_ge in E. assert (E0 : count_nan xs = O) by lia.
    apply count_nan_zero in E0. rewrite (map_fill_notnan (median xs)) by done.
    apply Hclean. apply Forall_forall. intros x Hx.
    rewrite Forall_forall in Hinf, E0. apply finite_of_notnan_noinf; auto.
Qed.

(** A missing test value is filled with the median of the training
    column. *)
Lemma reconcile_test_missing xs S j :
  Forall (fun x => isinf x = false) xs →
  Exists (fun x => isfinite x = true) xs →
  cells S !! j = Some (Num NaN) →
  cells (reconcile_test xs S) !! j = Some (Num (median xs)).
Proof.
  intros Hinf Hex Hj. destruct (reconcile_train_no_inf xs Hinf Hex) as [Hm Htr].
  unfold reconcile_test. rewrite cells_fillna, cells_replace_inf, !list_lookup_fmap.
  destruct (0 <? count_nan xs)%nat eqn:E.
  - rewrite cells_fillna, list_lookup_fmap, Hj. simpl.
    destruct (median xs); done.
  - rewrite Hj. simpl. do 2 f_equal. rewrite Htr.
    apply Nat.ltb_ge in E. assert (E0 : count_nan xs = O) by lia.
    apply count_nan_zero in E0. by rewrite map_fill_notnan.
Qed.

Section Imputation.

Context (repr_float : Q → string).


End Imputation.

